(* ===== verification/_CoqProject ===== *)
-Q . S2P
Prelude.v
Text.v
Os.v
Net.v
Validate.v
Model.v
StatsFfi.v
Xml.v
XmlPool.v
XmlVolume.v
XmlNetwork.v
Password.v
Permits.v
Throttle.v
Tickets.v
Db.v
Http.v
Config.v
Tls.v
TlsListener.v
Assets.v
Csp.v
AuditLog.v
Server.v
Admin.v
DbFile.v
Auth.v
Setup.v
Accounts.v
Virt.v
VirtPower.v
VirtDelete.v
VirtVolume.v
VirtPool.v
VirtNetwork.v
Inventory.v
Supervisor.v
VirtConn.v
EventsFfi.v
Doctor.v
Install.v
Start.v
Web.v
Actions.v
Api.v
Pools.v
Volumes.v
Networks.v
Stats.v
Sockets.v
Router.v
Lines.v
Regime.v
Service.v
LogLines.v
Revoked.v
