(* ===== verification/Prelude.v ===== *)
(** * Lodger

    A verification development of Lodger, a web interface for libvirt virtual
    machines: one Rust binary with three crates.  [crates/lodger-core] holds the
    rules that need no I/O (input checks, libvirt XML, model types, password
    policy), [crates/lodger-virt] runs libvirt calls and keeps an inventory of the
    host, and [crates/lodger] is the HTTP server with its accounts, sessions and
    audit log.  A request passes the browser checks and the session check of the
    server, a handler checks its input with the core, calls the adapter, and writes
    an audit row; a supervisor task keeps the inventory that all reads use.  Beside the
    server, the same binary installs and removes itself, checks the host, and recovers
    accounts from the command line.

    ** Files

    Core crate
    - [Text]: Rust strings as lists of code points, splitting, trimming, numbers,
      order, and the parts of Unicode that the program uses.
    - [Net]: addresses of [std::net] and their text; the [ipnet] crate is the class
      [Ipnet] with its documented laws [IpnetLaws].
    - [Validate]: validate.rs, every input check.
    - [Model]: model/*.rs, the types, libvirt's codes, and the rates of the live
      statistics in IEEE binary64.
    - [Xml], [XmlPool], [XmlVolume], [XmlNetwork]: xml/*.rs; documents are trees of
      the [xmltree] crate, whose functions are the class [XmlTree] with
      [XmlTreeLaws].
    - [Password]: password/mod.rs.

    Server crate
    - [Throttle]: throttle.rs; [Tickets]: tickets.rs.
    - [Db]: db/mod.rs; the statements of SQLite that the code uses act on tables as
      lists of rows with the constraints of the schema, a transaction is a state and
      error monad [sql], and the migrations run on an abstract schema.
    - [Http]: security.rs and client_ip.rs; [Csp]: the policy of security.rs;
      [AuditLog]: audit.rs.
    - [Server]: handlers as programs [prog] over the application state, whose steps
      (a database call, a password hash, a throttle call) can interleave with those
      of other handlers; [exec] runs one alone, [run_schedule] runs many.  The state
      also keeps the runs of argon2 that were asked for, so that the check against the
      dummy hash, whose result is dropped, is not lost.
    - [Auth], [Setup], [Accounts]: auth.rs, setup.rs, accounts.rs, with
      passwords.rs in [Server].
    - [Permits]: [run] of passwords.rs and of conn.rs, the limits on blocking work, as a
      transition system over any number of callers.

    Adapter crate
    - [Virt]: conn.rs and errors.rs; an operation is a program [virt] of libvirt
      calls, and [vruns p tr a] says that it can end in [a] after the calls and
      answers [tr].  libvirt is not modelled: every call can be answered in any way.
      Claims about what a scan finds assume that queries get the same answers during
      the operation ([consistent]).
    - [VirtPower], [VirtDelete], [VirtVolume], [VirtPool], [VirtNetwork]: power.rs,
      delete.rs, volume.rs, pool.rs, network.rs.
    - [VirtConn]: the error texts, opening a connection, the host facts, the
      statistics call and the VNC socket.
    - [StatsFfi], [EventsFfi]: stats/ffi.rs and events/ffi.rs, the two files with C
      pointers.  A step on memory that is gone or out of bounds has undefined behaviour,
      [None]; libvirt's thread can act between any two calls.  [EventsFfi] also has the
      end of a connection and the event loop of conn.rs.
    - [Inventory]: cache.rs; [Supervisor]: supervisor.rs with the hub of
      events/mod.rs, as a transition system with the host.  An object can change with an
      event or without one (its autostart), libvirt can send events at any time, and
      Lodger its own; [silent] keeps what changed unseen since it was last read.

    The service
    - [Web]: handlers that also call libvirt, as programs [web] over the steps of
      [prog], the view of the host, the operations of the adapter, the audit log and the
      lines on the standard error; [wruns] says how a handler can run, and [wexec] runs one.
    - [Actions], [Api], [Pools], [Volumes], [Networks]: actions.rs, api.rs,
      pools.rs, volumes.rs, networks.rs.
    - [Stats]: stats.rs, the hub as a transition system; [Sockets]: ws.rs and
      console.rs, the loops over the inputs that they select; [Assets]: assets.rs.
    - [Router]: the routes, guards and layers of server.rs; [Service]: any number of
      requests at once, each of which can be cut off at any step, with the sockets'
      session checks, the sweep of the audit log, the lines of the statistics and the
      admin commands.
    - [Regime]: the class of what a run may assume of its surroundings and what it then
      promises of the tables, the log lines and the session tokens.  Every handler is
      proved against the class once, here and in [Service]; its instances are the
      invariant of the database in [Service], the lines in [LogLines] over the texts of
      [Lines], and the tokens in [Revoked].

    The process and the host
    - [Os]: what the code uses of std's files and processes.  A program [os] is a tree
      of system calls on a [World] of files; each call reads an [os_env] that says
      whether it fails, how far a failed write got, and what other programs did.  [wpc]
      proves an invariant at every point of a run, so also where the process is killed,
      and a property of its end; a program that [looks] changes nothing.
    - [Config]: config.rs; [Tls]: tls.rs over the libraries [TlsLib]; [TlsListener]: its
      accept loop, as a transition system; [Admin]: admin.rs;
      [DbFile]: the opening of the database; [Doctor]: doctor.rs; [Install]: install.rs.
    - [Start]: [serve] of server.rs, cli.rs and main.rs: the start of the server as a
      program over the files, the database and the output, up to the moment it serves.

    ** What the theorems show

    - Data is never lost by accident: deleting a VM or a volume, removing and
      creating a pool ([delete_keeps_used_volumes], [volume_delete_guarded],
      [remove_pool_order], [create_pool_all_or_nothing]), power actions
      ([power_only_when_it_fits]), and the users that the confirmations show
      ([pool_users_exact], [network_users_exact]).
    - The inventory follows the host as far as there are events
      ([supervisor_loses_nothing], [supervisor_catches_up], [load_refresh_agree]); a
      change without one stays unseen ([unseen_stays]) until Lodger's own event
      ([own_event_catches_up]), another event of the object, or a load.
    - The C interface is safe and exact: the callbacks use nothing after it is gone, free
      every box once ([callbacks_safe]), and tell exactly libvirt's events
      ([events_exact]); the statistics are copied with sign and width
      ([typed_param_exact]) and their list is freed on every path
      ([stats_copied_and_freed]); a process has one event loop ([event_loop_once]).
    - Waiting ends: blocking work is limited and every caller that stays has its turn
      ([permits_serve_everyone]); a slow TLS client holds up nobody
      ([listener_correct]).  The queue of the listener bounds its channel, not the
      connections that wait ([hundred_wait]).
    - The service as a whole: nothing on the host changes without a live session,
      its CSRF token and an audit row ([host_changes_guarded]); what cannot be undone
      needs the name of the object ([typed_name_required]); every answer carries the
      security headers ([every_answer_hardened]); the tables keep their invariant and
      never lose the last account ([service_keeps_database]), no request forges a line
      of the log ([log_lines_unforgeable]), and a session that has ended stays ended
      ([ended_session_stays_ended]), whatever requests run together.
    - The handlers: [vm_action_correct], [pool_create_checked],
      [network_create_checked].  The loops: [socket_forwards_all], [relay_copies],
      [stats_hub_serves].  The web files: [assets_contained].
    - Accounts and sessions: under every interleaving only one setup claim wins
      ([setup_creates_one_account]); [create_account_correct], [migrate_upgrades]; a
      session lives as long as it should and ends with a credential change
      ([session_lifetime], [credential_changes_end_sessions],
      [logout_ends_session]); handlers and sockets run only for a live session
      ([session_guard], [socket_guard], [login_correct], [change_password_correct]);
      a refused login does not tell which names exist ([login_tells_nothing]).  What is
      live is decided by the clock of the step that looks it up ([live_session]).
    - The login throttle implements its sliding-window specification, a full map
      included, when the attempts take its lock in the order of their clock readings
      ([throttle_refines_spec], [throttle_bounds], [throttle_never_locks]), tickets
      are used once ([ticket_single_use]), requests come from Lodger's own origin
      ([same_origin_rule]), the client address is the peer's or what a
      trusted proxy says ([client_ip_correct]), and audit lines cannot be forged
      ([audit_cannot_forge_lines]).
    - The process: only the command [serve] serves, with the settings that were loaded,
      and every command ends with its result or its error ([main_correct]); the server
      serves only as it was told to ([serve_as_told]), its
      database is private from the first moment ([database_private]), its policy allows
      exactly the scripts of its page ([csp_exact]).  An install never leaves a half-done
      host, also when it is killed ([install_safe]), and its wait ends
      ([wait_listening_ends]); an uninstall removes nothing else ([uninstall_safe]).  The
      host checks change nothing ([doctor_only_looks]) and agree with the kernel on the
      TLS files ([unreadable_exact]) and with libvirt's versions ([revert_gate]).  The
      recovery commands give access back and are recorded ([admin_reset_correct],
      [admin_create_correct]).
    - Input checks accept exactly what they should and are canonical
      ([name_parse_correct], [parse_path_canonical], [parse_subnet_sound],
      [subnet_suggestion_accepted], [check_no_overlap_correct],
      [target_path_correct], [check_against_correct]), the documents read back to
      what was asked for ([new_pool_readback], [new_network_readback],
      [dhcp_layout]), and the CPU percentage stays in its range
      ([cpu_percent_range]).

    Some theorems show behaviour that the documentation does not want:
    [delete_ignores_cdrom_users]; [password_change_reaches_reused_id];
    [dropped_callers_escape], where clients that go away get around the limit on
    password checks; [install_overwrites_unseen_config], where an install that cannot
    look at the configuration replaces it; [unreadable_vm_loses_volume], where the volume
    scan fails open; [failed_create_stays] and [failed_removal_runs_on], where a failed
    pool operation is not undone; and [hundred_wait].

    ** Bounds

    Recursion is structural where it can be.  Fuel is the binary length of a number for
    its digits ([to_string]), the length of a path for its parents ([ancestors],
    [create_dirs], [create_all]) and the length of a page for its scripts
    ([script_hashes]); each is enough for every input ([create_dirs_fuel_enough],
    [create_all_fuel_enough], [script_hashes_fuel_enough]).  [wait_listening] takes its number
    of rounds, and 151 always end.  Machine integers are [Z] with the bounds written
    where the code checks or wraps them.  The work of the supervisor is bounded by
    [work_left].

    ** Not modelled

    The cryptography of a TLS handshake, the parsing of arguments by clap, the derived
    [Debug] texts, the receivers that [Host] hands out, and the tests are not modelled.
    The memory of the process is modelled only where the code handles C pointers.
    Links between files are only what [canonicalize] says about them; the system calls
    of [Os] act on names.  How axum matches a path with a pattern and reads the parts of
    a request is a parameter of [Router].  SHA-256, argon2, base64, the random source,
    the URL, TOML and certificate libraries, JSON text, [ipnet] and [xmltree] are
    parameters.  A client that goes away drops its handler between two steps: [Service]
    has that step, and so the audit row of a change can be missing when the client
    leaves between the change and the row; [host_changes_guarded] is about handlers
    that run to their end. *)

From stdpp Require Export base list gmap strings sorting fin_maps.
From Stdlib Require Export ZArith Lia.

#[global] Open Scope Z_scope.

(** ** Results: Rust's [Result<T, E>] *)

Inductive result (E T : Type) : Type :=
| Ok (t : T)
| Err (e : E).

Arguments Ok {E T} t.
Arguments Err {E T} e.

#[export] Instance result_ret E : MRet (result E) := fun _ t => Ok t.
#[export] Instance result_bind E : MBind (result E) := fun _ _ f r =>
  match r with Ok t => f t | Err e => Err e end.
#[export] Instance result_fmap E : FMap (result E) := fun _ _ f r =>
  match r with Ok t => Ok (f t) | Err e => Err e end.

#[export] Instance result_eq_dec {E T} `{EqDecision E, EqDecision T} :
  EqDecision (result E T).
Proof. solve_decision. Defined.

(** [Result::map_err], [Result::ok], [Option::ok_or], [Result::is_ok]. *)
Definition map_err {E F T} (f : E → F) (r : result E T) : result F T :=
  match r with Ok t => Ok t | Err e => Err (f e) end.

Definition ok {E T} (r : result E T) : option T :=
  match r with Ok t => Some t | Err _ => None end.

Definition ok_or {E T} (o : option T) (e : E) : result E T :=
  match o with Some t => Ok t | None => Err e end.

Definition is_ok {E T} (r : result E T) : bool :=
  match r with Ok _ => true | Err _ => false end.

Lemma bind_Ok {E A B} (r : result E A) (f : A → result E B) b :
  r ≫= f = Ok b ↔ ∃ a, r = Ok a ∧ f a = Ok b.
Proof. destruct r; naive_solver. Qed.

Lemma bind_Err {E A B} (r : result E A) (f : A → result E B) e :
  r ≫= f = Err e ↔ r = Err e ∨ ∃ a, r = Ok a ∧ f a = Err e.
Proof. destruct r; naive_solver. Qed.

Lemma map_err_Ok {E F T} (f : E → F) (r : result E T) t :
  map_err f r = Ok t ↔ r = Ok t.
Proof. destruct r; naive_solver. Qed.

Lemma ok_or_Ok {E T} (o : option T) (e : E) t : ok_or o e = Ok t ↔ o = Some t.
Proof. destruct o; naive_solver. Qed.

Lemma ok_Some {E T} (r : result E T) t : ok r = Some t ↔ r = Ok t.
Proof. destruct r; naive_solver. Qed.

(** ** Machine integers: bounds of the unsigned widths the program uses *)

Definition u8_max : Z := 2 ^ 8 - 1.
Definition u16_max : Z := 2 ^ 16 - 1.
Definition u32_max : Z := 2 ^ 32 - 1.
Definition u64_max : Z := 2 ^ 64 - 1.
Definition i64_min : Z := - 2 ^ 63.
Definition i64_max : Z := 2 ^ 63 - 1.
(** [usize] on the supported platform, x86_64. *)
Definition usize_max : Z := 2 ^ 64 - 1.

(** [a.saturating_add(b)] and [a.checked_sub(b)] on unsigned integers. *)
Definition saturating_add (max a b : Z) : Z := Z.min max (a + b).
Definition checked_sub (a b : Z) : option Z := if a <? b then None else Some (a - b).

(** ** Automation *)

Create HintDb lodger discriminated.

(** Splits boolean conjunctions and comparisons found in hypotheses into the
    propositions they decide. *)
Ltac bool_hyps :=
  repeat match goal with
  | H : _ && _ = true |- _ => apply andb_true_iff in H; destruct H
  | H : _ || _ = false |- _ => apply orb_false_iff in H; destruct H
  | H : negb _ = true |- _ => apply negb_true_iff in H
  | H : negb _ = false |- _ => apply negb_false_iff in H
  | H : (_ <? _) = true |- _ => apply Z.ltb_lt in H
  | H : (_ <? _) = false |- _ => apply Z.ltb_ge in H
  | H : (_ <=? _) = true |- _ => apply Z.leb_le in H
  | H : (_ <=? _) = false |- _ => apply Z.leb_gt in H
  | H : (_ =? _) = true |- _ => apply Z.eqb_eq in H
  | H : (_ =? _) = false |- _ => apply Z.eqb_neq in H
  | H : bool_decide _ = true |- _ => apply bool_decide_eq_true in H
  | H : bool_decide _ = false |- _ => apply bool_decide_eq_false in H
  end.

(** Case split on the scrutinee of the first [match] or [if] of a hypothesis,
    keeping its equation. *)
Ltac case_in H :=
  match type of H with
  | context [match ?x with _ => _ end] =>
      lazymatch x with
      | context [match _ with _ => _ end] => fail
      | _ => destruct x eqn:?; simplify_eq/=
      end
  end.

(** Follows a computation in hypothesis [H] through every branch. *)
Ltac run_in H := repeat (case_in H; simplify_eq/=; try done).

(** ** Lists and boolean predicates *)

Lemma forallb_Forall {A} (f : A → bool) l : forallb f l = true ↔ Forall (λ x, f x = true) l.
Proof. rewrite forallb_forall, Forall_forall. by setoid_rewrite list_elem_of_In. Qed.

Lemma existsb_false {A} (f : A → bool) l : existsb f l = false ↔ Forall (λ x, f x = false) l.
Proof. induction l; simpl; rewrite ?orb_false_iff, ?Forall_cons; naive_solver. Qed.

Lemma existsb_true {A} (f : A → bool) l : existsb f l = true ↔ Exists (λ x, f x = true) l.
Proof. induction l; simpl; rewrite ?orb_true_iff, ?Exists_cons, ?Exists_nil; naive_solver. Qed.

Lemma find_None_Forall {A} (f : A → bool) l :
  List.find f l = None ↔ Forall (λ x, f x = false) l.
Proof. induction l; simpl; [naive_solver|]. rewrite Forall_cons. case_match; naive_solver. Qed.

(** [find] returns the first element that satisfies the test. *)
Lemma find_Some_split {A} (f : A → bool) l x :
  List.find f l = Some x ↔
  ∃ l1 l2, l = l1 ++ x :: l2 ∧ f x = true ∧ Forall (λ y, f y = false) l1.
Proof.
  split.
  - induction l as [|a l IH]; simpl; [done|]. destruct (f a) eqn:E.
    + intros [= ->]. by exists [], l.
    + intros (l1 & l2 & -> & Hx & Hl)%IH. exists (a :: l1), l2. by auto.
  - intros (l1 & l2 & -> & Hx & Hl). induction Hl as [|a l1 Ha _ IH]; simpl.
    + by rewrite Hx.
    + by rewrite Ha.
Qed.

Lemma filter_all {A} (P : A → Prop) `{!∀ x, Decision (P x)} l : Forall P l → filter P l = l.
Proof. induction 1; [done|]. rewrite filter_cons_True by done. by f_equal. Qed.

Lemma Forall_filter_sub {A} (P Q : A → Prop) `{!∀ x, Decision (P x)} l :
  Forall Q l → Forall Q (filter P l).
Proof. rewrite !Forall_forall. intros HQ x [_ Hx]%list_elem_of_filter. auto. Qed.

Lemma find_snoc {A} (f : A → bool) l x :
  Forall (λ y, f y = false) l → f x = true → List.find f (l ++ [x]) = Some x.
Proof. intros Hl Hx. apply find_Some_split. by exists l, []. Qed.
