(* ===== verification/Text.v ===== *)
(** * Text

    Rust's [str] and [char] as the program uses them: classes of characters,
    searching, splitting, joining, trimming, and decimal numbers.  These are the
    functions of Rust's standard library; every other file builds on them. *)

From S2P Require Import Prelude.

(** ** Text: Rust's [str] as its list of Unicode scalar values

    [s.chars()] is the list itself.  [s.len()] counts UTF-8 bytes, so it is
    [utf8_len]. *)
Abbreviation str := (list Z).

(** The text of an ASCII literal. *)
Definition lit (s : String.string) : str :=
  (λ c, Z.of_N (Ascii.N_of_ascii c)) <$> String.list_ascii_of_string s.

Definition utf8_len_char (c : Z) : Z :=
  if c <? 128 then 1 else if c <? 2048 then 2 else if c <? 65536 then 3 else 4.

Definition utf8_len (s : str) : Z := foldr (λ c n, utf8_len_char c + n) 0 s.

(** ASCII classes of [char]. *)
Definition is_ascii_digit (c : Z) : bool := (48 <=? c) && (c <=? 57).
Definition is_ascii_upper (c : Z) : bool := (65 <=? c) && (c <=? 90).
Definition is_ascii_lower (c : Z) : bool := (97 <=? c) && (c <=? 122).
Definition is_ascii_alphanumeric (c : Z) : bool :=
  is_ascii_digit c || is_ascii_upper c || is_ascii_lower c.
Definition is_ascii_hexdigit (c : Z) : bool :=
  is_ascii_digit c || ((65 <=? c) && (c <=? 70)) || ((97 <=? c) && (c <=? 102)).
Definition is_ascii (c : Z) : bool := (0 <=? c) && (c <? 128).

(** [char::is_control]: the general category Cc. *)
Definition is_control (c : Z) : bool :=
  ((0 <=? c) && (c <=? 31)) || ((127 <=? c) && (c <=? 159)).

(** [char::is_whitespace]: the Unicode property White_Space. *)
Definition is_whitespace (c : Z) : bool :=
  ((9 <=? c) && (c <=? 13)) || (c =? 32) || (c =? 133) || (c =? 160) ||
  (c =? 5760) || ((8192 <=? c) && (c <=? 8202)) || (c =? 8232) ||
  (c =? 8233) || (c =? 8239) || (c =? 8287) || (c =? 12288).

Definition to_ascii_lower_char (c : Z) : Z := if is_ascii_upper c then c + 32 else c.
Definition to_ascii_lowercase (s : str) : str := to_ascii_lower_char <$> s.
Definition eq_ignore_ascii_case (a b : str) : bool :=
  bool_decide (to_ascii_lowercase a = to_ascii_lowercase b).

(** [str::to_lowercase] follows the Unicode tables.  The development fixes
    only what it does on ASCII text. *)
Class Lowercase := {
  to_lowercase : str → str;
  to_lowercase_ascii s :
    forallb is_ascii s = true → to_lowercase s = to_ascii_lowercase s
}.

(** The lowercase that leaves every other character alone. *)
#[export] Program Instance ascii_lowercase : Lowercase | 100 :=
  {| to_lowercase := to_ascii_lowercase |}.
Next Obligation. done. Qed.

(** [str::contains], [starts_with], [ends_with], [strip_prefix]. *)
Definition contains_char (c : Z) (s : str) : bool := existsb (Z.eqb c) s.

Fixpoint strip_prefix (p s : str) : option str :=
  match p, s with
  | [], _ => Some s
  | a :: p', b :: s' => if a =? b then strip_prefix p' s' else None
  | _ :: _, [] => None
  end.

Definition starts_with (p s : str) : bool := bool_decide (is_Some (strip_prefix p s)).
Definition ends_with (p s : str) : bool := starts_with (reverse p) (reverse s).

(** [s.find(p)] as the text before the first match and the text from it on. *)
Fixpoint find_str (p s : str) : option (str * str) :=
  if starts_with p s then Some ([], s)
  else match s with
       | [] => None
       | c :: s' => match find_str p s' with
                    | Some (before, rest) => Some (c :: before, rest)
                    | None => None
                    end
       end.

Definition contains_str (p s : str) : bool := bool_decide (is_Some (find_str p s)).

(** [str::split] on one character: never empty. *)
Fixpoint split (c : Z) (s : str) : list str :=
  match s with
  | [] => [[]]
  | a :: s' =>
      if a =? c then [] :: split c s'
      else match split c s' with
           | p :: ps => (a :: p) :: ps
           | [] => [[a]]
           end
  end.

(** [[str]::join]. *)
Fixpoint join (sep : str) (parts : list str) : str :=
  match parts with
  | [] => []
  | [p] => p
  | p :: ps => p ++ sep ++ join sep ps
  end.

(** [str::split_once] on one character. *)
Fixpoint split_once (c : Z) (s : str) : option (str * str) :=
  match s with
  | [] => None
  | a :: s' =>
      if a =? c then Some ([], s')
      else match split_once c s' with
           | Some (x, y) => Some (a :: x, y)
           | None => None
           end
  end.

(** [s.rsplit(c).next()]: the part after the last [c]. *)
Definition rsplit_first (c : Z) (s : str) : option str := last (split c s).

Fixpoint trim_start_with (f : Z → bool) (s : str) : str :=
  match s with
  | [] => []
  | c :: s' => if f c then trim_start_with f s' else s
  end.

Definition trim_end_with (f : Z → bool) (s : str) : str :=
  reverse (trim_start_with f (reverse s)).

Definition trim (s : str) : str := trim_end_with is_whitespace (trim_start_with is_whitespace s).

(** Lexicographic order of text.  UTF-8 keeps the order of the code points, so
    this is also the byte order that [str::cmp] uses. *)
Fixpoint str_cmp (a b : str) : comparison :=
  match a, b with
  | [], [] => Eq
  | [], _ :: _ => Lt
  | _ :: _, [] => Gt
  | x :: a', y :: b' => match x ?= y with Eq => str_cmp a' b' | r => r end
  end.

Definition str_leb (a b : str) : bool :=
  match str_cmp a b with Gt => false | _ => true end.

Definition str_le (a b : str) : Prop := str_leb a b = true.

#[export] Instance str_le_dec : RelDecision str_le.
Proof. intros a b. unfold str_le. apply _. Defined.

(** [BTreeSet<String>] of the texts of a list, read in order. *)
Definition btree_set (l : list str) : list str := merge_sort str_le (remove_dups l).

(** ** Decimal numbers *)

(** The digits of [n], most significant first; [fuel] bounds their number. *)
Fixpoint digits_fuel (fuel : nat) (n : Z) (acc : str) : str :=
  match fuel with
  | O => acc
  | S fuel' =>
      let acc' := (48 + n mod 10) :: acc in
      if n <? 10 then acc' else digits_fuel fuel' (n / 10) acc'
  end.

(** [n.to_string()] for an unsigned integer. *)
Definition to_string (n : Z) : str := digits_fuel (S (Z.to_nat (Z.log2 n))) n [].

(** The value of a digit in a radix up to 16: [char::to_digit]. *)
Definition to_digit (radix c : Z) : option Z :=
  let d := if is_ascii_digit c then Some (c - 48)
           else if is_ascii_lower c then Some (c - 87)
           else if is_ascii_upper c then Some (c - 55) else None in
  match d with Some v => if v <? radix then Some v else None | None => None end.

(** The value of a digit string, [None] on a bad digit or a value over [max]. *)
Fixpoint digits_value (radix max : Z) (s : str) (acc : Z) : option Z :=
  match s with
  | [] => Some acc
  | c :: s' =>
      match to_digit radix c with
      | None => None
      | Some d => let v := acc * radix + d in
                  if max <? v then None else digits_value radix max s' v
      end
  end.

(** [s.parse::<uN>()]: an optional [+], then at least one digit. *)
Definition parse_unsigned (max : Z) (s : str) : option Z :=
  let body := match s with 43 :: s' => s' | _ => s end in
  match body with [] => None | _ => digits_value 10 max body 0 end.

(** ** Facts about text *)

Lemma contains_char_true c s : contains_char c s = true ↔ c ∈ s.
Proof.
  unfold contains_char. rewrite existsb_exists. setoid_rewrite Z.eqb_eq.
  setoid_rewrite <- list_elem_of_In. naive_solver.
Qed.

Lemma contains_char_false c s : contains_char c s = false ↔ c ∉ s.
Proof. rewrite <- contains_char_true. by destruct (contains_char c s). Qed.

Lemma str_cmp_antisym a b : str_cmp b a = CompOpp (str_cmp a b).
Proof.
  revert b. induction a as [|x a IH]; intros [|y b]; simpl; [done..|].
  rewrite (Z.compare_antisym x y). destruct (x ?= y); simpl; [apply IH|done..].
Qed.

Lemma str_cmp_Eq a b : str_cmp a b = Eq → a = b.
Proof.
  revert b. induction a as [|x a IH]; intros [|y b]; simpl; [done..|].
  destruct (Z.compare_spec x y) as [->|?|?]; [|done..]. intros E. f_equal. by apply IH.
Qed.

#[export] Instance str_le_total : Total str_le.
Proof.
  intros a b. unfold str_le, str_leb. rewrite (str_cmp_antisym a b).
  destruct (str_cmp a b); simpl; auto.
Qed.

#[export] Instance str_le_trans : Transitive str_le.
Proof.
  intros a. unfold str_le, str_leb. induction a as [|x a IH]; intros [|y b] [|z c]; simpl; try done.
  destruct (Z.compare_spec x y), (Z.compare_spec y z), (Z.compare_spec x z);
    try done; try lia. apply IH.
Qed.

#[export] Instance str_le_antisym : AntiSymm (=) str_le.
Proof.
  intros a b. unfold str_le, str_leb. rewrite (str_cmp_antisym a b).
  destruct (str_cmp a b) eqn:E; simpl; intros; [by apply str_cmp_Eq|done..].
Qed.

Lemma elem_of_btree_set x l : x ∈ btree_set l ↔ x ∈ l.
Proof. unfold btree_set. by rewrite merge_sort_Permutation, elem_of_remove_dups. Qed.

Lemma btree_set_nil l : btree_set l = [] ↔ l = [].
Proof.
  split; [|by intros ->]. intros E. destruct l as [|x l]; [done|].
  assert (Hx : x ∈ btree_set (x :: l)) by (apply elem_of_btree_set, list_elem_of_here).
  rewrite E in Hx. by apply not_elem_of_nil in Hx.
Qed.

Lemma btree_set_sorted l : StronglySorted str_le (btree_set l) ∧ NoDup (btree_set l).
Proof.
  unfold btree_set. split; [apply (StronglySorted_merge_sort str_le)|].
  rewrite merge_sort_Permutation. apply NoDup_remove_dups.
Qed.

Lemma strip_prefix_Some p s r : strip_prefix p s = Some r ↔ s = p ++ r.
Proof.
  revert s. induction p as [|a p IH]; intros [|b s]; simpl; [naive_solver..|].
  destruct (Z.eqb_spec a b); naive_solver.
Qed.

Lemma starts_with_true p s : starts_with p s = true ↔ p `prefix_of` s.
Proof.
  unfold starts_with. rewrite bool_decide_eq_true. split.
  - intros [r Hr%strip_prefix_Some]. by exists r.
  - intros [r ->]. exists r. by apply strip_prefix_Some.
Qed.

Lemma utf8_len_char_pos c : 1 ≤ utf8_len_char c ≤ 4.
Proof. unfold utf8_len_char. repeat case_match; lia. Qed.

Lemma utf8_len_cons c s : utf8_len (c :: s) = utf8_len_char c + utf8_len s.
Proof. done. Qed.

#[global] Arguments utf8_len : simpl never.
#[global] Arguments join : simpl never.

Lemma utf8_len_app a b : utf8_len (a ++ b) = utf8_len a + utf8_len b.
Proof. unfold utf8_len. induction a; simpl; lia. Qed.

Lemma utf8_len_nonneg s : 0 ≤ utf8_len s.
Proof. unfold utf8_len. induction s as [|c]; simpl; [lia|]. pose proof (utf8_len_char_pos c). lia. Qed.

(** On ASCII text the byte length is the character count. *)
Lemma utf8_len_ascii s : Forall (λ c, c < 128) s → utf8_len s = Z.of_nat (length s).
Proof.
  unfold utf8_len. induction 1 as [|c s Hc _ IH]; [done|].
  cbn [foldr length]. rewrite IH. unfold utf8_len_char. destruct (Z.ltb_spec c 128); lia.
Qed.

Lemma alphanumeric_ascii c : is_ascii_alphanumeric c = true → 48 ≤ c < 128.
Proof.
  unfold is_ascii_alphanumeric, is_ascii_digit, is_ascii_upper, is_ascii_lower. lia.
Qed.

Lemma split_not_nil c s : split c s ≠ [].
Proof. destruct s; simpl; repeat case_match; done. Qed.

Lemma join_cons c p ps : ps ≠ [] → join [c] (p :: ps) = p ++ c :: join [c] ps.
Proof. by destruct ps. Qed.

(** Splitting and joining with the same separator. *)
Lemma join_split c s : join [c] (split c s) = s.
Proof.
  induction s as [|a s IH]; [done|]. cbn [split].
  pose proof (split_not_nil c s) as Hne.
  destruct (Z.eqb_spec a c) as [->|Ha].
  - rewrite join_cons, IH by done. done.
  - destruct (split c s) as [|p ps]; [done|]. destruct ps as [|q ps].
    + by rewrite <- IH.
    + rewrite join_cons in * by done. by rewrite <- IH.
Qed.

Lemma split_parts c s : Forall (λ p, c ∉ p) (split c s).
Proof.
  induction s as [|a s IH]; cbn; [repeat constructor; set_solver|].
  destruct (Z.eqb_spec a c) as [->|Ha]; [constructor; [set_solver|done]|].
  destruct (split c s) as [|p ps]; [repeat constructor; set_solver|].
  inversion IH; subst. constructor; [set_solver|done].
Qed.

Lemma split_no_sep c p : c ∉ p → split c p = [p].
Proof.
  induction p as [|a p IH]; [done|]. rewrite not_elem_of_cons. intros [Ha Hp]. cbn.
  destruct (Z.eqb_spec a c); [done|]. by rewrite IH.
Qed.

Lemma split_app_sep c p s : c ∉ p → split c (p ++ c :: s) = p :: split c s.
Proof.
  induction p as [|a p IH]; cbn [app split].
  - intros _. by rewrite Z.eqb_refl.
  - rewrite not_elem_of_cons. intros [Ha Hp]. destruct (Z.eqb_spec a c); [done|].
    by rewrite IH.
Qed.

Lemma split_join c ps :
  ps ≠ [] → Forall (λ p, c ∉ p) ps → split c (join [c] ps) = ps.
Proof.
  intros Hne Hps. induction Hps as [|p ps Hp Hps IH]; [done|].
  destruct ps as [|q ps]; [by apply split_no_sep|].
  rewrite join_cons by done.
  by rewrite split_app_sep, IH.
Qed.

Lemma elem_of_join x c ps : x ∈ join [c] ps → x = c ∨ ∃ p, p ∈ ps ∧ x ∈ p.
Proof.
  induction ps as [|p ps IH]; [set_solver|].
  destruct ps as [|q ps]; [set_solver|].
  rewrite join_cons by done.
  rewrite elem_of_app, elem_of_cons. set_solver.
Qed.

Lemma elem_of_split (x c : Z) (p s : str) : p ∈ split c s → x ∈ p → x ∈ s.
Proof.
  revert p. induction s as [|a s IH]; intros p; cbn.
  { by intros ->%list_elem_of_singleton. }
  destruct (a =? c).
  { rewrite elem_of_cons. intros [->|Hp] Hx; [by apply elem_of_nil in Hx|].
    apply elem_of_cons. right. by apply (IH p). }
  destruct (split c s) as [|q qs] eqn:E; [by apply split_not_nil in E|].
  rewrite elem_of_cons. intros [->|Hp] Hx.
  - apply elem_of_cons in Hx as [->|Hx]; apply elem_of_cons; [by left|right].
    apply (IH q); [by left|done].
  - apply elem_of_cons. right. apply (IH p); [by right|done].
Qed.

Lemma utf8_len_join_cons c p ps :
  utf8_len (join [c] (p :: ps)) =
  utf8_len p + match ps with [] => 0 | _ => utf8_len_char c + utf8_len (join [c] ps) end.
Proof.
  destruct ps as [|q ps]; [unfold join; lia|].
  change (join [c] (p :: q :: ps)) with (p ++ [c] ++ join [c] (q :: ps)).
  rewrite !utf8_len_app, utf8_len_cons. unfold utf8_len at 2; simpl. lia.
Qed.

(** Dropping parts never makes the joined text longer. *)
Lemma utf8_len_join_filter P `{!∀ x, Decision (P x)} c ps :
  utf8_len (join [c] (filter P ps)) ≤ utf8_len (join [c] ps).
Proof.
  pose proof (utf8_len_char_pos c).
  induction ps as [|p ps IH]; [done|]. rewrite filter_cons.
  pose proof (utf8_len_nonneg p). pose proof (utf8_len_nonneg (join [c] ps)).
  destruct (decide (P p)).
  - rewrite !utf8_len_join_cons. destruct ps as [|q ps]; [done|].
    destruct (filter P (q :: ps)); lia.
  - rewrite utf8_len_join_cons. etrans; [apply IH|].
    destruct ps; [change (utf8_len (join [c] [])) with 0|]; lia.
Qed.

(** ** Facts about decimal numbers *)

Definition is_digit (c : Z) : Prop := 48 ≤ c ≤ 57.

Lemma to_digit_dec c : is_digit c → to_digit 10 c = Some (c - 48).
Proof.
  unfold is_digit, to_digit, is_ascii_digit. intros Hc.
  destruct (Z.leb_spec 48 c), (Z.leb_spec c 57); cbn; try lia.
  destruct (Z.ltb_spec (c - 48) 10); [done|lia].
Qed.

(** The value of a digit string read left to right, without a bound. *)
Definition dec_value (s : str) (acc : Z) : Z := foldl (λ a c, a * 10 + (c - 48)) acc s.

Lemma dec_value_mono s acc : Forall is_digit s → 0 ≤ acc → acc ≤ dec_value s acc.
Proof.
  intros Hs. revert acc. induction Hs as [|c s Hc _ IH]; intros acc Ha; cbn; [lia|].
  unfold is_digit in Hc. etrans; [|apply IH]; lia.
Qed.

Lemma digits_value_dec max s acc :
  Forall is_digit s → 0 ≤ acc → dec_value s acc ≤ max →
  digits_value 10 max s acc = Some (dec_value s acc).
Proof.
  intros Hs. revert acc. induction Hs as [|c s Hc Hs IH]; intros acc Ha Hm; [done|].
  cbn [digits_value]. rewrite to_digit_dec by done. cbn in Hm.
  assert (0 ≤ acc * 10 + (c - 48)) by (unfold is_digit in Hc; lia).
  pose proof (dec_value_mono s (acc * 10 + (c - 48)) Hs ltac:(done)).
  destruct (Z.ltb_spec max (acc * 10 + (c - 48))); [unfold dec_value in *; lia|].
  apply IH; done.
Qed.

Lemma digits_fuel_spec fuel n acc :
  0 ≤ n → n < 2 ^ Z.of_nat fuel → Forall is_digit acc →
  ∃ ds, digits_fuel fuel n acc = ds ++ acc ∧ Forall is_digit ds ∧ dec_value ds 0 = n ∧
        (fuel ≠ O → ds ≠ []) ∧ (fuel ≠ O → 10 ≤ n → head ds ≠ Some 48).
Proof.
  revert n acc. induction fuel as [|fuel IH]; intros n acc Hn Hb Hacc.
  { exists []. cbn in *. repeat split; [constructor|lia|done|done]. }
  cbn [digits_fuel].
  assert (Hd : is_digit (48 + n mod 10)).
  { unfold is_digit. pose proof (Z.mod_pos_bound n 10 ltac:(lia)). lia. }
  destruct (Z.ltb_spec n 10) as [Hlt|Hge].
  - exists [48 + n mod 10]. rewrite Z.mod_small in * by lia.
    repeat split; [by apply Forall_singleton| |done|lia]. cbn. lia.
  - assert (Hq : n / 10 < 2 ^ Z.of_nat fuel).
    { rewrite Nat2Z.inj_succ, Z.pow_succ_r in Hb by lia.
      apply Z.div_lt_upper_bound; lia. }
    destruct (IH (n / 10) ((48 + n mod 10) :: acc)) as (ds & E & Hds & Hv & Hne & Hh);
      [apply Z.div_pos; lia|done|by constructor|].
    assert (Hf : fuel ≠ O).
    { intros ->. assert (1 ≤ n / 10) by (apply Z.div_le_lower_bound; lia). cbn in Hq. lia. }
    exists (ds ++ [48 + n mod 10]). rewrite E, <- app_assoc. repeat split.
    + apply Forall_app; split; [done|by apply Forall_singleton].
    + unfold dec_value in *. rewrite foldl_app, Hv. cbn.
      rewrite (Z.div_mod n 10) at 3 by lia. lia.
    + intros _ ?%app_nil. naive_solver.
    + intros _ _. destruct ds as [|d ds]; [naive_solver|]. cbn. intros [= ->].
      destruct (Z.leb_spec 10 (n / 10)) as [H10|H10]; [naive_solver|].
      (* a one-digit quotient starts with a digit other than zero *)
      assert (1 ≤ n / 10) by (apply Z.div_le_lower_bound; lia).
      destruct fuel as [|fuel]; [done|]. cbn [digits_fuel] in E.
      destruct (Z.ltb_spec (n / 10) 10); [|lia].
      rewrite (Z.mod_small (n / 10)) in E by lia.
      assert (length ((48 + n / 10) :: (48 + n mod 10) :: acc) =
        length ((48 :: ds) ++ (48 + n mod 10) :: acc)) as Hl by by rewrite E.
      cbn in E. injection E as E1 _. lia.
Qed.

Lemma to_string_spec n :
  0 ≤ n → Forall is_digit (to_string n) ∧ to_string n ≠ [] ∧ dec_value (to_string n) 0 = n ∧
          (10 ≤ n → head (to_string n) ≠ Some 48).
Proof.
  intros Hn. unfold to_string.
  destruct (digits_fuel_spec (S (Z.to_nat (Z.log2 n))) n []) as (ds & -> & Hds & Hv & Hne & Hh);
    [done| |constructor|].
  - rewrite Nat2Z.inj_succ, Z2Nat.id by apply Z.log2_nonneg.
    destruct (Z.eq_dec n 0) as [->|]; [done|]. apply Z.log2_spec. lia.
  - rewrite app_nil_r. naive_solver.
Qed.

(** Printing a number and parsing it again. *)
Lemma parse_to_string max n : 0 ≤ n ≤ max → parse_unsigned max (to_string n) = Some n.
Proof.
  intros Hn. destruct (to_string_spec n) as (Hd & Hne & Hv & _); [lia|].
  unfold parse_unsigned. destruct (to_string n) as [|c s] eqn:E; [done|].
  assert (c ≠ 43) by (inversion Hd; subst; unfold is_digit in *; lia).
  replace (match c :: s with 43 :: s' => s' | _ => c :: s end) with (c :: s)
    by (repeat case_match; congruence).
  cbv zeta beta iota. rewrite digits_value_dec; [by rewrite Hv|done|lia|lia].
Qed.

Lemma to_string_inj m n : 0 ≤ m → 0 ≤ n → to_string m = to_string n → m = n.
Proof.
  intros Hm Hn E. destruct (to_string_spec m) as (_ & _ & <- & _); [done|].
  destruct (to_string_spec n) as (_ & _ & <- & _); [done|]. by rewrite E.
Qed.

#[export] Hint Resolve utf8_len_nonneg split_not_nil split_parts : lodger.
