(* ===== verification/Os.v ===== *)
(** * The operating system under the command line (std::fs, std::path, std::process)

    What the installer, the host checks and the start of the server use of the
    standard library: UTF-8, paths, and files with their modes and owners.  A command
    is a program of system calls; each call can fail, and [wpc] says what holds at
    the end of a program and also at every point where the process can be killed. *)

From S2P Require Import Prelude Text.

(** ** UTF-8 *)

(** [str::as_bytes] for one character. *)
Definition utf8_char (c : Z) : list Z :=
  if c <? 128 then [c]
  else if c <? 2048 then [192 + c / 64; 128 + c mod 64]
  else if c <? 65536 then [224 + c / 4096; 128 + c / 64 mod 64; 128 + c mod 64]
  else [240 + c / 262144; 128 + c / 4096 mod 64; 128 + c / 64 mod 64; 128 + c mod 64].

Definition as_bytes (s : str) : list Z := s ≫= utf8_char.

(** A continuation byte. *)
Definition cont (b : Z) : bool := (128 <=? b) && (b <? 192).

(** [String::from_utf8]: shortest forms only, no surrogates, at most U+10FFFF. *)
Fixpoint from_utf8 (bytes : list Z) : option str :=
  match bytes with
  | [] => Some []
  | a :: r0 =>
      if (0 <=? a) && (a <? 128) then cons a <$> from_utf8 r0
      else match r0 with
      | b :: r1 =>
          if (194 <=? a) && (a <? 224) && cont b
          then cons ((a - 192) * 64 + (b - 128)) <$> from_utf8 r1
          else match r1 with
          | c :: r2 =>
              let x := (a - 224) * 4096 + (b - 128) * 64 + (c - 128) in
              if (224 <=? a) && (a <? 240) && cont b && cont c && (2048 <=? x) &&
                 negb ((55296 <=? x) && (x <? 57344))
              then cons x <$> from_utf8 r2
              else match r2 with
              | d :: r3 =>
                  let y := (a - 240) * 262144 + (b - 128) * 4096 + (c - 128) * 64 + (d - 128) in
                  if (240 <=? a) && (a <? 245) && cont b && cont c && cont d && (65536 <=? y) &&
                     (y <? 1114112)
                  then cons y <$> from_utf8 r3
                  else None
              | [] => None
              end
          | [] => None
          end
      | [] => None
      end
  end.

(** U+FFFD, for what is not UTF-8. *)
Definition REPLACEMENT : Z := 65533.

(** The second byte that fits a lead byte of three or four bytes. *)
Definition second3 (a b : Z) : bool :=
  cont b && (if a =? 224 then 160 <=? b else if a =? 237 then b <? 160 else true).
Definition second4 (a b : Z) : bool :=
  cont b && (if a =? 240 then 144 <=? b else if a =? 244 then b <? 144 else true).

(** [String::from_utf8_lossy]: each longest start of a character that does not go on as
    one becomes U+FFFD. *)
Fixpoint from_utf8_lossy (bytes : list Z) : str :=
  match bytes with
  | [] => []
  | a :: r0 =>
      if (0 <=? a) && (a <? 128) then a :: from_utf8_lossy r0
      else match r0 with
      | b :: r1 =>
          if (194 <=? a) && (a <? 224) && cont b
          then (a - 192) * 64 + (b - 128) :: from_utf8_lossy r1
          else if (224 <=? a) && (a <? 240) && second3 a b then
            match r1 with
            | c :: r2 =>
                if cont c then (a - 224) * 4096 + (b - 128) * 64 + (c - 128) :: from_utf8_lossy r2
                else REPLACEMENT :: from_utf8_lossy r1
            | [] => [REPLACEMENT]
            end
          else if (240 <=? a) && (a <? 245) && second4 a b then
            match r1 with
            | c :: r2 =>
                if cont c then
                  match r2 with
                  | d :: r3 =>
                      if cont d
                      then (a - 240) * 262144 + (b - 128) * 4096 + (c - 128) * 64 + (d - 128) :: from_utf8_lossy r3
                      else REPLACEMENT :: from_utf8_lossy r2
                  | [] => [REPLACEMENT]
                  end
                else REPLACEMENT :: from_utf8_lossy r1
            | [] => [REPLACEMENT]
            end
          else REPLACEMENT :: from_utf8_lossy r0
      | [] => [REPLACEMENT]
      end
  end.

(** The characters that a Rust string can hold. *)
Definition scalar (c : Z) : Prop := 0 ≤ c < 55296 ∨ 57344 ≤ c < 1114112.

(** ** The text of system files *)

(** [str::lines]: a line ends with a newline, or a return and a newline. *)
Definition strip_cr (line : str) : str :=
  match reverse line with 13 :: rest => reverse rest | _ => line end.
Definition lines (s : str) : list str :=
  match reverse (split 10 s) with
  | end_ :: rest => reverse (strip_cr <$> rest) ++ (if bool_decide (end_ = []) then [] else [end_])
  | [] => []
  end.

(** [str::split_whitespace]. *)
Fixpoint split_spaces (s : str) : list str :=
  match s with
  | [] => [[]]
  | c :: s' =>
      if is_whitespace c then [] :: split_spaces s'
      else match split_spaces s' with p :: ps => (c :: p) :: ps | [] => [[c]] end
  end.
Definition words (s : str) : list str := filter (λ w, w ≠ []) (split_spaces s).

Definition strip_suffix (p s : str) : option str := reverse <$> strip_prefix (reverse p) (reverse s).

Definition U32_MAX : Z := 2 ^ 32 - 1.

(** [unwrap_or_default] of a text. *)
Definition or_empty {E} (r : result E str) : str := match r with Ok s => s | Err _ => [] end.

(** ** Paths, as their text *)

(** [Path::join]. *)
Definition join_path (base relative : str) : str :=
  if starts_with [47] relative then relative
  else if bool_decide (base = []) || ends_with [47] base then base ++ relative
  else base ++ [47] ++ relative.

(** The end of a path without the empty and [.] parts that mean nothing; the parts
    are in reverse order. *)
Fixpoint clean_end (parts : list str) : list str :=
  match parts with
  | p :: ((_ :: _) as rest) =>
      if bool_decide (p = []) || bool_decide (p = lit ".") then clean_end rest else parts
  | _ => parts
  end.

Definition rooted (s : str) : bool := starts_with [47] s.

(** [Path::parent]. *)
Definition parent (s : str) : option str :=
  match clean_end (reverse (split 47 s)) with
  | [] => None
  | [p] => if bool_decide (p = []) then None else Some []
  | _ :: rest =>
      let up := join [47] (reverse (clean_end rest)) in
      Some (if bool_decide (up = []) && rooted s then [47] else up)
  end.

(** [Path::file_name], which has no answer for the root and for [..]. *)
Definition file_name (s : str) : option str :=
  match clean_end (reverse (split 47 s)) with
  | p :: _ => if bool_decide (p = []) || bool_decide (p = lit "..") then None else Some p
  | [] => None
  end.

(** [Path::ancestors]: the path, its parent, and so on. *)
Fixpoint ancestors_fuel (n : nat) (s : str) : list str :=
  match n with
  | O => [s]
  | S n => s :: match parent s with Some up => ancestors_fuel n up | None => [] end
  end.
Definition ancestors (s : str) : list str := ancestors_fuel (length s) s.

(** The parts that [Path::starts_with] compares. *)
Definition components (s : str) : list str :=
  (if rooted s then [[47]] else match split 47 s with p :: _ => filter (.= lit ".") [p] | [] => [] end) ++
  filter (λ p, p ≠ [] ∧ p ≠ lit ".") (split 47 s).
Definition path_starts_with (s base : str) : bool := bool_decide (components base `prefix_of` components s).

(** ** Files *)

Inductive ErrorKind := KNotFound | KAlreadyExists | KOther.
Record io_error := { io_kind : ErrorKind; io_text : str }.

Inductive node :=
| File (bytes : list Z) (mode uid gid : Z)
| Folder (mode uid gid : Z).

(** The nodes that paths lead to, and the programs that ran with their arguments, the last one first. *)
Record World := { fs : gmap str node; ran : list (str * list str) }.

Definition with_fs (f : gmap str node) (w : World) : World := {| fs := f; ran := ran w |}.

(** What the system does in one step of a process. *)
Record os_env := {
  fault : option io_error;
  (** whether a look at a path's node fails *)
  stat_fault : bool;
  (** how many bytes a failed write has written *)
  short : nat;
  (** which files a failed removal of a tree has removed *)
  removed : str → bool;
  umask : Z;
  (** the user and group of new files *)
  ids : Z * Z;
  (** what a program changes in the files, and its exit: success, and its text *)
  changed : gmap str node → gmap str node;
  outcome : result io_error (bool * str);
  accepts : bool;
  (** [Instant::now], in nanoseconds *)
  clock : Z;
  canonical : str → result io_error str;
  cwd : result io_error str
}.

Definition ENOENT : io_error := {| io_kind := KNotFound; io_text := lit "No such file or directory (os error 2)" |}.
Definition EEXIST : io_error := {| io_kind := KAlreadyExists; io_text := lit "File exists (os error 17)" |}.
Definition EISDIR : io_error := {| io_kind := KOther; io_text := lit "Is a directory (os error 21)" |}.
Definition ENOTDIR : io_error := {| io_kind := KOther; io_text := lit "Not a directory (os error 20)" |}.
Definition INVALID_UTF8 : io_error := {| io_kind := KOther; io_text := lit "stream did not contain valid UTF-8" |}.

Definition is_dir_at (f : gmap str node) (p : str) : bool :=
  match f !! p with Some (Folder _ _ _) => true | _ => false end.

(** ** Programs of system calls *)

Inductive os (A : Type) : Type :=
| ORet (a : A)
| OStep (B : Type) (f : os_env → World → World * B) (k : B → os A).
Arguments ORet {A} a.
Arguments OStep {A B} f k.

#[export] Instance os_ret : MRet os := @ORet.
#[export] Instance os_bind : MBind os := λ A B f,
  fix go p := match p with ORet a => f a | OStep g k => OStep g (λ b, go (k b)) end.

Definition step {B} (f : os_env → World → World * B) : os B := OStep f ORet.

(** A call that only looks. *)
Definition look {B} (f : os_env → World → B) : os B := step (λ e w, (w, f e w)).

(** A call that can fail before it does anything. *)
Definition may_fail {B} (f : os_env → World → World * result io_error B) : os (result io_error B) :=
  step (λ e w, match fault e with Some err => (w, Err err) | None => f e w end).

(** A program alone: step [n] has environment [e n]. *)
Fixpoint os_exec {A} (p : os A) (e : nat → os_env) (w : World) (n : nat) : A * World * nat :=
  match p with
  | ORet a => (a, w, n)
  | OStep f k => let '(w', b) := f (e n) w in os_exec (k b) e w' (S n)
  end.

(** [Result]s in a program: [?]. *)
Definition and_then {E A B} (p : os (result E A)) (k : A → os (result E B)) : os (result E B) :=
  r ← p; match r with Ok a => k a | Err e => mret (Err e) end.

(** *** What looks *)

(** [Path::exists], which takes an error for a missing file. *)
Definition exists_ (p : str) : os bool :=
  look (λ e w, negb (stat_fault e) && bool_decide (is_Some (fs w !! p))).
Definition is_dir (p : str) : os bool :=
  look (λ e w, negb (stat_fault e) && is_dir_at (fs w) p).

(** [std::fs::read] and [std::fs::read_to_string]. *)
Definition read_file (f : gmap str node) (p : str) : result io_error (list Z) :=
  match f !! p with
  | Some (File bytes _ _ _) => Ok bytes
  | Some (Folder _ _ _) => Err EISDIR
  | None => Err ENOENT
  end.
Definition read_text (f : gmap str node) (p : str) : result io_error str :=
  bytes ← read_file f p; ok_or (from_utf8 bytes) INVALID_UTF8.

Definition or_fault {B} (r : result io_error B) (e : os_env) : result io_error B :=
  match fault e with Some err => Err err | None => r end.

Definition read (p : str) : os (result io_error (list Z)) := look (λ e w, or_fault (read_file (fs w) p) e).
Definition read_to_string (p : str) : os (result io_error str) := look (λ e w, or_fault (read_text (fs w) p) e).

(** [std::fs::metadata], as far as the program reads it. *)
Definition metadata (p : str) : os (result io_error node) :=
  look (λ e w, or_fault (ok_or (fs w !! p) ENOENT) e).
Definition canonicalize (p : str) : os (result io_error str) := look (λ e _, or_fault (canonical e p) e).

(** [std::path::absolute]: the path from the root, without looking at links. *)
Definition absolute_from (cwd : result io_error str) (p : str) : result io_error str :=
  let parts := filter (λ x, x ≠ [] ∧ x ≠ lit ".") (split 47 p) in
  let finish base :=
    let full := foldl join_path base parts in
    if ends_with [47] p && negb (ends_with [47] full) then full ++ [47] else full in
  if bool_decide (p = []) then Err {| io_kind := KOther; io_text := lit "cannot make an empty path absolute" |}
  else if starts_with (lit "//") p && negb (starts_with (lit "///") p) then Ok (finish (lit "//"))
  else if rooted p then Ok (finish [47])
  else finish <$> cwd.
Definition absolute (p : str) : os (result io_error str) := look (λ e _, absolute_from (cwd e) p).

Definition instant : os Z := look (λ e _, clock e).

(** A connection to an address. *)
Definition connects : os bool := look (λ e _, accepts e).

(** *** What writes *)

(** [OpenOptions] with write, create, truncate and a mode. *)
Definition open_truncated (p : str) (mode : Z) : os (result io_error unit) :=
  may_fail (λ e w,
    match fs w !! p with
    | Some (Folder _ _ _) => (w, Err EISDIR)
    | Some (File _ m u g) => (with_fs (<[p := File [] m u g]> (fs w)) w, Ok tt)
    | None =>
        if match parent p with Some dir => is_dir_at (fs w) dir | None => false end
        then (with_fs (<[p := File [] (Z.ldiff mode (umask e)) (ids e).1 (ids e).2]> (fs w)) w, Ok tt)
        else (w, Err ENOENT)
    end).

(** A change of a file that is open under its name [p]. *)
Definition on_file (p : str) (f : list Z → Z → Z → Z → node) (w : World) : World * result io_error unit :=
  match fs w !! p with
  | Some (File b m u g) => (with_fs (<[p := f b m u g]> (fs w)) w, Ok tt)
  | _ => (w, Ok tt)
  end.

Definition fchown (p : str) (uid gid : Z) : os (result io_error unit) :=
  may_fail (λ _, on_file p (λ b m _ _, File b m uid gid)).

(** [write_all], which can fail in the middle. *)
Definition write_all (p : str) (bytes : list Z) : os (result io_error unit) :=
  step (λ e w,
    match fault e with
    | Some err => ((on_file p (λ b m u g, File (b ++ take (short e) bytes) m u g) w).1, Err err)
    | None => on_file p (λ b m u g, File (b ++ bytes) m u g) w
    end).

Definition set_file_mode (p : str) (mode : Z) : os (result io_error unit) :=
  may_fail (λ _, on_file p (λ b _ u g, File b mode u g)).

Definition sync_all (p : str) : os (result io_error unit) := may_fail (λ _ w, (w, Ok tt)).

(** [std::fs::rename] of a file: one step, and the target is the old or the new file. *)
Definition rename (from to : str) : os (result io_error unit) :=
  may_fail (λ _ w,
    match fs w !! from, fs w !! to with
    | None, _ => (w, Err ENOENT)
    | Some _, Some (Folder _ _ _) => (w, Err EISDIR)
    | Some n, _ => (with_fs (<[to := n]> (delete from (fs w))) w, Ok tt)
    end).

Definition unlink (p : str) : os (result io_error unit) :=
  may_fail (λ _ w,
    match fs w !! p with
    | None => (w, Err ENOENT)
    | Some (Folder _ _ _) => (w, Err EISDIR)
    | Some (File _ _ _ _) => (with_fs (delete p (fs w)) w, Ok tt)
    end).

Definition create_dir (p : str) : os (result io_error unit) :=
  may_fail (λ e w,
    match fs w !! p with
    | Some _ => (w, Err EEXIST)
    | None =>
        if match parent p with Some dir => is_dir_at (fs w) dir | None => false end
        then (with_fs (<[p := Folder (Z.ldiff 511 (umask e)) (ids e).1 (ids e).2]> (fs w)) w, Ok tt)
        else (w, Err ENOENT)
    end).

Definition set_folder_mode (p : str) (mode : Z) : os (result io_error unit) :=
  may_fail (λ _ w,
    match fs w !! p with
    | Some (Folder _ u g) => (with_fs (<[p := Folder mode u g]> (fs w)) w, Ok tt)
    | Some (File b _ u g) => (with_fs (<[p := File b mode u g]> (fs w)) w, Ok tt)
    | None => (w, Err ENOENT)
    end).

(** Whether a path is a folder or below it. *)
Definition below (dir p : str) : bool := bool_decide (p = dir) || starts_with (dir ++ [47]) p.

(** [std::fs::remove_dir_all]: an error can leave a part of the tree. *)
Definition remove_dir_all (dir : str) : os (result io_error unit) :=
  step (λ e w,
    match fs w !! dir, fault e with
    | None, None => (w, Err ENOENT)
    | Some (File _ _ _ _), None => (w, Err ENOTDIR)
    | _, Some err => (with_fs (filter (λ x, negb (below dir x.1 && removed e x.1)) (fs w)) w, Err err)
    | Some (Folder _ _ _), None => (with_fs (filter (λ x, negb (below dir x.1)) (fs w)) w, Ok tt)
    end).

(** [Command::status]: another program, which changes files of its own. *)
Definition run_program (program : str) (args : list str) : os (result io_error (bool * str)) :=
  step (λ e w, ({| fs := changed e (fs w); ran := (program, args) :: ran w |}, outcome e)).

(** ** UTF-8 comes back *)

#[local] Ltac take_branch :=
  match goal with |- (if ?b then _ else _) = _ => replace b with true by (unfold cont; lia) end.
#[local] Ltac skip_branch :=
  match goal with |- (if ?b then _ else _) = _ => replace b with false by (unfold cont; lia) end.

(** The six-bit parts of a character. *)
#[local] Ltac byte_parts c :=
  pose proof (Z.div_mod c 64 ltac:(lia)); pose proof (Z.mod_pos_bound c 64 ltac:(lia));
  pose proof (Z.div_mod (c / 64) 64 ltac:(lia)); pose proof (Z.mod_pos_bound (c / 64) 64 ltac:(lia));
  pose proof (Z.div_mod (c / 4096) 64 ltac:(lia)); pose proof (Z.mod_pos_bound (c / 4096) 64 ltac:(lia));
  assert (c / 4096 = c / 64 / 64) by (by rewrite Z.div_div by lia);
  assert (c / 262144 = c / 4096 / 64) by (by rewrite Z.div_div by lia).

Lemma from_utf8_char c rest :
  scalar c → from_utf8 (utf8_char c ++ rest) = cons c <$> from_utf8 rest.
Proof.
  intros Hc. unfold scalar in Hc. unfold utf8_char.
  destruct (Z.ltb_spec c 128).
  { cbn [app from_utf8]. by rewrite (proj2 (Z.leb_le 0 c)), (proj2 (Z.ltb_lt c 128)) by lia. }
  byte_parts c.
  unfold cont.
  destruct (Z.ltb_spec c 2048); [|destruct (Z.ltb_spec c 65536)]; cbn [app from_utf8].
  - skip_branch. take_branch. do 3 f_equal. lia.
  - do 2 skip_branch. take_branch. do 3 f_equal. lia.
  - do 3 skip_branch. take_branch. do 3 f_equal. lia.
Qed.

Lemma from_utf8_as_bytes s : Forall scalar s → from_utf8 (as_bytes s) = Some s.
Proof.
  induction 1 as [|c s Hc _ IH]; [done|]. unfold as_bytes in *. cbn [mbind list_bind].
  by rewrite from_utf8_char, IH.
Qed.

(** The bytes of a text are read back without a replacement. *)
Lemma from_utf8_lossy_char c rest :
  scalar c → from_utf8_lossy (utf8_char c ++ rest) = c :: from_utf8_lossy rest.
Proof.
  intros Hc. unfold scalar in Hc. unfold utf8_char.
  destruct (Z.ltb_spec c 128).
  { cbn [app from_utf8_lossy]. by rewrite (proj2 (Z.leb_le 0 c)), (proj2 (Z.ltb_lt c 128)) by lia. }
  byte_parts c.
  destruct (Z.ltb_spec c 2048); [|destruct (Z.ltb_spec c 65536)]; cbn [app from_utf8_lossy].
  - skip_branch. take_branch. f_equal. lia.
  - do 2 skip_branch. unfold second3.
    destruct (Z.eqb_spec (224 + c / 4096) 224); [|destruct (Z.eqb_spec (224 + c / 4096) 237)];
      do 2 take_branch; f_equal; lia.
  - do 3 skip_branch. unfold second4.
    destruct (Z.eqb_spec (240 + c / 262144) 240); [|destruct (Z.eqb_spec (240 + c / 262144) 244)];
      do 3 take_branch; f_equal; lia.
Qed.

Lemma from_utf8_lossy_as_bytes s : Forall scalar s → from_utf8_lossy (as_bytes s) = s.
Proof.
  induction 1 as [|c s Hc _ IH]; [done|]. unfold as_bytes in *. cbn [mbind list_bind].
  by rewrite from_utf8_lossy_char, IH.
Qed.

(** ** What a program guarantees *)

Section logic.
(** The environments that can occur. *)
Variable E : os_env → Prop.

(** [I] holds at every point of a run, so also when the process is killed there, and
    [Q] at its end. *)
Fixpoint wpc {A} (I : World → Prop) (p : os A) (Q : A → World → Prop) (w : World) : Prop :=
  I w ∧ match p with
        | ORet a => Q a w
        | OStep f k => ∀ e, E e → wpc I (k (f e w).2) Q (f e w).1
        end.

Inductive os_step {A} : World * os A → World * os A → Prop :=
| os_step_intro w B (f : os_env → World → World * B) k e :
    E e → os_step (w, OStep f k) ((f e w).1, k (f e w).2).

Lemma wpc_inv {A} I (p : os A) Q w : wpc I p Q w → I w.
Proof. by destruct p; intros [? _]. Qed.

Lemma wpc_sound {A} I (p : os A) Q w w' p' :
  wpc I p Q w → rtc os_step (w, p) (w', p') → I w' ∧ ∀ a, p' = ORet a → Q a w'.
Proof.
  intros Hp Hr. remember (w, p) as c eqn:Ec. remember (w', p') as c' eqn:Ec'.
  revert w p w' p' Hp Ec Ec'. induction Hr as [c|c c1 c2 Hs Hr IH]; intros w p w' p' Hp -> Ec'.
  - injection Ec' as <- <-. split; [by eapply wpc_inv|]. intros a ->. apply Hp.
  - inversion Hs; simplify_eq. destruct Hp as [_ Hp]. by eapply IH; [apply Hp| |].
Qed.

Lemma wpc_exec {A} I (p : os A) Q w e n :
  (∀ i, E (e i)) → wpc I p Q w → Q (os_exec p e w n).1.1 (os_exec p e w n).1.2.
Proof.
  intros He. revert w n. induction p as [a|B f k IH]; intros w n Hp; [apply Hp|].
  destruct Hp as [_ Hp]. specialize (Hp _ (He n)). cbn [os_exec].
  destruct (f (e n) w) as [w' b]. by apply IH.
Qed.

Lemma wpc_ret {A} I (a : A) (Q : A → World → Prop) w : I w → Q a w → wpc I (mret a) Q w.
Proof. by split. Qed.

Lemma wpc_bind {A B} I (p : os A) (f : A → os B) Q w :
  wpc I p (λ a, wpc I (f a) Q) w → wpc I (p ≫= f) Q w.
Proof.
  revert w. induction p as [a|C g k IH]; intros w; [by intros [_ ?]|].
  intros [Hi Hp]. split; [done|]. intros e He. by apply IH, Hp.
Qed.

Lemma wpc_mono {A} I (p : os A) (Q Q' : A → World → Prop) w :
  (∀ a w, I w → Q a w → Q' a w) → wpc I p Q w → wpc I p Q' w.
Proof.
  intros HQ. revert w. induction p as [a|C g k IH]; intros w [Hi Hp]; split; auto.
Qed.

Lemma wpc_step {B} (I : World → Prop) (f : os_env → World → World * B) (Q : B → World → Prop) w :
  I w → (∀ e, E e → I (f e w).1 ∧ Q (f e w).2 (f e w).1) → wpc I (step f) Q w.
Proof. intros Hi Hf. split; [done|]. intros e He. destruct (Hf e He). by split. Qed.

Lemma wpc_look {B} (I : World → Prop) (f : os_env → World → B) (Q : B → World → Prop) w :
  I w → (∀ e, E e → Q (f e w) w) → wpc I (look f) Q w.
Proof. intros Hi Hf. apply wpc_step; [done|]. intros e He. split; [done|by apply Hf]. Qed.

Lemma wpc_may_fail {B} (I : World → Prop) (f : os_env → World → World * result io_error B)
    (Q : result io_error B → World → Prop) w :
  I w → (∀ err, Q (Err err) w) → (∀ e, E e → I (f e w).1 ∧ Q (f e w).2 (f e w).1) → wpc I (may_fail f) Q w.
Proof. intros Hi He Hf. apply wpc_step; [done|]. intros e HE. cbn. destruct (fault e); [by split; [|apply He]|by apply Hf]. Qed.

Lemma wpc_and_then {T A B} I (p : os (result T A)) (k : A → os (result T B)) Q w :
  wpc I p (λ r w, match r with Ok a => wpc I (k a) Q w | Err e => Q (Err e) w end) w →
  wpc I (and_then p k) Q w.
Proof.
  intros Hp. apply wpc_bind. eapply wpc_mono; [|exact Hp].
  intros [a|e] w' Hi HQ; [done|by apply wpc_ret].
Qed.
End logic.

(** ** Programs that only look *)

Fixpoint looks {A} (p : os A) : Prop :=
  match p with
  | ORet _ => True
  | OStep f k => ∀ e w, (f e w).1 = w ∧ looks (k (f e w).2)
  end.

Lemma looks_look {B} (f : os_env → World → B) : looks (look f).
Proof. by intros e w. Qed.

Lemma looks_bind {A B} (p : os A) (f : A → os B) : looks p → (∀ a, looks (f a)) → looks (p ≫= f).
Proof.
  intros Hp Hf. induction p as [a|C g k IH]; [apply Hf|]. intros e w. destruct (Hp e w) as [Hw Hk].
  split; [done|]. by apply IH.
Qed.

Lemma looks_and_then {T A B} (p : os (result T A)) (k : A → os (result T B)) :
  looks p → (∀ a, looks (k a)) → looks (and_then p k).
Proof. intros Hp Hk. apply looks_bind; [done|]. by intros [a|e]. Qed.

Lemma looks_exec {A} (p : os A) e w n : looks p → (os_exec p e w n).1.2 = w.
Proof.
  revert w n. induction p as [a|B f k IH]; intros w n Hp; [done|]. cbn [os_exec].
  destruct (Hp (e n) w) as [Hw Hk]. destruct (f (e n) w) as [w' b]. cbn in *. subst w'. by apply IH.
Qed.

Lemma wpc_looks {A} E I (p : os A) (Q : A → World → Prop) w :
  looks p → I w → (∀ a, Q a w) → wpc E I p Q w.
Proof.
  intros Hp Hi HQ. induction p as [a|B f k IH]; split; auto.
  intros e _. destruct (Hp e w) as [-> Hk]. by apply IH.
Qed.

Create HintDb looks.
#[export] Hint Resolve looks_look : looks.

(** Goes through the binds and the cases of a looking program. *)
Ltac looks :=
  repeat first
    [ done
    | solve [auto with looks]
    | apply looks_and_then; [|intros ?]
    | apply looks_bind; [|intros ?]
    | progress case_match ].

Lemma os_exec_bind {A B} (p : os A) (f : A → os B) e w n :
  os_exec (p ≫= f) e w n = let '(a, w', n') := os_exec p e w n in os_exec (f a) e w' n'.
Proof.
  revert w n. induction p as [a|C g k IH]; intros w n; [done|]. cbn.
  destruct (g (e n) w) as [w' b]. apply IH.
Qed.

(** A system in which no call fails by itself. *)
Definition sound (e : os_env) : Prop := fault e = None.

(** What a looking program finds in one state of the system. *)
Fixpoint peek {A} (e : os_env) (w : World) (p : os A) : A :=
  match p with ORet a => a | OStep f k => peek e w (k (f e w).2) end.

Lemma peek_bind {A B} e w (p : os A) (f : A → os B) : peek e w (p ≫= f) = peek e w (f (peek e w p)).
Proof. induction p as [a|C g k IH]; [done|]. apply IH. Qed.

Lemma peek_look {B} e w (f : os_env → World → B) : peek e w (look f) = f e w.
Proof. done. Qed.

Lemma looks_peek {A} (p : os A) e w n :
  looks p → (os_exec p (λ _, e) w n).1 = (peek e w p, w).
Proof.
  revert n. induction p as [a|B f k IH]; intros n Hp; [done|]. cbn [os_exec peek].
  destruct (Hp e w) as [Hw Hk]. destruct (f e w) as [w' b]. cbn in *. subst w'. by apply IH.
Qed.

(** A system that never fails, with no links. *)
Definition calm_os : os_env :=
  {| fault := None; stat_fault := false; short := O; removed := λ _, true; umask := 18; ids := (0, 0); changed := id;
     outcome := Ok (true, []); accepts := false; clock := 0; canonical := Ok; cwd := Ok [47] |}.

(** ** Paths get shorter upwards *)

Lemma clean_end_suffix parts : ∃ k, parts = k ++ clean_end parts.
Proof.
  induction parts as [|p parts IH]; [by exists []|]. destruct parts as [|q rest]; [by exists []|].
  cbn [clean_end]. destruct (_ || _); [|by exists []].
  destruct IH as [k E]. exists (p :: k). cbn. f_equal. exact E.
Qed.

Lemma length_join_app c (ps qs : list str) :
  ps ≠ [] → qs ≠ [] → length (join [c] (ps ++ qs)) = (length (join [c] ps) + 1 + length (join [c] qs))%nat.
Proof.
  intros Hp Hq. induction ps as [|p ps IH]; [done|]. destruct ps as [|q ps].
  - cbn [app]. rewrite join_cons by done. rewrite length_app. cbn [length]. change (join [c] [p]) with p. lia.
  - cbn [app] in *. rewrite (join_cons c p (q :: ps ++ qs)), (join_cons c p (q :: ps)) by done.
    rewrite !length_app. cbn [length]. rewrite IH by done. lia.
Qed.

Lemma clean_end_head parts p q rest : clean_end parts = p :: q :: rest → p ≠ [].
Proof.
  induction parts as [|x parts IH]; [done|]. destruct parts as [|y parts]; [done|]. cbn [clean_end] in *.
  destruct (bool_decide (x = [])) eqn:Ex; [done|]. cbn [orb]. destruct (bool_decide (x = lit ".")); [done|].
  intros [= <- _ _]. by apply bool_decide_eq_false in Ex.
Qed.

Lemma clean_end_not_nil p parts : clean_end (p :: parts) ≠ [].
Proof.
  revert p. induction parts as [|x rest IH]; intros p; [done|]. cbn [clean_end]. destruct (_ || _); [apply IH|done].
Qed.

Lemma parent_shorter s up : parent s = Some up → (length up < length s)%nat.
Proof.
  unfold parent. pose proof (join_split 47 s) as Es.
  destruct (clean_end_suffix (reverse (split 47 s))) as [k Ek].
  pose proof (clean_end_head (reverse (split 47 s))) as Hhead.
  destruct (clean_end (reverse (split 47 s))) as [|p rest]; [done|].
  assert (Hs : split 47 s = reverse rest ++ p :: reverse k).
  { apply (f_equal reverse) in Ek. rewrite reverse_involutive, reverse_app, reverse_cons in Ek.
    by rewrite <- app_assoc in Ek. }
  assert (Hp : (length p ≤ length (join [47%Z] (p :: reverse k)))%nat).
  { destruct (reverse k); [done|]. rewrite join_cons, length_app by done. lia. }
  destruct rest as [|q rest].
  - case_bool_decide as Hpn; [done|]. intros [= <-]. rewrite <- Es, Hs. cbn [app].
    destruct p; [done|]. cbn in *. lia.
  - specialize (Hhead p q rest eq_refl).
    destruct (clean_end_suffix (q :: rest)) as [k2 Ek2].
    assert (Hlen : (length (join [47%Z] (reverse (clean_end (q :: rest)))) + 1 + length p ≤ length s)%nat).
    { assert (Hr : reverse (clean_end (q :: rest)) ≠ []).
      { intros E%(f_equal reverse). rewrite reverse_involutive in E. by apply clean_end_not_nil in E. }
      set (top := clean_end (q :: rest)) in *. clearbody top.
      assert (Hl : length s = length (join [47%Z] (split 47 s))) by by rewrite Es.
      rewrite Hl, Hs, Ek2, reverse_app, <- app_assoc.
      rewrite length_join_app; [|done|by destruct (reverse k2)].
      destruct (reverse k2) as [|y ys] eqn:Ey; [cbn [app]; lia|]. rewrite length_join_app by done. lia. }
    destruct p as [|c p]; [done|]. cbn [length] in Hlen. clear Ek2.
    set (top := clean_end (q :: rest)) in *. clearbody top. intros [= <-]. case_match; cbn [length]; lia.
Qed.
