(* ===== verification/Net.v ===== *)
(** * Addresses and subnets

    [std::net]'s IPv4 and IPv6 addresses as the program uses them, with their
    parsers, and the interface to the [ipnet] crate: its operations are the
    class [Ipnet], what its documentation promises of them is [IpnetLaws].  The
    instance [ipnet_ref] shows that the laws can hold. *)

From S2P Require Import Prelude Text.

(** ** [std::net] *)

(** An [Ipv4Addr] is its [u32], an [Ipv6Addr] its [u128]. *)
Inductive ip_addr : Type :=
| V4 (a : Z)
| V6 (a : Z).

#[export] Instance ip_addr_eq_dec : EqDecision ip_addr.
Proof. solve_decision. Defined.

#[export] Instance ip_addr_countable : Countable ip_addr.
Proof.
  refine (inj_countable' (λ i, match i with V4 a => inl a | V6 a => inr a end)
    (λ s, match s with inl a => V4 a | inr a => V6 a end) _).
  by intros [].
Defined.

(** [Ipv4Addr::new]. *)
Definition ipv4 (a b c d : Z) : Z := ((a * 256 + b) * 256 + c) * 256 + d.

(** [address.octets()]. *)
Definition octets (a : Z) : list Z :=
  [Z.shiftr a 24 mod 256; Z.shiftr a 16 mod 256; Z.shiftr a 8 mod 256; a mod 256].

(** [Ipv4Addr]'s [Display]. *)
Definition ipv4_to_string (a : Z) : str := join (lit ".") (to_string <$> octets a).

(** [Ipv6Addr]'s [Display]: lower-case groups, the first longest run of two or
    more zero groups as [::], an IPv4-mapped address with its dotted tail. *)
Definition groups (a : Z) : list Z := (λ i, Z.shiftr a (16 * i) mod 65536) <$> [7; 6; 5; 4; 3; 2; 1; 0].

Definition hex_digit (d : Z) : Z := if d <? 10 then 48 + d else 97 + (d - 10).

(** [{:x}] of a 16-bit group. *)
Definition group_to_string (g : Z) : str :=
  let d i := hex_digit (Z.shiftr g (4 * i) mod 16) in
  if g <? 16 then [d 0] else if g <? 256 then [d 1; d 0]
  else if g <? 4096 then [d 2; d 1; d 0] else [d 3; d 2; d 1; d 0].

(** The number of leading zero groups. *)
Fixpoint zeros (gs : list Z) : nat :=
  match gs with g :: gs' => if g =? 0 then S (zeros gs') else O | [] => O end.

(** The start and the length of the first longest run of zero groups. *)
Fixpoint longest_zeros (i : nat) (gs : list Z) (best : nat * nat) : nat * nat :=
  match gs with
  | [] => best
  | _ :: gs' =>
      longest_zeros (S i) gs' (if bool_decide (best.2 < zeros gs)%nat then (i, zeros gs) else best)
  end.

Definition groups_to_string (gs : list Z) : str := join (lit ":") (group_to_string <$> gs).

Definition ipv6_to_string (a : Z) : str :=
  if Z.shiftr a 32 =? 65535 then lit "::ffff:" ++ ipv4_to_string (a mod 2 ^ 32)
  else
    let gs := groups a in
    let '(start, n) := longest_zeros 0 gs (0%nat, 0%nat) in
    if bool_decide (1 < n)%nat
    then groups_to_string (take start gs) ++ lit "::" ++ groups_to_string (drop (start + n) gs)
    else groups_to_string gs.

Definition ip_to_string (ip : ip_addr) : str :=
  match ip with V4 a => ipv4_to_string a | V6 a => ipv6_to_string a end.

(** [IpAddr::to_canonical]: an IPv4-mapped IPv6 address becomes IPv4. *)
Definition to_canonical (ip : ip_addr) : ip_addr :=
  match ip with
  | V6 a => if Z.shiftr a 32 =? 65535 then V4 (a mod 2 ^ 32) else ip
  | V4 _ => ip
  end.

(** [IpAddr::is_loopback]: 127.0.0.0/8 and ::1. *)
Definition is_loopback (ip : ip_addr) : bool :=
  match ip with V4 a => Z.shiftr a 24 =? 127 | V6 a => a =? 1 end.

(** The address parser of [std::net]: each reader returns what it read and the
    rest of the input. *)
Fixpoint read_digits (radix : Z) (s : str) : list Z * str :=
  match s with
  | c :: s' => match to_digit radix c with
               | Some d => let '(ds, r) := read_digits radix s' in (d :: ds, r)
               | None => ([], s)
               end
  | [] => ([], [])
  end.

Definition read_number (radix : Z) (max_digits : nat) (allow_zero_prefix : bool)
    (max : Z) (s : str) : option (Z * str) :=
  let '(ds, rest) := read_digits radix s in
  if bool_decide (max_digits < length ds)%nat then None
  else match ds with
       | [] => None
       | d :: _ =>
           if negb allow_zero_prefix && (d =? 0) && bool_decide (1 < length ds)%nat then None
           else let v := foldl (λ a d, a * radix + d) 0 ds in
                if max <? v then None else Some (v, rest)
       end.

(** [read_separator]: no separator before the first item. *)
Definition read_separator {A} (sep : Z) (index : nat) (inner : str → option (A * str))
    (s : str) : option (A * str) :=
  match index with
  | O => inner s
  | _ => match s with c :: s' => if c =? sep then inner s' else None | [] => None end
  end.

Fixpoint read_octets (n i : nat) (acc : Z) (s : str) : option (Z * str) :=
  match n with
  | O => Some (acc, s)
  | S n' =>
      match read_separator 46 i (read_number 10 3 false 255) s with
      | Some (o, s') => read_octets n' (S i) (acc * 256 + o) s'
      | None => None
      end
  end.

Definition read_ipv4_addr (s : str) : option (Z * str) := read_octets 4 0 0 s.

(** [read_groups]: up to [limit] groups, and whether an IPv4 tail was read. *)
Fixpoint read_groups (limit i : nat) (acc : list Z) (s : str) : list Z * bool * str :=
  match limit with
  | O => (acc, false, s)
  | S fewer =>
      let try_v4 := match fewer with
                    | O => None
                    | _ => read_separator 58 i read_ipv4_addr s
                    end in
      match try_v4 with
      | Some (v4, s') => (acc ++ [Z.shiftr v4 16; v4 mod 65536], true, s')
      | None =>
          match read_separator 58 i (read_number 16 4 true 65535) s with
          | Some (g, s') => read_groups fewer (S i) (acc ++ [g]) s'
          | None => (acc, false, s)
          end
      end
  end.

Definition of_groups (gs : list Z) : Z := foldl (λ a g, a * 65536 + g) 0 gs.

Definition read_ipv6_addr (s : str) : option (Z * str) :=
  let '(head, head_ipv4, s1) := read_groups 8 0 [] s in
  if bool_decide (length head = 8%nat) then Some (of_groups head, s1)
  else if (head_ipv4 : bool) then None
  else match s1 with
       | 58 :: 58 :: s2 =>
           let limit := (8 - (length head + 1))%nat in
           let '(tail, _, s3) := read_groups limit 0 [] s2 in
           let zeros := replicate (8 - length head - length tail) 0 in
           Some (of_groups (head ++ zeros ++ tail), s3)
       | _ => None
       end.

Definition all_read {A} (r : option (A * str)) : option A :=
  match r with Some (a, []) => Some a | _ => None end.

(** [s.parse::<Ipv4Addr>()] and [s.parse::<IpAddr>()]. *)
Definition parse_ipv4 (s : str) : option Z :=
  if 15 <? utf8_len s then None else all_read (read_ipv4_addr s).

Definition parse_ip (s : str) : option ip_addr :=
  match read_ipv4_addr s with
  | Some (a, rest) => match rest with [] => Some (V4 a) | _ => None end
  | None => V6 <$> all_read (read_ipv6_addr s)
  end.

(** ** The [ipnet] crate *)

Definition hostmask (p : Z) : Z := Z.ones (32 - p).
Definition netmask (p : Z) : Z := Z.lxor (Z.ones 32) (hostmask p).

(** The operations of [ipnet::Ipv4Net] and [ipnet::IpNet] that Lodger calls. *)
Class Ipnet := {
  ipv4net : Type;
  net_addr : ipv4net → Z;
  net_prefix_len : ipv4net → Z;
  net_network : ipv4net → Z;
  net_broadcast : ipv4net → Z;
  net_trunc : ipv4net → ipv4net;
  net_contains_addr : ipv4net → Z → bool;
  net_contains : ipv4net → ipv4net → bool;
  net_new : Z → Z → option ipv4net;
  net_new_assert : Z → Z → ipv4net;
  net_with_netmask : Z → Z → option ipv4net;
  net_from_str : str → option ipv4net;
  net_to_string : ipv4net → str;
  ipnet : Type;
  ipnet_contains : ipnet → ip_addr → bool
}.

(** What the documentation of [ipnet] says of them. *)
Class IpnetLaws `{Ipnet} := {
  net_addr_range n : 0 ≤ net_addr n < 2 ^ 32;
  net_prefix_range n : 0 ≤ net_prefix_len n ≤ 32;
  net_ext m n : net_addr m = net_addr n → net_prefix_len m = net_prefix_len n → m = n;
  net_network_mask n : net_network n = Z.land (net_addr n) (netmask (net_prefix_len n));
  net_broadcast_mask n : net_broadcast n = Z.lor (net_addr n) (hostmask (net_prefix_len n));
  net_trunc_addr n : net_addr (net_trunc n) = net_network n;
  net_trunc_prefix n : net_prefix_len (net_trunc n) = net_prefix_len n;
  net_contains_addr_range n a :
    net_contains_addr n a = (net_network n <=? a) && (a <=? net_broadcast n);
  net_contains_range m n :
    net_contains m n = (net_network m <=? net_network n) && (net_broadcast n <=? net_broadcast m);
  net_new_spec a p n : 0 ≤ a < 2 ^ 32 → 0 ≤ p →
    net_new a p = Some n ↔ p ≤ 32 ∧ net_addr n = a ∧ net_prefix_len n = p;
  net_new_assert_spec a p : 0 ≤ a < 2 ^ 32 → 0 ≤ p ≤ 32 →
    net_addr (net_new_assert a p) = a ∧ net_prefix_len (net_new_assert a p) = p;
  net_with_netmask_spec a m n : 0 ≤ a < 2 ^ 32 →
    net_with_netmask a m = Some n ↔ net_addr n = a ∧ m = netmask (net_prefix_len n);
  net_to_string_spec n :
    net_to_string n = ipv4_to_string (net_addr n) ++ lit "/" ++ to_string (net_prefix_len n);
  net_from_to_string n : net_from_str (net_to_string n) = Some n
}.

#[export] Instance ipv4net_eq_dec `{IpnetLaws} : EqDecision ipv4net.
Proof.
  intros m n. destruct (decide (net_addr m = net_addr n)) as [Ha|Ha];
    [destruct (decide (net_prefix_len m = net_prefix_len n)) as [Hp|Hp]|].
  - left. by apply net_ext.
  - right. by intros ->.
  - right. by intros ->.
Defined.

(** ** Facts: masks as intervals *)

Lemma land_netmask a p :
  0 ≤ a < 2 ^ 32 → 0 ≤ p ≤ 32 → Z.land a (netmask p) = a - a mod 2 ^ (32 - p).
Proof.
  intros Ha Hp. unfold netmask, hostmask.
  assert (Hm : Z.land a (Z.lxor (Z.ones 32) (Z.ones (32 - p))) = Z.ldiff a (Z.ones (32 - p))).
  { apply Z.bits_inj'. intros i Hi.
    rewrite Z.land_spec, Z.lxor_spec, Z.ldiff_spec.
    destruct (Z.ltb_spec i 32).
    - rewrite (Z.ones_spec_low 32 i) by lia. by destruct (Z.testbit a i).
    - rewrite (Z.bits_above_log2 a i); [done|lia|].
      apply Z.le_lt_trans with 31; [|lia].
      destruct (Z.eq_dec a 0) as [->|]; [done|].
      apply Z.lt_succ_r. apply Z.log2_lt_pow2; lia. }
  rewrite Hm, Z.ldiff_ones_r, Z.shiftl_mul_pow2, Z.shiftr_div_pow2 by lia.
  pose proof (Z.div_mod a (2 ^ (32 - p)) ltac:(lia)). lia.
Qed.

Lemma lor_hostmask a p :
  0 ≤ a < 2 ^ 32 → 0 ≤ p ≤ 32 →
  Z.lor a (hostmask p) = a - a mod 2 ^ (32 - p) + (2 ^ (32 - p) - 1).
Proof.
  intros Ha Hp. unfold hostmask.
  assert (E : Z.lor a (Z.ones (32 - p)) =
    Z.lor (Z.ldiff a (Z.ones (32 - p))) (Z.ones (32 - p))).
  { apply Z.bits_inj'. intros i Hi. rewrite !Z.lor_spec, Z.ldiff_spec.
    by destruct (Z.testbit a i), (Z.testbit (Z.ones (32 - p)) i). }
  assert (D : Z.land (Z.ldiff a (Z.ones (32 - p))) (Z.ones (32 - p)) = 0).
  { apply Z.bits_inj'. intros i Hi. rewrite Z.land_spec, Z.ldiff_spec, Z.bits_0.
    by destruct (Z.testbit a i), (Z.testbit (Z.ones (32 - p)) i). }
  rewrite E, <- Z.lxor_lor, <- Z.add_nocarry_lxor by done.
  rewrite Z.ldiff_ones_r, Z.shiftl_mul_pow2, Z.shiftr_div_pow2, Z.ones_equiv by lia.
  pose proof (Z.div_mod a (2 ^ (32 - p)) ltac:(lia)). lia.
Qed.

(** The size of a block with prefix [p]. *)
Definition block (p : Z) : Z := 2 ^ (32 - p).

Lemma block_pos p : 0 ≤ p ≤ 32 → 0 < block p.
Proof. intros. apply Z.pow_pos_nonneg; lia. Qed.

Lemma block_divide p q : 0 ≤ p ≤ q → q ≤ 32 → (block q | block p).
Proof.
  intros. exists (2 ^ (q - p)). unfold block. rewrite <- Z.pow_add_r by lia. f_equal. lia.
Qed.

Section laws.
Context `{IpnetLaws}.

Lemma network_eq n : net_network n = net_addr n - net_addr n mod block (net_prefix_len n).
Proof.
  rewrite net_network_mask. apply land_netmask; [apply net_addr_range|apply net_prefix_range].
Qed.

Lemma broadcast_eq n : net_broadcast n = net_network n + block (net_prefix_len n) - 1.
Proof.
  rewrite network_eq, net_broadcast_mask, lor_hostmask;
    [unfold block; lia|apply net_addr_range|apply net_prefix_range].
Qed.

Lemma network_divide n : (block (net_prefix_len n) | net_network n).
Proof.
  pose proof (block_pos _ (net_prefix_range n)).
  exists (net_addr n / block (net_prefix_len n)).
  rewrite network_eq.
  pose proof (Z.div_mod (net_addr n) (block (net_prefix_len n)) ltac:(lia)). lia.
Qed.

Lemma network_nonneg n : 0 ≤ net_network n.
Proof.
  pose proof (block_pos _ (net_prefix_range n)). pose proof (net_addr_range n).
  rewrite network_eq.
  pose proof (Z.mod_le (net_addr n) (block (net_prefix_len n)) ltac:(lia) ltac:(lia)). lia.
Qed.

Lemma network_le_addr n : net_network n ≤ net_addr n ≤ net_broadcast n.
Proof.
  pose proof (block_pos _ (net_prefix_range n)).
  rewrite broadcast_eq, network_eq.
  pose proof (Z.mod_pos_bound (net_addr n) (block (net_prefix_len n)) ltac:(lia)). lia.
Qed.

Lemma broadcast_u32 n : net_broadcast n < 2 ^ 32.
Proof.
  destruct (network_divide n) as [k Hk]. pose proof (network_le_addr n) as Hle.
  pose proof (net_addr_range n) as Ha. pose proof (net_prefix_range n) as Hp.
  pose proof (block_pos _ Hp) as Hpos. rewrite broadcast_eq in *. rewrite Hk in *.
  assert (Hb : 2 ^ 32 = 2 ^ net_prefix_len n * block (net_prefix_len n)).
  { unfold block. rewrite <- Z.pow_add_r by lia. f_equal. lia. }
  rewrite Hb in *. assert (k < 2 ^ net_prefix_len n) by nia. nia.
Qed.

Lemma trunc_network n : net_network (net_trunc n) = net_network n.
Proof.
  rewrite network_eq, net_trunc_addr, net_trunc_prefix.
  destruct (network_divide n) as [k ->].
  rewrite Z.mod_mul; [lia|]. pose proof (block_pos _ (net_prefix_range n)). lia.
Qed.

Lemma trunc_broadcast n : net_broadcast (net_trunc n) = net_broadcast n.
Proof. by rewrite !broadcast_eq, trunc_network, net_trunc_prefix. Qed.

(** Membership of an address, the meaning of a network as a set. *)
Definition in_net (n : ipv4net) (a : Z) : Prop := net_network n ≤ a ≤ net_broadcast n.

Lemma contains_addr_true n a : net_contains_addr n a = true ↔ in_net n a.
Proof. rewrite net_contains_addr_range, andb_true_iff, !Z.leb_le. done. Qed.

Lemma contains_true m n :
  net_contains m n = true ↔ ∀ a, in_net n a → in_net m a.
Proof.
  rewrite net_contains_range, andb_true_iff, !Z.leb_le. unfold in_net.
  pose proof (network_le_addr n). split; [intros [??] a ?; lia|].
  intros Hs. pose proof (Hs (net_network n) ltac:(lia)).
  pose proof (Hs (net_broadcast n) ltac:(lia)). lia.
Qed.

(** Two aligned blocks share an address only if one holds the start of the
    other: the test of [check_no_overlap]. *)
Lemma overlap_iff m n :
  in_net m (net_network n) ∨ in_net n (net_network m) ↔ ∃ a, in_net m a ∧ in_net n a.
Proof.
  unfold in_net. pose proof (network_le_addr m). pose proof (network_le_addr n). split.
  - intros [?|?]; [exists (net_network n)|exists (net_network m)]; lia.
  - intros [a ?]. destruct (Z.le_ge_cases (net_network m) (net_network n)); lia.
Qed.
End laws.

(** ** Printing and parsing an IPv4 address *)

Lemma read_digits_app s c rest :
  Forall is_digit s → to_digit 10 c = None →
  read_digits 10 (s ++ c :: rest) = ((λ c, c - 48) <$> s, c :: rest).
Proof.
  intros Hs Hc. induction Hs as [|d s Hd _ IH]; cbn [app read_digits fmap list_fmap].
  - by rewrite Hc.
  - rewrite to_digit_dec by done. by rewrite IH.
Qed.

Lemma read_digits_all s :
  Forall is_digit s → read_digits 10 s = ((λ c, c - 48) <$> s, []).
Proof.
  induction 1 as [|d s Hd _ IH]; [done|]. cbn [read_digits fmap list_fmap].
  rewrite to_digit_dec by done. by rewrite IH.
Qed.

Lemma foldl_digits s acc :
  foldl (λ a d, a * 10 + d) acc ((λ c, c - 48) <$> s) = dec_value s acc.
Proof. revert acc. induction s as [|c s IH]; intros acc; [done|]. apply IH. Qed.

(** What follows a number: the end, or a character that is no digit. *)
Definition stops (rest : str) : Prop :=
  match rest with [] => True | c :: _ => to_digit 10 c = None end.

Lemma read_number_octet o rest :
  0 ≤ o ≤ 255 → stops rest →
  read_number 10 3 false 255 (to_string o ++ rest) = Some (o, rest).
Proof.
  intros Ho Hr. destruct (to_string_spec o) as (Hd & Hne & Hv & Hh); [lia|].
  assert (Hl : (length (to_string o) ≤ 3)%nat ∧ (o < 10 → length (to_string o) = 1%nat)).
  { assert (Hall : forallb (λ n, Nat.leb (length (to_string n)) 3 &&
      ((10 <=? n) || Nat.eqb (length (to_string n)) 1)) (seqZ 0 256) = true) by by vm_compute.
    rewrite forallb_forall in Hall. specialize (Hall o).
    rewrite <- list_elem_of_In, elem_of_seqZ in Hall.
    specialize (Hall ltac:(lia)). apply andb_true_iff in Hall as [?%Nat.leb_le Hs].
    split; [done|]. intros. apply orb_true_iff in Hs as [?%Z.leb_le|?%Nat.eqb_eq]; [lia|done]. }
  unfold read_number.
  assert (E : read_digits 10 (to_string o ++ rest) = ((λ c, c - 48) <$> to_string o, rest)).
  { destruct rest; [by rewrite app_nil_r, read_digits_all|by apply read_digits_app]. }
  rewrite E, length_fmap. rewrite bool_decide_false by lia.
  destruct (to_string o) as [|c s] eqn:Eo; [done|]. cbn [fmap list_fmap negb andb].
  destruct ((c - 48 =? 0) && bool_decide _) eqn:Ez.
  { apply andb_true_iff in Ez as [Hc%Z.eqb_eq Hn%bool_decide_eq_true].
    destruct Hl as [_ Hl]. destruct (Z.ltb_spec o 10); [specialize (Hl ltac:(done)); lia|].
    exfalso. apply Hh; [done|]. cbn. f_equal. lia. }
  pose proof (foldl_digits (c :: s) 0) as Hf. cbn [fmap list_fmap] in Hf.
  rewrite Hf, Hv. destruct (Z.ltb_spec 255 o); [lia|done].
Qed.

Lemma octets_range a : Forall (λ o, 0 ≤ o ≤ 255) (octets a).
Proof.
  assert (Hm : ∀ x, 0 ≤ x mod 256 ≤ 255).
  { intros x. pose proof (Z.mod_pos_bound x 256 ltac:(lia)). lia. }
  by repeat (apply Forall_cons; split; [done|]).
Qed.

Lemma octets_value a :
  0 ≤ a < 2 ^ 32 →
  ipv4 (Z.shiftr a 24 mod 256) (Z.shiftr a 16 mod 256) (Z.shiftr a 8 mod 256) (a mod 256) = a.
Proof.
  intros Ha. unfold ipv4. rewrite !Z.shiftr_div_pow2 by lia. change (2 ^ 24) with (256 * 256 * 256).
  change (2 ^ 16) with (256 * 256). change (2 ^ 8) with 256. rewrite <- !Z.div_div by lia.
  rewrite (Z.mod_small (a / 256 / 256 / 256)).
  2: { split; [repeat apply Z.div_pos; lia|]. repeat apply Z.div_lt_upper_bound; lia. }
  pose proof (Z.div_mod a 256 ltac:(lia)). pose proof (Z.div_mod (a / 256) 256 ltac:(lia)).
  pose proof (Z.div_mod (a / 256 / 256) 256 ltac:(lia)). lia.
Qed.

Lemma read_ipv4_to_string a rest :
  0 ≤ a < 2 ^ 32 → stops rest →
  read_ipv4_addr (ipv4_to_string a ++ rest) = Some (a, rest).
Proof.
  intros Ha Hr. unfold ipv4_to_string, read_ipv4_addr, octets.
  pose proof (octets_range a) as Ho. unfold octets in Ho.
  apply Forall_cons in Ho as [H1 Ho]. apply Forall_cons in Ho as [H2 Ho].
  apply Forall_cons in Ho as [H3 Ho]. apply Forall_cons in Ho as [H4 _].
  pose proof (octets_value a Ha) as Hval. unfold ipv4 in Hval.
  remember (Z.shiftr a 24 mod 256) as o1. remember (Z.shiftr a 16 mod 256) as o2.
  remember (Z.shiftr a 8 mod 256) as o3. remember (a mod 256) as o4.
  change (lit ".") with [46]. unfold join. cbn [fmap list_fmap].
  rewrite <- !app_assoc. cbn [read_octets read_separator].
  rewrite read_number_octet by done. cbn [app].
  change (46 =? 46) with true. cbv iota. rewrite read_number_octet by done.
  cbn [app]. change (46 =? 46) with true. cbv iota. rewrite read_number_octet by done.
  cbn [app]. change (46 =? 46) with true. cbv iota. rewrite read_number_octet by done.
  f_equal. f_equal. lia.
Qed.

(** An address prints to text that parses to the same address. *)
Lemma parse_ipv4_to_string a : 0 ≤ a < 2 ^ 32 → parse_ip (ipv4_to_string a) = Some (V4 a).
Proof.
  intros Ha. pose proof (read_ipv4_to_string a [] Ha I) as E. rewrite app_nil_r in E.
  unfold parse_ip. by rewrite E.
Qed.

(** A printed address has at most 15 bytes, the limit of the IPv4 parser. *)
Lemma ipv4_to_string_len a : utf8_len (ipv4_to_string a) ≤ 15.
Proof.
  assert (Ho : ∀ o, 0 ≤ o ≤ 255 → utf8_len (to_string o) ≤ 3).
  { intros o Ho.
    assert (Hall : forallb (λ n, utf8_len (to_string n) <=? 3) (seqZ 0 256) = true) by by vm_compute.
    rewrite forallb_forall in Hall. apply Z.leb_le, Hall.
    rewrite <- list_elem_of_In, elem_of_seqZ. lia. }
  unfold ipv4_to_string. pose proof (octets_range a) as Hr. unfold octets in *.
  repeat (apply Forall_cons in Hr as [? Hr]). clear Hr. change (lit ".") with [46].
  unfold join. cbn [fmap list_fmap]. rewrite !utf8_len_app. change (utf8_len [46]) with 1.
  repeat match goal with
  | H : 0 ≤ ?o ≤ 255 |- context [to_string ?o] =>
      pose proof (Ho o H); generalize dependent (utf8_len (to_string o)); intros
  end. lia.
Qed.

Lemma parse_v4_to_string a : 0 ≤ a < 2 ^ 32 → parse_ipv4 (ipv4_to_string a) = Some a.
Proof.
  intros Ha. pose proof (read_ipv4_to_string a [] Ha I) as E. rewrite app_nil_r in E.
  unfold parse_ipv4. rewrite E. pose proof (ipv4_to_string_len a).
  destruct (Z.ltb_spec 15 (utf8_len (ipv4_to_string a))); [lia|done].
Qed.

(** The characters of a printed address: digits and dots. *)
Lemma ipv4_to_string_chars a c : c ∈ ipv4_to_string a → is_digit c ∨ c = 46.
Proof.
  unfold ipv4_to_string. change (lit ".") with [46].
  intros [->|(q & Hq & Hin)]%elem_of_join; [by right|left].
  apply list_elem_of_fmap in Hq as (o & -> & Ho).
  pose proof (octets_range a) as Hr. rewrite Forall_forall in Hr.
  destruct (to_string_spec o) as (Hd & _); [by apply Hr|].
  rewrite Forall_forall in Hd. auto.
Qed.

Lemma net_to_string_chars `{IpnetLaws} n c : c ∈ net_to_string n → 46 ≤ c ≤ 57.
Proof.
  rewrite net_to_string_spec, !elem_of_app. unfold is_digit.
  intros [[Hd|Hd]%ipv4_to_string_chars|[Hs%list_elem_of_singleton|Hp]];
    [unfold is_digit in Hd; lia|lia|subst c; cbn; lia|].
  destruct (to_string_spec (net_prefix_len n)) as (Hd & _); [apply net_prefix_range|].
  rewrite Forall_forall in Hd. apply Hd in Hp. unfold is_digit in Hp. lia.
Qed.

(** ** A reference implementation of the [ipnet] laws *)
Module IpnetRef.

Definition ok_net (a p : Z) : bool := (0 <=? a) && (a <? 2 ^ 32) && (0 <=? p) && (p <=? 32).

Record net := Net { n_addr : Z; n_prefix : Z; n_ok : Is_true (ok_net n_addr n_prefix) }.

Program Definition mk (a p : Z) : option net :=
  match decide (Is_true (ok_net a p)) with
  | left Hok => Some (Net a p Hok)
  | right _ => None
  end.

Definition zero : net := Net 0 0 I.

Definition network (n : net) : Z := Z.land (n_addr n) (netmask (n_prefix n)).
Definition broadcast (n : net) : Z := Z.lor (n_addr n) (hostmask (n_prefix n)).

Definition from_netmask (a m : Z) : option net :=
  match list_find (λ p, m = netmask p) (seqZ 0 33) with
  | Some (_, p) => mk a p
  | None => None
  end.

Definition to_str (n : net) : str := ipv4_to_string (n_addr n) ++ 47 :: to_string (n_prefix n).

Definition from_str (s : str) : option net :=
  match read_ipv4_addr s with
  | Some (a, 47 :: p) => match parse_unsigned 255 p with Some p => mk a p | None => None end
  | _ => None
  end.

Lemma mk_spec a p n : mk a p = Some n ↔ n_addr n = a ∧ n_prefix n = p.
Proof.
  unfold mk. split.
  - case_match; naive_solver.
  - intros [<- <-]. destruct n as [a p Hok]. simpl. case_match; [|done].
    f_equal. f_equal. apply proof_irrel.
Qed.

Lemma net_ranges n : (0 ≤ n_addr n < 2 ^ 32) ∧ 0 ≤ n_prefix n ≤ 32.
Proof. destruct n as [a p Hok]. simpl. apply Is_true_true in Hok. unfold ok_net in Hok. lia. Qed.

Lemma mk_ok a p : 0 ≤ a < 2 ^ 32 → 0 ≤ p ≤ 32 → ∃ n, mk a p = Some n.
Proof.
  intros. unfold mk. destruct (decide _) as [|Hn]; [eauto|].
  exfalso. apply Hn, Is_true_true. unfold ok_net. lia.
Qed.

Lemma netmask_inj p q : 0 ≤ p ≤ 32 → 0 ≤ q ≤ 32 → netmask p = netmask q → p = q.
Proof.
  intros Hp Hq E. unfold netmask in E.
  assert (E' : hostmask p = hostmask q).
  { rewrite <- (Z.lxor_0_l (hostmask p)), <- (Z.lxor_0_l (hostmask q)),
      <- (Z.lxor_nilpotent (Z.ones 32)), !Z.lxor_assoc. by rewrite E. }
  unfold hostmask in E'. rewrite !Z.ones_equiv in E'.
  assert (2 ^ (32 - p) = 2 ^ (32 - q)) as Hpow by lia.
  apply Z.pow_inj_r in Hpow; lia.
Qed.
End IpnetRef.

#[export] Instance ipnet_ref : Ipnet := {|
  ipv4net := IpnetRef.net;
  net_addr := IpnetRef.n_addr;
  net_prefix_len := IpnetRef.n_prefix;
  net_network := IpnetRef.network;
  net_broadcast := IpnetRef.broadcast;
  net_trunc n := default n (IpnetRef.mk (IpnetRef.network n) (IpnetRef.n_prefix n));
  net_contains_addr n a := (IpnetRef.network n <=? a) && (a <=? IpnetRef.broadcast n);
  net_contains m n := (IpnetRef.network m <=? IpnetRef.network n) &&
                      (IpnetRef.broadcast n <=? IpnetRef.broadcast m);
  net_new := IpnetRef.mk;
  net_new_assert a p := default IpnetRef.zero (IpnetRef.mk a p);
  net_with_netmask := IpnetRef.from_netmask;
  net_from_str := IpnetRef.from_str;
  net_to_string := IpnetRef.to_str;
  ipnet := IpnetRef.net;
  ipnet_contains n ip :=
    match ip with
    | V4 a => (IpnetRef.network n <=? a) && (a <=? IpnetRef.broadcast n)
    | V6 _ => false
    end
|}.

#[export] Instance ipnet_ref_laws : IpnetLaws.
Proof.
  split; cbn.
  - intros n. apply IpnetRef.net_ranges.
  - intros n. apply IpnetRef.net_ranges.
  - intros [a p Ha] [b q Hb]; simpl; intros -> ->. f_equal. apply proof_irrel.
  - done.
  - done.
  - intros n. destruct (IpnetRef.net_ranges n) as [Ha Hp].
    assert (Hn : 0 ≤ IpnetRef.network n < 2 ^ 32).
    { unfold IpnetRef.network. rewrite land_netmask by done.
      assert (0 < 2 ^ (32 - IpnetRef.n_prefix n)) by (apply Z.pow_pos_nonneg; lia).
      pose proof (Z.mod_pos_bound (IpnetRef.n_addr n) (2 ^ (32 - IpnetRef.n_prefix n)) ltac:(lia)).
      pose proof (Z.mod_le (IpnetRef.n_addr n) (2 ^ (32 - IpnetRef.n_prefix n)) ltac:(lia) ltac:(lia)).
      lia. }
    destruct (IpnetRef.mk_ok _ _ Hn Hp) as [m Hm]. rewrite Hm. by apply IpnetRef.mk_spec in Hm as [].
  - intros n. destruct (IpnetRef.mk _ _) as [m|] eqn:Hm; [|done].
    by apply IpnetRef.mk_spec in Hm as [].
  - done.
  - done.
  - intros a p n Ha Hp. rewrite IpnetRef.mk_spec. pose proof (IpnetRef.net_ranges n). naive_solver lia.
  - intros a p Ha Hp. destruct (IpnetRef.mk_ok _ _ Ha Hp) as [m Hm]. rewrite Hm.
    by apply IpnetRef.mk_spec in Hm.
  - intros a m n Ha. unfold IpnetRef.from_netmask.
    pose proof (IpnetRef.net_ranges n) as [Hna Hnp].
    destruct (list_find _ _) as [[i p]|] eqn:E.
    + apply list_find_Some in E as (Hl & -> & _).
      apply list_elem_of_lookup_2, elem_of_seqZ in Hl.
      rewrite IpnetRef.mk_spec. split; [naive_solver|].
      intros [? Hm]. split; [done|]. apply IpnetRef.netmask_inj in Hm; lia.
    + apply list_find_None in E. rewrite Forall_forall in E.
      split; [done|]. intros [_ ->]. exfalso.
      apply (E (IpnetRef.n_prefix n)); [apply elem_of_seqZ; lia|done].
  - done.
  - intros n. destruct (IpnetRef.net_ranges n) as [Ha Hp].
    unfold IpnetRef.from_str, IpnetRef.to_str.
    rewrite read_ipv4_to_string by done. rewrite parse_to_string by lia.
    by apply IpnetRef.mk_spec.
Qed.
