(* ===== verification/Validate.v ===== *)
(** * Input checks (crates/lodger-core/src/validate.rs)

    Every string that reaches libvirt passes one of these checks first.  The
    definitions follow the source check by check, in its order; the theorems say
    which inputs pass, what the accepted form is, and which error the others
    get. *)

From S2P Require Import Prelude Text Net.

Definition NAME_MAX_LEN : Z := 64.
Definition SUBNET_MAX_PREFIX : Z := 30.
Definition INTERFACE_MAX_LEN : Z := 15.
Definition PATH_MAX_LEN : Z := 4096.

(** Why a piece of input was rejected. *)
Inductive InputError `{Ipnet} : Type :=
| Nul (field : str)
| Empty (field : str)
| TooLong (field : str) (len max : Z)
| BadFirstChar (field : str) (ch : Z)
| BadChar (field : str) (ch : Z)
| SubnetSyntax (field : str)
| SubnetHostBits (field : str) (network : ipv4net)
| SubnetNotPrivate (field : str)
| SubnetTooSmall (field : str) (max : Z)
| SubnetOverlap (field other_name : str) (other_subnet : ipv4net)
| PathNotAbsolute (field : str)
| PathDotSegment (field : str)
| PathControl (field : str)
| SystemPath (field path : str)
| HostSyntax (field : str)
| PathInUse (field other_name : str)
| NfsExportInUse (other_name : str)
| InterfaceName (field : str)
| NoSuchBridge (name : str)
| SizeOutOfRange (field : str) (min max : Z)
| VolumeNameInUse (pool name : str).

#[export] Instance InputError_eq_dec `{IpnetLaws} : EqDecision InputError.
Proof. solve_decision. Defined.

Section validate.
Context `{Ipnet}.

Definition check_text (field value : str) : result InputError str :=
  if contains_char 0 value then Err (Nul field) else Ok value.

(** ['.' | '_' | '-']. *)
Definition name_punct (c : Z) : bool := (c =? 46) || (c =? 95) || (c =? 45).
Definition name_char (c : Z) : bool := is_ascii_alphanumeric c || name_punct c.

(** ["." | ".."] *)
Definition is_dots (s : str) : bool := bool_decide (s = lit "." ∨ s = lit "..").

Definition parse_interface (field value : str) : result InputError str :=
  _ ← check_text field value;
  let fine := negb (bool_decide (value = [])) &&
              (utf8_len value <=? INTERFACE_MAX_LEN) &&
              forallb name_char value &&
              negb (is_dots value) in
  if fine then Ok value else Err (InterfaceName field).

(** The folder names of a path: [value.split('/').filter(|p| !p.is_empty())]. *)
Definition path_parts (value : str) : list str := filter (λ p, p ≠ []) (split 47 value).

Definition path_control (c : Z) : bool := is_control c || (c =? 65534) || (c =? 65535).

Definition parse_path (field value : str) : result InputError str :=
  _ ← check_text field value;
  if bool_decide (value = []) then Err (Empty field)
  else if negb (starts_with (lit "/") value) then Err (PathNotAbsolute field)
  else if PATH_MAX_LEN <? utf8_len value then
    Err (TooLong field (utf8_len value) PATH_MAX_LEN)
  else
    let parts := path_parts value in
    if existsb is_dots parts then Err (PathDotSegment field)
    else if existsb path_control value then Err (PathControl field)
    else Ok (lit "/" ++ join (lit "/") parts).

Definition parse_host (field value : str) : result InputError str :=
  _ ← check_text field value;
  if bool_decide (value = []) then Err (Empty field)
  else if 253 <? utf8_len value then Err (TooLong field (utf8_len value) 253)
  else
    let fine := forallb (λ c, is_ascii_alphanumeric c || ((c =? 46) || (c =? 45) || (c =? 58)))
                        value in
    if negb fine || starts_with (lit "-") value || starts_with (lit ".") value
    then Err (HostSyntax field)
    else Ok value.

(** A checked name.  [Name::parse] is its only constructor in the source. *)
Record Name := MkName { as_str : str }.

Definition Name_parse (field value : str) : result InputError Name :=
  _ ← check_text field value;
  match value with
  | [] => Err (Empty field)
  | first :: chars =>
      if negb (is_ascii_alphanumeric first) then Err (BadFirstChar field first)
      else match List.find (λ c, negb (name_char c)) chars with
           | Some ch => Err (BadChar field ch)
           | None =>
               if NAME_MAX_LEN <? utf8_len value
               then Err (TooLong field (utf8_len value) NAME_MAX_LEN)
               else Ok (MkName value)
           end
  end.

Definition PRIVATE_RANGES : list ipv4net :=
  [net_new_assert (ipv4 10 0 0 0) 8;
   net_new_assert (ipv4 172 16 0 0) 12;
   net_new_assert (ipv4 192 168 0 0) 16].

Definition parse_subnet (field value : str) : result InputError ipv4net :=
  _ ← check_text field value;
  net ← ok_or (net_from_str value) (SubnetSyntax field);
  if negb (bool_decide (net_to_string net = value)) then Err (SubnetSyntax field)
  else if negb (existsb (λ range, net_contains range net) PRIVATE_RANGES)
  then Err (SubnetNotPrivate field)
  else if SUBNET_MAX_PREFIX <? net_prefix_len net
  then Err (SubnetTooSmall field SUBNET_MAX_PREFIX)
  else if negb (net_addr net =? net_network net)
  then Err (SubnetHostBits field (net_trunc net))
  else Ok net.

Definition check_no_overlap (field : str) (subnet : ipv4net)
    (existing : list (str * ipv4net)) : result InputError unit :=
  match List.find (λ '(_, other), net_contains_addr subnet (net_network other) ||
                                  net_contains_addr other (net_network subnet)) existing with
  | Some (name, other) => Err (SubnetOverlap field name other)
  | None => Ok tt
  end.
End validate.

#[export] Instance Name_eq_dec : EqDecision Name.
Proof. solve_decision. Defined.

(** ** What the checks accept *)

(** The names that Lodger gives: 1 to 64 characters of the allowlist, the
    first one a letter or a digit. *)
Definition good_name (s : str) : Prop :=
  (∃ c s', s = c :: s' ∧ is_ascii_alphanumeric c = true ∧ Forall (λ c, name_char c = true) s') ∧
  (length s ≤ 64)%nat.

(** A plain absolute path: one slash before each folder name, no name empty,
    [.] or [..], and no control character. *)
Definition plain_path (p : str) : Prop :=
  ∃ parts, p = lit "/" ++ join (lit "/") parts ∧
    Forall (λ q, q ≠ [] ∧ (47 ∉ q) ∧ is_dots q = false ∧
      Forall (λ c, path_control c = false) q) parts.

Section facts.
Context `{Ipnet}.

Lemma check_text_Ok field value t : check_text field value = Ok t ↔ t = value ∧ 0 ∉ value.
Proof.
  unfold check_text. destruct (contains_char 0 value) eqn:E.
  - apply contains_char_true in E. naive_solver.
  - apply contains_char_false in E. naive_solver.
Qed.

Lemma check_text_fine field value : 0 ∉ value → check_text field value = Ok value.
Proof. intros. by apply check_text_Ok. Qed.

Lemma name_char_ascii c : name_char c = true → 0 < c < 128.
Proof.
  unfold name_char, name_punct. rewrite !orb_true_iff, !Z.eqb_eq.
  intros [?%alphanumeric_ascii|?]; lia.
Qed.

Lemma path_parts_plain value :
  Forall (λ q, q ≠ [] ∧ 47 ∉ q) (path_parts value).
Proof.
  unfold path_parts. apply Forall_forall. intros q [Hq Hin]%list_elem_of_filter.
  split; [done|]. pose proof (split_parts 47 value) as Hs. rewrite Forall_forall in Hs. auto.
Qed.

(** The folder names of a plain path are the ones it was joined from. *)
Lemma path_parts_join parts :
  Forall (λ q, q ≠ [] ∧ 47 ∉ q) parts → path_parts (lit "/" ++ join (lit "/") parts) = parts.
Proof.
  intros Hp. change (lit "/") with [47]. unfold path_parts. cbn [app].
  change (split 47 (47 :: join [47] parts)) with ([] :: split 47 (join [47] parts)).
  rewrite filter_cons_False by naive_solver.
  destruct parts as [|q parts]; [done|].
  rewrite split_join; [|done|eapply Forall_impl; [apply Hp|naive_solver]].
  apply filter_all. eapply Forall_impl; [apply Hp|naive_solver].
Qed.

Lemma path_parts_elem x q value : q ∈ path_parts value → x ∈ q → x ∈ value.
Proof. intros [_ Hq]%list_elem_of_filter Hx. by eapply elem_of_split. Qed.

(** The accepted path, piece by piece. *)
Lemma parse_path_Ok field value p :
  parse_path field value = Ok p ↔
  p = lit "/" ++ join (lit "/") (path_parts value) ∧ (0 ∉ value) ∧
  (∃ s, value = lit "/" ++ s) ∧ utf8_len value ≤ PATH_MAX_LEN ∧
  Forall (λ q, is_dots q = false) (path_parts value) ∧
  Forall (λ c, path_control c = false) value.
Proof.
  unfold parse_path. rewrite bind_Ok. setoid_rewrite check_text_Ok.
  rewrite <- !existsb_false.
  assert (Hs : starts_with (lit "/") value = true ↔ ∃ s, value = lit "/" ++ s)
    by apply starts_with_true.
  rewrite <- Hs. split.
  - intros (t & [-> Hn] & Hp). case_bool_decide; [done|].
    destruct (starts_with _ _); [|done]. simpl in Hp.
    destruct (Z.ltb_spec PATH_MAX_LEN (utf8_len value)); [done|].
    destruct (existsb is_dots _); [done|]. destruct (existsb path_control value); [done|].
    naive_solver.
  - intros (-> & Hn & Hsw & Hl & Hd & Hc). exists value. split; [done|].
    rewrite bool_decide_false by (intros ->; done). rewrite Hsw, Hd, Hc. simpl.
    destruct (Z.ltb_spec PATH_MAX_LEN (utf8_len value)); [lia|done].
Qed.

Lemma parse_path_plain field value p : parse_path field value = Ok p → plain_path p.
Proof.
  rewrite parse_path_Ok. intros (-> & _ & _ & _ & Hd & Hc).
  exists (path_parts value). split; [done|]. rewrite Forall_forall in *. intros q Hq.
  pose proof (path_parts_plain value) as Hp. rewrite Forall_forall in Hp.
  destruct (Hp q Hq). split_and!; auto. apply Forall_forall. intros c Hcq.
  rewrite Forall_forall in Hc. apply Hc. by eapply path_parts_elem.
Qed.

(** The plain form is no longer than the input, so it stays within the limit. *)
Lemma plain_form_len value s :
  value = lit "/" ++ s →
  utf8_len (lit "/" ++ join (lit "/") (path_parts value)) ≤ utf8_len value.
Proof.
  intros ->. change (lit "/") with [47]. unfold path_parts. cbn [app].
  change (split 47 (47 :: s)) with ([] :: split 47 s).
  rewrite filter_cons_False by naive_solver. rewrite !utf8_len_cons.
  pose proof (utf8_len_join_filter (λ p : str, p ≠ []) 47 (split 47 s)) as Hl.
  rewrite join_split in Hl. lia.
Qed.

Lemma parse_path_idem f g value p : parse_path f value = Ok p → parse_path g p = Ok p.
Proof.
  intros Hp. pose proof (parse_path_plain _ _ _ Hp) as (parts & -> & Hparts).
  apply parse_path_Ok in Hp as (E & Hn & [s Hs] & Hl & Hd & Hc).
  assert (Hpp : path_parts (lit "/" ++ join (lit "/") parts) = parts).
  { apply path_parts_join. eapply Forall_impl; [apply Hparts|naive_solver]. }
  apply parse_path_Ok. rewrite Hpp. split_and!; [done| |by eexists| | |].
  - intros [Hz%list_elem_of_singleton|Hj]%elem_of_app; [done|].
    apply elem_of_join in Hj as [[=]|(q & Hq & Hin)].
    rewrite Forall_forall in Hparts. destruct (Hparts q Hq) as (_ & _ & _ & Hqc).
    rewrite Forall_forall in Hqc. by specialize (Hqc 0 Hin).
  - rewrite E. etrans; [by eapply plain_form_len|done].
  - eapply Forall_impl; [apply Hparts|naive_solver].
  - apply Forall_forall. intros c [Hz%list_elem_of_singleton|Hj]%elem_of_app; [by subst c|].
    apply elem_of_join in Hj as [->|(q & Hq & Hin)]; [done|].
    rewrite Forall_forall in Hparts. destruct (Hparts q Hq) as (_ & _ & _ & Hqc).
    rewrite Forall_forall in Hqc. auto.
Qed.

Lemma Name_parse_Ok field value n :
  Name_parse field value = Ok n ↔ n = MkName value ∧ good_name value.
Proof.
  unfold Name_parse, good_name. rewrite bind_Ok. setoid_rewrite check_text_Ok.
  destruct value as [|c s]; [naive_solver|].
  assert (Hfind : List.find (λ c, negb (name_char c)) s = None ↔ Forall (λ c, name_char c = true) s).
  { rewrite find_None_Forall. apply Forall_iff. intros x. by rewrite negb_false_iff. }
  assert (Hlen : is_ascii_alphanumeric c = true → Forall (λ c, name_char c = true) s →
    utf8_len (c :: s) = Z.of_nat (length (c :: s)) ∧ 0 ∉ c :: s).
  { intros Hc%alphanumeric_ascii Hs. split.
    - apply utf8_len_ascii. constructor; [lia|]. eapply Forall_impl; [done|].
      intros x Hx%name_char_ascii. lia.
    - rewrite elem_of_cons. intros [<-|Hin]; [lia|]. rewrite Forall_forall in Hs.
      apply Hs, name_char_ascii in Hin. lia. }
  unfold NAME_MAX_LEN. destruct (is_ascii_alphanumeric c) eqn:Ec; simpl.
  2: { split; [naive_solver|]. intros (_ & (c' & s' & [= <- <-] & ? & _) & _). congruence. }
  destruct (List.find _ s) as [ch|] eqn:Ef.
  { split; [naive_solver|]. intros (_ & (c' & s' & [= <- <-] & _ & Hs) & _).
    apply Hfind in Hs. done. }
  destruct (Hlen eq_refl (proj1 Hfind eq_refl)) as [El Hz].
  apply proj1 in Hfind. specialize (Hfind eq_refl).
  destruct (Z.ltb_spec 64 (utf8_len (c :: s))); split; try naive_solver lia.
Qed.

(** ** Properties *)

(** [Name::parse] accepts exactly 1 to 64 characters of the allowlist that
    start with a letter or a digit, and returns them unchanged; every other
    input gets the error that names its first offence: a NUL byte, no
    character at all, a bad first character, the first bad later character, or
    the length. *)
Theorem name_parse_correct field value :
  match Name_parse field value with
  | Ok n => n = MkName value ∧ good_name value
  | Err (Nul f) => f = field ∧ 0 ∈ value
  | Err (Empty f) => f = field ∧ value = []
  | Err (BadFirstChar f ch) =>
      f = field ∧ head value = Some ch ∧ is_ascii_alphanumeric ch = false
  | Err (BadChar f ch) =>
      f = field ∧ ∃ l1 l2, value = l1 ++ ch :: l2 ∧ l1 ≠ [] ∧
        Forall (λ c, name_char c = true) l1 ∧ name_char ch = false
  | Err (TooLong f len max) =>
      f = field ∧ max = 64 ∧ len = Z.of_nat (length value) ∧ 64 < len ∧
      Forall (λ c, name_char c = true) value
  | Err _ => False
  end.
Proof.
  destruct (Name_parse field value) as [n|e] eqn:E; [by apply Name_parse_Ok in E|].
  unfold Name_parse, check_text in E. simpl in E.
  destruct (contains_char 0 value) eqn:Ez.
  { apply contains_char_true in Ez. naive_solver. }
  destruct value as [|c s]; simpl in E; [naive_solver|].
  destruct (is_ascii_alphanumeric c) eqn:Ec; simpl in E; [|naive_solver].
  assert (Hc : name_char c = true) by (unfold name_char; by rewrite Ec).
  destruct (List.find _ s) as [ch|] eqn:Ef; simplify_eq.
  - apply find_Some_split in Ef as (l1 & l2 & -> & Hch & Hl). split; [done|].
    exists (c :: l1), l2. split_and!; [done..| |by apply negb_true_iff].
    constructor; [done|]. eapply Forall_impl; [done|]. intros x. by rewrite negb_false_iff.
  - apply find_None_Forall in Ef.
    assert (Hs : Forall (λ c, name_char c = true) (c :: s)).
    { constructor; [done|]. eapply Forall_impl; [done|]. intros x. by rewrite negb_false_iff. }
    assert (El : utf8_len (c :: s) = Z.of_nat (length (c :: s))).
    { apply utf8_len_ascii. eapply Forall_impl; [done|]. intros x Hx%name_char_ascii. lia. }
    rewrite El in E. destruct (Z.ltb_spec NAME_MAX_LEN (Z.of_nat (length (c :: s)))); naive_solver.
Qed.

(** An accepted path comes back in its plain form: one slash before each
    folder name, no empty, [.] or [..] name and no control character.  The
    plain form names the same folders in the same order as the input, fits the
    path limit, and parses to itself under any field name. *)
Theorem parse_path_canonical field value p :
  parse_path field value = Ok p →
  plain_path p ∧ path_parts p = path_parts value ∧ utf8_len p ≤ PATH_MAX_LEN ∧
  ∀ field', parse_path field' p = Ok p.
Proof.
  intros Hp. split_and!; [by eapply parse_path_plain| | |intros; by eapply parse_path_idem].
  - apply parse_path_Ok in Hp as [-> _]. apply path_parts_join, path_parts_plain.
  - apply parse_path_Ok in Hp as (-> & _ & [s Hs] & Hl & _).
    etrans; [by eapply plain_form_len|done].
Qed.
End facts.

(** ** Subnets *)

(** The RFC 1918 ranges, as intervals of addresses. *)
Definition rfc1918 (a : Z) : Prop :=
  ipv4 10 0 0 0 ≤ a ≤ ipv4 10 255 255 255 ∨
  ipv4 172 16 0 0 ≤ a ≤ ipv4 172 31 255 255 ∨
  ipv4 192 168 0 0 ≤ a ≤ ipv4 192 168 255 255.

Section subnets.
Context `{IpnetLaws}.

Lemma in_net_assert a p x :
  0 ≤ a < 2 ^ 32 → 0 ≤ p ≤ 32 → a mod block p = 0 →
  in_net (net_new_assert a p) x ↔ a ≤ x ≤ a + block p - 1.
Proof.
  intros Ha Hp Hm. destruct (net_new_assert_spec a p Ha Hp) as [Ea Ep].
  unfold in_net. rewrite broadcast_eq, network_eq, Ea, Ep, Hm. lia.
Qed.

Lemma private_ranges_rfc1918 net :
  existsb (λ range, net_contains range net) PRIVATE_RANGES = true →
  ∀ a, in_net net a → rfc1918 a.
Proof.
  rewrite existsb_true. unfold PRIVATE_RANGES. rewrite !Exists_cons, Exists_nil.
  rewrite !contains_true. intros Hc a Ha. unfold rfc1918.
  destruct Hc as [Hc|[Hc|[Hc|[]]]]; specialize (Hc a Ha);
    rewrite in_net_assert in Hc by (unfold ipv4; by vm_compute || lia).
  - left. exact Hc.
  - right; left. exact Hc.
  - right; right. exact Hc.
Qed.

Lemma parse_subnet_Ok field value net :
  parse_subnet field value = Ok net ↔
  (0 ∉ value) ∧ net_from_str value = Some net ∧ net_to_string net = value ∧
  existsb (λ range, net_contains range net) PRIVATE_RANGES = true ∧
  net_prefix_len net ≤ SUBNET_MAX_PREFIX ∧ net_addr net = net_network net.
Proof.
  unfold parse_subnet. rewrite bind_Ok. setoid_rewrite check_text_Ok. split.
  - intros (t & [-> Hn] & Hb). apply bind_Ok in Hb as (n & Hp%ok_or_Ok & Hb).
    case_bool_decide; [|done]. simpl in Hb. run_in Hb. bool_hyps. done.
  - intros (Hn & Hp & Ht & He & Hl & Ha). exists value. split; [done|].
    apply bind_Ok. exists net. split; [by apply ok_or_Ok|].
    rewrite bool_decide_true, He by done. simpl.
    destruct (Z.ltb_spec SUBNET_MAX_PREFIX (net_prefix_len net)); [lia|].
    rewrite Ha, Z.eqb_refl. done.
Qed.

(** A private subnet stays private when its host bits are cleared. *)
Lemma private_trunc net :
  existsb (λ range, net_contains range (net_trunc net)) PRIVATE_RANGES =
  existsb (λ range, net_contains range net) PRIVATE_RANGES.
Proof.
  induction PRIVATE_RANGES as [|r rs IH]; [done|]. simpl. rewrite IH.
  by rewrite !net_contains_range, trunc_network, trunc_broadcast.
Qed.

(** An accepted subnet is written in its canonical form, has no host bit
    set, leaves at least four addresses (so a gateway, one VM, and the two
    reserved ones), and every one of its addresses is in an RFC 1918 range. *)
Theorem parse_subnet_sound field value net :
  parse_subnet field value = Ok net →
  net_to_string net = value ∧ net_addr net = net_network net ∧
  3 ≤ net_broadcast net - net_network net ∧ ∀ a, in_net net a → rfc1918 a.
Proof.
  intros (Hn & Hp & Ht & He & Hl & Ha)%parse_subnet_Ok. split_and!; [done|done| |].
  - rewrite broadcast_eq. unfold block, SUBNET_MAX_PREFIX in *.
    pose proof (Z.pow_le_mono_r 2 2 (32 - net_prefix_len net) ltac:(lia) ltac:(lia)). lia.
  - by apply private_ranges_rfc1918.
Qed.

(** The subnet that the error for set host bits suggests is accepted. *)
Theorem subnet_suggestion_accepted field value f net field' :
  parse_subnet field value = Err (SubnetHostBits f net) →
  f = field ∧ parse_subnet field' (net_to_string net) = Ok net.
Proof.
  unfold parse_subnet at 1. intros [E|(t & Ht & Hb)]%bind_Err.
  { unfold check_text in E. by case_match. }
  apply bind_Err in Hb as [E|(n & Hp%ok_or_Ok & Hb)].
  { by destruct (net_from_str value). }
  case_bool_decide; [|done]. simpl in Hb. run_in Hb. bool_hyps.
  split; [done|]. apply parse_subnet_Ok. split_and!.
  - intros Hz%net_to_string_chars. lia.
  - apply net_from_to_string.
  - done.
  - by rewrite private_trunc.
  - by rewrite net_trunc_prefix.
  - by rewrite trunc_network, net_trunc_addr.
Qed.

(** [check_no_overlap] accepts a subnet exactly when it shares no address
    with any existing one, and otherwise names the first existing network that
    shares an address with it. *)
Theorem check_no_overlap_correct field subnet existing :
  match check_no_overlap field subnet existing with
  | Ok _ => ∀ name other a, (name, other) ∈ existing → in_net subnet a → in_net other a → False
  | Err e => ∃ l1 name other l2,
      e = SubnetOverlap field name other ∧ existing = l1 ++ (name, other) :: l2 ∧
      (∃ a, in_net subnet a ∧ in_net other a) ∧
      ∀ name' other' a, (name', other') ∈ l1 → in_net subnet a → in_net other' a → False
  end.
Proof.
  unfold check_no_overlap. match goal with |- context [List.find ?f _] => set (test := f) end.
  assert (Ht : ∀ p, test p = true ↔ ∃ a, in_net subnet a ∧ in_net p.2 a).
  { intros [name other]. unfold test. rewrite orb_true_iff, !contains_addr_true. apply overlap_iff. }
  assert (Hf : ∀ l, Forall (λ p, test p = false) l → ∀ name other a,
    (name, other) ∈ l → in_net subnet a → in_net other a → False).
  { intros l Hl name other a Hin Ha Hb. rewrite Forall_forall in Hl. specialize (Hl _ Hin).
    assert (test (name, other) = true) by (apply Ht; eauto). congruence. }
  destruct (List.find test existing) as [[name other]|] eqn:E.
  - apply find_Some_split in E as (l1 & l2 & -> & Hx & Hl). apply Ht in Hx.
    exists l1, name, other, l2. naive_solver.
  - apply find_None_Forall in E. by apply Hf.
Qed.
End subnets.

(** ** Witnesses *)

Lemma parse_path_canonical_witness :
  parse_path (lit "Pool folder") (lit "//srv//vms/") = Ok (lit "/srv/vms") ∧
  path_parts (lit "/srv/vms") = path_parts (lit "//srv//vms/").
Proof.
  assert (E : parse_path (lit "Pool folder") (lit "//srv//vms/") = Ok (lit "/srv/vms"))
    by reflexivity.
  split; [exact E|]. by destruct (parse_path_canonical _ _ _ E) as (_ & Hp & _).
Defined.

Definition net_192_168_150 : ipv4net := net_new_assert (ipv4 192 168 150 0) 24.

Lemma parse_subnet_sound_witness :
  parse_subnet (lit "Subnet") (lit "192.168.150.0/24") = Ok net_192_168_150 ∧
  rfc1918 (ipv4 192 168 150 7).
Proof.
  assert (E : parse_subnet (lit "Subnet") (lit "192.168.150.0/24") = Ok net_192_168_150)
    by reflexivity.
  split; [exact E|].
  destruct (parse_subnet_sound _ _ _ E) as (_ & _ & _ & Hr). apply Hr.
  split; by vm_compute.
Defined.

Lemma subnet_suggestion_accepted_witness :
  parse_subnet (lit "Subnet") (lit "192.168.150.7/24") =
    Err (SubnetHostBits (lit "Subnet") net_192_168_150) ∧
  parse_subnet (lit "Subnet") (lit "192.168.150.0/24") = Ok net_192_168_150.
Proof.
  assert (E : parse_subnet (lit "Subnet") (lit "192.168.150.7/24") =
    Err (SubnetHostBits (lit "Subnet") net_192_168_150)) by reflexivity.
  split; [exact E|].
  by destruct (subnet_suggestion_accepted _ _ _ _ (lit "Subnet") E).
Defined.

Lemma check_no_overlap_correct_witness :
  let existing := [(lit "default", net_new_assert (ipv4 192 168 122 0) 24)] in
  check_no_overlap (lit "Subnet") net_192_168_150 existing = Ok tt ∧
  ∀ name other a, (name, other) ∈ existing → in_net net_192_168_150 a → in_net other a → False.
Proof.
  intros existing.
  assert (E : check_no_overlap (lit "Subnet") net_192_168_150 existing = Ok tt) by reflexivity.
  split; [exact E|].
  pose proof (check_no_overlap_correct (lit "Subnet") net_192_168_150 existing) as Hc.
  by rewrite E in Hc.
Defined.
