(* ===== verification/Model.v ===== *)
(** * Model types and live statistics (crates/lodger-core/src/model)

    The objects that Lodger shows, the maps from libvirt's numeric codes, and the
    computation of rates from two samples of counters.  [f64] is IEEE 754
    binary64: the operations are those of Stdlib's [SpecFloat] at precision 53
    and exponent bound 1024, which compute the correctly rounded result. *)

From Stdlib Require Import SpecFloat.
From S2P Require Import Prelude Text.

(** A UUID is its 128-bit value; the program only compares and prints it. *)
Abbreviation Uuid := Z.

(** ** Objects *)

Record HostInfo := {
  hostname : str;
  libvirt_version : str;
  host_cpus : Z;
  host_memory_kib : Z
}.

Inductive VmState :=
  NoState | Running | Blocked | Paused | ShuttingDown | Shutoff | Crashed | Suspended | VmUnknown.

#[export] Instance VmState_eq_dec : EqDecision VmState.
Proof. solve_decision. Defined.

Definition VmState_from_code (code : Z) : VmState :=
  match code with
  | 0 => NoState
  | 1 => Running
  | 2 => Blocked
  | 3 => Paused
  | 4 => ShuttingDown
  | 5 => Shutoff
  | 6 => Crashed
  | 7 => Suspended
  | _ => VmUnknown
  end.

Record Vm := {
  vm_uuid : Uuid;
  vm_name : str;
  vm_state : VmState;
  vm_vcpus : Z;
  vm_memory_kib : Z;
  vm_persistent : bool;
  vm_autostart : bool;
  vm_has_vnc : bool
}.

Inductive PoolState :=
  PoolInactive | PoolBuilding | PoolRunning | PoolDegraded | PoolInaccessible | PoolUnknown.

Definition PoolState_from_code (code : Z) : PoolState :=
  match code with
  | 0 => PoolInactive
  | 1 => PoolBuilding
  | 2 => PoolRunning
  | 3 => PoolDegraded
  | 4 => PoolInaccessible
  | _ => PoolUnknown
  end.

Record Pool := {
  pool_uuid : Uuid;
  pool_name : str;
  pool_state : PoolState;
  pool_capacity_bytes : Z;
  pool_allocation_bytes : Z;
  pool_available_bytes : Z;
  pool_persistent : bool;
  pool_autostart : bool
}.

Record Network := {
  network_uuid : Uuid;
  network_name : str;
  network_active : bool;
  network_persistent : bool;
  network_autostart : bool;
  network_bridge : option str
}.

Inductive VolumeKind := VolFile | VolBlock | VolDir | VolNetwork | VolNetDir | VolPloop | VolUnknown.

Definition VolumeKind_from_code (code : Z) : VolumeKind :=
  match code with
  | 0 => VolFile
  | 1 => VolBlock
  | 2 => VolDir
  | 3 => VolNetwork
  | 4 => VolNetDir
  | 5 => VolPloop
  | _ => VolUnknown
  end.

Record Volume := {
  volume_name : str;
  volume_key : str;
  volume_path : str;
  volume_kind : VolumeKind;
  volume_format : option str;
  volume_capacity_bytes : Z;
  volume_allocation_bytes : Z;
  volume_used_by : list str;
  volume_backing_for : list str
}.

Record Snapshot := {
  snapshot_name : str;
  snapshot_parent : option str;
  snapshot_current : bool
}.

(** ** Binary64 *)

Definition prec : Z := 53.
Definition emax : Z := 1024.
Abbreviation f64 := spec_float.

Definition f64_of_Z (n : Z) : f64 := binary_normalize prec emax n 0 false.
Definition f64_add (x y : f64) : f64 := SFadd prec emax x y.
Definition f64_mul (x y : f64) : f64 := SFmul prec emax x y.
Definition f64_div (x y : f64) : f64 := SFdiv prec emax x y.
Definition f64_zero : f64 := S754_zero false.
Definition f64_hundred : f64 := f64_of_Z 100.
Definition f64_billion : f64 := f64_of_Z 1000000000.

(** [x.clamp(min, max)]. *)
Definition f64_clamp (x lo hi : f64) : f64 :=
  if SFltb x lo then lo else if SFltb hi x then hi else x.

(** [x.round() as u64]: half away from zero, then a saturating cast; NaN is 0. *)
Definition f64_round_u64 (x : f64) : Z :=
  match x with
  | S754_finite false m e =>
      Z.min u64_max
        (if 0 <=? e then Z.shiftl (Zpos m) e
         else (Zpos m + 2 ^ (- e - 1)) / 2 ^ (- e))
  | S754_infinity false => u64_max
  | _ => 0
  end.

(** A [Duration]: whole seconds and nanoseconds below one second. *)
Record Duration := { secs : Z; nanos : Z }.

(** [elapsed.as_secs_f64()]. *)
Definition as_secs_f64 (d : Duration) : f64 :=
  f64_add (f64_of_Z (secs d)) (f64_div (f64_of_Z (nanos d)) f64_billion).

(** ** Counters *)

Inductive StatValue :=
| SInt (v : Z)
| SUInt (v : Z)
| SDouble (v : f64)
| SBool (v : bool)
| SText (v : str).

Definition as_u64 (v : StatValue) : option Z :=
  match v with
  | SInt v => if 0 <=? v then Some v else None
  | SUInt v => Some v
  | _ => None
  end.

Record Counters := {
  cpu_time_ns : option Z;
  memory_current_kib : option Z;
  memory_available_kib : option Z;
  memory_unused_kib : option Z;
  disk_read_bytes : option Z;
  disk_write_bytes : option Z;
  net_rx_bytes : option Z;
  net_tx_bytes : option Z
}.

Definition Counters_default : Counters :=
  Build_Counters None None None None None None None None.

(** Splits [block.0.rd.bytes] into [("block", "rd.bytes")]. *)
Definition indexed (name : str) : option (str * str) :=
  '(group, rest) ← split_once 46 name;
  '(index, field) ← split_once 46 rest;
  _ ← parse_unsigned u32_max index;
  Some (group, field).

(** One iteration of the loop of [Counters::from_params]. *)
Definition add_param (c : Counters) (p : str * StatValue) : Counters :=
  let '(name, value) := p in
  match as_u64 value with
  | None => c
  | Some v =>
      let '(Build_Counters cpu mc ma mu dr dw rx tx) := c in
      let add (sum : option Z) := Some (saturating_add u64_max (default 0 sum) v) in
      if bool_decide (name = lit "cpu.time") then Build_Counters (Some v) mc ma mu dr dw rx tx
      else if bool_decide (name = lit "balloon.current")
      then Build_Counters cpu (Some v) ma mu dr dw rx tx
      else if bool_decide (name = lit "balloon.available")
      then Build_Counters cpu mc (Some v) mu dr dw rx tx
      else if bool_decide (name = lit "balloon.unused")
      then Build_Counters cpu mc ma (Some v) dr dw rx tx
      else
        let i := indexed name in
        if bool_decide (i = Some (lit "block", lit "rd.bytes"))
        then Build_Counters cpu mc ma mu (add dr) dw rx tx
        else if bool_decide (i = Some (lit "block", lit "wr.bytes"))
        then Build_Counters cpu mc ma mu dr (add dw) rx tx
        else if bool_decide (i = Some (lit "net", lit "rx.bytes"))
        then Build_Counters cpu mc ma mu dr dw (add rx) tx
        else if bool_decide (i = Some (lit "net", lit "tx.bytes"))
        then Build_Counters cpu mc ma mu dr dw rx (add tx)
        else c
  end.

Definition from_params (params : list (str * StatValue)) : Counters :=
  foldl add_param Counters_default params.

(** ** Rates *)

Record VmStats := {
  stats_uuid : Uuid;
  cpu_percent : option f64;
  memory_kib : option Z;
  memory_used_kib : option Z;
  disk_read_bps : option Z;
  disk_write_bps : option Z;
  net_rx_bps : option Z;
  net_tx_bps : option Z
}.

(** The closure [delta] of [VmStats::between]. *)
Definition delta (before : option Counters) (now : Counters) (secs : f64)
    (pick : Counters → option Z) : option f64 :=
  b ← (before ≫= pick);
  n ← pick now;
  d ← checked_sub n b;
  if SFltb f64_zero secs then Some (f64_div (f64_of_Z d) secs) else None.

Definition cpu_share (vcpus : Z) (ns_per_s : f64) : f64 :=
  f64_clamp (f64_mul (f64_div (f64_div ns_per_s f64_billion) (f64_of_Z vcpus)) f64_hundred)
            f64_zero f64_hundred.

Definition between (uuid : Uuid) (before : option Counters) (now : Counters)
    (elapsed : Duration) (vcpus : Z) : VmStats :=
  let secs := as_secs_f64 elapsed in
  let delta := delta before now secs in
  let rate pick := f64_round_u64 <$> delta pick in
  {| stats_uuid := uuid;
     cpu_percent :=
       d ← delta cpu_time_ns;
       if 0 <? vcpus then Some (cpu_share vcpus d) else None;
     memory_kib := memory_current_kib now;
     memory_used_kib :=
       match memory_available_kib now, memory_unused_kib now with
       | Some available, Some unused => checked_sub available unused
       | _, _ => None
       end;
     disk_read_bps := rate disk_read_bytes;
     disk_write_bps := rate disk_write_bytes;
     net_rx_bps := rate net_rx_bytes;
     net_tx_bps := rate net_tx_bytes |}.

Example between_idle :
  cpu_percent (between 1 (Some (from_params [(lit "cpu.time", SUInt 0)]))
    (from_params [(lit "cpu.time", SUInt 2500000000)]) {| secs := 5; nanos := 0 |} 1)
  = Some (f64_of_Z 50).
Proof. reflexivity. Qed.
Example between_rate :
  net_rx_bps (between 1 (Some (from_params [(lit "net.0.rx.bytes", SUInt 10)]))
    (from_params [(lit "net.0.rx.bytes", SUInt 17)]) {| secs := 2; nanos := 0 |} 1)
  = Some 4.
Proof. reflexivity. Qed.

(** ** Facts about binary64 *)

(** Neither NaN nor negative. *)
Definition f64_nonneg (x : f64) : Prop :=
  match x with
  | S754_zero _ | S754_infinity false | S754_finite false _ _ => True
  | _ => False
  end.

Definition f64_is_finite (x : f64) : Prop :=
  match x with S754_zero _ | S754_finite _ _ _ => True | _ => False end.

Lemma shr_1_bound mrs : 0 ≤ shr_m mrs → 0 ≤ shr_m (shr_1 mrs) ≤ shr_m mrs.
Proof. destruct mrs as [m r s]. destruct m as [|[p|p|]|]; simpl; lia. Qed.

Lemma iter_shr_1_bound p mrs :
  0 ≤ shr_m mrs → 0 ≤ shr_m (SpecFloat.iter_pos shr_1 p mrs) ≤ shr_m mrs.
Proof.
  revert mrs. induction p as [p IH|p IH|]; intros mrs Hm; cbn [SpecFloat.iter_pos].
  - pose proof (shr_1_bound mrs Hm) as H1. pose proof (IH (shr_1 mrs) ltac:(lia)) as H2.
    pose proof (IH (SpecFloat.iter_pos shr_1 p (shr_1 mrs)) ltac:(lia)). lia.
  - pose proof (IH mrs Hm) as H1. pose proof (IH (SpecFloat.iter_pos shr_1 p mrs) ltac:(lia)). lia.
  - by apply shr_1_bound.
Qed.

Lemma shr_bound mrs e n mrs' e' :
  0 ≤ shr_m mrs → shr mrs e n = (mrs', e') →
  0 ≤ shr_m mrs' ≤ shr_m mrs ∧ e' = Z.max e (e + n).
Proof.
  intros Hm. unfold shr. destruct n as [|p|p]; intros [= <- <-]; [split; lia| |split; lia].
  split; [by apply iter_shr_1_bound|lia].
Qed.

Lemma shr_m_of_loc m l : shr_m (shr_record_of_loc m l) = m.
Proof. by destruct l as [|[]]. Qed.

Lemma digits2_log2 p : Zpos (digits2_pos p) = Z.log2 (Zpos p) + 1.
Proof.
  induction p as [p IH|p IH|]; cbn [digits2_pos]; [..|done]; rewrite Pos2Z.inj_succ, IH.
  - rewrite Pos2Z.inj_xI, Z.log2_succ_double by lia. lia.
  - rewrite Pos2Z.inj_xO, Z.log2_double by lia. lia.
Qed.

Lemma Zdigits2_le m k : 0 ≤ m < 2 ^ k → 0 ≤ k → Zdigits2 m ≤ k.
Proof.
  intros Hm Hk. destruct m as [|p|p]; [done| |lia].
  change (Zdigits2 (Zpos p)) with (Zpos (digits2_pos p)). rewrite digits2_log2.
  pose proof (Z.log2_lt_pow2 (Zpos p) k ltac:(lia)). lia.
Qed.

Lemma shr_fexp_bound m e l k mrs' e' :
  0 ≤ m < 2 ^ k → 0 ≤ k → -1000 ≤ e → shr_fexp prec emax m e l = (mrs', e') →
  0 ≤ shr_m mrs' ≤ m ∧ e ≤ e' ≤ Z.max e (k + e - prec).
Proof.
  intros Hm Hk He. unfold shr_fexp. intros Hs%shr_bound; rewrite shr_m_of_loc in *; [|lia].
  destruct Hs as [Hb ->]. split; [done|].
  pose proof (Zdigits2_le m k Hm Hk). unfold fexp, emin, prec, emax in *. lia.
Qed.

Lemma round_nearest_even_le m l : m ≤ round_nearest_even m l ≤ m + 1.
Proof. destruct l as [|[]]; simpl; try lia. destruct (Z.even m); lia. Qed.

(** Rounding a non-negative mantissa gives no NaN and keeps the sign. *)
Lemma binary_round_aux_sign m e l :
  0 ≤ m → f64_nonneg (binary_round_aux prec emax false m e l).
Proof.
  intros Hm. unfold binary_round_aux, shr_fexp.
  destruct (shr (shr_record_of_loc m l) _ _) as [mrs1 e1] eqn:E1.
  apply shr_bound in E1 as [H1 _]; rewrite shr_m_of_loc in *; [|done].
  pose proof (round_nearest_even_le (shr_m mrs1) (loc_of_shr_record mrs1)).
  destruct (shr (shr_record_of_loc (round_nearest_even _ _) _) _ _) as [mrs2 e2] eqn:E2.
  apply shr_bound in E2 as [H2 _]; rewrite shr_m_of_loc in *; [|lia].
  destruct (shr_m mrs2); [done| |lia]. by destruct (Z.leb _ _).
Qed.

Lemma binary_round_aux_finite m e l k :
  0 ≤ m < 2 ^ k → 0 ≤ k ≤ 200 → -1000 ≤ e ≤ 200 →
  f64_is_finite (binary_round_aux prec emax false m e l).
Proof.
  intros Hm Hk He. unfold binary_round_aux.
  destruct (shr_fexp prec emax m e l) as [mrs1 e1] eqn:E1.
  apply (shr_fexp_bound m e l k) in E1 as [H1 He1]; [|lia..].
  pose proof (round_nearest_even_le (shr_m mrs1) (loc_of_shr_record mrs1)).
  destruct (shr_fexp prec emax (round_nearest_even _ _) e1 _) as [mrs2 e2] eqn:E2.
  apply (shr_fexp_bound _ _ _ (k + 1)) in E2 as [H2 He2];
    [|rewrite Z.pow_add_r by lia; lia|lia|lia].
  destruct (shr_m mrs2); [done| |lia].
  replace (Z.leb e2 (emax - prec)) with true; [done|].
  symmetry. apply Z.leb_le. unfold prec, emax in *. lia.
Qed.

Lemma iter_xO_value m d : Zpos (Pos.iter xO m d) = Zpos m * 2 ^ Zpos d.
Proof.
  apply (Pos.iter_ind positive xO m (λ n r, Zpos r = Zpos m * 2 ^ Zpos n)); [lia|].
  intros n r Hr. rewrite Pos2Z.inj_xO, Hr, Pos2Z.inj_succ, Z.pow_succ_r by lia. lia.
Qed.

Lemma shl_align_value m e e' m' e'' :
  shl_align m e e' = (m', e'') → e'' = Z.min e e' ∧ Zpos m' = Zpos m * 2 ^ (e - e'').
Proof.
  unfold shl_align. destruct (e' - e) as [|d|d] eqn:Ed; intros [= <- <-].
  - rewrite Z.sub_diag, Z.mul_1_r. lia.
  - rewrite Z.sub_diag, Z.mul_1_r. lia.
  - assert (e - e' = Zpos d) as -> by lia. split; [lia|].
    apply iter_xO_value.
Qed.

(** A [u64] converts to a finite number that is not negative. *)
Lemma f64_of_u64 n : 0 ≤ n ≤ u64_max → f64_is_finite (f64_of_Z n) ∧ f64_nonneg (f64_of_Z n).
Proof.
  intros Hn. unfold f64_of_Z, binary_normalize. destruct n as [|p|p]; [done| |lia].
  unfold binary_round.
  destruct (shl_align p 0 _) as [m e] eqn:Es. apply shl_align_value in Es as [-> Hm].
  set (e := Z.min 0 _) in *.
  assert (He : -60 ≤ e ≤ 0).
  { subst e. rewrite digits2_log2. unfold fexp, emin, prec, emax.
    pose proof (Z.log2_nonneg (Zpos p)). lia. }
  assert (Hb : Zpos m < 2 ^ 130).
  { rewrite Hm. pose proof (Z.pow_le_mono_r 2 (0 - e) 60 ltac:(lia) ltac:(lia)).
    assert (0 < 2 ^ (0 - e)) by (apply Z.pow_pos_nonneg; lia).
    unfold u64_max in Hn. nia. }
  split; [apply binary_round_aux_finite with 130; lia|by apply binary_round_aux_sign].
Qed.

(** Small positive integers convert exactly, so never to zero. *)
Lemma f64_of_pos n : 0 < n ≤ u32_max → SFltb f64_zero (f64_of_Z n) = true.
Proof.
  unfold u32_max. intros Hn. destruct n as [|p|p]; [lia| |lia].
  unfold f64_of_Z, binary_normalize, binary_round.
  set (d := Zpos (digits2_pos p)).
  assert (Hd : 1 ≤ d ≤ 32).
  { subst d. rewrite digits2_log2. pose proof (Z.log2_nonneg (Zpos p)).
    pose proof (Z.log2_lt_pow2 (Zpos p) 32 ltac:(lia)). lia. }
  assert (Hf : fexp prec emax (d + 0) = d - 53) by (unfold fexp, emin, prec, emax; lia).
  rewrite Hf. destruct (shl_align p 0 (d - 53)) as [m e] eqn:Es.
  apply shl_align_value in Es as [-> Hm]. rewrite Z.min_r in * by lia.
  assert (Hdm : Zdigits2 (Zpos m) = 53).
  { change (Zpos (digits2_pos m) = 53). rewrite digits2_log2, Hm, Z.log2_mul_pow2 by lia.
    subst d. rewrite digits2_log2. lia. }
  assert (Hs : shr_fexp prec emax (Zpos m) (d - 53) loc_Exact =
    (Build_shr_record (Zpos m) false false, d - 53)).
  { unfold shr_fexp. rewrite Hdm. replace (fexp prec emax (53 + (d - 53)) - (d - 53)) with 0
      by (unfold fexp, emin, prec, emax; lia). done. }
  unfold binary_round_aux. rewrite Hs. cbn [shr_m loc_of_shr_record round_nearest_even].
  rewrite Hs. cbn [shr_m]. destruct (Z.leb_spec (d - 53) (emax - prec)); done.
Qed.

(** Division by a positive number keeps the sign; only infinity over infinity
    would give NaN. *)
Lemma f64_div_nonneg x y :
  f64_nonneg x → SFltb f64_zero y = true → f64_is_finite x ∨ f64_is_finite y →
  f64_nonneg (f64_div x y).
Proof.
  intros Hx Hy Hf. unfold f64_div.
  destruct y as [sy|[]| |[] my ey]; try done; destruct x as [sx|[]| |[] mx ex]; try done.
  - by destruct Hf.
  - cbn [SFdiv xorb]. unfold SFdiv_core_binary.
    destruct (Z.div_eucl _ (Zpos my)) as [q r] eqn:Eq.
    apply binary_round_aux_sign.
    match type of Eq with Z.div_eucl ?a ?b = _ =>
      assert (q = a / b) as -> by (unfold Z.div; by rewrite Eq) end.
    apply Z.div_pos; [|lia]. case_match; [lia| |lia]. apply Z.shiftl_nonneg. lia.
Qed.

Lemma f64_mul_hundred x : f64_nonneg x → f64_nonneg (f64_mul x f64_hundred).
Proof.
  destruct x as [sx|[]| |[] mx ex]; try done. intros _. unfold f64_mul.
  change f64_hundred with (S754_finite false 7036874417766400 (-46)).
  cbn [SFmul xorb]. by apply binary_round_aux_sign.
Qed.

(** The order is total on finite numbers that are not negative. *)
Lemma SFleb_total m e m' e' :
  SFltb (S754_finite false m' e') (S754_finite false m e) = false →
  SFleb (S754_finite false m e) (S754_finite false m' e') = true.
Proof.
  unfold SFltb, SFleb, SFcompare. rewrite (Z.compare_antisym e e').
  destruct (e ?= e') eqn:E; cbn [CompOpp]; [|done|done].
  change (Pos.compare_cont Eq) with Pos.compare. rewrite (Pos.compare_antisym m m').
  by destruct (m ?= m')%positive.
Qed.

Lemma f64_clamp_range x :
  f64_nonneg x →
  SFleb f64_zero (f64_clamp x f64_zero f64_hundred) = true ∧
  SFleb (f64_clamp x f64_zero f64_hundred) f64_hundred = true.
Proof.
  intros Hx. unfold f64_clamp.
  destruct (SFltb x f64_zero); [by vm_compute|].
  destruct (SFltb f64_hundred x) eqn:Eh; [by vm_compute|].
  destruct x as [sx|[]| |[] mx ex]; try done.
  split; [reflexivity|]. by apply SFleb_total.
Qed.

(** Every counter of a sample is a [u64]. *)
Definition counters_u64 (c : Counters) : Prop :=
  ∀ pick, pick ∈ [cpu_time_ns; memory_current_kib; memory_available_kib; memory_unused_kib;
                  disk_read_bytes; disk_write_bytes; net_rx_bytes; net_tx_bytes] →
  ∀ v, pick c = Some v → 0 ≤ v ≤ u64_max.

Definition stat_u64 (v : StatValue) : Prop :=
  match v with SUInt v => 0 ≤ v ≤ u64_max | SInt v => i64_min ≤ v ≤ i64_max | _ => True end.

Lemma as_u64_range v n : stat_u64 v → as_u64 v = Some n → 0 ≤ n ≤ u64_max.
Proof.
  destruct v as [z|z|z|z|z]; simpl; intros Hs Hv; try done; [|naive_solver].
  destruct (Z.leb_spec 0 z); simplify_eq. unfold i64_max, u64_max in *. lia.
Qed.

Lemma delta_Some before now secs pick x :
  delta before now secs pick = Some x ↔
  ∃ b n, before ≫= pick = Some b ∧ pick now = Some n ∧ b ≤ n ∧
    SFltb f64_zero secs = true ∧ x = f64_div (f64_of_Z (n - b)) secs.
Proof.
  unfold delta, checked_sub. split.
  - destruct (before ≫= pick) as [b|]; [|done]. destruct (pick now) as [n|]; [|done]. simpl.
    destruct (Z.ltb_spec n b); [done|]. simpl. destruct (SFltb f64_zero secs); [|done].
    intros [= <-]. exists b, n. done.
  - intros (b & n & -> & -> & Hle & Hs & ->). simpl.
    destruct (Z.ltb_spec n b); [lia|]. simpl. by rewrite Hs.
Qed.

(** The sum of one group of device counters: what [from_params] adds up. *)
Definition group_values (key : str * str) (params : list (str * StatValue)) : list Z :=
  omap (λ '(name, v), if bool_decide (indexed name = Some key) then as_u64 v else None) params.

Definition group_sum (key : str * str) (params : list (str * StatValue)) : option Z :=
  match group_values key params with
  | [] => None
  | vs => Some (Z.min u64_max (foldr Z.add 0 vs))
  end.

(** The field of a group. *)
Inductive group_field : str * str → (Counters → option Z) → Prop :=
| gf_rd : group_field (lit "block", lit "rd.bytes") disk_read_bytes
| gf_wr : group_field (lit "block", lit "wr.bytes") disk_write_bytes
| gf_rx : group_field (lit "net", lit "rx.bytes") net_rx_bytes
| gf_tx : group_field (lit "net", lit "tx.bytes") net_tx_bytes.

(** One more parameter adds its value to its own group and to no other. *)
Lemma add_param_group key field c name v :
  group_field key field →
  field (add_param c (name, v)) =
  match (if bool_decide (indexed name = Some key) then as_u64 v else None) with
  | Some n => Some (saturating_add u64_max (default 0 (field c)) n)
  | None => field c
  end.
Proof.
  intros Hk. unfold add_param. destruct (as_u64 v) as [n|]; [|by repeat case_match].
  destruct c as [cpu mc ma mu dr dw rx tx].
  case_bool_decide as H1; [subst; destruct Hk; reflexivity|].
  case_bool_decide as H2; [subst; destruct Hk; reflexivity|].
  case_bool_decide as H3; [subst; destruct Hk; reflexivity|].
  case_bool_decide as H4; [subst; destruct Hk; reflexivity|].
  clear H1 H2 H3 H4. cbv zeta.
  case_bool_decide as H1; [rewrite H1; destruct Hk; reflexivity|].
  case_bool_decide as H2; [rewrite H2; destruct Hk; reflexivity|].
  case_bool_decide as H3; [rewrite H3; destruct Hk; reflexivity|].
  case_bool_decide as H4; [rewrite H4; destruct Hk; reflexivity|].
  destruct Hk; by rewrite bool_decide_false.
Qed.

Lemma group_values_cons key name v l :
  group_values key ((name, v) :: l) =
  match (if bool_decide (indexed name = Some key) then as_u64 v else None) with
  | Some n => n :: group_values key l
  | None => group_values key l
  end.
Proof. done. Qed.

Lemma group_values_nonneg key l :
  Forall (λ p, stat_u64 p.2) l → 0 ≤ foldr Z.add 0 (group_values key l).
Proof.
  induction 1 as [|[name v] l Hv _ IH]; [done|]. rewrite group_values_cons.
  case_bool_decide; [|done]. destruct (as_u64 v) eqn:E; [|done]. cbn [foldr].
  apply as_u64_range in E; [lia|done].
Qed.

(** The loop from any counters: it adds the values of the group to the field. *)
Lemma foldl_add_param key field c s :
  group_field key field → Forall (λ p, stat_u64 p.2) s → 0 ≤ default 0 (field c) ≤ u64_max →
  field (foldl add_param c s) =
  match group_values key s with
  | [] => field c
  | vs => Some (Z.min u64_max (default 0 (field c) + foldr Z.add 0 vs))
  end.
Proof.
  intros Hk Hs. revert c. induction Hs as [|[name v] s Hv Hs IH]; intros c Hc; [done|].
  cbn [foldl]. rewrite group_values_cons.
  pose proof (add_param_group key field c name v Hk) as Ha.
  pose proof (group_values_nonneg key s Hs) as Hnn.
  destruct (if bool_decide _ then _ else _) as [n|] eqn:En.
  - assert (0 ≤ n ≤ u64_max) by (case_bool_decide; [by eapply as_u64_range|done]).
    rewrite IH; rewrite Ha; unfold saturating_add; cbn [default from_option id]; [|lia].
    destruct (group_values key s); cbn [foldr] in *; f_equal; lia.
  - rewrite IH; rewrite Ha; done.
Qed.

(** The disk and network counters of a sample are the sums of their
    device counters, saturated at the largest [u64], and [None] exactly when no
    device reports one. *)
Theorem from_params_sums params key field :
  group_field key field → Forall (λ p, stat_u64 p.2) params →
  field (from_params params) = group_sum key params.
Proof.
  intros Hk Hp. unfold from_params, group_sum.
  rewrite (foldl_add_param key) by (try done; destruct Hk; by vm_compute).
  destruct Hk; by destruct (group_values _ params).
Qed.

(** A CPU share is never NaN and always between 0 and 100 percent,
    whatever the two samples and the time between them; and without an earlier
    sample, or when the counter went down, there is none. *)
Theorem cpu_percent_range uuid before now elapsed vcpus :
  counters_u64 now → (∀ b, before = Some b → counters_u64 b) → 0 ≤ vcpus ≤ u32_max →
  match cpu_percent (between uuid before now elapsed vcpus) with
  | Some x => SFleb f64_zero x = true ∧ SFleb x f64_hundred = true ∧
      ∃ b t0 t1, before = Some b ∧ cpu_time_ns b = Some t0 ∧ cpu_time_ns now = Some t1 ∧ t0 ≤ t1
  | None => True
  end.
Proof.
  intros Hn Hb Hv. unfold between. cbn [cpu_percent].
  destruct (delta before now (as_secs_f64 elapsed) cpu_time_ns) as [d|] eqn:Ed; [|done].
  cbn [mbind option_bind]. destruct (Z.ltb_spec 0 vcpus) as [Hpos|]; [|done].
  apply delta_Some in Ed as (t0 & t1 & Ht0 & Ht1 & Hle & Hs & ->).
  destruct before as [b|]; [|done]. simpl in Ht0.
  assert (Hpick : cpu_time_ns ∈ [cpu_time_ns; memory_current_kib; memory_available_kib;
    memory_unused_kib; disk_read_bytes; disk_write_bytes; net_rx_bytes; net_tx_bytes]) by left.
  pose proof (Hn _ Hpick _ Ht1) as H1. pose proof (Hb b eq_refl _ Hpick _ Ht0) as H0.
  assert (Hd : 0 ≤ t1 - t0 ≤ u64_max) by lia.
  destruct (f64_of_u64 _ Hd) as [Hfin Hnn].
  assert (Hpos' : SFltb f64_zero (f64_of_Z vcpus) = true ∧ f64_is_finite (f64_of_Z vcpus)).
  { destruct (f64_of_u64 vcpus) as [Hvf Hvn]; [unfold u32_max, u64_max in *; lia|].
    split; [apply f64_of_pos; lia|done]. }
  destruct (f64_clamp_range (f64_mul (f64_div (f64_div (f64_div (f64_of_Z (t1 - t0))
    (as_secs_f64 elapsed)) f64_billion) (f64_of_Z vcpus)) f64_hundred)) as [Hlo Hhi].
  { apply f64_mul_hundred, f64_div_nonneg; [|apply Hpos'|right; apply Hpos'].
    apply f64_div_nonneg; [|by vm_compute|right; by vm_compute].
    apply f64_div_nonneg; [done..|by left]. }
  split_and!; [exact Hlo|exact Hhi|]. exists b, t0, t1. done.
Qed.

(** ** Witnesses *)

Lemma from_params_sums_witness :
  disk_read_bytes (from_params [(lit "block.0.rd.bytes", SUInt 5); (lit "block.count", SUInt 2);
                                (lit "block.1.rd.bytes", SUInt u64_max)]) = Some u64_max.
Proof.
  rewrite (from_params_sums _ (lit "block", lit "rd.bytes")).
  - reflexivity.
  - constructor.
  - repeat (apply Forall_cons; split; [simpl; unfold u64_max; lia|]). constructor.
Defined.

Definition sample (t : Z) : Counters := Build_Counters (Some t) None None None None None None None.

Lemma sample_u64 t : 0 ≤ t ≤ u64_max → counters_u64 (sample t).
Proof.
  intros Ht pick Hp v Hv. unfold sample in Hv.
  repeat (apply elem_of_cons in Hp as [->|Hp]; [simpl in Hv; simplify_eq; done|]).
  by apply elem_of_nil in Hp.
Qed.

Lemma cpu_percent_range_witness :
  cpu_percent (between 7 (Some (sample 0)) (sample 20000000000) {| secs := 5; nanos := 0 |} 2)
    = Some f64_hundred ∧ SFleb f64_hundred f64_hundred = true.
Proof.
  assert (E : cpu_percent (between 7 (Some (sample 0)) (sample 20000000000)
    {| secs := 5; nanos := 0 |} 2) = Some f64_hundred) by reflexivity.
  split; [exact E|].
  pose proof (cpu_percent_range 7 (Some (sample 0)) (sample 20000000000)
    {| secs := 5; nanos := 0 |} 2) as Hr.
  rewrite E in Hr. apply Hr.
  - apply sample_u64. unfold u64_max. lia.
  - intros b [= <-]. apply sample_u64. unfold u64_max. lia.
  - unfold u32_max. lia.
Defined.
