(* ===== verification/StatsFfi.v ===== *)
(** * The C call for the statistics (crates/lodger-virt/src/stats/ffi.rs)

    The one place of the statistics that reads C memory.  Memory is a map from addresses
    to the lists that libvirt allocated; a step that touches memory which is not there, a
    freed list, an entry or a value past the end of its array, a text without its end, or
    a second free, has undefined behaviour and gives [None].  [typed_param_exact] shows
    what the copy of one value gives, [stats_copied_and_freed] that the whole call has no
    undefined behaviour, copies what libvirt wrote, and gives back all memory.

    A union is its eight bytes as a number, on the little-endian machines that the
    releases are built for. *)

From Stdlib Require Import SpecFloat.
From S2P Require Import Prelude Text Os Model.

(** ** C values *)

(** The low [w] bits of [v], read as a signed number. *)
Definition signed (w v : Z) : Z :=
  let u := v mod 2 ^ w in if u <? 2 ^ (w - 1) then u else u - 2 ^ w.

Definition i32_min : Z := - 2 ^ 31.
Definition i32_max : Z := 2 ^ 31 - 1.

Definition unsigned (w v : Z) : Z := v mod 2 ^ w.

(** [f64::from_bits]: the sign, eleven bits of exponent and 52 bits of mantissa. *)
Definition f64_of_bits (bits : Z) : f64 :=
  let sign := Z.testbit bits 63 in
  let exponent := Z.land (Z.shiftr bits 52) 2047 in
  let mantissa := Z.land bits (2 ^ 52 - 1) in
  if exponent =? 2047 then (if mantissa =? 0 then S754_infinity sign else S754_nan)
  else if exponent =? 0 then
    match mantissa with Zpos m => S754_finite sign m (-1074) | _ => S754_zero sign end
  else match mantissa + 2 ^ 52 with Zpos m => S754_finite sign m (exponent - 1075) | _ => S754_nan end.

(** [CStr::from_bytes_until_nul]: the bytes before the first NUL. *)
Fixpoint until_nul (bytes : list Z) : option (list Z) :=
  match bytes with
  | [] => None
  | b :: rest => if b =? 0 then Some [] else cons b <$> until_nul rest
  end.

(** [Uuid::from_bytes]. *)
Definition Uuid_from_bytes (bytes : list Z) : Uuid := foldl (λ n b, n * 256 + b) 0 bytes.

(** ** libvirt's structures *)

Definition VIR_TYPED_PARAM_INT : Z := 1.
Definition VIR_TYPED_PARAM_UINT : Z := 2.
Definition VIR_TYPED_PARAM_LLONG : Z := 3.
Definition VIR_TYPED_PARAM_ULLONG : Z := 4.
Definition VIR_TYPED_PARAM_DOUBLE : Z := 5.
Definition VIR_TYPED_PARAM_BOOLEAN : Z := 6.
Definition VIR_TYPED_PARAM_STRING : Z := 7.

(** [virTypedParameter]: the name as an array of C chars, which are signed, the type,
    and the union. *)
Record TypedParameter := { field : list Z; type_ : Z; value : Z }.

(** [virDomainStatsRecord]: a pointer to a domain, 0 for NULL, and the array of values,
    [None] for NULL. *)
Record StatsRecord := { dom : Z; nparams : Z; c_params : option (list TypedParameter) }.

(** What one call allocated: the array of records, where [None] is a NULL entry, and the
    texts of the values by their addresses. *)
Record RawList := { entries : list (option StatsRecord); strings : gmap Z (list Z) }.

(** ** Memory *)

Abbreviation Mem := (gmap Z RawList).

(** A step on the memory; [None] is undefined behaviour. *)
Definition ffi (A : Type) : Type := Mem → option (A * Mem).

#[export] Instance ffi_ret : MRet ffi := λ _ a m, Some (a, m).
#[export] Instance ffi_bind : MBind ffi := λ _ _ k p m,
  match p m with Some (a, m') => k a m' | None => None end.

(** A read through a pointer into the list at [raw]. *)
Definition in_list {A} (raw : Z) (read : RawList → option A) : ffi A := λ m,
  match m !! raw ≫= read with Some a => Some (a, m) | None => None end.

Fixpoint filter_map {A B} (f : A → ffi (option B)) (l : list A) : ffi (list B) :=
  match l with
  | [] => mret []
  | x :: l =>
      y ← f x;
      ys ← filter_map f l;
      mret (match y with Some y => y :: ys | None => ys end)
  end.

(** ** The copies *)

(** [Record]. *)
Record Record_ := { uuid : Uuid; params : list (str * StatValue) }.

(** A value of the union, by its type. *)
Definition copy_value (raw : Z) (p : TypedParameter) : ffi (option StatValue) :=
  let kind := type_ p in
  if kind =? VIR_TYPED_PARAM_INT then mret (Some (SInt (signed 32 (value p))))
  else if kind =? VIR_TYPED_PARAM_UINT then mret (Some (SUInt (unsigned 32 (value p))))
  else if kind =? VIR_TYPED_PARAM_LLONG then mret (Some (SInt (signed 64 (value p))))
  else if kind =? VIR_TYPED_PARAM_ULLONG then mret (Some (SUInt (unsigned 64 (value p))))
  else if kind =? VIR_TYPED_PARAM_DOUBLE then mret (Some (SDouble (f64_of_bits (value p))))
  else if kind =? VIR_TYPED_PARAM_BOOLEAN then mret (Some (SBool (negb (signed 8 (value p) =? 0))))
  else if (kind =? VIR_TYPED_PARAM_STRING) && negb (value p =? 0)
  then text ← in_list raw (λ l, strings l !! value p ≫= until_nul);
       mret (Some (SText (from_utf8_lossy text)))
  else mret None.

(** The name: each C char as a byte, up to the NUL, as UTF-8. *)
Definition param_name (p : TypedParameter) : option str :=
  until_nul (unsigned 8 <$> field p) ≫= from_utf8.

Definition copy_param (raw : Z) (p : TypedParameter) : ffi (option (str * StatValue)) :=
  match param_name p with
  | None => mret None
  | Some name =>
      if type_ p <? 0 then mret None
      else v ← copy_value raw p; mret ((λ v, (name, v)) <$> v)
  end.

(** [slice::from_raw_parts]: the first [n] values of the array. *)
Definition from_raw_parts (params : list TypedParameter) (n : nat) : option (list TypedParameter) :=
  if bool_decide (n ≤ length params)%nat then Some (take n params) else None.

Definition copy_params (raw : Z) (record : StatsRecord) : ffi (list (str * StatValue)) :=
  match c_params record with
  | Some array =>
      if 0 <? nparams record
      then slice ← in_list raw (λ _, from_raw_parts array (Z.to_nat (nparams record)));
           filter_map (copy_param raw) slice
      else mret []
  | None => mret []
  end.

(** What [virConnectGetAllDomainStats] does: the count that it returns, the pointer that
    it writes, 0 for NULL, and what is behind the pointer. *)
Record Answer := { count : Z; raw : Z; allocated : RawList }.

Section call.
(** [virDomainGetUUID]: the result and the 16 bytes that it writes; and libvirt's last
    error. *)
Context {E : Type} (virDomainGetUUID : Z → Z * list Z) (last_error : E).

Definition domain_uuid (raw dom : Z) : ffi (option Uuid) :=
  if dom =? 0 then mret None
  else
    '(rc, bytes) ← in_list raw (λ _, Some (virDomainGetUUID dom));
    mret (if rc =? 0 then Some (Uuid_from_bytes bytes) else None).

(** The loop over the entries from [i]. *)
Fixpoint copy_records (raw : Z) (i remaining : nat) : ffi (list Record_) :=
  match remaining with
  | O => mret []
  | S remaining =>
      entry ← in_list raw (λ l, entries l !! i);
      match entry with
      | None => mret []
      | Some record =>
          id ← domain_uuid raw (dom record);
          match id with
          | None => copy_records raw (S i) remaining
          | Some id =>
              params ← copy_params raw record;
              records ← copy_records raw (S i) remaining;
              mret ({| uuid := id; params := params |} :: records)
          end
      end
  end.

Definition virConnectGetAllDomainStats (answer : Answer) : ffi Z := λ m,
  Some (count answer, if raw answer =? 0 then m else <[raw answer := allocated answer]> m).

Definition virDomainStatsRecordListFree (raw : Z) : ffi unit := λ m,
  match m !! raw with Some _ => Some (tt, delete raw m) | None => None end.

(** The [Drop] of [List]. *)
Definition List_drop (raw : Z) : ffi unit :=
  if negb (raw =? 0) then virDomainStatsRecordListFree raw else mret tt.

Definition all_domain_stats (answer : Answer) : ffi (result E (list Record_)) :=
  count ← virConnectGetAllDomainStats answer;
  r ← (if count <? 0 then mret (Err last_error)
       else records ← copy_records (raw answer) 0 (Z.to_nat count); mret (Ok records));
  _ ← List_drop (raw answer);
  mret r.
End call.

(** ** One value *)

(** How libvirt stores a value in the union, with its number of the type: only the bytes
    of the member count, and a text is behind its address with its NUL. *)
Inductive stored (texts : gmap Z (list Z)) : StatValue → Z → Z → Prop :=
| stored_int v high : i32_min ≤ v ≤ i32_max →
    stored texts (SInt v) 1 (high * 2 ^ 32 + unsigned 32 v)
| stored_uint v high : 0 ≤ v ≤ u32_max →
    stored texts (SUInt v) 2 (high * 2 ^ 32 + v)
| stored_llong v : i64_min ≤ v ≤ i64_max →
    stored texts (SInt v) 3 (unsigned 64 v)
| stored_ullong v : 0 ≤ v ≤ u64_max → stored texts (SUInt v) 4 v
| stored_double bits : stored texts (SDouble (f64_of_bits bits)) 5 bits
| stored_bool b c high : 0 ≤ c < 256 → (b = true ↔ c ≠ 0) →
    stored texts (SBool b) 6 (high * 2 ^ 8 + c)
| stored_text t address rest :
    address ≠ 0 → Forall scalar t → 0 ∉ t → texts !! address = Some (as_bytes t ++ 0 :: rest) →
    stored texts (SText t) 7 address.

(** The types of Rust that a copy of each type has. *)
Definition typed (kind : Z) (v : StatValue) : Prop :=
  match v with
  | SInt v => kind = 1 ∧ i32_min ≤ v ≤ i32_max ∨
              kind = 3 ∧ i64_min ≤ v ≤ i64_max
  | SUInt v => kind = 2 ∧ 0 ≤ v ≤ u32_max ∨
               kind = 4 ∧ 0 ≤ v ≤ u64_max
  | SDouble _ => kind = 5
  | SBool _ => kind = 6
  | SText _ => kind = 7
  end.

(** The name in a field of C chars: what is before the first NUL, when it is text. *)
Definition names (p : TypedParameter) (name : str) : Prop :=
  ∃ bytes junk, (λ c, c mod 256) <$> field p = bytes ++ 0 :: junk ∧ 0 ∉ bytes ∧ from_utf8 bytes = Some name.

(** The text of a value is behind its pointer, with its NUL. *)
Definition readable_param (l : RawList) (p : TypedParameter) : Prop :=
  type_ p = 7 → value p ≠ 0 → ∃ bytes, strings l !! value p = Some bytes ∧ 0 ∈ bytes.

Lemma signed_range w v : 0 < w → - 2 ^ (w - 1) ≤ signed w v < 2 ^ (w - 1).
Proof.
  intros Hw. unfold signed. assert (E : 2 ^ w = 2 * 2 ^ (w - 1)) by (rewrite <- Z.pow_succ_r by lia; f_equal; lia).
  pose proof (Z.pow_pos_nonneg 2 (w - 1) ltac:(lia) ltac:(lia)).
  pose proof (Z.mod_pos_bound v (2 ^ w) ltac:(lia)).
  destruct (Z.ltb_spec (v mod 2 ^ w) (2 ^ (w - 1))); lia.
Qed.

Lemma unsigned_signed w v : 0 < w → unsigned w (signed w v) = unsigned w v.
Proof.
  intros Hw. unfold unsigned, signed. pose proof (Z.pow_pos_nonneg 2 w ltac:(lia) ltac:(lia)).
  destruct (_ <? _).
  - by rewrite Z.mod_mod by lia.
  - replace (v mod 2 ^ w - 2 ^ w) with (v mod 2 ^ w + (-1) * 2 ^ w) by lia.
    by rewrite Z.mod_add, Z.mod_mod by lia.
Qed.

Lemma signed_unsigned w v : 0 < w → - 2 ^ (w - 1) ≤ v < 2 ^ (w - 1) → signed w (unsigned w v) = v.
Proof.
  intros Hw Hv. unfold signed, unsigned. assert (E : 2 ^ w = 2 * 2 ^ (w - 1)) by (rewrite <- Z.pow_succ_r by lia; f_equal; lia).
  rewrite Z.mod_mod by lia. destruct (decide (0 ≤ v)).
  - rewrite Z.mod_small by lia. destruct (Z.ltb_spec v (2 ^ (w - 1))); lia.
  - replace v with (v + 2 ^ w + (-1) * 2 ^ w) by lia. rewrite Z.mod_add, Z.mod_small by lia.
    destruct (Z.ltb_spec (v + 2 ^ w) (2 ^ (w - 1))); lia.
Qed.

(** Bytes above the member do not count. *)
Lemma unsigned_low w high v : 0 < w → unsigned w (high * 2 ^ w + v) = unsigned w v.
Proof. intros Hw. unfold unsigned. rewrite Z.add_comm. by rewrite Z.mod_add by (apply Z.pow_nonzero; lia). Qed.

Lemma signed_low w high v : 0 < w → signed w (high * 2 ^ w + v) = signed w v.
Proof. intros Hw. unfold signed. fold (unsigned w (high * 2 ^ w + v)). by rewrite unsigned_low. Qed.

Lemma until_nul_app l rest : 0 ∉ l → until_nul (l ++ 0 :: rest) = Some l.
Proof.
  induction l as [|b l IH]; [done|]. intros [Hb Hl]%not_elem_of_cons. cbn [app until_nul].
  rewrite (proj2 (Z.eqb_neq b 0)) by done. by rewrite IH.
Qed.

Lemma until_nul_some l : 0 ∈ l → is_Some (until_nul l).
Proof.
  induction l as [|b l IH]; [by intros ?%not_elem_of_nil|]. intros [H|H]%elem_of_cons; cbn [until_nul]; (destruct (Z.eqb_spec b 0); [done|]); [congruence|].
  destruct (IH H) as [x ->]. done.
Qed.

(** The bytes of a character, none of them NUL but for the NUL character. *)
Lemma utf8_char_bytes c : scalar c → c ≠ 0 → Forall (λ b, 0 < b < 256) (utf8_char c).
Proof.
  intros Hc Hne. unfold scalar in Hc. unfold utf8_char.
  pose proof (Z.mod_pos_bound c 64 ltac:(lia)). pose proof (Z.mod_pos_bound (c / 64) 64 ltac:(lia)).
  pose proof (Z.mod_pos_bound (c / 4096) 64 ltac:(lia)).
  repeat case_match; repeat (apply Forall_cons_2; [|]); try apply Forall_nil_2;
    Z.div_mod_to_equations; lia.
Qed.

Lemma as_bytes_bytes t : Forall scalar t → 0 ∉ t → Forall (λ b, 0 < b < 256) (as_bytes t).
Proof.
  induction 1 as [|c t Hc _ IH]; [intros _; apply Forall_nil_2|]. intros [Hne Ht]%not_elem_of_cons.
  unfold as_bytes in *. cbn [mbind list_bind]. apply Forall_app_2; [by apply utf8_char_bytes|by apply IH].
Qed.

Lemma no_nul_bytes t : Forall scalar t → 0 ∉ t → 0 ∉ as_bytes t.
Proof. intros Hs Ht Hin. pose proof (as_bytes_bytes t Hs Ht) as H. rewrite Forall_forall in H. apply H in Hin. lia. Qed.

Lemma param_name_exact p name junk :
  Forall scalar name → 0 ∉ name → field p = signed 8 <$> (as_bytes name ++ 0 :: junk) →
  param_name p = Some name.
Proof.
  intros Hs Hn E. unfold param_name. rewrite E, <- list_fmap_compose.
  assert (E1 : unsigned 8 ∘ signed 8 <$> as_bytes name = as_bytes name).
  { rewrite <- (list_fmap_id (as_bytes name)) at 2. apply list_fmap_ext. intros i b Hb. cbn.
    rewrite unsigned_signed by lia. pose proof (as_bytes_bytes name Hs Hn) as H.
    apply (Forall_lookup_1 _ _ i b) in H; [|done]. cbn in H. apply Z.mod_small. lia. }
  rewrite fmap_app, fmap_cons, E1. change ((unsigned 8 ∘ signed 8) 0) with 0.
  rewrite until_nul_app by (by apply no_nul_bytes). cbn. by apply from_utf8_as_bytes.
Qed.

Lemma copy_value_stored raw l (m : Mem) p v :
  m !! raw = Some l → stored (strings l) v (type_ p) (value p) → copy_value raw p m = Some (Some v, m).
Proof.
  intros Hm H. unfold copy_value.
  inversion H as [x h Hx Ev Et Eb|x h Hx Ev Et Eb|x Hx Ev Et Eb|x Hx Ev Et Eb|x Ev Et Eb
                 |b c h Hc Hb Ev Et Eb|t a r Ha Hs Ht Htx Ev Et Eb]; rewrite <- ?Eb; cbn -[signed unsigned f64_of_bits Z.mul Z.pow];
    unfold i32_min, i32_max, u32_max, i64_min, i64_max, u64_max in *.
  - by rewrite signed_low, signed_unsigned by lia.
  - rewrite unsigned_low by lia. unfold unsigned. by rewrite Z.mod_small by lia.
  - by rewrite signed_unsigned by lia.
  - unfold unsigned. by rewrite Z.mod_small by lia.
  - done.
  - rewrite signed_low by lia. assert ((signed 8 c =? 0) = negb b) as ->; [|by rewrite negb_involutive].
    rewrite <- (Z.mod_small c (2 ^ 8)) at 1 by lia. fold (unsigned 8 c).
    unfold signed, unsigned. rewrite Z.mod_mod, Z.mod_small by lia.
    destruct (Z.eqb_spec c 0) as [->|]; [by destruct b; [by destruct Hb as [Hb _]; destruct Hb|]|].
    assert (b = true) as -> by naive_solver. cbn -[Z.pow]. destruct (Z.ltb_spec c (2 ^ (8 - 1))); lia.
  - rewrite Eb, (proj2 (Z.eqb_neq _ 0)) by done. cbn [negb]. unfold in_list, mbind, ffi_bind. rewrite Hm. cbn.
    rewrite Htx. cbn. rewrite until_nul_app by (by apply no_nul_bytes). cbn.
    by rewrite from_utf8_lossy_as_bytes.
Qed.

Lemma until_nul_split l x : until_nul l = Some x → ∃ junk, l = x ++ 0 :: junk ∧ 0 ∉ x.
Proof.
  revert x. induction l as [|b l IH]; intros x; cbn [until_nul]; [done|].
  destruct (Z.eqb_spec b 0) as [->|Hne]; [intros [= <-]; exists l; split; [done|apply not_elem_of_nil]|].
  destruct (until_nul l) as [y|]; [|done]. intros [= <-]. destruct (IH y eq_refl) as (junk & -> & Hy).
  exists junk. split; [done|]. by apply not_elem_of_cons.
Qed.

Lemma param_name_names p name : param_name p = Some name ↔ names p name.
Proof.
  unfold param_name, names. change (unsigned 8) with (λ c, c mod 256). split.
  - destruct (until_nul _) as [bytes|] eqn:E; [|done]. cbn. intros Hn.
    apply until_nul_split in E as (junk & E & Hb). by exists bytes, junk.
  - intros (bytes & junk & -> & Hb & Hn). by rewrite until_nul_app.
Qed.

(** What a copy of any bytes is. *)
Lemma copy_value_cases raw l (m : Mem) p :
  m !! raw = Some l → readable_param l p → ∃ r, copy_value raw p m = Some (r, m) ∧
  match r with
  | Some v => typed (type_ p) v ∧ ¬ (type_ p = 7 ∧ value p = 0)
  | None => ¬ (1 ≤ type_ p ≤ 7) ∨ type_ p = 7 ∧ value p = 0
  end.
Proof.
  intros Hm Hr. unfold copy_value.
  pose proof (signed_range 32 (value p) ltac:(lia)). pose proof (signed_range 64 (value p) ltac:(lia)).
  pose proof (Z.mod_pos_bound (value p) (2 ^ 32) ltac:(lia)). pose proof (Z.mod_pos_bound (value p) (2 ^ 64) ltac:(lia)).
  repeat (match goal with |- ∃ r, (if ?b then mret _ else _) _ = _ ∧ _ => destruct b eqn:? end;
    [eexists; split; [reflexivity|]; cbn -[signed unsigned Z.pow];
            unfold VIR_TYPED_PARAM_INT, VIR_TYPED_PARAM_UINT, VIR_TYPED_PARAM_LLONG, VIR_TYPED_PARAM_ULLONG,
              VIR_TYPED_PARAM_DOUBLE, VIR_TYPED_PARAM_BOOLEAN, i32_min, i32_max, i64_min, i64_max,
              u32_max, u64_max, unsigned in *; lia|]).
  destruct (_ && _) eqn:Es.
  - apply andb_true_iff in Es as [Ek%Z.eqb_eq Ev%negb_true_iff%Z.eqb_neq]. change VIR_TYPED_PARAM_STRING with 7 in Ek.
    destruct (Hr Ek Ev) as (bytes & Hb & Hn). destruct (until_nul_some bytes Hn) as [x Hx].
    exists (Some (SText (from_utf8_lossy x))). split; [|split; [exact Ek|intros [_ ?]; done]].
    unfold in_list, mbind, ffi_bind. rewrite Hm. cbn. rewrite Hb. cbn. by rewrite Hx.
  - eexists. split; [reflexivity|].
    unfold VIR_TYPED_PARAM_INT, VIR_TYPED_PARAM_UINT, VIR_TYPED_PARAM_LLONG, VIR_TYPED_PARAM_ULLONG,
      VIR_TYPED_PARAM_DOUBLE, VIR_TYPED_PARAM_BOOLEAN, VIR_TYPED_PARAM_STRING in *. lia.
Qed.

(** C20: a value comes out as libvirt put it in, and always as a value of its Rust type.
    When the name is text that fits the field with its NUL, and the union holds a value of
    one of the seven types, with any bytes beside the member, then the copy is that name
    and that value, sign and width included.  Whatever the other bytes are, as long as a
    text that is not NULL is behind its pointer with its NUL, the copy reads nothing that
    is not there and ends; a value that it gives has the name of the field, the type that
    the parameter names and lies in the range of that type; and it gives none exactly
    when the name is not text, the type is none of the seven, or a text is NULL. *)
Theorem typed_param_exact raw l (m : Mem) p :
  m !! raw = Some l → readable_param l p →
  (∀ name v junk, Forall scalar name → 0 ∉ name → field p = signed 8 <$> (as_bytes name ++ 0 :: junk) →
    stored (strings l) v (type_ p) (value p) → copy_param raw p m = Some (Some (name, v), m)) ∧
  ∃ r, copy_param raw p m = Some (r, m) ∧
    (∀ name v, r = Some (name, v) → names p name ∧ typed (type_ p) v) ∧
    (r = None ↔ (∀ name, ¬ names p name) ∨ ¬ (1 ≤ type_ p ≤ 7) ∨ type_ p = 7 ∧ value p = 0).
Proof.
  intros Hm Hr. split.
  - intros name v junk Hs Hn Ef Hv. unfold copy_param. rewrite (param_name_exact p name junk) by done.
    assert (type_ p <? 0 = false) as -> by (inversion Hv; done).
    unfold mbind at 1, ffi_bind. by rewrite (copy_value_stored raw l m p v).
  - unfold copy_param. destruct (param_name p) as [name|] eqn:En.
    2: { exists None. split_and!; [done..|]. split; [|done]. intros _. left. intros name. rewrite <- param_name_names. congruence. }
    assert (Hname : ¬ ∀ name, ¬ names p name) by (intros Hn; eapply Hn; by apply param_name_names).
    destruct (Z.ltb_spec (type_ p) 0); [exists None; split_and!; [done..|]; split; [right; left; lia|done]|].
    destruct (copy_value_cases raw l m p Hm Hr) as (v & Ev & Hv). exists ((λ v, (name, v)) <$> v).
    unfold mbind at 1, ffi_bind. rewrite Ev. split; [done|]. destruct v as [v|]; cbn.
    + destruct Hv as [Ht Hz]. split.
      * intros ? ? [= <- <-]. split; [by apply param_name_names|done].
      * split; [done|]. intros [?|[?|?]]; [done| |done]. exfalso. apply H0. clear -Ht. destruct v; cbn in Ht; lia.
    + split; [done|]. split; [auto|done].
Qed.

(** ** The whole list *)

(** The array of a record has the values that the record counts. *)
Definition readable_record (l : RawList) (r : StatsRecord) : Prop :=
  ∀ array, c_params r = Some array →
    nparams r ≤ Z.of_nat (length array) ∧ Forall (readable_param l) array.

(** What libvirt documents: a new list, and as many records as the count. *)
Definition documented (a : Answer) (m : Mem) : Prop :=
  m !! 0 = None ∧ m !! raw a = None ∧
  (0 < count a →
    raw a ≠ 0 ∧ count a ≤ Z.of_nat (length (entries (allocated a))) ∧
    ∀ r, Some r ∈ entries (allocated a) → readable_record (allocated a) r).

(** The copy of one value of [l], where nothing else is in memory. *)
Definition alone (l : RawList) (p : TypedParameter) : option (str * StatValue) :=
  match copy_param 1 p {[1 := l]} with Some (r, _) => r | None => None end.

Fixpoint before_null {A} (l : list (option A)) : list A :=
  match l with Some x :: l => x :: before_null l | _ => [] end.

Section all.
Context {E : Type} (virDomainGetUUID : Z → Z * list Z) (last_error : E).

(** The reference: the counted records before a NULL, each with its UUID and the values
    that can be copied. *)
Definition copy_of (l : RawList) (r : StatsRecord) : option Record_ :=
  if dom r =? 0 then None
  else
    let '(rc, bytes) := virDomainGetUUID (dom r) in
    if rc =? 0
    then Some {| uuid := Uuid_from_bytes bytes;
                 params := omap (alone l) (take (Z.to_nat (nparams r)) (default [] (c_params r))) |}
    else None.

Definition copies (a : Answer) : list Record_ :=
  omap (copy_of (allocated a)) (before_null (take (Z.to_nat (count a)) (entries (allocated a)))).

Lemma in_list_hit {A} raw (read : RawList → option A) (m : Mem) l a :
  m !! raw = Some l → read l = Some a → in_list raw read m = Some (a, m).
Proof. intros Hm Hr. unfold in_list. rewrite Hm. cbn. by rewrite Hr. Qed.

Lemma ffi_step {A B} (p : ffi A) (k : A → ffi B) (m m' : Mem) a :
  p m = Some (a, m') → (p ≫= k) m = k a m'.
Proof. intros E0. unfold mbind, ffi_bind. by rewrite E0. Qed.

Lemma copy_value_alone raw l (m : Mem) p :
  m !! raw = Some l → readable_param l p → ∃ v, ∀ raw' m', m' !! raw' = Some l → copy_value raw' p m' = Some (v, m').
Proof.
  intros Hm Hp. unfold copy_value. repeat (case_match; [by eexists|]).
  case_match eqn:E0; [|by eexists]. apply andb_true_iff in E0 as [E1%Z.eqb_eq E2%negb_true_iff%Z.eqb_neq].
  destruct (Hp E1 E2) as (b & Hb & Hn).
  destruct (until_nul_some b Hn) as [x Hx]. eexists. intros raw' m' Hm'.
  erewrite ffi_step; [done|]. eapply in_list_hit; [done|]. rewrite Hb. exact Hx.
Qed.

Lemma copy_param_alone raw l (m : Mem) p :
  m !! raw = Some l → readable_param l p → copy_param raw p m = Some (alone l p, m).
Proof.
  intros Hm Hp. unfold alone, copy_param. destruct (param_name p); [|done]. destruct (_ <? _); [done|].
  destruct (copy_value_alone raw l m p Hm Hp) as [v Hv].
  by rewrite (ffi_step _ _ _ _ _ (Hv raw m Hm)), (ffi_step _ _ _ _ _ (Hv 1 {[1 := l]} (lookup_singleton_eq _ _))).
Qed.

Lemma filter_map_pure {A B} (f : A → ffi (option B)) g l (m : Mem) :
  Forall (λ x, f x m = Some (g x, m)) l → filter_map f l m = Some (omap g l, m).
Proof.
  induction 1 as [|x l Hx _ IH]; [done|]. cbn [filter_map].
  rewrite (ffi_step _ _ _ _ _ Hx), (ffi_step _ _ _ _ _ IH). cbn. by destruct (g x).
Qed.

Lemma copy_params_pure raw l (m : Mem) r :
  m !! raw = Some l → readable_record l r →
  copy_params raw r m = Some (omap (alone l) (take (Z.to_nat (nparams r)) (default [] (c_params r))), m).
Proof.
  intros Hm Hr. unfold copy_params. destruct (c_params r) as [array|] eqn:Ep; cbn [default]; [|by rewrite take_nil].
  destruct (Hr array Ep) as [Hn Hp]. destruct (Z.ltb_spec 0 (nparams r)).
  - rewrite (ffi_step _ _ m m (take (Z.to_nat (nparams r)) array)).
    + apply filter_map_pure. apply Forall_take. eapply Forall_impl; [exact Hp|].
      intros p Hpp. by apply copy_param_alone.
    + eapply in_list_hit; [done|]. unfold from_raw_parts. by rewrite bool_decide_true by lia.
  - replace (Z.to_nat (nparams r)) with 0%nat by lia. done.
Qed.

Lemma copy_records_pure raw l (m : Mem) remaining i :
  m !! raw = Some l → (i + remaining ≤ length (entries l))%nat →
  (∀ r, Some r ∈ entries l → readable_record l r) →
  copy_records virDomainGetUUID raw i remaining m =
  Some (omap (copy_of l) (before_null (take remaining (drop i (entries l)))), m).
Proof.
  intros Hm Hi Hr. revert i Hi. induction remaining as [|n IH]; intros i Hi; [done|]. cbn [copy_records].
  destruct (lookup_lt_is_Some_2 (entries l) i ltac:(lia)) as [entry He].
  rewrite (ffi_step _ _ m m entry) by (by eapply in_list_hit).
  rewrite (drop_S _ _ _ He). cbn [take before_null]. destruct entry as [r|]; [|done].
  cbn [omap list_omap]. unfold copy_of at 1, domain_uuid.
  specialize (Hr r). destruct (dom r =? 0).
  - rewrite (ffi_step _ _ m m None) by done. apply IH. lia.
  - destruct (virDomainGetUUID (dom r)) as [rc bytes] eqn:Eu.
    rewrite (ffi_step _ _ m m (if rc =? 0 then Some (Uuid_from_bytes bytes) else None)).
    2: { rewrite (ffi_step _ _ m m (rc, bytes)); [done|]. by eapply in_list_hit. }
    destruct (rc =? 0); [|apply IH; lia].
    rewrite (ffi_step _ _ _ _ _ (copy_params_pure raw l m r Hm ltac:(by apply Hr, list_elem_of_lookup_2 with i))).
    rewrite (ffi_step _ _ _ _ _ (IH (S i) ltac:(lia))). done.
Qed.

(** C19: the call for the statistics is safe, exact, and keeps no memory.  When libvirt
    gives the list that it documents, no step of the call has undefined behaviour: no
    entry, value or text is read outside its array or after the free, and nothing is
    freed twice.  The memory after the call is the memory before it, on every path, so
    the list is freed exactly once and nothing else is.  A negative count is libvirt's
    last error; otherwise the answer has every counted record before a NULL whose UUID
    can be read, in order, with the copies of its values. *)
Theorem stats_copied_and_freed (a : Answer) (m : Mem) :
  documented a m →
  all_domain_stats virDomainGetUUID last_error a m =
  Some (if count a <? 0 then Err last_error else Ok (copies a), m).
Proof.
  intros (H0 & Hnew & Hlist). unfold all_domain_stats.
  set (m1 := if raw a =? 0 then m else <[raw a := allocated a]> m).
  rewrite (ffi_step _ _ m m1 (count a)) by done.
  rewrite (ffi_step _ _ m1 m1 (if count a <? 0 then Err last_error else Ok (copies a))).
  - rewrite (ffi_step _ _ m1 m tt); [done|]. unfold List_drop, m1. destruct (raw a =? 0); [done|]. cbn [negb].
    unfold virDomainStatsRecordListFree. by rewrite lookup_insert_eq, delete_insert_id.
  - destruct (Z.ltb_spec (count a) 0); [done|].
    destruct (decide (count a = 0)) as [Ec|Ec]; [unfold copies; by rewrite Ec|].
    destruct Hlist as (Hraw & Hn & Hr); [lia|].
    assert (Hm1 : m1 !! raw a = Some (allocated a)).
    { unfold m1. rewrite (proj2 (Z.eqb_neq (raw a) 0)) by done. apply lookup_insert_eq. }
    rewrite (ffi_step _ _ _ _ _ (copy_records_pure _ _ _ (Z.to_nat (count a)) 0 Hm1 ltac:(lia) Hr)).
    by rewrite drop_0.
Qed.
End all.

(** ** Witnesses *)

(** Two domains, of which the second has no name in libvirt any more, and a NULL. *)
Definition sample : Answer :=
  {| count := 2; raw := 4096;
     allocated := {|
       entries := [
         Some {| dom := 16; nparams := 3;
                 c_params := Some [
                   {| field := as_bytes (lit "cpu.time") ++ replicate 72 0; type_ := 4; value := 1500000000 |};
                   {| field := as_bytes (lit "net.0.rx.bytes") ++ replicate 66 0; type_ := 3; value := 2 ^ 64 - 1 |};
                   {| field := as_bytes (lit "net.0.name") ++ replicate 70 0; type_ := 7; value := 512 |}] |};
         Some {| dom := 0; nparams := 0; c_params := None |}; None];
       strings := {[512 := as_bytes (lit "vnet0") ++ [0]]} |} |}.

Definition sample_uuid (dom : Z) : Z * list Z := (0, replicate 15 0 ++ [dom]).

Lemma typed_param_exact_witness :
  copy_param 4096 {| field := as_bytes (lit "balance") ++ replicate 73 0; type_ := 1; value := 7 * 2 ^ 32 + (2 ^ 32 - 5) |}
    {[4096 := allocated sample]} = Some (Some (lit "balance", SInt (-5)), {[4096 := allocated sample]}).
Proof.
  refine (proj1 (typed_param_exact 4096 (allocated sample) _ _ _ _) (lit "balance") (SInt (-5)) (replicate 72 0) _ _ _ _).
  - reflexivity.
  - discriminate.
  - let l := eval vm_compute in (lit "balance") in change (lit "balance") with l.
    repeat (apply Forall_cons_2; [left; lia|]). apply Forall_nil_2.
  - apply (bool_decide_unpack _). vm_compute. exact I.
  - reflexivity.
  - apply (stored_int _ (-5) 7). split; discriminate.
Defined.

Lemma stats_copied_and_freed_witness :
  all_domain_stats sample_uuid tt sample ∅ =
  Some (Ok [{| uuid := 16; params := [(lit "cpu.time", SUInt 1500000000); (lit "net.0.rx.bytes", SInt (-1));
                                       (lit "net.0.name", SText (lit "vnet0"))] |}], ∅).
Proof.
  rewrite (stats_copied_and_freed sample_uuid tt sample ∅); [vm_compute; reflexivity|].
  split; [reflexivity|]. split; [reflexivity|]. intros _. split; [discriminate|]. split; [discriminate|].
  intros r Hr array Ha. cbn [allocated sample entries] in Hr.
  apply elem_of_cons in Hr as [[= ->]|Hr].
  2: { apply elem_of_cons in Hr as [[= ->]|Hr]; [discriminate Ha|].
       apply elem_of_cons in Hr as [[=]|Hr]. by apply not_elem_of_nil in Hr. }
  injection Ha as <-.
  split; [discriminate|]. repeat (apply Forall_cons_2; [intros Hk Hv; try discriminate Hk|]); [|apply Forall_nil_2].
  eexists. split; [reflexivity|]. apply (bool_decide_unpack _). vm_compute. exact I.
Defined.
