(* ===== verification/Xml.v ===== *)
(** * libvirt XML (crates/lodger-core/src/xml/mod.rs)

    Documents are trees of the [xmltree] crate: [Element] and [XMLNode] mirror
    its public data types (the namespace fields, which Lodger never reads, are
    left out).  Its functions are the class [XmlTree], and what its
    documentation promises of the ones that read and build trees is
    [XmlTreeLaws]; nothing is assumed of the parser and of the writer. *)

From S2P Require Import Prelude Text.

(** ** The [xmltree] crate *)

Inductive Element : Type :=
| MkElement (e_name : str) (e_attributes : list (str * str)) (e_children : list XMLNode)
with XMLNode : Type :=
| NodeElement (e : Element)
| NodeComment (s : str)
| NodeCData (s : str)
| NodeText (s : str)
| NodeProcessingInstruction (target : str) (data : option str).

Definition e_name (e : Element) : str := let '(MkElement n _ _) := e in n.
Definition e_attributes (e : Element) : list (str * str) := let '(MkElement _ a _) := e in a.
Definition e_children (e : Element) : list XMLNode := let '(MkElement _ _ c) := e in c.

(** [XMLNode::as_element]. *)
Definition as_element (n : XMLNode) : option Element :=
  match n with NodeElement e => Some e | _ => None end.

Class XmlTree := {
  element_new : str → Element;
  get_child : Element → str → option Element;
  attr_get : list (str * str) → str → option str;
  attr_insert : list (str * str) → str → str → list (str * str);
  (* [Element::parse] of the UTF-8 bytes of a text, with its error text *)
  element_parse : str → result str Element;
  (* [write_with_config] with the indentation that [write] asks for *)
  element_write : Element → str
}.

(** The first child element with a name. *)
Definition first_named (name : str) (nodes : list XMLNode) : option Element :=
  List.find (λ e, bool_decide (e_name e = name)) (omap as_element nodes).

(** The value of a key in an insertion-ordered map. *)
Fixpoint assoc_get (m : list (str * str)) (k : str) : option str :=
  match m with
  | [] => None
  | (k', v) :: m' => if bool_decide (k' = k) then Some v else assoc_get m' k
  end.

Fixpoint assoc_insert (m : list (str * str)) (k v : str) : list (str * str) :=
  match m with
  | [] => [(k, v)]
  | (k', v') :: m' =>
      if bool_decide (k' = k) then (k, v) :: m' else (k', v') :: assoc_insert m' k v
  end.

Class XmlTreeLaws `{XmlTree} := {
  element_new_spec n : element_new n = MkElement n [] [];
  get_child_spec e n : get_child e n = first_named n (e_children e);
  attr_get_spec m k : attr_get m k = assoc_get m k;
  attr_insert_spec m k v : attr_insert m k v = assoc_insert m k v
}.

(** ** The module *)

Inductive XmlError :=
| Doctype
| Parse (message : str)
| Root (found expected : str).

#[export] Instance XmlError_eq_dec : EqDecision XmlError.
Proof. solve_decision. Defined.

Inductive DiskSource :=
| SrcFile (path : str)
| SrcBlock (path : str)
| SrcVolume (pool volume : str).

#[export] Instance DiskSource_eq_dec : EqDecision DiskSource.
Proof. solve_decision. Defined.

Record Disk := { disk_target : option str; disk_source : DiskSource; disk_shared : bool }.

Section xml.
Context `{XmlTree}.

Definition parse (xml root : str) : result XmlError Element :=
  if contains_str (lit "<!DOCTYPE") xml then Err Doctype
  else
    element ← map_err Parse (element_parse xml);
    if negb (bool_decide (e_name element = root)) then Err (Root (e_name element) root)
    else Ok element.

Definition write (element : Element) : str := element_write element.

(** [element.children.push(node)]. *)
Definition push_node (parent : Element) (node : XMLNode) : Element :=
  MkElement (e_name parent) (e_attributes parent) (e_children parent ++ [node]).

(** The [push] of pool.rs, volume.rs and network.rs. *)
Definition push (parent child : Element) : Element := push_node parent (NodeElement child).

Definition text_element (name text : str) : Element :=
  push_node (element_new name) (NodeText text).

Definition node_text (n : XMLNode) : option str :=
  match n with NodeText t => Some t | _ => None end.

Definition child_text (element : Element) (name : str) : option str :=
  child ← get_child element name;
  head (omap node_text (e_children child)).

Definition element_with (name : str) (attributes : list (str * str)) : Element :=
  foldl (λ e '(k, v), MkElement (e_name e) (attr_insert (e_attributes e) k v) (e_children e))
        (element_new name) attributes.

Definition attr (element : Element) (name : str) : option str :=
  attr_get (e_attributes element) name.

Definition disk (element : Element) : option Disk :=
  source ← get_child element (lit "source");
  let kind := default (lit "file") (attr element (lit "type")) in
  src ← (if bool_decide (kind = lit "file") then SrcFile <$> attr source (lit "file")
         else if bool_decide (kind = lit "block") then SrcBlock <$> attr source (lit "dev")
         else if bool_decide (kind = lit "volume") then
           pool ← attr source (lit "pool");
           volume ← attr source (lit "volume");
           Some (SrcVolume pool volume)
         else None);
  Some {| disk_target := t ← get_child element (lit "target"); attr t (lit "dev");
          disk_source := src;
          disk_shared := bool_decide (is_Some (get_child element (lit "readonly"))) ||
                         bool_decide (is_Some (get_child element (lit "shareable"))) |}.

(** The [<disk>] elements of a device list. *)
Definition disk_elements (devices : Element) : list Element :=
  filter (λ e, e_name e = lit "disk") (omap as_element (e_children devices)).

(** [attr(d, "device").is_none_or(|v| v == "disk")]. *)
Definition is_data_device (d : Element) : Prop :=
  match attr d (lit "device") with None => True | Some v => v = lit "disk" end.

#[export] Instance is_data_device_dec d : Decision (is_data_device d).
Proof. unfold is_data_device. destruct (attr d _); apply _. Defined.

Definition domain_disks (xml : str) : result XmlError (list Disk) :=
  domain ← parse xml (lit "domain");
  match get_child domain (lit "devices") with
  | None => Ok []
  | Some devices => Ok (omap disk (filter is_data_device (disk_elements devices)))
  end.

Definition domain_disk_sources (xml : str) : result XmlError (list DiskSource) :=
  domain ← parse xml (lit "domain");
  match get_child domain (lit "devices") with
  | None => Ok []
  | Some devices => Ok (disk_source <$> omap disk (disk_elements devices))
  end.

(** The NICs of type [network]. *)
Definition nic_elements (devices : Element) : list Element :=
  filter (λ e, e_name e = lit "interface" ∧ attr e (lit "type") = Some (lit "network"))
         (omap as_element (e_children devices)).

Definition nic_network (nic : Element) : option str :=
  s ← get_child nic (lit "source"); attr s (lit "network").

(** One iteration of the loop of [domain_networks]. *)
Definition add_network (names : list str) (nic : Element) : list str :=
  match nic_network nic with
  | Some name => if bool_decide (name ∈ names) then names else names ++ [name]
  | None => names
  end.

Definition domain_networks (xml : str) : result XmlError (list str) :=
  domain ← parse xml (lit "domain");
  match get_child domain (lit "devices") with
  | None => Ok []
  | Some devices => Ok (foldl add_network [] (nic_elements devices))
  end.

Definition domain_has_vnc (xml : str) : result XmlError bool :=
  domain ← parse xml (lit "domain");
  Ok (match get_child domain (lit "devices") with
      | None => false
      | Some devices =>
          existsb (λ e, bool_decide (e_name e = lit "graphics" ∧
                                     attr e (lit "type") = Some (lit "vnc")))
                  (omap as_element (e_children devices))
      end).
End xml.

(** A reference instance: trees as documented, and a parser and writer that
    know a fixed list of documents. *)
Definition xml_ref (docs : list (str * Element)) : XmlTree := {|
  element_new n := MkElement n [] [];
  get_child e n := first_named n (e_children e);
  attr_get := assoc_get;
  attr_insert := assoc_insert;
  element_parse s :=
    match List.find (λ '(t, _), bool_decide (t = s)) docs with
    | Some (_, e) => Ok e
    | None => Err (lit "unknown document")
    end;
  element_write e := e_name e
|}.

Lemma xml_ref_laws docs : @XmlTreeLaws (xml_ref docs).
Proof. by split. Qed.

(** Evaluates readers of a concrete tree, one documented operation at a time. *)
Ltac xml_read :=
  repeat (lazy -[get_child attr_get element_new attr_insert];
          first [rewrite get_child_spec | rewrite attr_get_spec]);
  lazy -[get_child attr_get element_new attr_insert].

(** ** Facts *)

Section facts.
Context `{XmlTree}.

Lemma parse_Ok xml root e :
  parse xml root = Ok e ↔
  contains_str (lit "<!DOCTYPE") xml = false ∧ element_parse xml = Ok e ∧ e_name e = root.
Proof.
  unfold parse. destruct (contains_str _ xml); [naive_solver|].
  rewrite bind_Ok. setoid_rewrite map_err_Ok. split.
  - intros (e' & He & Hr). case_bool_decide; naive_solver.
  - intros (_ & He & Hr). exists e. split; [done|]. by rewrite bool_decide_true.
Qed.

Lemma parse_doctype xml root :
  contains_str (lit "<!DOCTYPE") xml = true → parse xml root = Err Doctype.
Proof. intros E. unfold parse. by rewrite E. Qed.

(** The loop of [domain_networks] keeps the first use of each name. *)
Lemma add_network_spec nics names :
  NoDup names →
  NoDup (foldl add_network names nics) ∧
  ∀ n, n ∈ foldl add_network names nics ↔ n ∈ names ∨ n ∈ omap nic_network nics.
Proof.
  revert names. induction nics as [|nic nics IH]; intros names Hnd; cbn [foldl omap list_omap].
  { split; [done|]. set_solver. }
  unfold add_network at 2 4. destruct (nic_network nic) as [name|]; [|by apply IH].
  case_bool_decide as Hin.
  - destruct (IH names Hnd) as [Hd Hm]. split; [done|]. intros n. rewrite Hm, elem_of_cons. set_solver.
  - destruct (IH (names ++ [name])) as [Hd Hm].
    { apply NoDup_app. split_and!; [done| |apply NoDup_singleton]. set_solver. }
    split; [done|]. intros n. rewrite Hm, elem_of_app, !elem_of_cons, elem_of_nil. tauto.
Qed.

Lemma first_named_Some n nodes e :
  first_named n nodes = Some e → e_name e = n ∧ NodeElement e ∈ nodes.
Proof.
  unfold first_named. intros (l1 & l2 & E & Hn%bool_decide_eq_true & _)%find_Some_split.
  split; [done|]. assert (He : e ∈ omap as_element nodes) by (rewrite E; set_solver).
  apply list_elem_of_omap in He as (nd & Hnd & Hae). by destruct nd; simplify_eq/=.
Qed.

Lemma element_with_one `{!XmlTreeLaws} n k v : element_with n [(k, v)] = MkElement n [(k, v)] [].
Proof. unfold element_with. simpl. by rewrite element_new_spec, attr_insert_spec. Qed.

Lemma text_element_eq `{!XmlTreeLaws} n t : text_element n t = MkElement n [] [NodeText t].
Proof. unfold text_element. by rewrite element_new_spec. Qed.
End facts.

Section properties.
Context `{XmlTree}.

(** No document with a [<!DOCTYPE] gets past any reader: each answers with
    the [Doctype] error and the parser never sees the text. *)
Theorem doctype_refused xml root :
  contains_str (lit "<!DOCTYPE") xml = true →
  parse xml root = Err Doctype ∧ domain_disks xml = Err Doctype ∧
  domain_disk_sources xml = Err Doctype ∧ domain_networks xml = Err Doctype ∧
  domain_has_vnc xml = Err Doctype.
Proof.
  intros E. unfold domain_disks, domain_disk_sources, domain_networks, domain_has_vnc.
  rewrite !parse_doctype by done. done.
Qed.

(** Every data disk that a VM delete looks at is also a disk source that
    the in-use scan of the volumes sees, and both readers accept the same
    documents. *)
Theorem data_disks_are_sources xml :
  match domain_disks xml, domain_disk_sources xml with
  | Ok disks, Ok sources => (disk_source <$> disks) `sublist_of` sources
  | Err e, Err e' => e = e'
  | _, _ => False
  end.
Proof.
  unfold domain_disks, domain_disk_sources.
  destruct (parse xml (lit "domain")) as [domain|e]; [|done]. cbn [mbind result_bind].
  destruct (get_child domain (lit "devices")) as [devices|]; [|constructor].
  induction (disk_elements devices) as [|d ds IH]; [constructor|].
  rewrite filter_cons. destruct (decide (is_data_device d)); cbn [omap list_omap];
    destruct (disk d); cbn [fmap list_fmap]; try constructor; done.
Qed.

(** [domain_networks] lists each network that a NIC of the domain uses
    exactly once, and no other. *)
Theorem domain_networks_correct xml names :
  domain_networks xml = Ok names →
  NoDup names ∧ ∃ domain, parse xml (lit "domain") = Ok domain ∧
    ∀ n, n ∈ names ↔ ∃ devices nic,
      get_child domain (lit "devices") = Some devices ∧ nic ∈ nic_elements devices ∧
      nic_network nic = Some n.
Proof.
  unfold domain_networks. intros (domain & Hd & Hn)%bind_Ok.
  destruct (get_child domain (lit "devices")) as [devices|] eqn:Eg; simplify_eq.
  - destruct (add_network_spec (nic_elements devices) [] ltac:(constructor)) as [Hnd Hm].
    split; [done|]. exists domain. split; [done|]. intros n. rewrite Hm, list_elem_of_omap.
    split; [|naive_solver]. intros [Hf%elem_of_nil|(nic & ? & ?)]; [done|eauto].
  - split; [constructor|]. exists domain. split; [done|]. intros n. rewrite elem_of_nil, Eg.
    naive_solver.
Qed.
End properties.

(** ** Witnesses *)

Definition nic_of (network : str) : XMLNode :=
  NodeElement (MkElement (lit "interface") [(lit "type", lit "network")]
    [NodeElement (MkElement (lit "source") [(lit "network", network)] [])]).

Definition sample_domain : Element :=
  MkElement (lit "domain") [] [NodeElement (MkElement (lit "devices") []
    [nic_of (lit "default"); nic_of (lit "lan"); nic_of (lit "default")])].

Lemma doctype_refused_witness :
  @domain_disks (xml_ref []) (lit "<?xml?><!DOCTYPE x><domain/>") = Err Doctype.
Proof.
  exact (proj1 (proj2 (@doctype_refused (xml_ref []) (lit "<?xml?><!DOCTYPE x><domain/>")
    (lit "domain") ltac:(reflexivity)))).
Defined.

Lemma domain_networks_correct_witness :
  @domain_networks (xml_ref [(lit "doc", sample_domain)]) (lit "doc") = Ok [lit "default"; lit "lan"] ∧
  NoDup [lit "default"; lit "lan"].
Proof.
  assert (E : @domain_networks (xml_ref [(lit "doc", sample_domain)]) (lit "doc") =
    Ok [lit "default"; lit "lan"]) by reflexivity.
  split; [exact E|]. exact (proj1 (domain_networks_correct _ _ E)).
Defined.
