(* ===== verification/XmlPool.v ===== *)
(** * Storage pool XML (crates/lodger-core/src/xml/pool.rs)

    A new directory or NFS pool with every input checked, the document it
    becomes, the readers of a pool document, and the check against the pools
    that exist already. *)

From S2P Require Import Prelude Text Net Validate Xml.

Definition SYSTEM_TREES : list str :=
  lit <$> ["/bin"; "/boot"; "/dev"; "/etc"; "/lib"; "/lib32"; "/lib64"; "/proc"; "/root";
           "/run"; "/sbin"; "/sys"; "/tmp"; "/usr"]%string.

Definition SYSTEM_FOLDERS : list str :=
  lit <$> ["/"; "/home"; "/media"; "/mnt"; "/opt"; "/srv"; "/var"; "/var/lib";
           "/var/lib/libvirt"]%string.

Inductive PoolSource :=
| PoolDir
| PoolNfs (host export : str).

Record NewPool := { new_pool_name : Name; new_pool_path : str; new_pool_source : PoolSource }.

(** A pool document as libvirt returns it. *)
Record PoolXml := { pool_root : Element }.

Section pool.
Context `{Ipnet} `{XmlTree}.

Definition POOL_FOLDER : str := lit "Pool folder".

Definition target_path (value : str) : result InputError str :=
  path ← parse_path POOL_FOLDER value;
  let in_tree := existsb (λ tree, bool_decide (path = tree) ||
                                  starts_with (tree ++ lit "/") path) SYSTEM_TREES in
  if in_tree || bool_decide (path ∈ SYSTEM_FOLDERS) then Err (SystemPath POOL_FOLDER path)
  else Ok path.

Definition plain (path : str) : option str := ok (parse_path (lit "path") path).

Definition NewPool_dir (name : Name) (path : str) : result InputError NewPool :=
  path ← target_path path;
  Ok {| new_pool_name := name; new_pool_path := path; new_pool_source := PoolDir |}.

Definition NewPool_nfs (name : Name) (host export path : str) : result InputError NewPool :=
  path ← target_path path;
  host ← parse_host (lit "NFS server") host;
  export ← parse_path (lit "NFS export") export;
  Ok {| new_pool_name := name; new_pool_path := path; new_pool_source := PoolNfs host export |}.

(** The element that [to_xml] writes. *)
Definition NewPool_element (p : NewPool) : Element :=
  let kind := match new_pool_source p with PoolDir => lit "dir" | PoolNfs _ _ => lit "netfs" end in
  let pool := element_with (lit "pool") [(lit "type", kind)] in
  let pool := push pool (text_element (lit "name") (as_str (new_pool_name p))) in
  let pool :=
    match new_pool_source p with
    | PoolNfs host export =>
        let source := element_new (lit "source") in
        let source := push source (element_with (lit "host") [(lit "name", host)]) in
        let source := push source (element_with (lit "dir") [(lit "path", export)]) in
        let source := push source (element_with (lit "format") [(lit "type", lit "nfs")]) in
        push pool source
    | PoolDir => pool
    end in
  let target := push (element_new (lit "target")) (text_element (lit "path") (new_pool_path p)) in
  push pool target.

Definition NewPool_to_xml (p : NewPool) : str := write (NewPool_element p).

Definition PoolXml_parse (xml : str) : result XmlError PoolXml :=
  Build_PoolXml <$> parse xml (lit "pool").

Definition pool_type (x : PoolXml) : option str := attr_get (e_attributes (pool_root x)) (lit "type").

Definition PoolXml_name (x : PoolXml) : option str := child_text (pool_root x) (lit "name").

Definition PoolXml_target_path (x : PoolXml) : option str :=
  t ← get_child (pool_root x) (lit "target"); child_text t (lit "path").

Definition nfs_source (x : PoolXml) : option (str * str) :=
  if negb (bool_decide (pool_type x = Some (lit "netfs"))) then None
  else
    source ← get_child (pool_root x) (lit "source");
    let format := f ← get_child source (lit "format"); attr_get (e_attributes f) (lit "type") in
    if match format with
       | Some f => negb (bool_decide (f = lit "nfs")) && negb (bool_decide (f = lit "auto"))
       | None => false
       end
    then None
    else
      h ← get_child source (lit "host");
      host ← attr_get (e_attributes h) (lit "name");
      d ← get_child source (lit "dir");
      export ← attr_get (e_attributes d) (lit "path");
      Some (host, export).

Definition PoolXml_to_xml (x : PoolXml) : str := write (pool_root x).

(** Whether an existing pool mounts the same NFS export as a new one. *)
Definition same_export (p : NewPool) (other : PoolXml) : bool :=
  match new_pool_source p, nfs_source other with
  | PoolNfs host export, Some (other_host, other_export) =>
      eq_ignore_ascii_case host other_host &&
      bool_decide (plain other_export = Some export)
  | _, _ => false
  end.

Fixpoint NewPool_check_against (p : NewPool) (existing : list (str * PoolXml)) :
    result InputError unit :=
  match existing with
  | [] => Ok tt
  | (name, other) :: rest =>
      if bool_decide ((PoolXml_target_path other ≫= plain) = Some (new_pool_path p))
      then Err (PathInUse POOL_FOLDER name)
      else if same_export p other then Err (NfsExportInUse name)
      else NewPool_check_against p rest
  end.
End pool.

(** ** Facts *)

Section facts.
Context `{Ipnet}.

(** A folder is below another one when its names start with the other's. *)
Definition below (tree path : str) : Prop := path_parts tree `prefix_of` path_parts path.

Lemma path_parts_app_slash p s :
  path_parts (p ++ lit "/" ++ s) = path_parts p ++ path_parts s.
Proof.
  unfold path_parts. rewrite <- filter_app. f_equal. change (lit "/") with [47]. cbn [app].
  induction p as [|c p IH]; cbn [app split].
  - by rewrite Z.eqb_refl.
  - destruct (c =? 47); [by rewrite IH|]. rewrite IH.
    destruct (split 47 p) as [|q qs] eqn:E; [by apply split_not_nil in E|]. done.
Qed.

Lemma plain_path_parts p : plain_path p → p = lit "/" ++ join (lit "/") (path_parts p).
Proof.
  intros (parts & -> & Hp). rewrite path_parts_join; [done|].
  eapply Forall_impl; [done|naive_solver].
Qed.

(** The two string tests of [target_path] are the test on folder names. *)
Lemma in_tree_below tree path :
  plain_path tree → plain_path path → path_parts tree ≠ [] →
  bool_decide (path = tree) || starts_with (tree ++ lit "/") path = true ↔ below tree path.
Proof.
  intros Ht Hp Hne. rewrite orb_true_iff, bool_decide_eq_true, starts_with_true. unfold below. split.
  - intros [->|[s ->]]; [done|]. rewrite <- app_assoc, path_parts_app_slash. by eexists.
  - intros [rest Hr]. rewrite (plain_path_parts path Hp), (plain_path_parts tree Ht), Hr.
    change (lit "/") with [47]. destruct rest as [|q rest]; [left; by rewrite app_nil_r|right].
    exists (join [47] (q :: rest)).
    assert (Hj : ∀ l, l ≠ [] → join [47] (l ++ q :: rest) =
      join [47] l ++ 47 :: join [47] (q :: rest)).
    { intros l. induction l as [|a l IH]; [done|]. intros _.
      destruct l as [|b l]; [done|]. specialize (IH ltac:(done)). cbn [app] in *.
      rewrite (join_cons 47 a (b :: l ++ q :: rest)), (join_cons 47 a (b :: l)) by done.
      by rewrite IH, <- app_assoc. }
    rewrite Hj by done. rewrite <- !app_assoc. done.
Qed.

Lemma system_trees_plain : Forall (λ t, plain_path t ∧ path_parts t ≠ []) SYSTEM_TREES.
Proof.
  apply Forall_forall. intros t Ht.
  assert (Hb : forallb (λ t, bool_decide (@parse_path ipnet_ref [] t = Ok t) &&
    negb (bool_decide (path_parts t = []))) SYSTEM_TREES = true) by by vm_compute.
  rewrite forallb_forall in Hb. specialize (Hb t). rewrite <- list_elem_of_In in Hb.
  specialize (Hb Ht). apply andb_true_iff in Hb as [Hp Hn]. bool_hyps.
  split; [|done]. by eapply (@parse_path_plain ipnet_ref).
Qed.
End facts.

Section properties.
Context `{Ipnet}.

(** A pool folder is accepted exactly when it is an acceptable path that is
    no system folder and, name by name, neither a system tree nor below one; it
    is returned in its plain form. *)
Theorem target_path_correct value p :
  target_path value = Ok p ↔
  parse_path POOL_FOLDER value = Ok p ∧ (p ∉ SYSTEM_FOLDERS) ∧
  ∀ tree, tree ∈ SYSTEM_TREES → ¬ below tree p.
Proof.
  unfold target_path. rewrite bind_Ok. split.
  - intros (q & Hq & Hr). destruct (existsb _ SYSTEM_TREES) eqn:Et; [done|].
    rewrite orb_false_l in Hr. case_bool_decide as Hf; simplify_eq. split_and!; [done..|].
    intros tree Hin. rewrite existsb_false, Forall_forall in Et. specialize (Et tree Hin).
    pose proof system_trees_plain as Hs. rewrite Forall_forall in Hs.
    destruct (Hs tree Hin) as [Hp Hne].
    rewrite <- in_tree_below by (done || by eapply parse_path_plain). congruence.
  - intros (Hp & Hf & Ht). exists p. split; [done|].
    rewrite (bool_decide_false (p ∈ _)), orb_false_r by done.
    destruct (existsb _ SYSTEM_TREES) eqn:Et; [exfalso|done].
    apply existsb_true, Exists_exists in Et as (tree & Hin & Hb).
    pose proof system_trees_plain as Hs. rewrite Forall_forall in Hs.
    destruct (Hs tree Hin) as [Htp Hne].
    apply (Ht tree Hin). apply in_tree_below; try done. by eapply parse_path_plain.
Qed.

Lemma target_path_plain value p : target_path value = Ok p → plain p = Some p.
Proof.
  unfold target_path. intros (q & Hq & Hr)%bind_Ok. case_match; simplify_eq.
  unfold plain. by rewrite (parse_path_idem _ (lit "path") _ _ Hq).
Qed.

Context `{XmlTree}.

(** What makes an existing pool clash with a new one: its folder in the plain
    form, or the NFS export, with the server compared without regard to case. *)
Definition folder_clash (p : NewPool) (other : PoolXml) : Prop :=
  ∃ raw, PoolXml_target_path other = Some raw ∧ plain raw = Some (new_pool_path p).

Definition export_clash (p : NewPool) (other : PoolXml) : Prop :=
  ∃ host export host' raw, new_pool_source p = PoolNfs host export ∧
    nfs_source other = Some (host', raw) ∧
    to_ascii_lowercase host = to_ascii_lowercase host' ∧ plain raw = Some export.

Lemma same_export_true p other : same_export p other = true ↔ export_clash p other.
Proof.
  unfold same_export, export_clash, eq_ignore_ascii_case.
  destruct (new_pool_source p) as [|host export]; [naive_solver|].
  destruct (nfs_source other) as [[h e]|]; [|naive_solver].
  rewrite andb_true_iff, !bool_decide_eq_true. naive_solver.
Qed.

Lemma folder_clash_true p other :
  (PoolXml_target_path other ≫= plain) = Some (new_pool_path p) ↔ folder_clash p other.
Proof. unfold folder_clash. destruct (PoolXml_target_path other); naive_solver. Qed.

(** A new pool passes the check exactly when no existing pool uses its
    folder or its NFS export; otherwise the error names the first pool that
    clashes, and says folder before export. *)
Theorem check_against_correct p existing :
  match NewPool_check_against p existing with
  | Ok _ => ∀ name other, (name, other) ∈ existing →
              ¬ folder_clash p other ∧ ¬ export_clash p other
  | Err e => ∃ l1 name other l2, existing = l1 ++ (name, other) :: l2 ∧
      (∀ name' other', (name', other') ∈ l1 → ¬ folder_clash p other' ∧ ¬ export_clash p other') ∧
      (e = PathInUse POOL_FOLDER name ∧ folder_clash p other ∨
       e = NfsExportInUse name ∧ ¬ folder_clash p other ∧ export_clash p other)
  end.
Proof.
  induction existing as [|[name other] existing IH]; cbn [NewPool_check_against]; [set_solver|].
  case_bool_decide as Hf; rewrite folder_clash_true in Hf.
  { exists [], name, other, existing. split_and!; [done|set_solver|by left]. }
  destruct (same_export p other) eqn:Hs.
  { apply same_export_true in Hs. exists [], name, other, existing.
    split_and!; [done|set_solver|by right]. }
  assert (Hn : ¬ export_clash p other) by (rewrite <- same_export_true; congruence).
  destruct (NewPool_check_against p existing) as [|e].
  - intros n o. rewrite elem_of_cons. naive_solver.
  - destruct IH as (l1 & n & o & l2 & -> & Hl & He). exists ((name, other) :: l1), n, o, l2.
    split_and!; [done| |done]. intros n' o'. rewrite elem_of_cons. naive_solver.
Qed.

Context `{!XmlTreeLaws}.

(** The readers of a pool document, on the document of a new pool. *)
Lemma NewPool_readers p :
  let x := Build_PoolXml (NewPool_element p) in
  pool_type x = Some (match new_pool_source p with PoolDir => lit "dir" | _ => lit "netfs" end) ∧
  PoolXml_name x = Some (as_str (new_pool_name p)) ∧
  PoolXml_target_path x = Some (new_pool_path p) ∧
  nfs_source x = match new_pool_source p with PoolDir => None | PoolNfs h e => Some (h, e) end.
Proof.
  destruct p as [name path source]. unfold NewPool_element. cbv zeta. cbn [new_pool_source].
  rewrite !text_element_eq.
  destruct source; rewrite !element_with_one, !element_new_spec; split_and!; by xml_read.
Qed.

(** The document of a new pool reads back as the pool: its type, name,
    folder and NFS source.  So a pool that Lodger defined blocks its folder, and
    its export, for every later pool. *)
Theorem new_pool_readback p q value name :
  target_path value = Ok (new_pool_path q) →
  let x := Build_PoolXml (NewPool_element q) in
  PoolXml_name x = Some (as_str (new_pool_name q)) ∧
  PoolXml_target_path x = Some (new_pool_path q) ∧
  nfs_source x = match new_pool_source q with PoolDir => None | PoolNfs h e => Some (h, e) end ∧
  (new_pool_path p = new_pool_path q →
   NewPool_check_against p [(name, x)] = Err (PathInUse POOL_FOLDER name)).
Proof.
  intros Hq x. destruct (NewPool_readers q) as (_ & Hn & Ht & Hs). split_and!; [done..|].
  intros E. cbn [NewPool_check_against]. rewrite bool_decide_true; [done|].
  unfold x. rewrite Ht, E. simpl. by eapply target_path_plain.
Qed.
End properties.

(** ** Witnesses *)

Definition pool_vms : NewPool :=
  {| new_pool_name := MkName (lit "vms"); new_pool_path := lit "/srv/vms"; new_pool_source := PoolDir |}.

Lemma check_against_correct_witness :
  let other := Build_PoolXml (@NewPool_element (xml_ref []) pool_vms) in
  @NewPool_check_against _ (xml_ref []) pool_vms [(lit "old", other)] =
    Err (PathInUse POOL_FOLDER (lit "old")) ∧
  @folder_clash _ (xml_ref []) pool_vms other.
Proof.
  intros other.
  assert (E : @NewPool_check_against _ (xml_ref []) pool_vms [(lit "old", other)] =
    Err (PathInUse POOL_FOLDER (lit "old"))) by reflexivity.
  split; [exact E|].
  pose proof (@check_against_correct _ (xml_ref []) pool_vms [(lit "old", other)]) as Hc.
  rewrite E in Hc. destruct Hc as (l1 & name & o & l2 & Hl & _ & [[_ Hf]|[? _]]); [|done].
  destruct l1 as [|? [|? ?]]; simplify_eq/=. exact Hf.
Defined.

Lemma new_pool_readback_witness :
  let x := Build_PoolXml (@NewPool_element (xml_ref []) pool_vms) in
  @NewPool_check_against _ (xml_ref []) pool_vms [(lit "vms", x)] =
    Err (PathInUse POOL_FOLDER (lit "vms")).
Proof.
  intros x.
  destruct (@new_pool_readback ipnet_ref (xml_ref []) (xml_ref_laws []) pool_vms pool_vms
    (lit "/srv//vms/") (lit "vms") ltac:(reflexivity)) as (_ & _ & _ & Hc).
  exact (Hc eq_refl).
Defined.
