(* ===== verification/XmlVolume.v ===== *)
(** * Storage volume XML (crates/lodger-core/src/xml/volume.rs) *)

From S2P Require Import Prelude Text Net Validate Xml.

Definition MIN_BYTES : Z := Z.shiftl 1 20.
Definition MAX_BYTES : Z := Z.shiftl 1 50.

Inductive VolumeFormat := Qcow2 | Raw.

Definition VolumeFormat_as_str (f : VolumeFormat) : str :=
  match f with Qcow2 => lit "qcow2" | Raw => lit "raw" end.

Record NewVolume := {
  new_volume_name : Name;
  new_volume_format : VolumeFormat;
  new_volume_capacity_bytes : Z
}.

(** A volume document as libvirt returns it. *)
Record VolumeXml := { volume_root : Element }.

Section volume.
Context `{Ipnet} `{XmlTree}.

Definition NewVolume_new (name : Name) (format : VolumeFormat) (capacity_bytes : Z) :
    result InputError NewVolume :=
  if negb ((MIN_BYTES <=? capacity_bytes) && (capacity_bytes <=? MAX_BYTES))
  then Err (SizeOutOfRange (lit "size") MIN_BYTES MAX_BYTES)
  else Ok {| new_volume_name := name; new_volume_format := format;
             new_volume_capacity_bytes := capacity_bytes |}.

(** The element that [to_xml] writes. *)
Definition NewVolume_element (v : NewVolume) : Element :=
  let volume := element_new (lit "volume") in
  let volume := push volume (text_element (lit "name") (as_str (new_volume_name v))) in
  let capacity := element_with (lit "capacity") [(lit "unit", lit "bytes")] in
  let capacity := push_node capacity (NodeText (to_string (new_volume_capacity_bytes v))) in
  let volume := push volume capacity in
  let target := element_new (lit "target") in
  let target := push target (element_with (lit "format")
                  [(lit "type", VolumeFormat_as_str (new_volume_format v))]) in
  push volume target.

Definition NewVolume_to_xml (v : NewVolume) : str := write (NewVolume_element v).

Definition NewVolume_check_against (v : NewVolume) (pool : str) (existing : list str) :
    result InputError unit :=
  if existsb (λ name, bool_decide (name = as_str (new_volume_name v))) existing
  then Err (VolumeNameInUse pool (as_str (new_volume_name v)))
  else Ok tt.

Definition VolumeXml_parse (xml : str) : result XmlError VolumeXml :=
  Build_VolumeXml <$> parse xml (lit "volume").

Definition VolumeXml_name (x : VolumeXml) : option str := child_text (volume_root x) (lit "name").

Definition VolumeXml_path (x : VolumeXml) : option str :=
  t ← get_child (volume_root x) (lit "target"); child_text t (lit "path").

Definition backing_path (x : VolumeXml) : option str :=
  b ← get_child (volume_root x) (lit "backingStore"); child_text b (lit "path").

Definition VolumeXml_format (x : VolumeXml) : option str :=
  t ← get_child (volume_root x) (lit "target");
  f ← get_child t (lit "format");
  attr_get (e_attributes f) (lit "type").
End volume.

Section properties.
Context `{Ipnet} `{XmlTree} `{!XmlTreeLaws}.

(** A new volume holds between 1 MiB and 1 PiB, so its size fits a [u64]
    with room to spare, and its document carries back its name, its format and
    exactly its size in bytes as decimal text. *)
Theorem new_volume_readback name format capacity v :
  NewVolume_new name format capacity = Ok v →
  2 ^ 20 ≤ capacity ≤ 2 ^ 50 ∧
  let x := Build_VolumeXml (NewVolume_element v) in
  VolumeXml_name x = Some (as_str name) ∧
  VolumeXml_format x = Some (VolumeFormat_as_str format) ∧
  backing_path x = None ∧
  ∃ text, child_text (volume_root x) (lit "capacity") = Some text ∧
    parse_unsigned u64_max text = Some capacity.
Proof.
  unfold NewVolume_new. intros Hv.
  destruct ((MIN_BYTES <=? capacity) && (capacity <=? MAX_BYTES)) eqn:Er; simplify_eq/=.
  apply andb_true_iff in Er as [Hlo%Z.leb_le Hhi%Z.leb_le].
  change MIN_BYTES with (2 ^ 20) in Hlo. change MAX_BYTES with (2 ^ 50) in Hhi.
  split; [done|]. unfold NewVolume_element.
  cbv zeta. cbn [new_volume_name new_volume_format new_volume_capacity_bytes].
  rewrite !text_element_eq, !element_with_one, !element_new_spec.
  assert (Hp : parse_unsigned u64_max (to_string capacity) = Some capacity)
    by (apply parse_to_string; unfold u64_max; lia).
  generalize dependent (to_string capacity). intros text Hp.
  split_and!; [by xml_read|by xml_read|by xml_read|].
  exists text. split; [by xml_read|done].
Qed.
End properties.

Lemma new_volume_readback_witness :
  @NewVolume_new ipnet_ref (MkName (lit "disk")) Qcow2 1073741824 =
    Ok {| new_volume_name := MkName (lit "disk"); new_volume_format := Qcow2;
          new_volume_capacity_bytes := 1073741824 |} ∧ 2 ^ 20 ≤ 1073741824 ≤ 2 ^ 50.
Proof.
  split; [reflexivity|].
  exact (proj1 (@new_volume_readback ipnet_ref (xml_ref []) (xml_ref_laws [])
    (MkName (lit "disk")) Qcow2 1073741824 _ eq_refl)).
Defined.
