(* ===== verification/XmlNetwork.v ===== *)
(** * Virtual network XML (crates/lodger-core/src/xml/network.rs)

    A new NAT, isolated, or bridge network with every input checked, the
    document it becomes, the readers of a network document, and the check of a
    new subnet against the existing networks. *)

From S2P Require Import Prelude Text Net Validate Xml.

Inductive NetworkMode `{Ipnet} :=
| ModeNat (subnet : ipv4net)
| ModeIsolated (subnet : ipv4net)
| ModeBridge (bridge : str).

Record NewNetwork `{Ipnet} := { new_network_name : Name; new_network_mode : NetworkMode }.

(** A network document as libvirt returns it. *)
Record NetworkXml := { network_root : Element }.

Section network.
Context `{Ipnet} `{XmlTree}.

Definition NewNetwork_nat (name : Name) (subnet : str) : result InputError NewNetwork :=
  subnet ← parse_subnet (lit "Subnet") subnet;
  Ok {| new_network_name := name; new_network_mode := ModeNat subnet |}.

Definition NewNetwork_isolated (name : Name) (subnet : str) : result InputError NewNetwork :=
  subnet ← parse_subnet (lit "Subnet") subnet;
  Ok {| new_network_name := name; new_network_mode := ModeIsolated subnet |}.

Definition NewNetwork_bridge (name : Name) (bridge : str) (host_bridges : list str) :
    result InputError NewNetwork :=
  bridge ← parse_interface (lit "Host bridge") bridge;
  if negb (bool_decide (bridge ∈ host_bridges)) then Err (NoSuchBridge bridge)
  else Ok {| new_network_name := name; new_network_mode := ModeBridge bridge |}.

Definition NewNetwork_subnet (n : NewNetwork) : option ipv4net :=
  match new_network_mode n with
  | ModeNat subnet | ModeIsolated subnet => Some subnet
  | ModeBridge _ => None
  end.

(** The addresses of [ip]: gateway, start and end of the DHCP range.  [u32]
    additions; the theorems show that they do not overflow. *)
Definition gateway (subnet : ipv4net) : Z := net_network subnet + 1.
Definition dhcp_start (subnet : ipv4net) : Z := net_network subnet + 2.
Definition dhcp_end (subnet : ipv4net) : Z := net_broadcast subnet - 1.

Definition ip (subnet : ipv4net) : Element :=
  let gateway := ipv4_to_string (gateway subnet) in
  let start := ipv4_to_string (dhcp_start subnet) in
  let end_ := ipv4_to_string (dhcp_end subnet) in
  let prefix := to_string (net_prefix_len subnet) in
  let ip := element_with (lit "ip") [(lit "address", gateway); (lit "prefix", prefix)] in
  let dhcp := element_new (lit "dhcp") in
  let dhcp := push dhcp (element_with (lit "range") [(lit "start", start); (lit "end", end_)]) in
  push ip dhcp.

(** The element that [to_xml] writes. *)
Definition NewNetwork_element (n : NewNetwork) : Element :=
  let network := element_new (lit "network") in
  let network := push network (text_element (lit "name") (as_str (new_network_name n))) in
  match new_network_mode n with
  | ModeNat subnet =>
      let network := push network (element_with (lit "forward") [(lit "mode", lit "nat")]) in
      push network (ip subnet)
  | ModeIsolated subnet => push network (ip subnet)
  | ModeBridge bridge =>
      let network := push network (element_with (lit "forward") [(lit "mode", lit "bridge")]) in
      push network (element_with (lit "bridge") [(lit "name", bridge)])
  end.

Definition NewNetwork_to_xml (n : NewNetwork) : str := write (NewNetwork_element n).

Definition classful_prefix (address : Z) : Z :=
  let o := Z.shiftr address 24 mod 256 in
  if o <=? 127 then 8 else if o <=? 191 then 16 else 24.

Definition NetworkXml_parse (xml : str) : result XmlError NetworkXml :=
  Build_NetworkXml <$> parse xml (lit "network").

Definition NetworkXml_name (x : NetworkXml) : option str :=
  child ← get_child (network_root x) (lit "name");
  head (omap node_text (e_children child)).

Definition forward_mode (x : NetworkXml) : option str :=
  forward ← get_child (network_root x) (lit "forward");
  Some (default (lit "nat") (attr_get (e_attributes forward) (lit "mode"))).

Definition NetworkXml_bridge (x : NetworkXml) : option str :=
  b ← get_child (network_root x) (lit "bridge");
  attr_get (e_attributes b) (lit "name").

(** The subnet of one [<ip>] element. *)
Definition ip_subnet (e : Element) : option ipv4net :=
  a ← attr_get (e_attributes e) (lit "address");
  address ← parse_ipv4 a;
  net ← match attr_get (e_attributes e) (lit "prefix"), attr_get (e_attributes e) (lit "netmask") with
        | Some prefix, _ => p ← parse_unsigned u8_max prefix; net_new address p
        | None, Some mask => m ← parse_ipv4 mask; net_with_netmask address m
        | None, None => net_new address (classful_prefix address)
        end;
  Some (net_trunc net).

Definition subnets (x : NetworkXml) : list ipv4net :=
  omap ip_subnet
    (filter (λ e, e_name e = lit "ip") (omap as_element (e_children (network_root x)))).

Definition NetworkXml_to_xml (x : NetworkXml) : str := write (network_root x).

Definition NewNetwork_check_against (n : NewNetwork) (existing : list (str * NetworkXml)) :
    result InputError unit :=
  match NewNetwork_subnet n with
  | None => Ok tt
  | Some subnet =>
      let others := '(name, xml) ← existing; (λ net, (name, net)) <$> subnets xml in
      check_no_overlap (lit "Subnet") subnet others
  end.
End network.

(** ** Facts and properties *)

Section properties.
Context `{IpnetLaws} `{XmlTree}.

(** The shape of an accepted subnet. *)
Definition good_subnet (subnet : ipv4net) : Prop :=
  net_addr subnet = net_network subnet ∧ net_prefix_len subnet ≤ SUBNET_MAX_PREFIX.

Lemma parse_subnet_good field value subnet :
  parse_subnet field value = Ok subnet → good_subnet subnet.
Proof. intros (_ & _ & _ & _ & Hl & Ha)%parse_subnet_Ok. by split. Qed.

Lemma good_subnet_block subnet : good_subnet subnet → 4 ≤ block (net_prefix_len subnet).
Proof.
  intros [_ Hp]. unfold block, SUBNET_MAX_PREFIX in *.
  pose proof (Z.pow_le_mono_r 2 2 (32 - net_prefix_len subnet) ltac:(lia) ltac:(lia)). lia.
Qed.

Lemma gateway_network subnet :
  good_subnet subnet → 1 < block (net_prefix_len subnet) →
  gateway subnet - gateway subnet mod block (net_prefix_len subnet) = net_network subnet.
Proof.
  intros _ Hb. unfold gateway. destruct (network_divide subnet) as [k ->].
  rewrite Z.add_comm, Z.mod_add, Z.mod_small by lia. lia.
Qed.

Lemma check_no_overlap_one field subnet name other :
  (∃ a, in_net other a ∧ in_net subnet a) ↔
  check_no_overlap field subnet [(name, other)] = Err (SubnetOverlap field name other).
Proof.
  rewrite <- overlap_iff, <- !contains_addr_true. unfold check_no_overlap. simpl.
  rewrite orb_comm, <- orb_true_iff. by destruct (_ || _).
Qed.

(** For an accepted subnet, the addresses that the network document names
    are computed without [u32] overflow and are laid out as promised: the
    gateway is the first host address, and the DHCP range is every other host
    address, at least one of them. *)
Theorem dhcp_layout field value subnet :
  parse_subnet field value = Ok subnet →
  0 ≤ net_network subnet ∧ dhcp_start subnet ≤ u32_max ∧ 0 ≤ dhcp_end subnet ∧
  (∀ a, in_net subnet a ↔
        a = net_network subnet ∨ a = gateway subnet ∨
        dhcp_start subnet ≤ a ≤ dhcp_end subnet ∨ a = net_broadcast subnet) ∧
  net_network subnet < gateway subnet < dhcp_start subnet ∧
  dhcp_start subnet ≤ dhcp_end subnet < net_broadcast subnet.
Proof.
  intros Hs%parse_subnet_good. pose proof (good_subnet_block _ Hs).
  pose proof (network_nonneg subnet). pose proof (broadcast_u32 subnet).
  pose proof (broadcast_eq subnet).
  unfold gateway, dhcp_start, dhcp_end, in_net, u32_max. split_and!; lia.
Qed.

Context `{!XmlTreeLaws}.

Lemma element_with_two n k1 v1 k2 v2 :
  k1 ≠ k2 → element_with n [(k1, v1); (k2, v2)] = MkElement n [(k1, v1); (k2, v2)] [].
Proof.
  intros Hne. unfold element_with. simpl.
  rewrite element_new_spec, !attr_insert_spec. simpl.
  by rewrite bool_decide_false.
Qed.

Lemma ip_eq subnet : ip subnet =
  MkElement (lit "ip") [(lit "address", ipv4_to_string (gateway subnet));
                        (lit "prefix", to_string (net_prefix_len subnet))]
    [NodeElement (MkElement (lit "dhcp") []
      [NodeElement (MkElement (lit "range")
        [(lit "start", ipv4_to_string (dhcp_start subnet));
         (lit "end", ipv4_to_string (dhcp_end subnet))] [])])].
Proof. unfold ip. by rewrite !element_with_two, element_new_spec. Qed.

(** The reader undoes the writer on the [<ip>] element. *)
Lemma ip_readback subnet : good_subnet subnet → ip_subnet (ip subnet) = Some subnet.
Proof.
  intros Hg. pose proof (good_subnet_block _ Hg) as Hb. destruct Hg as [Ha Hp].
  pose proof (network_nonneg subnet). pose proof (broadcast_u32 subnet) as Hu.
  pose proof (net_prefix_range subnet) as Hr. rewrite broadcast_eq in Hu.
  assert (Hgw : 0 ≤ gateway subnet < 2 ^ 32) by (unfold gateway; lia).
  pose proof (parse_v4_to_string _ Hgw) as Hpa.
  assert (Hpp : parse_unsigned u8_max (to_string (net_prefix_len subnet)) =
    Some (net_prefix_len subnet)) by (apply parse_to_string; unfold u8_max; lia).
  rewrite ip_eq. unfold ip_subnet. cbn [e_attributes]. rewrite !attr_get_spec.
  generalize dependent (ipv4_to_string (gateway subnet)). intros address Hpa.
  generalize dependent (to_string (net_prefix_len subnet)). intros prefix Hpp.
  change (assoc_get _ (lit "address")) with (Some address).
  change (assoc_get _ (lit "prefix")) with (Some prefix).
  cbn [mbind option_bind]. rewrite Hpa. cbn [mbind option_bind]. rewrite Hpp.
  cbn [mbind option_bind].
  destruct (net_new (gateway subnet) (net_prefix_len subnet)) as [net|] eqn:En.
  - apply net_new_spec in En as (_ & Hna & Hnp); [|done|lia]. simpl. f_equal.
    apply net_ext; rewrite ?net_trunc_addr, ?net_trunc_prefix; [|done].
    rewrite network_eq, Hna, Hnp, Ha. apply gateway_network; [by split|lia].
  - exfalso. destruct (net_new_assert_spec (gateway subnet) (net_prefix_len subnet)) as [E1 E2];
      [done..|].
    assert (Hs : net_new (gateway subnet) (net_prefix_len subnet) =
      Some (net_new_assert (gateway subnet) (net_prefix_len subnet)))
      by (apply net_new_spec; [done|lia|by split_and!; [lia|..]]).
    by rewrite Hs in En.
Qed.

(** The readers of a network document, on the document of a new network. *)
Lemma NewNetwork_readers n :
  let x := Build_NetworkXml (NewNetwork_element n) in
  NetworkXml_name x = Some (as_str (new_network_name n)) ∧
  forward_mode x = match new_network_mode n with
                   | ModeNat _ => Some (lit "nat")
                   | ModeIsolated _ => None
                   | ModeBridge _ => Some (lit "bridge")
                   end ∧
  NetworkXml_bridge x = match new_network_mode n with ModeBridge b => Some b | _ => None end ∧
  subnets x = match new_network_mode n with
              | ModeNat s | ModeIsolated s => omap ip_subnet [ip s]
              | ModeBridge _ => []
              end.
Proof.
  destruct n as [name mode]. unfold NewNetwork_element, subnets. cbv zeta.
  cbn [new_network_mode new_network_name network_root].
  rewrite !text_element_eq. destruct mode as [s|s|b];
    rewrite ?element_with_one, !element_new_spec; try rewrite !ip_eq;
    try (generalize (ipv4_to_string (gateway s)) (to_string (net_prefix_len s))
           (ipv4_to_string (dhcp_start s)) (ipv4_to_string (dhcp_end s)); intros g p a e);
    (split_and!; [by xml_read..|reflexivity]).
Qed.

(** C40: the document of a new NAT or isolated network reads back as the network:
    its name, its forward mode, and exactly its subnet.  So once it is defined,
    every later network whose subnet shares an address with it is refused, and
    the refusal names it. *)
Theorem new_network_readback n m value subnet other :
  parse_subnet (lit "Subnet") value = Ok subnet →
  NewNetwork_subnet n = Some subnet → NewNetwork_subnet m = Some other →
  let x := Build_NetworkXml (NewNetwork_element n) in
  NetworkXml_name x = Some (as_str (new_network_name n)) ∧
  forward_mode x = match new_network_mode n with ModeNat _ => Some (lit "nat") | _ => None end ∧
  subnets x = [subnet] ∧
  ((∃ a, in_net subnet a ∧ in_net other a) ↔
   NewNetwork_check_against m [(as_str (new_network_name n), x)] =
     Err (SubnetOverlap (lit "Subnet") (as_str (new_network_name n)) subnet)).
Proof.
  intros Hs%parse_subnet_good Hn Hm x.
  destruct (NewNetwork_readers n) as (Hname & Hf & _ & Hsub).
  assert (Hx : subnets x = [subnet]).
  { unfold x. rewrite Hsub. unfold NewNetwork_subnet in Hn.
    destruct (new_network_mode n); simplify_eq; cbn [omap list_omap];
      by rewrite ip_readback. }
  split_and!; [done| |done|].
  - unfold x. rewrite Hf. unfold NewNetwork_subnet in Hn. by destruct (new_network_mode n).
  - unfold NewNetwork_check_against. rewrite Hm. cbn [mbind list_bind].
    fold x. rewrite Hx. cbn [fmap list_fmap app]. by rewrite check_no_overlap_one.
Qed.
End properties.

(** ** Witnesses *)

Abbreviation net150 := (@net_new_assert ipnet_ref (ipv4 192 168 150 0) 24).

Lemma dhcp_layout_witness :
  @dhcp_end ipnet_ref net150 = ipv4 192 168 150 254 ∧
  @dhcp_start ipnet_ref net150 ≤ u32_max.
Proof.
  split; [reflexivity|].
  exact (proj1 (proj2 (@dhcp_layout ipnet_ref ipnet_ref_laws (lit "Subnet")
    (lit "192.168.150.0/24") net150 ltac:(reflexivity)))).
Defined.

Lemma new_network_readback_witness :
  let n := {| new_network_name := MkName (lit "lab"); new_network_mode := ModeNat net150 |} in
  @subnets ipnet_ref (xml_ref []) (Build_NetworkXml (@NewNetwork_element ipnet_ref (xml_ref []) n))
    = [net150].
Proof.
  intros n.
  exact (proj1 (proj2 (proj2 (@new_network_readback ipnet_ref ipnet_ref_laws (xml_ref [])
    (xml_ref_laws []) n n (lit "192.168.150.0/24") net150 net150 ltac:(reflexivity) eq_refl eq_refl)))).
Defined.
