(* ===== verification/Password.v ===== *)
(** * The password policy (crates/lodger-core/src/password/mod.rs)

    [check] with its length rule in characters and its list of common
    passwords.  The list, the file common.txt, is an argument; [to_lowercase] is
    the interface [Lowercase] of Text.v. *)

From S2P Require Import Prelude Text.

Definition MIN_CHARS : Z := 15.
Definition MAX_CHARS : Z := 1024.

Inductive PasswordError :=
| TooShort (len : Z)
| TooLong (len : Z)
| Common.

(** The [Display] texts. *)
Definition PasswordError_to_string (e : PasswordError) : str :=
  match e with
  | TooShort len => lit "the password has " ++ to_string len ++ lit " characters, but it needs at least " ++ to_string MIN_CHARS
  | TooLong len => lit "the password has " ++ to_string len ++ lit " characters, but the limit is " ++ to_string MAX_CHARS
  | Common => lit "the password is on the list of the most common passwords. Choose another one"
  end.

Section password.
Context `{Lowercase}.
(** The lines of common.txt. *)
Variable COMMON : list str.

(** The set behind [COMMON_SET]. *)
Definition COMMON_SET : list str := to_lowercase <$> COMMON.

Definition check (password : str) : result PasswordError unit :=
  let len := Z.of_nat (length password) in
  if len <? MIN_CHARS then Err (TooShort len)
  else if MAX_CHARS <? len then Err (TooLong len)
  else if bool_decide (to_lowercase password ∈ COMMON_SET) then Err Common
  else Ok tt.

(** A password that the policy refuses as common. *)
Definition common_password (password : str) : Prop :=
  ∃ entry, entry ∈ COMMON ∧ to_lowercase password = to_lowercase entry.

Lemma check_Ok password :
  check password = Ok tt ↔
  15 ≤ Z.of_nat (length password) ≤ 1024 ∧ ¬ common_password password.
Proof.
  unfold check, MIN_CHARS, MAX_CHARS, COMMON_SET.
  destruct (Z.ltb_spec (Z.of_nat (length password)) 15); [split; [done|lia]|].
  destruct (Z.ltb_spec 1024 (Z.of_nat (length password))); [split; [done|lia]|].
  case_bool_decide as Hc; rewrite list_elem_of_fmap in Hc.
  - split; [done|]. intros [_ Hn]. destruct Hn. destruct Hc as (e & ? & ?). by exists e.
  - split; [|done]. intros _. split; [lia|]. intros (e & ? & ?). apply Hc. by exists e.
Qed.

(** The password policy is exactly its rule: 15 to 1024 characters, counted
    as characters and not bytes, and not equal to a listed password up to case.
    A refusal reports the number of characters, never the password, and says
    "common" only when the length is fine. *)
Theorem password_policy password :
  let len := Z.of_nat (length password) in
  match check password with
  | Ok _ => 15 ≤ len ≤ 1024 ∧ ¬ common_password password
  | Err (TooShort n) => n = len ∧ len < 15
  | Err (TooLong n) => n = len ∧ 1024 < len
  | Err Common => 15 ≤ len ≤ 1024 ∧ common_password password
  end.
Proof.
  intros len. destruct (check password) as [[]|e] eqn:E; [by apply check_Ok|].
  unfold check in E. fold len in E. unfold MIN_CHARS, MAX_CHARS, COMMON_SET in E.
  destruct (Z.ltb_spec len 15); simplify_eq; [done|].
  destruct (Z.ltb_spec 1024 len); simplify_eq; [done|].
  case_bool_decide as Hc; simplify_eq. split; [lia|].
  apply list_elem_of_fmap in Hc as (e & ? & ?). by exists e.
Qed.
End password.
