(* ===== verification/Permits.v ===== *)
(** * Limits on blocking work (crates/lodger/src/passwords.rs: [run];
    crates/lodger-virt/src/conn.rs: [run])

    Both functions wait for a permit of a semaphore, start the work on a blocking
    thread, and wait for its result, with the permit in the caller's future.  Any number
    of callers is a transition system.  A caller can be dropped at an [await]: its
    permit goes back, but work that has started runs to its end. *)

From S2P Require Import Prelude Text.

(** The permits of the two semaphores of a libvirt connection, and of argon2. *)
Definition FAST_PERMITS : nat := 3.
Definition LONG_PERMITS : nat := 2.
Definition PARALLEL : nat := 2.

(** A caller of [run]: in [acquire], in the work with its permit, dropped while its work
    runs on, or done. *)
Inductive Caller := Waiting | Holding | Abandoned | Ended.

#[export] Instance Caller_eq_dec : EqDecision Caller.
Proof. solve_decision. Defined.

Record Permits := { free : nat; callers : list Caller }.

Definition Permits_new (n : nat) : Permits := {| free := n; callers := [] |}.

(** What can happen: a call, the permit for a caller, the end of its work, or the drop
    of its future. *)
Inductive Happens := Call | Acquire (i : nat) | Finish (i : nat) | Dropped (i : nat).

Definition update (i : nat) (c : Caller) (free : nat) (s : Permits) : Permits :=
  {| free := free; callers := <[i := c]> (callers s) |}.

(** The semaphore is fair: the permit goes to the first that waits. *)
Definition first_waiting (i : nat) (s : Permits) : bool :=
  bool_decide (callers s !! i = Some Waiting) && forallb (λ c, negb (bool_decide (c = Waiting))) (take i (callers s)).

Definition happen (h : Happens) (s : Permits) : option Permits :=
  match h with
  | Call => Some {| free := free s; callers := callers s ++ [Waiting] |}
  | Acquire i =>
      match free s with
      | S n => if first_waiting i s then Some (update i Holding n s) else None
      | O => None
      end
  | Finish i =>
      match callers s !! i with
      | Some Holding => Some (update i Ended (S (free s)) s)
      | Some Abandoned => Some (update i Ended (free s) s)
      | _ => None
      end
  | Dropped i =>
      match callers s !! i with
      | Some Waiting => Some (update i Ended (free s) s)
      | Some Holding => Some (update i Abandoned (S (free s)) s)
      | _ => None
      end
  end.

Fixpoint happens (l : list Happens) (s : Permits) : option Permits :=
  match l with [] => Some s | h :: l => happen h s ≫= happens l end.

(** How many callers are in a state. *)
Definition count (c : Caller) (s : Permits) : nat := length (filter (λ x, x = c) (callers s)).

#[local] Arguments count : simpl never.

(** Work that runs on a blocking thread now. *)
Definition running (s : Permits) : nat := count Holding s + count Abandoned s.

(** ** Counting *)

Definition same (c d : Caller) : nat :=
  match c, d with
  | Waiting, Waiting | Holding, Holding | Abandoned, Abandoned | Ended, Ended => 1
  | _, _ => 0
  end.

Lemma count_insert c i old new s n :
  callers s !! i = Some old → (count c (update i new n s) + same old c = count c s + same new c)%nat.
Proof.
  intros Hi. unfold count, update. cbn [callers].
  destruct (list_elem_of_split_length _ _ _ Hi) as (l1 & l2 & E & ->). rewrite E.
  rewrite insert_app_r_alt, Nat.sub_diag by done.
  change (<[0%nat:=new]> (old :: l2)) with (new :: l2). rewrite !filter_app, !length_app, !filter_cons.
  destruct old, new, c; repeat first [rewrite decide_True by done|rewrite decide_False by done]; cbn [length same]; lia.
Qed.

Lemma count_snoc c d s n : count c {| free := n; callers := callers s ++ [d] |} = (count c s + same d c)%nat.
Proof.
  unfold count. cbn [callers]. rewrite filter_app, length_app, filter_cons.
  destruct c, d; repeat first [rewrite decide_True by done|rewrite decide_False by done]; done.
Qed.

(** A caller has a permit, or it is free. *)
Definition accounted (n : nat) (s : Permits) : Prop := (free s + count Holding s = n)%nat.

Lemma happen_accounted n h s s' : accounted n s → happen h s = Some s' → accounted n s'.
Proof.
  unfold accounted. intros Hs E. destruct h as [|i|i|i]; cbn [happen] in E.
  - injection E as <-. rewrite count_snoc. cbn [free]. change (same Waiting Holding) with 0%nat. lia.
  - destruct (free s) as [|m] eqn:Ef; [done|]. destruct (first_waiting i s) eqn:Ew; [|done]. injection E as <-.
    unfold first_waiting in Ew. bool_hyps. pose proof (count_insert Holding i Waiting Holding s m ltac:(done)) as Hc.
    unfold same in Hc. cbn in *. lia.
  - destruct (callers s !! i) as [[]|] eqn:Ei; try done; injection E as <-;
      [pose proof (count_insert Holding i _ Ended s (S (free s)) Ei) as Hc|
       pose proof (count_insert Holding i _ Ended s (free s) Ei) as Hc]; unfold same in Hc; cbn in *; lia.
  - destruct (callers s !! i) as [[]|] eqn:Ei; try done; injection E as <-;
      [pose proof (count_insert Holding i _ Ended s (free s) Ei) as Hc|
       pose proof (count_insert Holding i _ Abandoned s (S (free s)) Ei) as Hc]; unfold same in Hc; cbn in *; lia.
Qed.

Lemma happens_accounted n l s s' : accounted n s → happens l s = Some s' → accounted n s'.
Proof.
  revert s. induction l as [|h l IH]; intros s Hs E; [by injection E as <-|]. cbn in E.
  destruct (happen h s) as [s1|] eqn:E1; [|done]. cbn in E. eapply IH; [|exact E]. by eapply happen_accounted.
Qed.

(** A schedule in which no caller is dropped leaves no work without a caller. *)
Lemma happens_kept l s s' :
  Forall (λ h, ∀ i, h ≠ Dropped i) l → count Abandoned s = 0%nat → happens l s = Some s' → count Abandoned s' = 0%nat.
Proof.
  revert s. induction l as [|h l IH]; intros s Hl Hs E; [by injection E as <-|]. apply Forall_cons in Hl as [Hh Hl].
  cbn in E. destruct (happen h s) as [s1|] eqn:E1; [|done]. cbn in E. eapply IH; [done| |exact E].
  destruct h as [|i|i|i]; cbn [happen] in E1; [| | |by destruct (Hh i)].
  - injection E1 as <-. rewrite count_snoc. by rewrite Hs.
  - destruct (free s) as [|m]; [done|]. destruct (first_waiting i s) eqn:Ew; [|done]. injection E1 as <-.
    unfold first_waiting in Ew. bool_hyps. pose proof (count_insert Abandoned i Waiting Holding s m ltac:(done)) as Hc.
    unfold same in Hc. cbn in Hc. lia.
  - destruct (callers s !! i) as [[]|] eqn:Ei; try done; injection E1 as <-;
      [pose proof (count_insert Abandoned i _ Ended s (S (free s)) Ei) as Hc|
       pose proof (count_insert Abandoned i _ Ended s (free s) Ei) as Hc]; unfold same in Hc; cbn in Hc; lia.
Qed.

(** ** Nobody waits for ever *)

(** Work left: two steps for a caller that waits, one for work that runs. *)
Definition left_over (s : Permits) : nat := 2 * count Waiting s + count Holding s + count Abandoned s.

Lemma count_none c s : count c s = 0%nat ↔ c ∉ callers s.
Proof.
  unfold count. rewrite length_zero_iff_nil. split.
  - intros E Hin. assert (c ∈ filter (λ x, x = c) (callers s)) as Hf by by apply list_elem_of_filter.
    by rewrite E in Hf; apply elem_of_nil in Hf.
  - intros Hn. destruct (filter _ _) as [|x l] eqn:E; [done|].
    assert (x ∈ filter (λ x, x = c) (callers s)) as [-> Hx]%list_elem_of_filter by (rewrite E; left). done.
Qed.

(** A permit that is given, and work that ends. *)
Definition moves_on (h : Happens) : Prop := ∃ i, h = Acquire i ∨ h = Finish i.

Lemma count_update i old new s n :
  callers s !! i = Some old →
  ∀ c, (count c (update i new n s) + same old c = count c s + same new c)%nat.
Proof. intros Hi c. by apply count_insert. Qed.

(** Each such step leaves less to do. *)
Lemma moves_on_less h s s' : moves_on h → happen h s = Some s' → (left_over s' < left_over s)%nat.
Proof.
  assert (H : ∀ i old new n, callers s !! i = Some old →
    (2 * same new Waiting + same new Holding + same new Abandoned <
     2 * same old Waiting + same old Holding + same old Abandoned)%nat → (left_over (update i new n s) < left_over s)%nat).
  { intros i old new n Hi Hlt. pose proof (count_update i old new s n Hi) as Hc. unfold left_over.
    pose proof (Hc Waiting). pose proof (Hc Holding). pose proof (Hc Abandoned). lia. }
  intros [i [-> | ->]] E; cbn [happen] in E.
  - destruct (free s); [done|]. destruct (first_waiting i s) eqn:Ew; [|done]. injection E as <-.
    unfold first_waiting in Ew. bool_hyps. eapply H; [done|]. cbn. lia.
  - destruct (callers s !! i) as [[]|] eqn:Ei; try done; injection E as <-; (eapply H; [done|]; cbn; lia).
Qed.

(** While somebody is there, one of them is possible. *)
Lemma progress n s :
  (0 < n)%nat → accounted n s → left_over s ≠ 0%nat → ∃ h s', moves_on h ∧ happen h s = Some s'.
Proof.
  intros Hn Hs Hl. unfold accounted in Hs.
  destruct (decide (Holding ∈ callers s)) as [[i Hi]%list_elem_of_lookup|Hh].
  { exists (Finish i). cbn [happen]. rewrite Hi. eexists. split; [|done]. by exists i; right. }
  destruct (decide (Abandoned ∈ callers s)) as [[i Hi]%list_elem_of_lookup|Ha].
  { exists (Finish i). cbn [happen]. rewrite Hi. eexists. split; [|done]. by exists i; right. }
  apply count_none in Hh, Ha.
  assert (Hw : Waiting ∈ callers s).
  { destruct (decide (Waiting ∈ callers s)) as [|Hw]; [done|]. apply count_none in Hw. unfold left_over in Hl. lia. }
  destruct (free s) as [|m] eqn:Ef; [lia|].
  apply list_elem_of_split_l in Hw as (l1 & l2 & E & Hl1). exists (Acquire (length l1)). cbn [happen]. rewrite Ef.
  assert (first_waiting (length l1) s = true) as ->; [|by eexists; split; [eexists; left|]].
  unfold first_waiting. rewrite E. apply andb_true_iff. split.
  - apply bool_decide_true. by rewrite lookup_app_r, Nat.sub_diag by lia.
  - rewrite take_app_length. apply forallb_Forall, Forall_forall. intros x Hx. apply negb_true_iff, bool_decide_false.
    by intros ->.
Qed.

Lemma all_ended s : left_over s = 0%nat ↔ Forall (λ c, c = Ended) (callers s).
Proof.
  unfold left_over. rewrite Forall_forall. split.
  - intros Hl [] Hc; try done; [destruct (proj1 (count_none Waiting s))|destruct (proj1 (count_none Holding s))|
      destruct (proj1 (count_none Abandoned s))]; auto; lia.
  - intros Hc. assert (∀ c, c ≠ Ended → count c s = 0%nat) as H.
    { intros c Hne. apply count_none. intros Hin. by apply Hne, Hc. }
    rewrite !H by done. done.
Qed.

Lemma moves_on_bounded l s s' :
  Forall moves_on l → happens l s = Some s' → (length l + left_over s' ≤ left_over s)%nat.
Proof.
  revert s. induction l as [|h l IH]; intros s Hl E; [by injection E as <-|]. apply Forall_cons in Hl as [Hh Hl].
  cbn in E. destruct (happen h s) as [s1|] eqn:E1; [|done]. cbn in E. specialize (IH _ Hl E).
  apply moves_on_less in E1; [|done]. cbn [length]. lia.
Qed.

(** C21: the limits on blocking work hold while callers stay, and nobody waits for ever.
    Take any number of callers of a semaphore with some permits, in any order of calls,
    permits, ends of work and drops.  Every permit is free or with one caller.  When no
    caller was dropped, no more work runs than there are permits.  From then on, permits
    and ends of work can follow each other only finitely often, and when neither is
    possible any more, every caller has had its result or gone. *)
Theorem permits_serve_everyone n l s :
  (0 < n)%nat → happens l (Permits_new n) = Some s →
  (free s + count Holding s = n)%nat ∧
  (Forall (λ h, ∀ i, h ≠ Dropped i) l → (running s ≤ n)%nat) ∧
  ∀ l' s', Forall moves_on l' → happens l' s = Some s' →
    (length l' ≤ left_over s)%nat ∧
    ((∀ h, moves_on h → happen h s' = None) → Forall (λ c, c = Ended) (callers s')).
Proof.
  intros Hn E. assert (Hs : accounted n s).
  { eapply happens_accounted; [|exact E]. unfold accounted, count. cbn. lia. }
  split_and!; [exact Hs| |].
  - intros Hl. pose proof (happens_kept l (Permits_new n) s Hl eq_refl E) as Ha. unfold running, accounted in *. lia.
  - intros l' s' Hl' E'. split; [pose proof (moves_on_bounded _ _ _ Hl' E'); lia|].
    intros Hstuck. apply all_ended. destruct (decide (left_over s' = 0%nat)) as [|Hne]; [done|].
    destruct (progress n s' Hn) as (h & s2 & Hh & E2); [by eapply happens_accounted|done|].
    by rewrite Hstuck in E2.
Qed.

(** Dropped callers escape the limit.  Whatever the number of permits is, callers
    that are dropped once their work has started can make any amount of work run at the
    same time, with every permit free: for argon2 this is the flood of logins that the
    limit is there for. *)
Theorem dropped_callers_escape n k :
  (0 < n)%nat → ∃ l s, happens l (Permits_new n) = Some s ∧ running s = k ∧ free s = n.
Proof.
  intros Hn. assert (H : ∃ l, happens l (Permits_new n) = Some {| free := n; callers := replicate k Abandoned |}).
  { induction k as [|k [l IH]]; [by exists []|].
    exists (l ++ [Call; Acquire k; Dropped k]).
    assert (Happ : ∀ l1 l2 s, happens (l1 ++ l2) s = happens l1 s ≫= happens l2).
    { intros l1. induction l1 as [|h l1 IH1]; intros l2 s; [done|]. cbn. destruct (happen h s); [apply IH1|done]. }
    rewrite Happ, IH. destruct n as [|n]; [lia|]. cbn [mbind option_bind happens happen free callers].
    assert (Hl : (replicate k Abandoned ++ [Waiting]) !! k = Some Waiting).
    { rewrite lookup_app_r by (rewrite length_replicate; lia). by rewrite length_replicate, Nat.sub_diag. }
    assert (first_waiting k {| free := S n; callers := replicate k Abandoned ++ [Waiting] |} = true) as ->.
    { unfold first_waiting. cbn [callers]. apply andb_true_iff. split; [by apply bool_decide_true|].
      rewrite take_app_length' by (by rewrite length_replicate). apply forallb_Forall, Forall_replicate. done. }
    assert (Hins : ∀ x y : Caller, <[k:=y]> (replicate k Abandoned ++ [x]) = replicate k Abandoned ++ [y]).
    { intros x y. rewrite insert_app_r_alt by (by rewrite length_replicate). by rewrite length_replicate, Nat.sub_diag. }
    assert (Hlook : ∀ x : Caller, (replicate k Abandoned ++ [x]) !! k = Some x).
    { intros x. rewrite lookup_app_r by (rewrite length_replicate; lia). by rewrite length_replicate, Nat.sub_diag. }
    cbn [mbind option_bind happen callers free]. unfold update. cbn [callers free]. rewrite Hins, Hlook.
    cbn [mbind option_bind callers free]. rewrite Hins. by rewrite <- replicate_S_end. }
  destruct H as [l H]. exists l. eexists. split; [exact H|]. split; [|done].
  unfold running, count. cbn [callers].
  assert (E1 : filter (λ x, x = Holding) (replicate k Abandoned) = []) by (clear; induction k; [done|]; cbn [replicate]; by rewrite filter_cons_False by done).
  assert (E2 : filter (λ x, x = Abandoned) (replicate k Abandoned) = replicate k Abandoned)
    by (apply filter_all; by apply Forall_replicate).
  by rewrite E1, E2, length_replicate.
Qed.

(** ** Witnesses *)

Definition three_logins : list Happens := [Call; Call; Call; Acquire 0; Acquire 1; Finish 0; Acquire 2].

Lemma permits_serve_everyone_witness :
  ∃ s, happens three_logins (Permits_new PARALLEL) = Some s ∧ (running s ≤ PARALLEL)%nat.
Proof.
  eexists. split; [vm_compute; reflexivity|].
  apply (permits_serve_everyone PARALLEL three_logins); [unfold PARALLEL; lia|reflexivity|].
  repeat (apply Forall_cons_2; [done|]). apply Forall_nil_2.
Defined.

Lemma dropped_callers_escape_witness :
  ∃ l s, happens l (Permits_new PARALLEL) = Some s ∧ running s = 500%nat ∧ free s = PARALLEL.
Proof. apply (dropped_callers_escape PARALLEL 500). unfold PARALLEL. lia. Defined.
