(* ===== verification/Throttle.v ===== *)
(** * Login throttling (crates/lodger/src/throttle.rs)

    The counters behind the login throttle, with their eviction and pruning,
    and an abstract throttle that keeps every failure for ever.  An [Instant] is
    a number of nanoseconds on the monotonic clock, a [Duration] a number of
    nanoseconds.  The mutex makes [begin] and [succeed] atomic, so a run is a
    sequence of calls. *)

From S2P Require Import Prelude Text Net Validate.

(** ** The code *)

Definition secs (n : Z) : Z := n * 10 ^ 9.

Definition FREE_FAILURES : Z := 5.
Definition WINDOW : Z := secs (15 * 60).
Definition MAX_DELAY : Z := secs 60.
Definition MAX_KEYS : Z := 10000.

Record Entry := { times : list Z; next : option Z }.
Definition Entry_default : Entry := {| times := []; next := None |}.

(** [Counts<K>]. *)
Abbreviation Counts K := (gmap K Entry).

(** [now.duration_since(t)]: zero when [t] is later. *)
Definition duration_since (now t : Z) : Z := Z.max 0 (now - t).

Definition in_window (now t : Z) : Prop := duration_since now t < WINDOW.

#[export] Instance in_window_dec now t : Decision (in_window now t).
Proof. apply Z_lt_dec. Defined.

(** The [while] loop of [entry]: it pops the front while it is too old. *)
Fixpoint pop_old (now : Z) (ts : list Z) : list Z :=
  match ts with
  | t :: ts' => if WINDOW <=? duration_since now t then pop_old now ts' else ts
  | [] => []
  end.

(** The test of [retain]. *)
Definition live (now : Z) (e : Entry) : bool :=
  match last (times e) with Some t => duration_since now t <? WINDOW | None => false end ||
  match next e with Some t => now <? t | None => false end.

Section counts.
Context `{Countable K}.

Definition contains_key (m : Counts K) (key : K) : bool := bool_decide (is_Some (m !! key)).

Definition retain (now : Z) (m : Counts K) : Counts K := filter (λ p, live now p.2) m.

(** [Counts::entry]: the map it leaves, and the entry, [None] when the map is
    full. *)
Definition entry (m : Counts K) (key : K) (now : Z) : Counts K * option Entry :=
  let insert m :=
    let e := default Entry_default (m !! key) in
    let e := {| times := pop_old now (times e); next := next e |} in
    (<[key := e]> m, Some e) in
  if (MAX_KEYS <=? Z.of_nat (size m)) && negb (contains_key m key) then
    let m := retain now m in
    if (MAX_KEYS <=? Z.of_nat (size m)) then (m, None) else insert m
  else insert m.
End counts.

Record Counters := { accounts : Counts str; ips : Counts ip_addr }.

Definition Counters_default : Counters := {| accounts := ∅; ips := ∅ |}.

Record Attempt := { wait : Z; failures : Z; at_ : Z }.

(** [delay_for]; the count is a [usize]. *)
Definition delay_for (failures : Z) : Z :=
  if failures <? FREE_FAILURES then 0
  else
    let exponent := Z.min (Z.min (failures - FREE_FAILURES) u32_max) 6 in
    Z.min (secs (Z.shiftl 1 exponent)) MAX_DELAY.

Section throttle.
Context `{Lowercase}.

Definition account_key (account : str) : str := to_lowercase (take (Z.to_nat NAME_MAX_LEN) account).

Definition ip_key (ip : ip_addr) : ip_addr :=
  match to_canonical ip with
  | V6 v6 => V6 (Z.land v6 (Z.lxor (Z.ones 128) u64_max))
  | v4 => v4
  end.

Definition len (e : Entry) : Z := Z.of_nat (length (times e)).

Definition push_back (now : Z) (e : Entry) : Entry :=
  {| times := times e ++ [now]; next := next e |}.

(** [Throttle::begin]: the counters it leaves and its answer. *)
Definition begin (c : Counters) (account : str) (ip : ip_addr) (now : Z) :
    Counters * result Z Attempt :=
  let account := account_key account in
  let ip := ip_key ip in
  let '(accounts, account_entry) := entry (accounts c) account now in
  let account_failures := len <$> account_entry in
  let '(ips, ip_entry) := entry (ips c) ip now in
  let ip_failures := len <$> ip_entry in
  let failures := match account_failures, ip_failures with
                  | Some a, Some i => Z.max a i
                  | _, _ => usize_max
                  end in
  let start := now + delay_for failures in
  let finish ips start :=
    ({| accounts := alter (push_back now) account accounts; ips := ips |},
     Ok {| wait := start - now; failures := Z.min failures MAX_KEYS; at_ := now |}) in
  match ip_entry with
  | Some e =>
      let start := match next e with Some next => Z.max start next | None => start end in
      if MAX_DELAY <? start - now
      then ({| accounts := accounts; ips := ips |}, Err (start - now))
      else
        let e := push_back now e in
        let e := {| times := times e; next := Some (start + delay_for (len e)) |} in
        finish (<[ip := e]> ips) start
  | None => finish ips start
  end.

(** [times.iter().position(..)] and [times.remove(i)]. *)
Fixpoint remove_first (t : Z) (ts : list Z) : list Z :=
  match ts with
  | [] => []
  | x :: ts' => if x =? t then ts' else x :: remove_first t ts'
  end.

(** [Throttle::succeed]. *)
Definition succeed (c : Counters) (account : str) (ip : ip_addr) (attempt : Attempt) : Counters :=
  {| accounts := delete (account_key account) (accounts c);
     ips := alter (λ e, {| times := remove_first (at_ attempt) (times e); next := next e |})
              (ip_key ip) (ips c) |}.
End throttle.

(** ** The abstract throttle

    It keeps every failure for ever, counts the ones of the last 15 minutes, and
    has a table for the pauses.  It forgets nothing and prunes nothing: what is left
    of the code's limit is that a new key finds no room while 10,000 others count. *)

Record Past := { tried : list Z; not_before : option Z }.

Abbreviation Ledger K := (gmap K Past).

Record Spec := { s_accounts : Ledger str; s_ips : Ledger ip_addr }.

Definition Spec_default : Spec := {| s_accounts := ∅; s_ips := ∅ |}.

(** The failures of the last 15 minutes. *)
Definition count (now : Z) (ts : list Z) : Z :=
  Z.of_nat (length (filter (λ t, now - t < 900000000000) ts)).

(** The pause after [n] failures: none up to 4, then 1, 2, 4, 8, 16 and 32 seconds, then
    a minute. *)
Definition pause (n : Z) : Z :=
  if n <? 5 then 0
  else if n =? 5 then 1000000000
  else if n =? 6 then 2000000000
  else if n =? 7 then 4000000000
  else if n =? 8 then 8000000000
  else if n =? 9 then 16000000000
  else if n =? 10 then 32000000000
  else 60000000000.

(** Whether a key counts: a failure in the last 15 minutes, or an attempt still waiting. *)
Definition counted (now : Z) (p : Past) : Prop :=
  Exists (λ t, now - t < 900000000000) (tried p) ∨
  match not_before p with Some t => now < t | None => False end.

#[export] Instance counted_dec now p : Decision (counted now p).
Proof. unfold counted. destruct (not_before p); apply _. Defined.

Definition past `{Countable K} (l : Ledger K) (k : K) : Past :=
  default {| tried := []; not_before := None |} (l !! k).

(** A key has room when it counts already, or fewer than 10,000 others do. *)
Definition room `{Countable K} (now : Z) (l : Ledger K) (k : K) : bool :=
  bool_decide (counted now (past l k)) ||
  (Z.of_nat (size (filter (λ x, counted now x.2) l)) <? 10000).

(** An account is its first 64 characters without regard to case; an IPv6 client is
    its /64. *)
Definition who_account `{Lowercase} (account : str) : str := to_lowercase (take 64 account).
Definition who_ip (ip : ip_addr) : ip_addr :=
  match to_canonical ip with
  | V6 a => V6 (a / 2 ^ 64 mod 2 ^ 64 * 2 ^ 64)
  | V4 a => V4 a
  end.

(** One failure at that time is taken back. *)
Definition taken_back (t : Z) (ts : list Z) : list Z :=
  match list_find (λ x, x = t) ts with Some (i, _) => delete i ts | None => ts end.

Inductive call :=
| Begin (account : str) (ip : ip_addr) (now : Z)
| Succeed (account : str) (ip : ip_addr) (attempt : Attempt).

Section runs.
Context `{Lowercase}.

Definition spec_begin (s : Spec) (account : str) (ip : ip_addr) (now : Z) :
    Spec * result Z Attempt :=
  let a := who_account account in
  let i := who_ip ip in
  let room_a := room now (s_accounts s) a in
  let room_i := room now (s_ips s) i in
  let pa := past (s_accounts s) a in
  let pi := past (s_ips s) i in
  let failures := if room_a && room_i then Z.max (count now (tried pa)) (count now (tried pi)) else usize_max in
  let start := Z.max (now + pause failures) (if room_i then default now (not_before pi) else now) in
  if 60000000000 <? start - now then (s, Err (start - now))
  else
    ({| s_accounts :=
          if room_a then <[a := {| tried := tried pa ++ [now]; not_before := not_before pa |}]> (s_accounts s)
          else s_accounts s;
        s_ips :=
          if room_i
          then <[i := {| tried := tried pi ++ [now];
                         not_before := Some (start + pause (count now (tried pi) + 1)) |}]> (s_ips s)
          else s_ips s |},
     Ok {| wait := start - now; failures := Z.min failures 10000; at_ := now |}).

Definition spec_succeed (s : Spec) (account : str) (ip : ip_addr) (attempt : Attempt) : Spec :=
  {| s_accounts := delete (who_account account) (s_accounts s);
     s_ips := alter (λ p, {| tried := taken_back (at_ attempt) (tried p); not_before := not_before p |})
                (who_ip ip) (s_ips s) |}.

(** The answers of a run of calls, of the code and of the abstract throttle. *)
Fixpoint run (c : Counters) (calls : list call) : list (result Z Attempt) :=
  match calls with
  | [] => []
  | Begin a i now :: calls => let '(c, r) := begin c a i now in r :: run c calls
  | Succeed a i t :: calls => run (succeed c a i t) calls
  end.

Fixpoint run_spec (s : Spec) (calls : list call) : list (result Z Attempt) :=
  match calls with
  | [] => []
  | Begin a i now :: calls => let '(s, r) := spec_begin s a i now in r :: run_spec s calls
  | Succeed a i t :: calls => run_spec (spec_succeed s a i t) calls
  end.

(** The clock does not run backwards from call to call. *)
Fixpoint monotone (clk : Z) (calls : list call) : Prop :=
  match calls with
  | [] => True
  | Begin _ _ now :: calls => clk ≤ now ∧ monotone now calls
  | Succeed _ _ _ :: calls => monotone clk calls
  end.

(** Neither map is full of live keys when the attempt comes. *)
Definition has_room (c : Counters) (account : str) (ip : ip_addr) (now : Z) : bool :=
  match (entry (accounts c) (account_key account) now).2, (entry (ips c) (ip_key ip) now).2 with
  | Some _, Some _ => true
  | _, _ => false
  end.
End runs.

(** ** The simulation *)

Definition recent (now : Z) (ts : list Z) : list Z := filter (in_window now) ts.

(** Entries as the clock leaves them: times in order and not in the future. *)
Definition entry_ok (clk : Z) (e : Entry) : Prop :=
  StronglySorted Z.le (times e) ∧ Forall (λ t, t ≤ clk) (times e).

Definition same_recent (clk : Z) (ts us : list Z) : Prop :=
  ∀ now, clk ≤ now → recent now ts = recent now us.

(** The earliest start counts only when it is in the future. *)
Definition same_next (clk : Z) (o p : option Z) : Prop :=
  ∀ now, clk ≤ now → Z.max now (default now o) = Z.max now (default now p).

Definition get `{Countable K} (m : Counts K) (k : K) : Entry := default Entry_default (m !! k).

Definition counts_ok `{Countable K} (clk : Z) (m : Counts K) : Prop := ∀ k, entry_ok clk (get m k).

Definition same_counts `{Countable K} (clk : Z) (m m' : Counts K) : Prop :=
  ∀ k, same_recent clk (times (get m k)) (times (get m' k)) ∧
       same_next clk (next (get m k)) (next (get m' k)).

Lemma recent_app now ts us : recent now (ts ++ us) = recent now ts ++ recent now us.
Proof. apply filter_app. Qed.

Lemma in_window_mono clk now t : clk ≤ now → in_window now t → in_window clk t.
Proof. unfold in_window, duration_since. lia. Qed.

Lemma in_window_order now t u : t ≤ u → in_window now t → in_window now u.
Proof. unfold in_window, duration_since. lia. Qed.

Lemma in_window_self now : in_window now now.
Proof. unfold in_window, duration_since. by rewrite Z.sub_diag. Qed.

Lemma pop_old_recent now ts : StronglySorted Z.le ts → pop_old now ts = recent now ts.
Proof.
  induction 1 as [|t ts Hs IH Ht]; [done|]. simpl. unfold recent.
  destruct (Z.leb_spec WINDOW (duration_since now t)) as [Ho|Ho].
  - rewrite filter_cons_False; [done|]. unfold in_window. lia.
  - rewrite filter_cons_True by done. f_equal. symmetry. apply filter_all.
    eapply Forall_impl; [exact Ht|]. intros u Hu. by eapply in_window_order.
Qed.

Lemma recent_recent clk now ts : clk ≤ now → recent now (recent clk ts) = recent now ts.
Proof.
  intros Hc. unfold recent. rewrite list_filter_filter. apply list_filter_iff.
  intros t. pose proof (in_window_mono clk now t Hc). tauto.
Qed.

Lemma sorted_filter (P : Z → Prop) `{!∀ x, Decision (P x)} ts :
  StronglySorted Z.le ts → StronglySorted Z.le (filter P ts).
Proof.
  induction 1 as [|t ts Hs IH Ht]; [constructor|]. rewrite filter_cons.
  case_decide; [|done]. constructor; [done|]. by apply Forall_filter_sub.
Qed.

Lemma recent_ok clk now ts o :
  clk ≤ now → entry_ok clk {| times := ts; next := o |} →
  entry_ok now {| times := recent now ts; next := o |}.
Proof.
  intros Hc [Hs Hf]. split; simpl in *; [by apply sorted_filter|].
  apply Forall_filter_sub. eapply Forall_impl; [done|]. simpl. lia.
Qed.

Lemma entry_ok_mono clk now e : clk ≤ now → entry_ok clk e → entry_ok now e.
Proof. intros Hc [??]. split; [done|]. eapply Forall_impl; [done|]. simpl. lia. Qed.

Lemma sorted_last ts t : StronglySorted Z.le ts → last ts = Some t → Forall (λ x, x ≤ t) ts.
Proof.
  intros Hs [us ->]%last_Some. induction us as [|u us IH]; simpl in *.
  - by constructor.
  - inversion_clear Hs as [|?? Hs' Hf]. constructor; [|auto].
    rewrite Forall_forall in Hf. apply Hf. set_solver.
Qed.

Lemma recent_nil now ts : Forall (λ t, ¬ in_window now t) ts → recent now ts = [].
Proof. induction 1; [done|]. unfold recent. by rewrite filter_cons_False. Qed.

(** What [retain] drops no longer counts, now or later. *)
Lemma dead_entry clk now e :
  clk ≤ now → entry_ok clk e → live now e = false →
  same_recent now (times e) [] ∧ same_next now (next e) None.
Proof.
  intros Hc [Hs Hf] [Hl Hn]%orb_false_iff. split.
  - intros later Hlater. apply recent_nil. destruct (last (times e)) as [t|] eqn:El.
    + apply Z.ltb_ge in Hl. eapply Forall_impl; [by apply sorted_last|].
      simpl. intros x Hx. unfold in_window, duration_since in *. lia.
    + apply last_None in El. rewrite El. constructor.
  - intros later Hlater. destruct (next e) as [t|]; simpl in *; [|done].
    apply Z.ltb_ge in Hn. lia.
Qed.

Section counts_facts.
Context `{Countable K}.
Implicit Types m : Counts K.

Lemma get_insert m k k' e : get (<[k := e]> m) k' = if decide (k' = k) then e else get m k'.
Proof.
  unfold get. case_decide; simplify_eq; [by rewrite lookup_insert_eq|by rewrite lookup_insert_ne].
Qed.

Lemma get_retain clk now m :
  clk ≤ now → counts_ok clk m → same_counts now (retain now m) m ∧ counts_ok clk (retain now m).
Proof.
  intros Hc Hok.
  assert (Hk : ∀ k, get (retain now m) k = get m k ∨
    get (retain now m) k = Entry_default ∧ live now (get m k) = false).
  { intros k. unfold get, retain. rewrite map_lookup_filter.
    destruct (m !! k) as [e|] eqn:E; simpl; [|by left].
    unfold guard. destruct (decide _) as [Hd|Hd]; simpl; [by left|right].
    split; [done|]. by destruct (live now e). }
  split; intros k; destruct (Hk k) as [->|[-> Hl]]; auto.
  - split; by intros ??.
  - destruct (dead_entry _ _ _ Hc (Hok k) Hl) as [Ht Hn]. split; intros ??; symmetry; auto.
  - by repeat constructor.
Qed.

Lemma same_counts_trans clk m1 m2 m3 :
  same_counts clk m1 m2 → same_counts clk m2 m3 → same_counts clk m1 m3.
Proof.
  intros H1 H2 k. destruct (H1 k) as [A B], (H2 k) as [C D].
  split; intros now Hn; [by rewrite A, C|by rewrite B, D].
Qed.

(** [entry]: the counts do not change, the entry holds the recent times. *)
Lemma entry_spec clk now m key m' r :
  clk ≤ now → counts_ok clk m → entry m key now = (m', r) →
  counts_ok now m' ∧ same_counts now m' m ∧
  match r with
  | Some e => m' !! key = Some e ∧ times e = recent now (times (get m key)) ∧
              Z.max now (default now (next e)) = Z.max now (default now (next (get m key)))
  | None => True
  end.
Proof.
  intros Hc Hok E.
  assert (Hmono : ∀ m1, counts_ok clk m1 → counts_ok now m1)
    by (intros m1 Hm k; by eapply entry_ok_mono).
  assert (Hins : ∀ m1, counts_ok clk m1 → same_counts now m1 m →
    let e := {| times := pop_old now (times (get m1 key)); next := next (get m1 key) |} in
    counts_ok now (<[key := e]> m1) ∧ same_counts now (<[key := e]> m1) m ∧
    <[key := e]> m1 !! key = Some e ∧ times e = recent now (times (get m key)) ∧
    Z.max now (default now (next e)) = Z.max now (default now (next (get m key)))).
  { intros m1 Hm1 Hsame e. destruct (Hm1 key) as [Hs Hf].
    assert (Hp : times e = recent now (times (get m1 key))) by (by apply pop_old_recent).
    assert (He : entry_ok now e).
    { unfold e. simpl in Hp. rewrite Hp. by eapply recent_ok. }
    split_and!.
    - intros k. rewrite get_insert. case_decide; [done|]. by apply Hmono.
    - apply same_counts_trans with m1; [|done]. intros k. rewrite get_insert.
      case_decide; simplify_eq; [|split; by intros ??].
      split; intros later Hl; [|done]. rewrite Hp. by apply recent_recent.
    - by rewrite lookup_insert_eq.
    - rewrite Hp. apply Hsame. done.
    - apply Hsame. done. }
  assert (Hrefl : same_counts now m m) by (intros k; split; by intros ??).
  destruct (get_retain clk now m Hc Hok) as [Hr Hrok].
  unfold entry in E. destruct (_ && _).
  - destruct (_ <=? _); simplify_eq; [auto|]. by apply Hins.
  - simplify_eq. by apply Hins.
Qed.
End counts_facts.

Lemma delay_for_range n : 0 ≤ delay_for n ≤ MAX_DELAY.
Proof.
  unfold delay_for, MAX_DELAY, FREE_FAILURES. destruct (Z.ltb_spec n 5); [unfold secs; lia|].
  rewrite Z.shiftl_1_l. unfold secs, u32_max.
  pose proof (Z.pow_nonneg 2 (Z.min (Z.min (n - 5) (2 ^ 32 - 1)) 6) ltac:(lia)). lia.
Qed.

Lemma delay_for_pause n : delay_for n = pause n.
Proof.
  unfold delay_for, pause, FREE_FAILURES, MAX_DELAY, u32_max. destruct (Z.ltb_spec n 5); [done|].
  repeat match goal with |- context [n =? ?k] => destruct (Z.eqb_spec n k) as [->|]; [done|] end.
  rewrite (Z.min_r _ 6) by lia. reflexivity.
Qed.

Lemma count_recent now ts : count now ts = Z.of_nat (length (recent now ts)).
Proof.
  unfold count, recent. do 2 f_equal. apply list_filter_iff.
  intros t. unfold in_window, duration_since, WINDOW, secs. lia.
Qed.

Lemma ip_key_who ip : ip_key ip = who_ip ip.
Proof.
  unfold ip_key, who_ip. destruct (to_canonical ip) as [a|a]; [done|]. f_equal. apply Z.bits_inj'. intros n Hn.
  replace u64_max with (Z.ones 64) by reflexivity.
  rewrite Z.land_spec, Z.lxor_spec, !Z.testbit_ones_nonneg by lia.
  rewrite Z.mul_pow2_bits by lia. destruct (Z.ltb_spec n 64).
  - rewrite (proj2 (Z.ltb_lt n 128)), (Z.testbit_neg_r _ (n - 64)) by lia. apply andb_false_r.
  - rewrite Z.testbit_mod_pow2, Z.div_pow2_bits, xorb_false_r, andb_comm by lia.
    replace (n - 64 + 64) with n by lia. f_equal. apply eq_bool_prop_intro. rewrite !Is_true_true, !Z.ltb_lt. lia.
Qed.

(** One map of the code against the ledger that forgets nothing. *)
Definition tracks `{Countable K} (clk : Z) (m : Counts K) (l : Ledger K) : Prop :=
  counts_ok clk m ∧ Z.of_nat (size m) ≤ MAX_KEYS ∧
  ∀ k, same_recent clk (times (get m k)) (tried (past l k)) ∧
       same_next clk (next (get m k)) (not_before (past l k)).

Definition sim (clk : Z) (c : Counters) (s : Spec) : Prop :=
  tracks clk (accounts c) (s_accounts s) ∧ tracks clk (ips c) (s_ips s).

Lemma remove_first_recent now t ts :
  recent now (remove_first t ts) =
  if decide (in_window now t) then remove_first t (recent now ts) else recent now ts.
Proof.
  unfold recent. induction ts as [|x ts IH]; simpl; [by case_decide|].
  destruct (Z.eqb_spec x t) as [->|Hne].
  - rewrite filter_cons. case_decide; [|done]. simpl. by rewrite Z.eqb_refl.
  - rewrite !filter_cons, IH. repeat case_decide; try done. simpl.
    by rewrite (proj2 (Z.eqb_neq x t)).
Qed.

Lemma remove_first_sub (P : Z → Prop) t ts : Forall P ts → Forall P (remove_first t ts).
Proof. induction 1; simpl; [done|]. case_match; [done|]. by constructor. Qed.

Lemma remove_first_sorted t ts :
  StronglySorted Z.le ts → StronglySorted Z.le (remove_first t ts).
Proof.
  induction 1; simpl; [constructor|]. case_match; [done|].
  constructor; [done|]. by apply remove_first_sub.
Qed.

Lemma push_ok clk ts o p :
  entry_ok clk {| times := ts; next := o |} → entry_ok clk {| times := ts ++ [clk]; next := p |}.
Proof.
  intros [Hs Hf]. simpl in *. split; simpl.
  - clear o. induction Hs as [|t ts Hs IH Ht]; simpl; [by repeat constructor|].
    apply Forall_cons in Hf as [? Hf]. constructor; [by apply IH|].
    apply Forall_app. split; [done|]. by repeat constructor.
  - apply Forall_app. split; [done|]. by repeat constructor.
Qed.

Lemma size_alter `{Countable K} (f : Entry → Entry) (m : Counts K) k :
  size (alter f k m) = size m.
Proof. by rewrite <- !size_dom, dom_alter_L. Qed.

Lemma alter_here `{Countable K} (f : Entry → Entry) (m : Counts K) k e :
  m !! k = Some e → alter f k m = <[k := f e]> m.
Proof.
  intros Hk. apply map_eq. intros k'. destruct (decide (k' = k)) as [->|Hne].
  - by rewrite lookup_alter_eq, lookup_insert_eq, Hk.
  - by rewrite lookup_alter_ne, lookup_insert_ne.
Qed.

Lemma get_alter `{Countable K} (f : Entry → Entry) (m : Counts K) k k' :
  is_Some (m !! k) → get (alter f k m) k' = if decide (k' = k) then f (get m k) else get m k'.
Proof.
  intros [e He]. unfold get. case_decide; simplify_eq.
  - by rewrite lookup_alter_eq, He.
  - by rewrite lookup_alter_ne.
Qed.

(** The entry's test of [retain] is the ledger's. *)
Lemma live_recent now ts :
  StronglySorted Z.le ts →
  match last ts with Some t => duration_since now t <? WINDOW | None => false end = true ↔ recent now ts ≠ [].
Proof.
  intros Hs. split.
  - destruct (last ts) as [t|] eqn:El; [|done]. intros Ht%Z.ltb_lt Hn.
    assert (Hin : t ∈ recent now ts) by (apply list_elem_of_filter; split; [done|by apply last_Some_elem_of]).
    rewrite Hn in Hin. by apply elem_of_nil in Hin.
  - intros Hne. destruct (recent now ts) as [|u us] eqn:Er; [done|].
    assert (Hin : u ∈ recent now ts) by (rewrite Er; left). apply list_elem_of_filter in Hin as [Hu Hin].
    destruct (last ts) as [t|] eqn:El; [|apply last_None in El; subst; by apply elem_of_nil in Hin].
    pose proof (sorted_last _ _ Hs El) as Hf. rewrite Forall_forall in Hf. apply Z.ltb_lt.
    by apply (in_window_order now u t); [apply Hf|].
Qed.

Lemma live_counted clk now e p :
  clk ≤ now → entry_ok clk e → same_recent clk (times e) (tried p) → same_next clk (next e) (not_before p) →
  live now e = bool_decide (counted now p).
Proof.
  intros Hc [Hs _] Hr Hn. apply eq_bool_prop_intro. rewrite !Is_true_true, bool_decide_eq_true.
  unfold live, counted. rewrite orb_true_iff, live_recent by done. rewrite (Hr now Hc). specialize (Hn now Hc).
  apply Morphisms_Prop.or_iff_morphism.
  - rewrite Exists_exists. split.
    + intros Hne. destruct (recent now (tried p)) as [|t ts] eqn:Er; [done|].
      assert (Hin : t ∈ recent now (tried p)) by (rewrite Er; left).
      apply list_elem_of_filter in Hin as [Ht Hin]. exists t. split; [done|].
      unfold in_window, duration_since, WINDOW, secs in Ht. lia.
    + intros (t & Hin & Ht) Hnil. assert (Hin' : t ∈ recent now (tried p)).
      { apply list_elem_of_filter. split; [|done]. unfold in_window, duration_since, WINDOW, secs. lia. }
      rewrite Hnil in Hin'. by apply elem_of_nil in Hin'.
  - destruct (next e), (not_before p); simpl in Hn; rewrite ?Z.ltb_lt; split; try done; lia.
Qed.

Lemma entry_size `{Countable K} (m : Counts K) key now m' r :
  Z.of_nat (size m) ≤ MAX_KEYS → entry m key now = (m', r) → Z.of_nat (size m') ≤ MAX_KEYS.
Proof.
  intros Hs E. unfold entry in E.
  assert (Hf : ∀ m1 e, Z.of_nat (size m1) < MAX_KEYS → Z.of_nat (size (<[key := e]> m1 : Counts K)) ≤ MAX_KEYS).
  { intros m1 e Hlt. rewrite map_size_insert. destruct (m1 !! key); unfold id; lia. }
  destruct (_ && _) eqn:Ec.
  - assert (size (retain now m) ≤ size m)%nat 
      by (apply map_subseteq_size, map_filter_subseteq).
    destruct (Z.leb_spec MAX_KEYS (Z.of_nat (size (retain now m)))); simplify_eq; [lia|]. by apply Hf.
  - simplify_eq. apply andb_false_iff in Ec as [Ec|Ec]; bool_hyps; [apply Hf; lia|].
    rewrite map_size_insert. unfold contains_key in Ec. bool_hyps. destruct Ec as [e ->]. done.
Qed.

Section ledgers.
Context `{Countable K}.
Implicit Types (m : Counts K) (l : Ledger K).

Lemma past_insert l k k' p : past (<[k := p]> l) k' = if decide (k' = k) then p else past l k'.
Proof.
  unfold past. case_decide; simplify_eq; [by rewrite lookup_insert_eq|by rewrite lookup_insert_ne].
Qed.

Lemma elem_of_retain now m k : k ∈ dom (retain now m) ↔ live now (get m k) = true.
Proof.
  unfold retain, get. rewrite elem_of_dom. split.
  - intros [e [-> Hl]%map_lookup_filter_Some]. by apply Is_true_true.
  - destruct (m !! k) as [e|] eqn:E; [|done]. intros Hl. exists e.
    apply map_lookup_filter_Some. split; [done|]. by apply Is_true_true.
Qed.

Lemma elem_of_counted now l k : k ∈ dom (filter (λ x, counted now x.2) l) ↔ counted now (past l k).
Proof.
  unfold past. rewrite elem_of_dom. split.
  - by intros [p [-> Hl]%map_lookup_filter_Some].
  - destruct (l !! k) as [p|] eqn:E; [|intros [Hx|[]]; by apply Exists_nil in Hx].
    intros Hl. exists p. by apply map_lookup_filter_Some.
Qed.

(** As many keys survive [retain] as count. *)
Lemma retain_size clk now m l :
  tracks clk m l → clk ≤ now → size (retain now m) = size (filter (λ x, counted now x.2) l).
Proof.
  intros (Hok & _ & Hs) Hc. rewrite <- (size_dom (retain now m)), <- (size_dom (filter _ l)). f_equal.
  apply set_eq. intros k. rewrite elem_of_retain, elem_of_counted. destruct (Hs k) as [Hr Hn].
  rewrite (live_counted clk now _ (past l k)) by done. by rewrite bool_decide_eq_true.
Qed.

(** The code finds room exactly when the ledger does. *)
Lemma entry_room clk now m l key m' r :
  tracks clk m l → clk ≤ now → entry m key now = (m', r) →
  room now l key = match r with Some _ => true | None => false end.
Proof.
  intros Ht Hc E. pose proof (retain_size _ _ _ _ Ht Hc) as Hsz. destruct Ht as (Hok & Hmax & Hs).
  destruct (Hs key) as [Hr Hn]. unfold room. rewrite <- (live_counted clk now _ _ Hc (Hok key) Hr Hn), <- Hsz.
  change 10000 with MAX_KEYS. unfold entry, contains_key in E.
  assert (Hsub : (size (retain now m) ≤ size m)%nat) by (apply map_subseteq_size, map_filter_subseteq).
  destruct (Z.leb_spec MAX_KEYS (Z.of_nat (size m))) as [Hfull|Hfull]; cbn [andb] in E.
  - destruct (m !! key) as [e|] eqn:Ek.
    + rewrite (bool_decide_true (is_Some _)) in E by done. cbn [negb] in E. simplify_eq.
      destruct (live now (get m key)) eqn:El; [done|]. cbn [orb]. apply Z.ltb_lt.
      assert ((size (retain now m) < size m)%nat); [|lia].
      apply map_subset_size. apply map_subset_alt. split; [apply map_filter_subseteq|].
      exists key. split; [|by eexists]. apply eq_None_not_Some. rewrite <- elem_of_dom, elem_of_retain, El. done.
    + rewrite (bool_decide_false (is_Some None)) in E by (by intros []). cbn [negb] in E.
      unfold get. rewrite Ek. cbn [default live times next Entry_default last orb].
      rewrite Z.ltb_antisym. destruct (Z.leb_spec MAX_KEYS (Z.of_nat (size (retain now m)))); by simplify_eq.
  - simplify_eq. rewrite (proj2 (Z.ltb_lt _ _)) by lia. apply orb_true_r.
Qed.

(** What [entry] leaves, and the entry it finds. *)
Lemma tracks_entry clk now m l key m' r :
  tracks clk m l → clk ≤ now → entry m key now = (m', r) →
  tracks now m' l ∧
  match r with
  | Some e => m' !! key = Some e ∧ len e = count now (tried (past l key)) ∧
              Z.max now (default now (next e)) = Z.max now (default now (not_before (past l key)))
  | None => m' !! key = None
  end.
Proof.
  intros (Hok & Hmax & Hs) Hc E.
  destruct (entry_spec _ _ _ _ _ _ Hc Hok E) as (Hok' & Hsame & Hr). split.
  - split_and!; [done|by eapply entry_size|]. intros k. destruct (Hsame k) as [Ha Hb], (Hs k) as [Hd He].
    split; intros later Hl; [rewrite (Ha later Hl)|rewrite (Hb later Hl)]; [apply Hd|apply He]; lia.
  - destruct (Hs key) as [Hd He]. destruct r as [e|].
    + destruct Hr as (? & Ht & Hn). split_and!; [done| |].
      * unfold len. rewrite Ht, count_recent. by rewrite Hd.
      * rewrite Hn. by apply He.
    + unfold entry, contains_key in E. destruct (_ && negb _) eqn:Ec; [|done].
      apply andb_true_iff in Ec as [_ Ec%negb_true_iff]. bool_hyps. apply eq_None_not_Some in Ec.
      destruct (_ <=? _); simplify_eq. unfold retain. apply map_lookup_filter_None. by left.
Qed.

(** The same failure goes into the entry and into the ledger. *)
Lemma tracks_push now m l key e o p :
  tracks now m l → m !! key = Some e → same_next now o p →
  tracks now (<[key := {| times := times e ++ [now]; next := o |}]> m)
    (<[key := {| tried := tried (past l key) ++ [now]; not_before := p |}]> l).
Proof.
  intros (Hok & Hmax & Hs) Hk Hop.
  assert (He : get m key = e) by (unfold get; by rewrite Hk). split_and!.
  - intros k. rewrite get_insert. case_decide; [|done].
    specialize (Hok key). rewrite He in Hok. destruct e as [ts o']. by apply (push_ok _ _ o').
  - by rewrite map_size_insert, Hk.
  - intros k. rewrite get_insert, past_insert. case_decide; [|apply Hs]. split; [|done].
    intros later Hl. cbn [times tried]. rewrite !recent_app. f_equal. destruct (Hs key) as [Hr _].
    rewrite He in Hr. by apply Hr.
Qed.
End ledgers.

Section simulation.
Context `{Lowercase}.

Lemma tracks_empty `{Countable K} clk : tracks clk (∅ : Counts K) ∅.
Proof.
  assert (Hg : ∀ k, get (∅ : Counts K) k = Entry_default) by (intros k; unfold get; by rewrite lookup_empty).
  split_and!; [|by rewrite map_size_empty|]; intros k; rewrite Hg; [by repeat constructor|].
  unfold past. rewrite lookup_empty. split; by intros ??.
Qed.

(** One attempt gets the abstract answer. *)
Lemma sim_begin clk now c s a i c' r :
  sim clk c s → clk ≤ now → begin c a i now = (c', r) →
  ∃ s', spec_begin s a i now = (s', r) ∧ sim now c' s'.
Proof.
  intros [Hsa Hsi] Hc E. unfold begin in E. unfold spec_begin. rewrite <- ip_key_who.
  change (who_account a) with (account_key a). set (k := account_key a) in *. set (j := ip_key i) in *.
  destruct (entry (accounts c) k now) as [ma ra] eqn:Ea. destruct (entry (ips c) j now) as [mi ri] eqn:Ei.
  rewrite (entry_room _ _ _ _ _ _ _ Hsa Hc Ea), (entry_room _ _ _ _ _ _ _ Hsi Hc Ei).
  destruct (tracks_entry _ _ _ _ _ _ _ Hsa Hc Ea) as [Hta Hra].
  destruct (tracks_entry _ _ _ _ _ _ _ Hsi Hc Ei) as [Hti Hri].
  assert (Hpush : ∀ e, ra = Some e → tracks now (alter (push_back now) k ma)
    (<[k := {| tried := tried (past (s_accounts s) k) ++ [now]; not_before := not_before (past (s_accounts s) k) |}]>
       (s_accounts s))).
  { intros e ->. destruct Hra as (Hk & _ & Hn). rewrite (alter_here _ _ _ _ Hk).
    apply tracks_push; [done..|]. destruct Hta as (_ & _ & Hs). destruct (Hs k) as [_ Hn'].
    unfold get in Hn'. by rewrite Hk in Hn'. }
  assert (Hmiss : ra = None → alter (push_back now) k ma = ma).
  { intros ->. apply map_eq. intros k'. destruct (decide (k' = k)) as [->|Hne].
    - by rewrite lookup_alter_eq, Hra.
    - by rewrite lookup_alter_ne. }
  assert (Hfull : pause usize_max = 60000000000) by reflexivity.
  assert (Hp : ∀ n, 0 ≤ pause n ≤ 60000000000) by (intros n; rewrite <- delay_for_pause; apply delay_for_range).
  change MAX_DELAY with 60000000000 in E. change MAX_KEYS with 10000 in E. rewrite delay_for_pause in E.
  assert (Hacc : tracks now (alter (push_back now) k ma)
    (if match ra with Some _ => true | None => false end
     then <[k := {| tried := tried (past (s_accounts s) k) ++ [now]; not_before := not_before (past (s_accounts s) k) |}]>
            (s_accounts s)
     else s_accounts s)).
  { destruct ra as [ea|]; [by apply (Hpush ea)|by rewrite Hmiss]. }
  assert (Hlen : match len <$> ra with Some n => n | None => 0 end =
    if match ra with Some _ => true | None => false end then count now (tried (past (s_accounts s) k)) else 0).
  { destruct ra; [apply Hra|done]. }
  destruct ri as [ei|].
  - destruct Hri as (Hj & Hl & Hn). cbn [fmap option_fmap option_map] in E. rewrite Hl in E.
    match type of E with context [pause ?x] => set (f := x) in E end.
    replace (if match ra with Some _ => true | None => false end && true then _ else _) with f
      by (unfold f; destruct ra; cbn in Hlen |- *; rewrite ?Hlen; done).
    replace (match next ei with Some n => Z.max (now + pause f) n | None => now + pause f end)
      with (Z.max (now + pause f) (default now (not_before (past (s_ips s) j)))) in E
      by (specialize (Hp f); destruct (next ei), (not_before (past (s_ips s) j)); simpl in *; lia).
    assert (Hpl : len (push_back now ei) = count now (tried (past (s_ips s) j)) + 1).
    { rewrite <- Hl. unfold len. simpl. rewrite length_app. simpl. lia. }
    destruct (_ <? _); injection E as <- <-; (eexists; split; [reflexivity|]); [by split|].
    split; cbn [accounts ips s_accounts s_ips]; [exact Hacc|].
    rewrite Hpl, delay_for_pause. by apply tracks_push.
  - assert (Hf : match len <$> ra, None : option Z with Some x, Some y => Z.max x y | _, _ => usize_max end = usize_max)
      by (by destruct ra).
    cbn [fmap option_fmap option_map] in E, Hf. rewrite Hf, Hfull in E. rewrite andb_false_r, Hfull.
    rewrite Z.max_l by lia. replace (now + 60000000000 - now) with 60000000000 in * by lia.
    rewrite Z.ltb_irrefl. injection E as <- <-. eexists. split; [reflexivity|]. by split.
Qed.

Lemma taken_back_eq t ts : taken_back t ts = remove_first t ts.
Proof.
  induction ts as [|u us IH]; [done|]. unfold taken_back in *. cbn [list_find remove_first].
  destruct (Z.eqb_spec u t); [by rewrite decide_True|]. rewrite decide_False by done.
  rewrite <- IH. by destruct (list_find _ us) as [[]|].
Qed.

Lemma sim_succeed clk c s a i t :
  sim clk c s → sim clk (succeed c a i t) (spec_succeed s a i t).
Proof.
  intros [(Ha & Hza & Hta) (Hi & Hzi & Hti)]. unfold succeed, spec_succeed, sim.
  rewrite <- ip_key_who. change (who_account a) with (account_key a).
  set (k0 := account_key a). set (j := ip_key i).
  assert (Hdel : ∀ k, get (delete k0 (accounts c)) k = if decide (k = k0) then Entry_default else get (accounts c) k).
  { intros k. unfold get. case_decide; simplify_eq; [by rewrite lookup_delete_eq|by rewrite lookup_delete_ne]. }
  assert (Hpdel : ∀ k, past (delete k0 (s_accounts s)) k =
    if decide (k = k0) then {| tried := []; not_before := None |} else past (s_accounts s) k).
  { intros k. unfold past. case_decide; simplify_eq; [by rewrite lookup_delete_eq|by rewrite lookup_delete_ne]. }
  set (f := λ e : Entry, {| times := remove_first (at_ t) (times e); next := next e |}).
  set (g := λ p : Past, {| tried := taken_back (at_ t) (tried p); not_before := not_before p |}).
  assert (Hal : ∀ k, get (alter f j (ips c)) k = if decide (k = j) then f (get (ips c) k) else get (ips c) k).
  { intros k. unfold get. case_decide; simplify_eq; [rewrite lookup_alter_eq|by rewrite lookup_alter_ne].
    by destruct (ips c !! j). }
  assert (Hpal : ∀ k, past (alter g j (s_ips s)) k = if decide (k = j) then g (past (s_ips s) k) else past (s_ips s) k).
  { intros k. unfold past. case_decide; simplify_eq; [rewrite lookup_alter_eq|by rewrite lookup_alter_ne].
    by destruct (s_ips s !! j). }
  split; split_and!; cbn [accounts ips s_accounts s_ips].
  - intros k. rewrite Hdel. case_decide; [by repeat constructor|apply Ha].
  - pose proof (map_size_delete k0 (accounts c)) as E. destruct (accounts c !! k0); unfold id in *; lia.
  - intros k. rewrite Hdel, Hpdel. case_decide; [split; by intros ??|apply Hta].
  - intros k. rewrite Hal. case_decide; [|apply Hi]. destruct (Hi k).
    split; simpl; [by apply remove_first_sorted|by apply remove_first_sub].
  - by rewrite size_alter.
  - intros k. rewrite Hal, Hpal. case_decide; [|apply Hti]. destruct (Hti k) as [Hr Hn]. split; [|exact Hn].
    intros l Hl. simpl. by rewrite taken_back_eq, !remove_first_recent, Hr.
Qed.

(** C15: the throttle's pruning and eviction cannot be observed.  On every run of
    attempts and successes in which the attempts take the lock in the order of their
    clock readings, a full map included, the code gives each attempt exactly the
    answer of the abstract throttle, which keeps every failure for ever and prunes
    nothing: the same wait, the same reported failures, the same refusals. *)
Theorem throttle_refines_spec clk calls :
  monotone clk calls → run Counters_default calls = run_spec Spec_default calls.
Proof.
  assert (Hsim : sim clk Counters_default Spec_default) by (split; apply tracks_empty).
  revert Hsim. generalize Counters_default, Spec_default.
  revert clk. induction calls as [|[a i now|a i t] calls IH]; intros clk c s Hsim Hm; [done|..];
    cbn [monotone run run_spec] in *.
  - destruct Hm as [Hc Hm]. destruct (begin c a i now) as [c' r] eqn:E.
    destruct (sim_begin _ _ _ _ _ _ _ _ Hsim Hc E) as (s' & -> & Hs'). f_equal. by apply (IH now).
  - apply (IH clk); [by apply sim_succeed|done].
Qed.

(** ** Bounds *)

(** Room for [MAX_KEYS] keys, and no earliest start over two minutes away. *)
Definition counters_inv (clk : Z) (c : Counters) : Prop :=
  Z.of_nat (size (accounts c)) ≤ MAX_KEYS ∧ Z.of_nat (size (ips c)) ≤ MAX_KEYS ∧
  ∀ k e t, ips c !! k = Some e → next e = Some t → t ≤ clk + 2 * MAX_DELAY.

(** [entry] invents no earliest start. *)
Lemma entry_next `{Countable K} (m : Counts K) key now m' r k e t :
  entry m key now = (m', r) → m' !! k = Some e → next e = Some t →
  ∃ e', m !! k = Some e' ∧ next e' = Some t.
Proof.
  intros E Hk Ht. unfold entry in E.
  assert (Hr : ∀ k e, retain now m !! k = Some e → m !! k = Some e).
  { intros k' e' [Hl _]%map_lookup_filter_Some. done. }
  assert (Hf : ∀ m1 : Counts K, (∀ k e, m1 !! k = Some e → m !! k = Some e) →
    let e1 := default Entry_default (m1 !! key) in
    <[key := {| times := pop_old now (times e1); next := next e1 |}]> m1 !! k = Some e →
    ∃ e', m !! k = Some e' ∧ next e' = Some t).
  { intros m1 Hsub e1 [[<- <-]|[Hne Hl]]%lookup_insert_Some; [|eauto]. simpl in Ht.
    unfold e1 in Ht. destruct (m1 !! key) eqn:E1; simpl in *; [eauto|done]. }
  destruct (_ && _); [destruct (Z.leb_spec MAX_KEYS (Z.of_nat (size (retain now m))))|]; simplify_eq; eauto.
Qed.

Lemma entry_here `{Countable K} (m : Counts K) key now m' e :
  entry m key now = (m', Some e) → m' !! key = Some e.
Proof.
  unfold entry. intros E.
  destruct (_ && _); [destruct (Z.leb_spec MAX_KEYS (Z.of_nat (size (retain now m))))|]; simplify_eq; by rewrite lookup_insert_eq.
Qed.

(** A key that is counted keeps its place in a full map. *)
Lemma entry_present `{Countable K} (m : Counts K) key now e :
  m !! key = Some e →
  ∃ m', entry m key now = (m', Some {| times := pop_old now (times e); next := next e |}).
Proof.
  intros E. unfold entry, contains_key. rewrite (bool_decide_true (is_Some _)) by done.
  rewrite andb_false_r, E. by eexists.
Qed.

Lemma counters_inv_mono clk now c : clk ≤ now → counters_inv clk c → counters_inv now c.
Proof. intros Hc (? & ? & Hn). split_and!; [done..|]. intros k e t Hk Ht. specialize (Hn k e t Hk Ht). lia. Qed.

Lemma begin_inv clk now c a i c' r :
  counters_inv clk c → clk ≤ now → begin c a i now = (c', r) →
  counters_inv now c' ∧
  match r with
  | Ok t => 0 ≤ wait t ≤ MAX_DELAY ∧ at_ t = now
  | Err w => MAX_DELAY < w ≤ 2 * MAX_DELAY
  end.
Proof.
  intros (Ha & Hi & Hn) Hc E. unfold begin in E.
  destruct (entry (accounts c) _ now) as [ma ra] eqn:Ea.
  destruct (entry (ips c) _ now) as [mi ri] eqn:Ei.
  pose proof (entry_size _ _ _ _ _ Ha Ea) as Hsa. pose proof (entry_size _ _ _ _ _ Hi Ei) as Hsi.
  assert (Hn' : ∀ k e t, mi !! k = Some e → next e = Some t → t ≤ now + 2 * MAX_DELAY).
  { intros k e t Hk Ht. destruct (entry_next _ _ _ _ _ _ _ _ Ei Hk Ht) as (e' & Hk' & Ht').
    specialize (Hn _ _ _ Hk' Ht'). lia. }
  match type of E with context [delay_for ?f] => set (fl := f) in * end.
  pose proof (delay_for_range fl) as Hd.
  assert (Hmax : MAX_DELAY = 60000000000) by reflexivity.
  assert (Hsz : Z.of_nat (size (alter (push_back now) (account_key a) ma)) ≤ MAX_KEYS).
  { by rewrite size_alter. }
  destruct ri as [e|].
  - pose proof (entry_here _ _ _ _ _ Ei) as Hil.
    assert (Hst : now + delay_for fl ≤
      match next e with Some n => Z.max (now + delay_for fl) n | None => now + delay_for fl end
      ≤ now + 2 * MAX_DELAY).
    { destruct (next e) as [n|] eqn:En; [|lia]. specialize (Hn' _ _ _ Hil En). lia. }
    set (start := match next e with Some _ => _ | None => _ end) in *.
    destruct (Z.ltb_spec MAX_DELAY (start - now)); injection E as <- <-.
    + split; [done|lia].
    + split; [|simpl; lia]. split_and!; [done| |]; cbn [ips].
      * rewrite map_size_insert, Hil. done.
      * intros k e' t [[<- <-]|[_ Hk]]%lookup_insert_Some Ht; [|by eapply Hn'].
        simpl in Ht. simplify_eq. pose proof (delay_for_range (len (push_back now e))). lia.
  - injection E as <- <-. split; [done|]. simpl. lia.
Qed.

Lemma succeed_inv clk c a i t : counters_inv clk c → counters_inv clk (succeed c a i t).
Proof.
  intros (Ha & Hi & Hn). unfold succeed. split_and!; cbn [accounts ips].
  - pose proof (map_size_delete (account_key a) (accounts c)) as E.
    destruct (accounts c !! account_key a); unfold id in *; lia.
  - by rewrite size_alter.
  - intros k e u Hk Hu. destruct (decide (ip_key i = k)) as [<-|Hne].
    + rewrite lookup_alter_eq in Hk. destruct (ips c !! ip_key i) eqn:El; simplify_eq/=. eauto.
    + rewrite lookup_alter_ne in Hk by done. eauto.
Qed.

(** The counters after a run of calls, and the clock. *)
Inductive reachable : Z → Counters → Prop :=
| reach_init clk : reachable clk Counters_default
| reach_begin clk now c a i : reachable clk c → clk ≤ now → reachable now (begin c a i now).1
| reach_succeed clk c a i t : reachable clk c → reachable clk (succeed c a i t).

Lemma reachable_inv clk c : reachable clk c → counters_inv clk c.
Proof.
  induction 1 as [clk|clk now c a i _ IH Hc|clk c a i t _ IH].
  - split_and!; simpl; rewrite ?map_size_empty; [done..|]. intros k e t. by rewrite lookup_empty.
  - destruct (begin c a i now) as [c' r] eqn:E. by destruct (begin_inv _ _ _ _ _ _ _ IH Hc E).
  - by apply succeed_inv.
Qed.

(** In every reachable state, memory is bounded (at most 10,000 accounts and
    10,000 addresses are kept), an attempt that gets a turn waits at most 60
    seconds, and one that gets none is told to come back within two minutes. *)
Theorem throttle_bounds clk now c a i :
  reachable clk c → clk ≤ now →
  Z.of_nat (size (accounts (begin c a i now).1)) ≤ 10000 ∧
  Z.of_nat (size (ips (begin c a i now).1)) ≤ 10000 ∧
  match (begin c a i now).2 with
  | Ok t => 0 ≤ wait t ≤ secs 60
  | Err w => secs 60 < w ≤ secs 120
  end.
Proof.
  intros Hr Hc. destruct (begin c a i now) as [c' r] eqn:E.
  destruct (begin_inv _ _ _ _ _ _ _ (reachable_inv _ _ Hr) Hc E) as [(Ha & Hi & _) Hw].
  unfold MAX_KEYS in *. simpl. split_and!; [lia..|].
  change (secs 120) with (2 * MAX_DELAY). change (secs 60) with MAX_DELAY.
  by destruct r as [t|w]; [destruct Hw|].
Qed.

(**  Lodger never locks anyone out.  When an attempt gets no turn, the next
    attempt from that address, for any account, gets one as soon as the time
    that the refusal named has passed. *)
Theorem throttle_never_locks c a i now c' w a' now' :
  begin c a i now = (c', Err w) → now + w ≤ now' →
  ∃ t, (begin c' a' i now').2 = Ok t.
Proof.
  intros E Hw. unfold begin in E.
  destruct (entry (accounts c) _ now) as [ma ra] eqn:Ea.
  destruct (entry (ips c) _ now) as [mi ri] eqn:Ei.
  destruct ri as [e|]; [|done]. pose proof (entry_here _ _ _ _ _ Ei) as Hil.
  case_match; simplify_eq.
  unfold begin. cbn [accounts ips]. destruct (entry ma _ now') as [ma' ra'] eqn:Ea'.
  destruct (entry_present mi (ip_key i) now' e Hil) as (mi' & ->).
  match goal with |- context [delay_for ?f] => set (fl := f) in * end.
  pose proof (delay_for_range fl) as Hd. cbn [next].
  assert (Hst : match next e with Some n => Z.max (now' + delay_for fl) n | None => now' + delay_for fl end
    ≤ now' + MAX_DELAY).
  { destruct (next e) as [n|]; lia. }
  rewrite (proj2 (Z.ltb_ge _ _)); [by eexists|lia].
Qed.

(** A full map fails closed.  An attempt that the throttle cannot count,
    because a map is full of live keys, gets the longest wait of 60 seconds or
    no turn at all, so junk keys cannot switch the throttle off. *)
Theorem throttle_fails_closed c a i now :
  has_room c a i now = false →
  match (begin c a i now).2 with Ok t => wait t = secs 60 | Err w => secs 60 < w end.
Proof.
  unfold has_room, begin. intros Hr.
  destruct (entry (accounts c) _ now) as [ma ra]. destruct (entry (ips c) _ now) as [mi ri].
  cbn [snd] in Hr.
  assert (Hd : delay_for usize_max = MAX_DELAY) by reflexivity.
  destruct ra as [ea|], ri as [ei|]; try done; cbn [fmap option_fmap option_map]; rewrite ?Hd.
  1, 3: simpl; change (secs 60) with MAX_DELAY; lia.
  change (secs 60) with MAX_DELAY.
  assert (Hs : now + MAX_DELAY ≤ match next ei with
    | Some n => Z.max (now + MAX_DELAY) n | None => now + MAX_DELAY end)
    by (destruct (next ei); lia).
  destruct (Z.ltb_spec MAX_DELAY (match next ei with
    | Some n => Z.max (now + MAX_DELAY) n | None => now + MAX_DELAY end - now)); simpl; lia.
Qed.
End simulation.

(** ** Witnesses *)

(** Seven attempts on one account from one address, one second apart; the first
    is taken back after the sixth. *)
Definition seven : list call :=
  ((λ n, Begin (lit "Admin") (V4 1) (secs n)) <$> [0; 1; 2; 3; 4; 5]) ++
  [Succeed (lit "admin") (V4 1) {| wait := 0; failures := 0; at_ := 0 |};
   Begin (lit "ADMIN") (V4 1) (secs 1000)].

Lemma throttle_refines_spec_witness :
  run Counters_default seven = run_spec Spec_default seven.
Proof.
  apply (throttle_refines_spec 0 seven). repeat split; vm_compute; discriminate.
Defined.

Lemma throttle_bounds_witness :
  match (begin Counters_default (lit "admin") (V4 1) 0).2 with
  | Ok t => 0 ≤ wait t ≤ secs 60
  | Err w => secs 60 < w ≤ secs 120
  end.
Proof.
  apply (throttle_bounds 0 0 Counters_default (lit "admin") (V4 1)); [apply reach_init|done].
Defined.

(** One failed attempt whose turn is two minutes away. *)
Definition busy : Counters :=
  {| accounts := ∅; ips := {[ V4 1 := {| times := [0]; next := Some (secs 120) |} ]} |}.

Lemma throttle_never_locks_witness :
  (begin busy (lit "admin") (V4 1) 0).2 = Err (secs 120) ∧
  ∃ t, (begin (begin busy (lit "admin") (V4 1) 0).1 (lit "bob") (V4 1) (secs 120)).2 = Ok t.
Proof.
  split; [by vm_compute|].
  apply (throttle_never_locks busy (lit "admin") (V4 1) 0 _ (secs 120) (lit "bob") (secs 120));
    by vm_compute.
Defined.

(** Ten thousand live addresses. *)
Definition crowd : list (ip_addr * Entry) :=
  (λ n, (V4 n, {| times := [0]; next := None |})) <$> seqZ 0 10000.
Definition full : Counters := {| accounts := ∅; ips := list_to_map crowd |}.

Lemma crowd_keys : crowd.*1 = V4 <$> seqZ 0 10000.
Proof. unfold crowd. by rewrite <- list_fmap_compose. Qed.

Lemma full_map_no_room c a i now :
  Z.of_nat (size (ips c)) = MAX_KEYS → retain now (ips c) = ips c → ips c !! ip_key i = None →
  has_room c a i now = false.
Proof.
  intros Hs Hr Hn. unfold has_room, entry at 2, contains_key.
  rewrite Hn, (bool_decide_false (is_Some None)) by (by intros []).
  rewrite Hs, Z.leb_refl. cbn [andb negb]. rewrite Hr, Hs, Z.leb_refl. by case_match.
Qed.

Lemma full_no_room : has_room full (lit "admin") (V4 20000) 0 = false.
Proof.
  apply full_map_no_room; cbn [ips full].
  - rewrite map_size_list_to_map.
    + unfold crowd. rewrite length_fmap, length_seqZ. apply Z2Nat.id. done.
    + rewrite crowd_keys. apply NoDup_fmap_2; [by intros ?? [=]|apply NoDup_seqZ].
  - apply map_filter_id. intros k e Hk%elem_of_list_to_map_2.
    apply list_elem_of_fmap in Hk as (n & [= -> ->] & _). done.
  - change (ip_key (V4 20000)) with (V4 20000). apply not_elem_of_list_to_map_1.
    rewrite crowd_keys, list_elem_of_fmap. intros (n & [= <-] & Hn%elem_of_seqZ). lia.
Qed.

Lemma throttle_fails_closed_witness :
  match (begin full (lit "admin") (V4 20000) 0).2 with
  | Ok t => wait t = secs 60 | Err w => secs 60 < w end.
Proof. apply throttle_fails_closed. exact full_no_room. Defined.
