(* ===== verification/Tickets.v ===== *)
(** * Single-use WebSocket tickets (crates/lodger/src/tickets.rs)

    The map of live tickets by their SHA-256.  The hash and the random source
    are parameters; an [Instant] is a number of nanoseconds.  The mutex makes
    each call one step. *)

From S2P Require Import Prelude Text Net Throttle.

Definition LIFETIME : Z := secs 30.
Definition MAX_TICKETS : Z := 10000.

(** A SHA-256 digest: 32 bytes. *)
Abbreviation digest := (list Z).

Record Ticket := { t_session : digest; t_origin : option str; t_expires : Z }.

Abbreviation Tickets := (gmap digest Ticket).

(** [hex::encode]: two lower-case hexadecimal digits per byte. *)
Definition hex_encode (bytes : list Z) : str :=
  bytes ≫= λ b, [hex_digit (Z.shiftr b 4); hex_digit (Z.land b 15)].

Section tickets.
(** [Sha256::digest] of the bytes of a text. *)
Variable sha256 : str → digest.

Definition hash (ticket : str) : digest := sha256 ticket.

(** [Tickets::issue].  [random] is what [getrandom::fill] gives: 32 bytes, or
    the message of its error. *)
Definition issue (by_hash : Tickets) (session : digest) (origin : option str) (now : Z)
    (random : result str (list Z)) : Tickets * result str (option str) :=
  match map_err (λ e, lit "cannot make a ticket: " ++ e) random with
  | Err e => (by_hash, Err e)
  | Ok bytes =>
      let ticket := hex_encode bytes in
      let insert by_hash :=
        (<[hash ticket := {| t_session := session; t_origin := origin;
                             t_expires := now + LIFETIME |}]> by_hash, Ok (Some ticket)) in
      if MAX_TICKETS <=? Z.of_nat (size by_hash) then
        let by_hash := filter (λ p : digest * Ticket, now < t_expires p.2) by_hash in
        if MAX_TICKETS <=? Z.of_nat (size by_hash) then (by_hash, Ok None)
        else insert by_hash
      else insert by_hash
  end.

(** [Tickets::redeem]. *)
Definition redeem (by_hash : Tickets) (ticket : str) (session : digest) (origin : option str)
    (now : Z) : Tickets * bool :=
  (delete (hash ticket) by_hash,
   match by_hash !! hash ticket with
   | Some t => bool_decide (t_session t = session) && bool_decide (t_origin t = origin) &&
               (now <? t_expires t)
   | None => false
   end).

(** ** Runs of calls *)

Inductive ticket_call :=
| Issue (session : digest) (origin : option str) (now : Z) (random : result str (list Z))
| Redeem (ticket : str) (session : digest) (origin : option str) (now : Z).

(** The log keeps what each call got: the ticket of an issue, the success of a
    redeem. *)
Inductive ticket_event :=
| Issued (ticket : str) (session : digest) (origin : option str) (now : Z)
| Redeemed (ticket : str) (session : digest) (origin : option str) (now : Z)
| Nothing.

Definition ticket_step (m : Tickets) (c : ticket_call) : Tickets * ticket_event :=
  match c with
  | Issue session origin now random =>
      let '(m, r) := issue m session origin now random in
      (m, match r with Ok (Some t) => Issued t session origin now | _ => Nothing end)
  | Redeem ticket session origin now =>
      let '(m, b) := redeem m ticket session origin now in
      (m, if (b : bool) then Redeemed ticket session origin now else Nothing)
  end.

Fixpoint ticket_run (m : Tickets) (calls : list ticket_call) : Tickets * list ticket_event :=
  match calls with
  | [] => (m, [])
  | c :: calls =>
      let '(m, e) := ticket_step m c in
      let '(m, es) := ticket_run m calls in (m, e :: es)
  end.

(** ** Facts and properties *)

(** What the map of live tickets knows, in terms of the log so far: each entry
    was issued, and no entry's ticket was redeemed since. *)
Definition from_log (log : list ticket_event) (h : digest) (t : Ticket) : Prop :=
  ∃ ticket now log1 log2,
    log = log1 ++ Issued ticket (t_session t) (t_origin t) now :: log2 ∧
    h = hash ticket ∧ t_expires t = now + LIFETIME ∧
    ∀ ticket' s o n, Redeemed ticket' s o n ∈ log2 → hash ticket' ≠ h.

Definition tickets_inv (m : Tickets) (log : list ticket_event) : Prop :=
  Z.of_nat (size m) ≤ MAX_TICKETS ∧ ∀ h t, m !! h = Some t → from_log log h t.

Lemma from_log_snoc log e h t :
  from_log log h t → (∀ ticket' s o n, e = Redeemed ticket' s o n → hash ticket' ≠ h) →
  from_log (log ++ [e]) h t.
Proof.
  intros (k & n & l1 & l2 & -> & Hh & He & Hr) Hne. exists k, n, l1, (l2 ++ [e]).
  split_and!; [by rewrite <- app_assoc|done..|].
  intros k' s o n' [?|Hin%list_elem_of_singleton]%elem_of_app; [by eapply Hr|].
  by eapply Hne.
Qed.

Lemma issue_inv m log session origin now random :
  tickets_inv m log →
  tickets_inv (issue m session origin now random).1
    (log ++ [(ticket_step m (Issue session origin now random)).2]).
Proof.
  intros [Hs Hm]. cbn [ticket_step].
  assert (Hkeep : ∀ m' : Tickets, m' ⊆ m → tickets_inv m' (log ++ [Nothing])).
  { intros m' Hsub. split; [apply map_subseteq_size in Hsub; lia|].
    intros h t Ht. apply from_log_snoc; [|done]. apply Hm. by eapply lookup_weaken. }
  assert (Hins : ∀ (m' : Tickets) ticket, m' ⊆ m → Z.of_nat (size m') < MAX_TICKETS →
    tickets_inv (<[hash ticket := {| t_session := session; t_origin := origin;
                                     t_expires := now + LIFETIME |}]> m')
      (log ++ [Issued ticket session origin now])).
  { intros m' ticket Hsub Hlt. split.
    - rewrite map_size_insert. destruct (m' !! hash ticket); unfold id; lia.
    - intros h t [[<- <-]|[Hne Ht]]%lookup_insert_Some.
      + exists ticket, now, log, []. split_and!; [done..|]. intros ???? []%not_elem_of_nil.
      + apply from_log_snoc; [|done]. apply Hm. by eapply lookup_weaken. }
  unfold issue. destruct random as [bytes|e]; simpl; [|by apply Hkeep].
  destruct (Z.leb_spec MAX_TICKETS (Z.of_nat (size m))); [|by apply Hins].
  pose proof (map_filter_subseteq (λ p : digest * Ticket, now < t_expires p.2) m) as Hf.
  set (m' := filter _ m) in *.
  destruct (Z.leb_spec MAX_TICKETS (Z.of_nat (size m'))); [by apply Hkeep|by apply Hins].
Qed.

Lemma redeem_inv m log ticket session origin now :
  tickets_inv m log →
  tickets_inv (redeem m ticket session origin now).1
    (log ++ [(ticket_step m (Redeem ticket session origin now)).2]).
Proof.
  intros [Hs Hm]. split.
  - simpl. pose proof (map_size_delete (hash ticket) m).
    destruct (m !! hash ticket); unfold id in *; lia.
  - simpl. intros h t [Hne Ht]%lookup_delete_Some. apply from_log_snoc; [by apply Hm|].
    intros k s o n. case_match; naive_solver.
Qed.

Lemma ticket_step_inv m log c :
  tickets_inv m log → tickets_inv (ticket_step m c).1 (log ++ [(ticket_step m c).2]).
Proof.
  intros Hi. destruct c as [s o n r|t s o n].
  - pose proof (issue_inv _ _ s o n r Hi) as Hn. cbn [ticket_step] in *.
    by destruct (issue m s o n r).
  - exact (redeem_inv _ _ t s o n Hi).
Qed.

Lemma ticket_run_inv m log calls :
  tickets_inv m log → tickets_inv (ticket_run m calls).1 (log ++ (ticket_run m calls).2).
Proof.
  revert m log. induction calls as [|c calls IH]; intros m log Hi; simpl.
  - by rewrite app_nil_r.
  - pose proof (ticket_step_inv _ _ c Hi) as Hs. destruct (ticket_step m c) as [m' e].
    specialize (IH _ _ Hs). simpl in *. destruct (ticket_run m' calls) as [m'' es]. simpl in *.
    by rewrite <- app_assoc in IH.
Qed.

Lemma ticket_run_app m calls1 calls2 :
  ticket_run m (calls1 ++ calls2) =
  let '(m1, es1) := ticket_run m calls1 in
  let '(m2, es2) := ticket_run m1 calls2 in (m2, es1 ++ es2).
Proof.
  revert m. induction calls1 as [|c calls1 IH]; intros m; simpl.
  - by destruct (ticket_run m calls2).
  - destruct (ticket_step m c) as [m' e]. rewrite IH.
    destruct (ticket_run m' calls1) as [m1 es1]. by destruct (ticket_run m1 calls2).
Qed.

Lemma ticket_log_split m calls log1 e log2 m' :
  ticket_run m calls = (m', log1 ++ e :: log2) →
  ∃ calls1 c calls2 m1, calls = calls1 ++ c :: calls2 ∧
    ticket_run m calls1 = (m1, log1) ∧ (ticket_step m1 c).2 = e.
Proof.
  revert m log1. induction calls as [|c calls IH]; intros m log1 E; simpl in E.
  { by destruct log1. }
  destruct (ticket_step m c) as [m1 e1] eqn:Es. destruct (ticket_run m1 calls) as [m2 es] eqn:Er.
  destruct log1 as [|e0 log1]; simplify_eq/=.
  - exists [], c, calls, m. by rewrite Es.
  - destruct (IH _ _ Er) as (c1 & d & c2 & m3 & -> & H1 & H2).
    exists (c :: c1), d, c2, m3. split_and!; [done| |done]. simpl. by rewrite Es, H1.
Qed.

(** C33: a WebSocket ticket works once, for 30 seconds, and only for the session
    and origin that asked for it.  In the log of any run of calls, before each
    successful redeem stands the issue of a ticket with the same hash, for the
    same session and the same origin, less than 30 seconds earlier, and between
    the two no redeem of a ticket with that hash succeeded. *)
Theorem ticket_single_use calls log1 ticket session origin now log2 :
  (ticket_run ∅ calls).2 = log1 ++ Redeemed ticket session origin now :: log2 →
  ∃ ticket' now' before between,
    log1 = before ++ Issued ticket' session origin now' :: between ∧
    hash ticket' = hash ticket ∧ now < now' + LIFETIME ∧
    ∀ k s o n, Redeemed k s o n ∈ between → hash k ≠ hash ticket.
Proof.
  destruct (ticket_run ∅ calls) as [m es] eqn:E. simpl. intros ->.
  destruct (ticket_log_split _ _ _ _ _ _ E) as (c1 & c & c2 & m1 & -> & Hr & Hs).
  assert (Hi : tickets_inv m1 log1).
  { pose proof (ticket_run_inv ∅ [] c1) as Hi. rewrite Hr in Hi. apply Hi.
    split; [by rewrite map_size_empty|]. intros h t. by rewrite lookup_empty. }
  destruct c as [s o n r|k s o n]; cbn [ticket_step] in Hs.
  { destruct (issue m1 s o n r) as [? [[]|]]; done. }
  unfold redeem in Hs. destruct (m1 !! hash k) as [t|] eqn:El; [|done].
  destruct (_ && _) eqn:Et; [|done]. bool_hyps. simplify_eq/=.
  destruct Hi as [_ Hi]. destruct (Hi _ _ El) as (k' & n' & l1 & l2 & -> & Hh & He & Hred).
  exists k', n', l1, l2. split_and!; [done..|lia|].
  intros k0 s0 o0 n0 Hin. by eapply Hred.
Qed.

(** At most 10,000 tickets are kept, whatever the calls. *)
Theorem tickets_bounded calls : Z.of_nat (size (ticket_run ∅ calls).1) ≤ 10000.
Proof.
  apply (ticket_run_inv ∅ []). split; [by rewrite map_size_empty|].
  intros h t. by rewrite lookup_empty.
Qed.

(** A fresh ticket redeems: for 30 seconds the session and origin that
    asked for it can use it, and after that one use every further use of it
    fails, whoever tries. *)
Theorem ticket_redeems m session origin now bytes m' ticket now' :
  issue m session origin now (Ok bytes) = (m', Ok (Some ticket)) →
  now' < now + secs 30 →
  (redeem m' ticket session origin now').2 = true ∧
  ∀ s o n, (redeem (redeem m' ticket session origin now').1 ticket s o n).2 = false.
Proof.
  intros Hi Hn. assert (Hl : m' !! hash ticket =
    Some {| t_session := session; t_origin := origin; t_expires := now + LIFETIME |}).
  { unfold issue in Hi. simpl in Hi.
    repeat case_match; simplify_eq; by rewrite lookup_insert_eq. }
  unfold redeem. simpl. rewrite Hl. simpl. split.
  - rewrite !bool_decide_true by done. apply Z.ltb_lt. exact Hn.
  - intros. by rewrite lookup_delete_eq.
Qed.
End tickets.

(** ** Witnesses: the identity stands for the hash. *)

Definition two_calls : list ticket_call :=
  [Issue [1] (Some (lit "https://nas")) 0 (Ok [7; 255]);
   Redeem (lit "07ff") [1] (Some (lit "https://nas")) (secs 10)].

Lemma ticket_single_use_witness :
  ∃ ticket' now' before between,
    [Issued (lit "07ff") [1] (Some (lit "https://nas")) 0] =
      before ++ Issued ticket' [1] (Some (lit "https://nas")) now' :: between ∧
    hash id ticket' = hash id (lit "07ff") ∧ secs 10 < now' + LIFETIME ∧
    ∀ k s o n, Redeemed k s o n ∈ between → hash id k ≠ hash id (lit "07ff").
Proof.
  apply (ticket_single_use id two_calls
    [Issued (lit "07ff") [1] (Some (lit "https://nas")) 0] (lit "07ff") [1]
    (Some (lit "https://nas")) (secs 10) []). by vm_compute.
Defined.

Lemma ticket_redeems_witness :
  (redeem id (issue id ∅ [1] None 0 (Ok [7; 255])).1 (lit "07ff") [1] None 5).2 = true.
Proof.
  eapply (ticket_redeems id ∅ [1] None 0 [7; 255] _ (lit "07ff") 5); [by vm_compute|done].
Defined.
