(* ===== verification/Db.v ===== *)
(** * The database (crates/lodger/src/db/mod.rs and its migration)

    The tables of migrations/0001_initial.sql as lists of rows, SQL statements
    as functions on them, and every operation of [Db] as a program over
    statements.  Each statement can fail: an environment gives, per statement,
    the time of its ['now'] and whether SQLite reports an error, so the theorems
    hold for every disk, lock and I/O failure.  A statement that fails changes
    nothing, and a transaction that is dropped before its commit rolls back, as
    SQLite documents.

    Times are milliseconds; the code stores them as ISO 8601 text in UTC, which
    compares in time order.  The columns [totp_secret_enc], [totp_enabled] and
    [job_id] and the tables [recovery_codes] and [settings], which no operation
    reads or writes, are left out. *)

From S2P Require Import Prelude Text.

(** ** Rows and tables *)

Record AccountRow := {
  acc_id : Z;
  acc_username : str;
  acc_hash : str;
  acc_created_at : Z;
  acc_changed_at : Z
}.

Record SessionRow := {
  ses_token : list Z;
  ses_account : Z;
  ses_csrf : str;
  ses_created_at : Z;
  ses_last_seen_at : Z;
  ses_expires_at : Z;
  ses_client_ip : str;
  ses_user_agent : option str
}.

Record AuditRow := {
  aud_event : str;
  aud_account_name : option str;
  aud_client_ip : option str;
  aud_target_kind : option str;
  aud_target_name : option str;
  aud_result : str;
  aud_detail_json : option str
}.

Record Tables := {
  tab_accounts : list AccountRow;
  tab_sessions : list SessionRow;
  tab_audit : list (Z * AuditRow)
}.

Definition no_tables : Tables := {| tab_accounts := []; tab_sessions := []; tab_audit := [] |}.

Definition with_accounts (a : list AccountRow) (t : Tables) : Tables :=
  {| tab_accounts := a; tab_sessions := tab_sessions t; tab_audit := tab_audit t |}.
Definition with_sessions (s : list SessionRow) (t : Tables) : Tables :=
  {| tab_accounts := tab_accounts t; tab_sessions := s; tab_audit := tab_audit t |}.
Definition with_audit (l : list (Z * AuditRow)) (t : Tables) : Tables :=
  {| tab_accounts := tab_accounts t; tab_sessions := tab_sessions t; tab_audit := l |}.

(** ** Statements and transactions *)

Inductive SqlError :=
| ConstraintUnique
| ConstraintPrimaryKey
| ConstraintForeignKey
| Full
| Failure (message : str).

(** What the environment decides for one statement: the time, an error of the
    disk or a lock, and the row id that SQLite tries when the largest one is
    taken. *)
Record tick := { tick_now : Z; tick_fault : option str; tick_spare_rowid : Z }.

Definition sql (A : Type) : Type := (nat → tick) → Tables → nat → result SqlError A * Tables * nat.

#[export] Instance sql_ret : MRet sql := λ A a env t n, (Ok a, t, n).
#[export] Instance sql_bind : MBind sql := λ A B f m env t n,
  match m env t n with
  | (Ok a, t, n) => f a env t n
  | (Err e, t, n) => (Err e, t, n)
  end.

(** One statement. *)
Definition statement {A} (f : tick → Tables → result SqlError (A * Tables)) : sql A :=
  λ env t n,
    match tick_fault (env n) with
    | Some message => (Err (Failure message), t, S n)
    | None => match f (env n) t with
              | Ok (a, t') => (Ok a, t', S n)
              | Err e => (Err e, t, S n)
              end
    end.

(** How the body of a transaction ends: it returns without a commit, or it
    commits and then returns. *)
Inductive ending (A : Type) := Drop_ (a : A) | Commit (a : A).
Arguments Drop_ {A} a.
Arguments Commit {A} a.

(** [c.transaction()]: BEGIN, the body, COMMIT or the rollback of the drop. *)
Definition transaction {A} (body : sql (ending A)) : sql A := λ env t n,
  match statement (λ _ t, Ok (tt, t)) env t n with
  | (Err e, _, n) => (Err e, t, n)
  | (Ok _, _, n) =>
      match body env t n with
      | (Err e, _, n) => (Err e, t, n)
      | (Ok (Drop_ a), _, n) => (Ok a, t, n)
      | (Ok (Commit a), t', n) =>
          match statement (λ _ t, Ok (tt, t)) env t' n with
          | (Ok _, t', n) => (Ok a, t', n)
          | (Err e, _, n) => (Err e, t, n)
          end
      end
  end.

(** A match on the outcome of a statement, for the caller that handles errors. *)
Definition attempt {A} (m : sql A) : sql (result SqlError A) := λ env t n,
  let '(r, t, n) := m env t n in (Ok r, t, n).

Definition raise {A} (e : SqlError) : sql A := λ env t n, (Err e, t, n).

(** ** The statements *)

(** Collation NOCASE folds the ASCII letters. *)
Definition nocase (s : str) : str := to_ascii_lowercase s.

Definition max_id (rows : list AccountRow) : Z := foldr (λ r m, Z.max (acc_id r) m) 0 rows.

(** The row id of a new row: one more than the largest one. *)
Definition new_rowid (k : tick) (rows : list AccountRow) : result SqlError Z :=
  if max_id rows <? i64_max then Ok (max_id rows + 1)
  else if bool_decide (tick_spare_rowid k ∈ acc_id <$> rows) then Err Full
  else Ok (tick_spare_rowid k).

Definition select_count : sql Z :=
  statement (λ _ t, Ok (Z.of_nat (length (tab_accounts t)), t)).

Definition insert_account (username password_hash : str) : sql Z :=
  statement (λ k t,
    if existsb (λ r, bool_decide (nocase (acc_username r) = nocase username)) (tab_accounts t)
    then Err ConstraintUnique
    else
      id ← new_rowid k (tab_accounts t);
      Ok (id, with_accounts (tab_accounts t ++
        [{| acc_id := id; acc_username := username; acc_hash := password_hash;
            acc_created_at := tick_now k; acc_changed_at := tick_now k |}]) t)).

Definition account_where (p : AccountRow → bool) : sql (option AccountRow) :=
  statement (λ _ t, Ok (List.find p (tab_accounts t), t)).

Definition has_id (id : Z) (r : AccountRow) : bool := acc_id r =? id.
Definition has_name (username : str) (r : AccountRow) : bool :=
  bool_decide (nocase (acc_username r) = nocase username).

(** DELETE FROM accounts WHERE id = ?1, with ON DELETE CASCADE. *)
Definition delete_account_row (id : Z) : sql unit :=
  statement (λ _ t, Ok (tt,
    with_sessions (filter (λ s, ses_account s ≠ id) (tab_sessions t))
      (with_accounts (filter (λ r, acc_id r ≠ id) (tab_accounts t)) t))).

Definition update_hash (id : Z) (password_hash : str) : sql unit :=
  statement (λ k t, Ok (tt, with_accounts
    ((λ r, if has_id id r
           then {| acc_id := acc_id r; acc_username := acc_username r; acc_hash := password_hash;
                   acc_created_at := acc_created_at r; acc_changed_at := tick_now k |}
           else r) <$> tab_accounts t) t)).

(** DELETE FROM sessions WHERE ..: the number of rows that went. *)
Definition delete_sessions (p : Z → SessionRow → bool) : sql Z :=
  statement (λ k t,
    let kept := filter (λ s, p (tick_now k) s = false) (tab_sessions t) in
    Ok (Z.of_nat (length (tab_sessions t)) - Z.of_nat (length kept), with_sessions kept t)).

Definition minutes (n : Z) : Z := n * 60 * 1000.
Definition ABSOLUTE_HOURS : Z := 24.
Definition IDLE_CUTOFF (now : Z) : Z := now - minutes 60.

Record NewSession := {
  new_token_sha256 : list Z;
  new_account_id : Z;
  new_csrf_token : str;
  new_client_ip : str;
  new_user_agent : option str
}.

Definition insert_session (new : NewSession) : sql unit :=
  statement (λ k t,
    if existsb (λ s, bool_decide (ses_token s = new_token_sha256 new)) (tab_sessions t)
    then Err ConstraintPrimaryKey
    else if negb (existsb (has_id (new_account_id new)) (tab_accounts t))
    then Err ConstraintForeignKey
    else Ok (tt, with_sessions (tab_sessions t ++
      [{| ses_token := new_token_sha256 new; ses_account := new_account_id new;
          ses_csrf := new_csrf_token new; ses_created_at := tick_now k;
          ses_last_seen_at := tick_now k;
          ses_expires_at := tick_now k + ABSOLUTE_HOURS * minutes 60;
          ses_client_ip := new_client_ip new; ses_user_agent := new_user_agent new |}]) t)).

(** The live test of a session row. *)
Definition ses_live (now : Z) (s : SessionRow) : bool :=
  (now <? ses_expires_at s) && (IDLE_CUTOFF now <? ses_last_seen_at s).

Definition has_token (token : list Z) (s : SessionRow) : bool := bool_decide (ses_token s = token).

(** ** The operations of [Db] *)

Record Account := { account_id : Z; account_username : str; account_hash : str }.
Record AccountInfo := {
  info_id : Z; info_username : str; info_created_at : Z; info_changed_at : Z }.
Inductive Deleted := DeletedYes (name : str) | NoSuchAccount | LastAccount.
Record Session := { session_account_id : Z; session_username : str; session_csrf_token : str }.

Definition account_count : sql Z := select_count.

Definition create_first_account (username password_hash : str) : sql bool :=
  transaction (
    count ← select_count;
    if 0 <? count then mret (Drop_ false)
    else _ ← insert_account username password_hash; mret (Commit true)).

Definition name_le (a b : AccountRow) : Prop :=
  str_leb (nocase (acc_username a)) (nocase (acc_username b)) = true.

#[export] Instance name_le_dec : RelDecision name_le.
Proof. intros a b. unfold name_le. apply _. Defined.

Definition list_accounts : sql (list AccountInfo) :=
  statement (λ _ t, Ok ((λ r, {| info_id := acc_id r; info_username := acc_username r;
      info_created_at := acc_created_at r; info_changed_at := acc_changed_at r |})
    <$> merge_sort name_le (tab_accounts t), t)).

Definition create_account (username password_hash : str) : sql (option Z) :=
  inserted ← attempt (insert_account username password_hash);
  match inserted with
  | Ok id => mret (Some id)
  | Err ConstraintUnique => mret None
  | Err e => raise e
  end.

Definition delete_account (id : Z) : sql Deleted :=
  transaction (
    count ← select_count;
    row ← account_where (has_id id);
    match acc_username <$> row with
    | None => mret (Commit NoSuchAccount)
    | Some name =>
        if count <=? 1 then mret (Commit LastAccount)
        else _ ← delete_account_row id; mret (Commit (DeletedYes name))
    end).

Definition to_account (r : AccountRow) : Account :=
  {| account_id := acc_id r; account_username := acc_username r; account_hash := acc_hash r |}.

Definition account_by_id (id : Z) : sql (option Account) :=
  row ← account_where (has_id id); mret (to_account <$> row).

Definition change_password (account_id : Z) (password_hash : str) (current : list Z)
    (new : NewSession) : sql Z :=
  transaction (
    _ ← update_hash account_id password_hash;
    ended ← delete_sessions (λ _ s, (ses_account s =? account_id) && negb (has_token current s));
    _ ← delete_sessions (λ _ s, has_token current s);
    _ ← insert_session new;
    mret (Commit ended)).

Definition reset_password (username password_hash : str) : sql (option Z) :=
  transaction (
    row ← account_where (has_name username);
    match acc_id <$> row with
    | None => mret (Drop_ None)
    | Some id =>
        _ ← update_hash id password_hash;
        ended ← delete_sessions (λ _ s, ses_account s =? id);
        mret (Commit (Some ended))
    end).

Definition audit (row : AuditRow) : sql unit :=
  statement (λ k t, Ok (tt, with_audit (tab_audit t ++ [(tick_now k, row)]) t)).

Definition delete_old_audit_rows (days : Z) : sql Z :=
  statement (λ k t,
    let kept := filter (λ r, tick_now k - days * 24 * minutes 60 ≤ r.1) (tab_audit t) in
    Ok (Z.of_nat (length (tab_audit t)) - Z.of_nat (length kept), with_audit kept t)).

Definition find_account (username : str) : sql (option Account) :=
  row ← account_where (has_name username); mret (to_account <$> row).

Definition create_session (new : NewSession) : sql unit :=
  _ ← delete_sessions (λ now s, (ses_expires_at s <=? now) || (ses_last_seen_at s <=? IDLE_CUTOFF now));
  _ ← insert_session new;
  mret tt.

(** The SELECT of [session]: the live row joined with its account. *)
Definition select_session (token : list Z) : sql (option Session) :=
  statement (λ k t, Ok (
    s ← List.find (λ s, has_token token s && ses_live (tick_now k) s) (tab_sessions t);
    a ← List.find (has_id (ses_account s)) (tab_accounts t);
    Some {| session_account_id := ses_account s; session_username := acc_username a;
            session_csrf_token := ses_csrf s |}, t)).

Definition touch (now : Z) (s : SessionRow) : SessionRow :=
  {| ses_token := ses_token s; ses_account := ses_account s; ses_csrf := ses_csrf s;
     ses_created_at := ses_created_at s; ses_last_seen_at := now;
     ses_expires_at := ses_expires_at s; ses_client_ip := ses_client_ip s;
     ses_user_agent := ses_user_agent s |}.

Definition touch_session (token : list Z) : sql unit :=
  statement (λ k t, Ok (tt, with_sessions
    ((λ s, if has_token token s && (ses_last_seen_at s <? tick_now k - minutes 1)
           then touch (tick_now k) s else s) <$> tab_sessions t) t)).

Definition session (token : list Z) : sql (option Session) :=
  found ← select_session token;
  match found with
  | Some _ => _ ← touch_session token; mret found
  | None => mret found
  end.

Definition session_alive (token : list Z) : sql bool :=
  statement (λ k t, Ok (existsb (λ s, has_token token s && ses_live (tick_now k) s) (tab_sessions t), t)).

Definition delete_session (token : list Z) : sql unit :=
  _ ← delete_sessions (λ _ s, has_token token s); mret tt.

Definition ping : sql unit := statement (λ _ t, Ok (tt, t)).

(** ** Reasoning about statements *)

(** The statement succeeded, in the environment of statement [n]. *)
Lemma statement_Ok {A} f env t n (a : A) t' n' :
  statement f env t n = (Ok a, t', n') ↔
  n' = S n ∧ tick_fault (env n) = None ∧ f (env n) t = Ok (a, t').
Proof. unfold statement. repeat case_match; naive_solver. Qed.

Lemma statement_Err {A} (f : tick → Tables → result SqlError (A * Tables)) env t n e t' n' :
  statement f env t n = (Err e, t', n') → t' = t.
Proof. unfold statement. intros. repeat case_match; naive_solver. Qed.

Lemma sql_bind_Ok {A B} (m : sql A) (f : A → sql B) env t n b t2 n2 :
  (m ≫= f) env t n = (Ok b, t2, n2) ↔
  ∃ a t1 n1, m env t n = (Ok a, t1, n1) ∧ f a env t1 n1 = (Ok b, t2, n2).
Proof.
  unfold mbind, sql_bind. destruct (m env t n) as [[[a|e] t1] n1]; naive_solver.
Qed.

Lemma transaction_Ok {A} (body : sql (ending A)) env t n a t' n' :
  transaction body env t n = (Ok a, t', n') →
  ∃ b t1 n1 n2, body env t n1 = (Ok b, t1, n2) ∧
    match b with Drop_ a' => a' = a ∧ t' = t | Commit a' => a' = a ∧ t' = t1 end.
Proof.
  unfold transaction. intros E.
  destruct (statement _ env t n) as [[[[]|e] t0] n0] eqn:E0; [|done].
  destruct (body env t n0) as [[[b|e] t1] n1] eqn:E1; [|done]. exists b, t1, n0, n1.
  split; [done|]. destruct b as [b|b]; simplify_eq; [done|].
  destruct (statement _ env t1 n1) as [[[[]|e] t2] n2] eqn:E2; simplify_eq.
  by apply statement_Ok in E2 as (_ & _ & [= <-]).
Qed.

(** A transaction that fails changes nothing. *)
Lemma transaction_Err {A} (body : sql (ending A)) env t n e t' n' :
  transaction body env t n = (Err e, t', n') → t' = t.
Proof. unfold transaction. intros. repeat case_match; naive_solver. Qed.

(** The programs that keep a property of the tables, whatever fails. *)
Definition preserves (P : Tables → Prop) {A} (m : sql A) : Prop :=
  ∀ env t n, P t → P (m env t n).1.2.

Section preserves.
Context (P : Tables → Prop).

Lemma preserves_ret {A} (a : A) : preserves P (mret a).
Proof. by intros env t n. Qed.

Lemma preserves_raise {A} e : preserves P (A := A) (raise e).
Proof. by intros env t n. Qed.

Lemma preserves_bind {A B} (m : sql A) (f : A → sql B) :
  preserves P m → (∀ a, preserves P (f a)) → preserves P (m ≫= f).
Proof.
  intros Hm Hf env t n Ht. specialize (Hm env t n Ht). unfold mbind, sql_bind.
  destruct (m env t n) as [[[a|e] t1] n1]; simpl in *; [by apply Hf|done].
Qed.

Lemma preserves_statement {A} (f : tick → Tables → result SqlError (A * Tables)) :
  (∀ k t a t', P t → f k t = Ok (a, t') → P t') → preserves P (statement f).
Proof. intros Hf env t n Ht. unfold statement. repeat case_match; simpl; eauto. Qed.

(** A read. *)
Lemma preserves_read {A} (f : tick → Tables → A) :
  preserves P (statement (λ k t, Ok (f k t, t))).
Proof. apply preserves_statement. naive_solver. Qed.

Lemma preserves_transaction {A} (body : sql (ending A)) :
  preserves P body → preserves P (transaction body).
Proof.
  intros Hb env t n Ht. destruct (transaction body env t n) as [[[a|e] t'] n'] eqn:E; simpl.
  - destruct (transaction_Ok _ _ _ _ _ _ _ E) as (b & t1 & n1 & n2 & E1 & Hb1).
    specialize (Hb env t n1 Ht). rewrite E1 in Hb. by destruct b; destruct Hb1 as [_ ->].
  - by rewrite (transaction_Err _ _ _ _ _ _ _ E).
Qed.

Lemma preserves_attempt {A} (m : sql A) : preserves P m → preserves P (attempt m).
Proof.
  intros Hm env t n Ht. specialize (Hm env t n Ht). unfold attempt.
  by destruct (m env t n) as [[r t'] n'].
Qed.
End preserves.

#[export] Hint Resolve preserves_ret preserves_raise preserves_bind preserves_read
  preserves_transaction preserves_attempt : lodger.

(** Splits a program that should keep a property down to its statements. *)
Ltac keep :=
  repeat first
    [ apply preserves_transaction | apply preserves_attempt
    | apply preserves_bind; [|intros ?]
    | apply preserves_ret | apply preserves_raise | apply preserves_read
    | match goal with |- preserves _ (match ?x with _ => _ end) => destruct x end
    | match goal with |- preserves _ (if ?x then _ else _) => destruct x end ].

(** ** The invariant of the tables *)

Record wf (t : Tables) : Prop := {
  wf_ids : NoDup (acc_id <$> tab_accounts t);
  wf_names : NoDup (nocase ∘ acc_username <$> tab_accounts t);
  wf_tokens : NoDup (ses_token <$> tab_sessions t);
  wf_owners : ∀ s, s ∈ tab_sessions t → ses_account s ∈ acc_id <$> tab_accounts t;
  wf_expiry : ∀ s, s ∈ tab_sessions t →
    ses_expires_at s = ses_created_at s + 24 * minutes 60
}.

Lemma NoDup_fmap_filter {A B} (f : A → B) (P : A → Prop) `{!∀ x, Decision (P x)} l :
  NoDup (f <$> l) → NoDup (f <$> filter P l).
Proof.
  induction l as [|x l IH]; [done|]. rewrite fmap_cons, NoDup_cons. intros [Hx Hl].
  rewrite filter_cons. case_decide; [|auto]. rewrite fmap_cons, NoDup_cons. split; [|auto].
  intros (y & Hxy & [_ Hy]%list_elem_of_filter)%list_elem_of_fmap. apply Hx.
  rewrite Hxy. by apply list_elem_of_fmap_2.
Qed.

Lemma has_id_true id r : has_id id r = true ↔ acc_id r = id.
Proof. apply Z.eqb_eq. Qed.

Lemma max_id_above rows r : r ∈ rows → acc_id r ≤ max_id rows.
Proof. induction rows as [|x rows IH]; simpl; [by intros []%not_elem_of_nil|]. intros [->|H]%elem_of_cons; [|specialize (IH H)]; lia. Qed.

Lemma new_rowid_fresh k rows id : new_rowid k rows = Ok id → id ∉ acc_id <$> rows.
Proof.
  unfold new_rowid. destruct (Z.ltb_spec (max_id rows) i64_max).
  - intros [= <-] (r & Hr & Hin)%list_elem_of_fmap. pose proof (max_id_above _ _ Hin). lia.
  - case_bool_decide; naive_solver.
Qed.

Lemma wf_sub_sessions t (P : SessionRow → Prop) `{!∀ x, Decision (P x)} :
  wf t → wf (with_sessions (filter P (tab_sessions t)) t).
Proof.
  intros [Hi Hn Ht Ho He]. split; cbn [tab_accounts tab_sessions with_sessions]; try done.
  - by apply NoDup_fmap_filter.
  - intros s [_ Hs]%list_elem_of_filter. auto.
  - intros s [_ Hs]%list_elem_of_filter. auto.
Qed.

Lemma insert_account_wf u p : preserves wf (insert_account u p).
Proof.
  apply preserves_statement. intros k t id t' [Hi Hn Ht Ho He] E.
  destruct (existsb _ _) eqn:Ex; [done|]. apply existsb_false in Ex.
  apply bind_Ok in E as (id' & Hid & [= -> <-]). apply new_rowid_fresh in Hid.
  split; cbn [tab_accounts tab_sessions with_accounts]; rewrite ?fmap_app; try done.
  - apply NoDup_app. split_and!; [done| |apply NoDup_singleton]. set_solver.
  - apply NoDup_app. split_and!; [done| |apply NoDup_singleton].
    intros x (r & -> & Hr)%list_elem_of_fmap. rewrite Forall_forall in Ex.
    specialize (Ex r Hr). bool_hyps. set_solver.
  - intros s Hs. apply elem_of_app. left. auto.
Qed.

Lemma delete_account_row_wf id : preserves wf (delete_account_row id).
Proof.
  apply preserves_statement. intros k t [] t' [Hi Hn Ht Ho He] [= <-].
  split; cbn [tab_accounts tab_sessions with_accounts with_sessions].
  - by apply NoDup_fmap_filter.
  - by apply NoDup_fmap_filter.
  - by apply NoDup_fmap_filter.
  - intros s [Hne Hs]%list_elem_of_filter.
    apply Ho in Hs as (r & Hr & Hin)%list_elem_of_fmap. apply list_elem_of_fmap.
    exists r. split; [done|]. apply list_elem_of_filter. split; congruence.
  - intros s [_ Hs]%list_elem_of_filter. auto.
Qed.

Lemma update_hash_wf id p : preserves wf (update_hash id p).
Proof.
  apply preserves_statement. intros k t [] t' [Hi Hn Ht Ho He] [= <-].
  match goal with |- wf (with_accounts (?f <$> _) _) => set (g := f) end.
  assert (Hid : acc_id <$> (g <$> tab_accounts t) = acc_id <$> tab_accounts t).
  { rewrite <- list_fmap_compose. apply list_fmap_ext. intros i r _. unfold g. simpl.
    by destruct (has_id id r). }
  assert (Hnm : nocase ∘ acc_username <$> (g <$> tab_accounts t) =
    (nocase ∘ acc_username <$> tab_accounts t)).
  { rewrite <- list_fmap_compose. apply list_fmap_ext. intros i r _. unfold g. simpl.
    by destruct (has_id id r). }
  split; cbn [tab_accounts tab_sessions with_accounts]; rewrite ?Hid, ?Hnm; done.
Qed.

Lemma delete_sessions_wf p : preserves wf (delete_sessions p).
Proof.
  apply preserves_statement. intros k t a t' Hw [= _ <-]. by apply wf_sub_sessions.
Qed.

Lemma insert_session_wf new : preserves wf (insert_session new).
Proof.
  apply preserves_statement. intros k t a t' [Hi Hn Ht Ho He] E.
  destruct (existsb _ _) eqn:Ex in E; [done|]. destruct (negb _) eqn:Ef; [done|].
  injection E as _ <-. apply existsb_false in Ex. bool_hyps.
  apply existsb_true, Exists_exists in Ef as (r & Hr & Hid%has_id_true).
  split; cbn [tab_accounts tab_sessions with_sessions]; rewrite ?fmap_app; try done.
  - apply NoDup_app. split_and!; [done| |apply NoDup_singleton].
    intros x (s & -> & Hs)%list_elem_of_fmap. rewrite Forall_forall in Ex.
    specialize (Ex s Hs). bool_hyps. set_solver.
  - intros s [Hs| ->%list_elem_of_singleton]%elem_of_app; [auto|]. simpl. rewrite <- Hid.
    by apply list_elem_of_fmap_2.
  - intros s [Hs| ->%list_elem_of_singleton]%elem_of_app; [auto|]. simpl. done.
Qed.

Lemma touch_session_wf token : preserves wf (touch_session token).
Proof.
  apply preserves_statement. intros k t [] t' [Hi Hn Ht Ho He] [= <-].
  match goal with |- wf (with_sessions (?f <$> _) _) => set (g := f) end.
  assert (Hg : ∀ s, ses_token (g s) = ses_token s ∧ ses_account (g s) = ses_account s ∧
    ses_created_at (g s) = ses_created_at s ∧ ses_expires_at (g s) = ses_expires_at s).
  { intros s. unfold g. by destruct (_ && _). }
  split; cbn [tab_accounts tab_sessions with_sessions]; try done.
  - rewrite <- list_fmap_compose. erewrite list_fmap_ext; [exact Ht|].
    intros i s _. simpl. apply Hg.
  - intros s (s' & -> & Hs)%list_elem_of_fmap. destruct (Hg s') as (_ & -> & _). auto.
  - intros s (s' & -> & Hs)%list_elem_of_fmap. destruct (Hg s') as (_ & _ & -> & ->). auto.
Qed.

#[export] Hint Resolve insert_account_wf delete_account_row_wf update_hash_wf
  delete_sessions_wf insert_session_wf touch_session_wf : lodger.

(** ** Runs of operations *)

Inductive db_op :=
| OpCount
| OpCreateFirst (username hash : str)
| OpList
| OpCreate (username hash : str)
| OpDelete (id : Z)
| OpById (id : Z)
| OpChange (id : Z) (hash : str) (current : list Z) (new : NewSession)
| OpReset (username hash : str)
| OpAudit (row : AuditRow)
| OpDeleteOld (days : Z)
| OpFind (username : str)
| OpCreateSession (new : NewSession)
| OpSession (token : list Z)
| OpAlive (token : list Z)
| OpDeleteSession (token : list Z)
| OpPing.

Definition void {A} (m : sql A) : sql unit := _ ← m; mret tt.

Definition run_op (o : db_op) : sql unit :=
  match o with
  | OpCount => void account_count
  | OpCreateFirst u h => void (create_first_account u h)
  | OpList => void list_accounts
  | OpCreate u h => void (create_account u h)
  | OpDelete id => void (delete_account id)
  | OpById id => void (account_by_id id)
  | OpChange id h c n => void (change_password id h c n)
  | OpReset u h => void (reset_password u h)
  | OpAudit r => audit r
  | OpDeleteOld d => void (delete_old_audit_rows d)
  | OpFind u => void (find_account u)
  | OpCreateSession n => create_session n
  | OpSession k => void (session k)
  | OpAlive k => void (session_alive k)
  | OpDeleteSession k => delete_session k
  | OpPing => ping
  end.

(** The tables after a sequence of operations; one that fails is answered with
    an error and the next one goes on. *)
Fixpoint run_ops (ops : list db_op) (env : nat → tick) (t : Tables) (n : nat) : Tables :=
  match ops with
  | [] => t
  | o :: ops => let '(_, t, n) := run_op o env t n in run_ops ops env t n
  end.

Lemma run_ops_preserves (P : Tables → Prop) ops env t n :
  (∀ o, preserves P (run_op o)) → P t → P (run_ops ops env t n).
Proof.
  intros HP. revert t n. induction ops as [|o ops IH]; intros t n Ht; simpl; [done|].
  specialize (HP o env t n Ht). destruct (run_op o env t n) as [[r t'] n']. by apply IH.
Qed.

Lemma audit_wf row : preserves wf (audit row).
Proof. apply preserves_statement. intros k t [] t' [] [= <-]. by split. Qed.

Lemma delete_old_wf days : preserves wf (delete_old_audit_rows days).
Proof. apply preserves_statement. intros k t a t' [] [= _ <-]. by split. Qed.

#[export] Hint Resolve audit_wf delete_old_wf : lodger.

Lemma run_op_wf o : preserves wf (run_op o).
Proof.
  destruct o; unfold run_op, void, account_count, create_first_account, list_accounts,
    create_account, delete_account, account_by_id, change_password, reset_password, find_account,
    create_session, session, session_alive, delete_session, ping, account_where, select_count,
    select_session; keep; eauto with lodger.
Qed.

Lemma run_ops_wf ops env t n : wf t → wf (run_ops ops env t n).
Proof. apply run_ops_preserves, run_op_wf. Qed.

Lemma wf_no_tables : wf no_tables.
Proof. split; simpl; try apply NoDup_nil_2; set_solver. Qed.

(** Whatever operations run, in whatever order, and whichever of their
    statements fail, the database stays well formed: account ids are unique,
    usernames are unique without regard to ASCII case, session tokens are
    unique, every session belongs to an existing account, and every session
    expires 24 hours after it was created. *)
Theorem db_invariant ops env : wf (run_ops ops env no_tables 0).
Proof. apply run_ops_wf, wf_no_tables. Qed.

(** ** Accounts *)

(** What a deletion did, on every branch. *)
Lemma delete_account_spec id env t n r t' n' :
  delete_account id env t n = (r, t', n') →
  match r with
  | Err _ => t' = t
  | Ok NoSuchAccount => t' = t ∧ id ∉ acc_id <$> tab_accounts t
  | Ok LastAccount => t' = t ∧ (length (tab_accounts t) ≤ 1)%nat
  | Ok (DeletedYes name) =>
      (∃ row, row ∈ tab_accounts t ∧ acc_id row = id ∧ acc_username row = name) ∧
      (1 < length (tab_accounts t))%nat ∧
      t' = with_sessions (filter (λ s, ses_account s ≠ id) (tab_sessions t))
             (with_accounts (filter (λ r, acc_id r ≠ id) (tab_accounts t)) t)
  end.
Proof.
  intros E. destruct r as [d|e]; [|by eapply transaction_Err].
  destruct (transaction_Ok _ _ _ _ _ _ _ E) as (b & t1 & n1 & n2 & Eb & Hb).
  apply sql_bind_Ok in Eb as (c & t2 & n3 & (_ & _ & [= <- <-])%statement_Ok & Eb).
  apply sql_bind_Ok in Eb as (row & t3 & n4 & (_ & _ & [= <- <-])%statement_Ok & Eb).
  destruct (List.find (has_id id) (tab_accounts t)) as [row|] eqn:Ef; simpl in Eb.
  - apply find_Some_split in Ef as (l1 & l2 & Hl & Hid%has_id_true & _).
    destruct (Z.leb_spec (Z.of_nat (length (tab_accounts t))) 1);
      [injection Eb as <- <- _; destruct Hb as [<- ->]; split; [done|lia]|].
    apply sql_bind_Ok in Eb as (? & t4 & n5 & (_ & _ & [= _ <-])%statement_Ok & [= <- <- _]).
    destruct Hb as [<- ->]. split_and!; [|lia|done]. exists row. rewrite Hl. set_solver.
  - injection Eb as <- <- _. destruct Hb as [<- ->]. split; [done|]. intros (r & -> & Hr)%list_elem_of_fmap.
    apply find_None_Forall in Ef. rewrite Forall_forall in Ef. specialize (Ef r Hr).
    unfold has_id in Ef. lia.
Qed.

Lemma filter_ne_nonempty rows id :
  NoDup (acc_id <$> rows) → (1 < length rows)%nat → filter (λ r, acc_id r ≠ id) rows ≠ [].
Proof.
  intros Hnd Hl Hf. destruct rows as [|a [|b rows]]; simpl in Hl; [lia..|].
  rewrite !filter_cons in Hf. rewrite !fmap_cons, !NoDup_cons in Hnd.
  repeat case_decide; try done. destruct Hnd as [Ha _]. apply Ha. set_solver.
Qed.

Definition populated (t : Tables) : Prop := wf t ∧ tab_accounts t ≠ [].

Lemma run_op_populated o : preserves populated (run_op o).
Proof.
  assert (Hsame : ∀ {A} (f : tick → Tables → result SqlError (A * Tables)),
    preserves wf (statement f) →
    (∀ k t a t', f k t = Ok (a, t') → tab_accounts t ≠ [] → tab_accounts t' ≠ []) →
    preserves populated (statement f)).
  { intros A f Hw Hf env t n [Hwf Hne]. specialize (Hw env t n Hwf). split; [done|].
    destruct (statement f env t n) as [[[a|e] t'] n'] eqn:E; simpl.
    - apply statement_Ok in E as (_ & _ & E). by eapply Hf.
    - by rewrite (statement_Err _ _ _ _ _ _ _ E). }
  assert (Hdel : ∀ p, preserves populated (delete_sessions p))
    by (intros p; apply Hsame; [apply delete_sessions_wf|]; intros k t a t' [= _ <-]; done).
  assert (Hins : ∀ new, preserves populated (insert_session new)).
  { intros new. apply Hsame; [apply insert_session_wf|]. intros k t a t' Hf.
    destruct (existsb _ _); [done|]. destruct (negb _); by simplify_eq. }
  assert (Hacc : ∀ u h, preserves populated (insert_account u h)).
  { intros u h. apply Hsame; [apply insert_account_wf|]. intros k t a t' Hf.
    destruct (existsb _ _); [done|]. apply bind_Ok in Hf as (id & _ & [= _ <-]).
    simpl. by destruct (tab_accounts t). }
  assert (Hupd : ∀ id h, preserves populated (update_hash id h)).
  { intros id h. apply Hsame; [apply update_hash_wf|]. intros k t a t' [= _ <-]. simpl.
    by destruct (tab_accounts t). }
  assert (Htouch : ∀ k, preserves populated (touch_session k))
    by (intros k; apply Hsame; [apply touch_session_wf|]; intros ? t a t' [= _ <-]; done).
  destruct o; try (unfold run_op, void, account_count, create_first_account, list_accounts,
    create_account, account_by_id, change_password, reset_password, find_account,
    create_session, session, session_alive, delete_session, ping, account_where, select_count,
    select_session; keep; by auto).
  - intros env t n [Hwf Hne]. split; [by apply (run_op_wf (OpDelete id))|].
    unfold run_op, void, mbind, sql_bind.
    destruct (delete_account id env t n) as [[r t'] n'] eqn:E.
    pose proof (delete_account_spec _ _ _ _ _ _ _ E) as Hs.
    destruct r as [[name| |]|e]; simpl; [|by destruct Hs as [-> _]..|by rewrite Hs].
    destruct Hs as (_ & Hl & ->). apply filter_ne_nonempty; [apply Hwf|done].
  - apply Hsame; [apply audit_wf|]. intros k t a t' [= _ <-]. done.
  - unfold run_op, void. keep. apply Hsame; [apply delete_old_wf|]. intros k t a t' [= _ <-]. done.
Qed.

(**  Lodger cannot lose its last account.  Once an account exists, every
    sequence of operations, with any failures, leaves at least one account, so
    the instance never falls back to open setup. *)
Theorem accounts_never_vanish ops1 ops2 env1 env2 n :
  let t := run_ops ops1 env1 no_tables 0 in
  tab_accounts t ≠ [] → tab_accounts (run_ops ops2 env2 t n) ≠ [].
Proof.
  intros t Hne. eapply proj2, (run_ops_preserves populated).
  - apply run_op_populated.
  - split; [|done]. apply run_ops_wf, wf_no_tables.
Qed.

(** ** Sessions *)

(** Rows with the same key are the same row. *)
Lemma key_eq {A B} (f : A → B) l x y : NoDup (f <$> l) → x ∈ l → y ∈ l → f x = f y → x = y.
Proof.
  intros Hnd Hx Hy Heq.
  apply list_elem_of_lookup in Hx as [i Hi]. apply list_elem_of_lookup in Hy as [j Hj].
  assert (i = j) as ->; [|congruence].
  eapply (NoDup_lookup _ i j (f x)); [exact Hnd|..]; rewrite list_lookup_fmap;
    [by rewrite Hi|by rewrite Hj, Heq].
Qed.

Lemma in_token_eq t s s' :
  wf t → s ∈ tab_sessions t → s' ∈ tab_sessions t → ses_token s = ses_token s' → s = s'.
Proof. intros Hw. apply key_eq, Hw. Qed.

Lemma name_eq t a b :
  wf t → a ∈ tab_accounts t → b ∈ tab_accounts t →
  nocase (acc_username a) = nocase (acc_username b) → a = b.
Proof. intros Hw. apply (key_eq (nocase ∘ acc_username)), Hw. Qed.

Lemma update_hash_spec id h env t n t' n' :
  update_hash id h env t n = (Ok tt, t', n') →
  tab_sessions t' = tab_sessions t ∧ (acc_id <$> tab_accounts t') = (acc_id <$> tab_accounts t) ∧
  ∀ r, r ∈ tab_accounts t' → acc_id r = id → acc_hash r = h.
Proof.
  intros (_ & _ & [= <-])%statement_Ok. cbn [tab_sessions tab_accounts with_accounts].
  split_and!; [done| |].
  - rewrite <- list_fmap_compose. apply list_fmap_ext. intros i r _. simpl. by destruct (has_id id r).
  - intros r (r' & -> & _)%list_elem_of_fmap. unfold has_id.
    destruct (Z.eqb_spec (acc_id r') id); done.
Qed.

Lemma delete_sessions_spec p env t n c t' n' :
  delete_sessions p env t n = (Ok c, t', n') →
  tab_accounts t' = tab_accounts t ∧
  ∃ now, tab_sessions t' = filter (λ s, p now s = false) (tab_sessions t).
Proof. intros (_ & _ & [= _ <-])%statement_Ok. by eauto. Qed.

Lemma insert_session_spec new env t n t' n' :
  insert_session new env t n = (Ok tt, t', n') →
  tab_accounts t' = tab_accounts t ∧ new_account_id new ∈ acc_id <$> tab_accounts t ∧
  ∃ row, ses_token row = new_token_sha256 new ∧ ses_account row = new_account_id new ∧
    tab_sessions t' = tab_sessions t ++ [row].
Proof.
  intros (_ & _ & E)%statement_Ok. destruct (existsb _ _) in E; [done|].
  destruct (negb _) eqn:Ef; [done|]. injection E as <-. bool_hyps.
  apply existsb_true, Exists_exists in Ef as (r & Hr & Hid%has_id_true).
  split_and!; [done| |eexists; split_and!; [..|done]; done]. rewrite <- Hid. by apply list_elem_of_fmap_2.
Qed.

(** What a password change leaves: the sessions of other accounts, less the
    current token, and the new session. *)
Lemma change_password_spec id h current new env t n ended t' n' :
  change_password id h current new env t n = (Ok ended, t', n') →
  new_account_id new ∈ acc_id <$> tab_accounts t ∧
  (∀ r, r ∈ tab_accounts t' → acc_id r = id → acc_hash r = h) ∧
  ∃ row, ses_token row = new_token_sha256 new ∧ ses_account row = new_account_id new ∧
    ∀ s, s ∈ tab_sessions t' ↔
      (s ∈ tab_sessions t ∧ ses_account s ≠ id ∧ ses_token s ≠ current) ∨ s = row.
Proof.
  intros E. destruct (transaction_Ok _ _ _ _ _ _ _ E) as (b & t5 & n1 & n2 & Eb & Hb).
  apply sql_bind_Ok in Eb as ([] & t1 & m1 & (Hs1 & Hi1 & Hh1)%update_hash_spec & Eb).
  apply sql_bind_Ok in Eb as (c & t2 & m2 & (Ha2 & w2 & Hs2)%delete_sessions_spec & Eb).
  apply sql_bind_Ok in Eb as (c' & t3 & m3 & (Ha3 & w3 & Hs3)%delete_sessions_spec & Eb).
  apply sql_bind_Ok in Eb as ([] & t4 & m4 & (Ha4 & Hn4 & row & Hr1 & Hr2 & Hs4)%insert_session_spec & Eb).
  injection Eb as <- <- _. destruct Hb as [_ ->].
  rewrite Ha4, Ha3, Ha2. split_and!; [|done|].
  { rewrite <- Hi1, <- Ha2, <- Ha3. done. }
  exists row. split_and!; [done..|]. intros s.
  rewrite Hs4, elem_of_app, list_elem_of_singleton, Hs3, list_elem_of_filter, Hs2,
    list_elem_of_filter, Hs1, andb_false_iff, negb_false_iff, Z.eqb_neq.
  unfold has_token. rewrite bool_decide_eq_true, bool_decide_eq_false. naive_solver.
Qed.

Lemma reset_password_spec u h env t n r t' n' :
  reset_password u h env t n = (Ok r, t', n') →
  match r with
  | None => t' = t ∧ ∀ a, a ∈ tab_accounts t → nocase (acc_username a) ≠ nocase u
  | Some _ => ∃ a, a ∈ tab_accounts t ∧ nocase (acc_username a) = nocase u ∧
      (∀ b, b ∈ tab_accounts t' → acc_id b = acc_id a → acc_hash b = h) ∧
      ∀ s, s ∈ tab_sessions t' ↔ s ∈ tab_sessions t ∧ ses_account s ≠ acc_id a
  end.
Proof.
  intros E. destruct (transaction_Ok _ _ _ _ _ _ _ E) as (b & t5 & n1 & n2 & Eb & Hb).
  apply sql_bind_Ok in Eb as (row & t1 & m1 & (_ & _ & [= <- <-])%statement_Ok & Eb).
  destruct (List.find (has_name u) (tab_accounts t)) as [a|] eqn:Ef; simpl in Eb.
  - apply find_Some_split in Ef as (l1 & l2 & Hl & Hn & _). unfold has_name in Hn. bool_hyps.
    apply sql_bind_Ok in Eb as ([] & t2 & m2 & (Hs1 & Hi1 & Hh1)%update_hash_spec & Eb).
    apply sql_bind_Ok in Eb as (c & t3 & m3 & (Ha2 & w2 & Hs2)%delete_sessions_spec & Eb).
    injection Eb as <- <- _. destruct Hb as [<- ->]. exists a. rewrite Ha2, Hs2, Hs1.
    split_and!; [rewrite Hl; set_solver|done..|].
    intros s. rewrite list_elem_of_filter, Z.eqb_neq. naive_solver.
  - injection Eb as <- _ _. destruct Hb as [<- ->]. split; [done|].
    apply find_None_Forall in Ef. rewrite Forall_forall in Ef. intros a Ha.
    specialize (Ef a Ha). unfold has_name in Ef. by bool_hyps.
Qed.

(** Row by row: the hash of the one account is new, and its sessions are gone. *)
Lemma reset_password_rows u h env t n c t' n' :
  reset_password u h env t n = (Ok (Some c), t', n') →
  ∃ a, a ∈ tab_accounts t ∧ nocase (acc_username a) = nocase u ∧
    Forall2 (λ r r', if acc_id r =? acc_id a
                     then acc_hash r' = h ∧ acc_id r' = acc_id r ∧ acc_username r' = acc_username r ∧
                          acc_created_at r' = acc_created_at r
                     else r' = r) (tab_accounts t) (tab_accounts t') ∧
    tab_sessions t' = filter (λ x, ses_account x ≠ acc_id a) (tab_sessions t).
Proof.
  intros E. destruct (transaction_Ok _ _ _ _ _ _ _ E) as (b & t5 & n1 & n2 & Eb & Hb).
  apply sql_bind_Ok in Eb as (row & t1 & m1 & (_ & _ & [= <- <-])%statement_Ok & Eb).
  destruct (List.find (has_name u) (tab_accounts t)) as [a|] eqn:Ef; simpl in Eb.
  2: { injection Eb as <- _ _. by destruct Hb. }
  apply find_Some_split in Ef as (l1 & l2 & Hl & Hn & _). unfold has_name in Hn. bool_hyps.
  apply sql_bind_Ok in Eb as ([] & t2 & m2 & (_ & _ & [= <-])%statement_Ok & Eb).
  apply sql_bind_Ok in Eb as (c' & t3 & m3 & (_ & _ & [= _ <-])%statement_Ok & Eb).
  injection Eb as <- <- _. destruct Hb as [_ ->]. exists a.
  split_and!; [rewrite Hl; set_solver|done| |].
  - cbn. apply Forall2_fmap_r, Forall_Forall2_diag, Forall_true. intros r.
    unfold compose, has_id. by destruct (acc_id r =? acc_id a).
  - cbn. apply list_filter_iff. intros x. by rewrite Z.eqb_neq.
Qed.

(** [session] accepts a token only if a live row has it. *)
Lemma session_Some token env t n s t' n' :
  session token env t n = (Ok (Some s), t', n') →
  ∃ row a, row ∈ tab_sessions t ∧ ses_token row = token ∧
    ses_live (tick_now (env n)) row = true ∧ a ∈ tab_accounts t ∧
    acc_id a = ses_account row ∧
    s = {| session_account_id := ses_account row; session_username := acc_username a;
           session_csrf_token := ses_csrf row |}.
Proof.
  intros E. apply sql_bind_Ok in E as (found & t1 & n1 & (_ & _ & E1)%statement_Ok & E).
  injection E1 as E1 <-. destruct found as [s'|]; [|done].
  apply sql_bind_Ok in E as ([] & t2 & n2 & _ & [= <- _ _]).
  destruct (List.find _ (tab_sessions t)) as [row|] eqn:Es; [|done]. simpl in E1.
  destruct (List.find _ (tab_accounts t)) as [a|] eqn:Ea; [|done]. simplify_eq/=.
  apply find_Some_split in Es as (l1 & l2 & Hs & [Ht Hl]%andb_true_iff & _).
  apply find_Some_split in Ea as (l3 & l4 & Ha & Hid%has_id_true & _).
  apply bool_decide_eq_true in Ht.
  exists row, a. split_and!; [rewrite Hs; set_solver|done..|rewrite Ha; set_solver|done|done].
Qed.

Lemma find_account_spec u env t n r t' n' :
  find_account u env t n = (r, t', n') →
  t' = t ∧
  match r with
  | Ok (Some a) => ∃ x, x ∈ tab_accounts t ∧ nocase (acc_username x) = nocase u ∧ a = to_account x
  | Ok None => ∀ x, x ∈ tab_accounts t → nocase (acc_username x) ≠ nocase u
  | Err _ => True
  end.
Proof.
  unfold find_account, mbind, sql_bind. intros E.
  destruct (account_where (has_name u) env t n) as [[[o|e] t1] n1] eqn:Ea.
  - apply statement_Ok in Ea as (_ & _ & [= <- <-]). injection E as <- <- _. split; [done|].
    destruct (List.find (has_name u) (tab_accounts t)) as [x|] eqn:Ef; simpl.
    + apply find_Some_split in Ef as (l1 & l2 & Hl & Hn & _). unfold has_name in Hn. bool_hyps.
      exists x. rewrite Hl. set_solver.
    + apply find_None_Forall in Ef. rewrite Forall_forall in Ef. intros x Hx.
      specialize (Ef x Hx). unfold has_name in Ef. by bool_hyps.
  - injection E as <- <- _. split; [|done]. by eapply statement_Err.
Qed.

Lemma delete_session_sub token env t n r t' n' :
  delete_session token env t n = (r, t', n') →
  tab_accounts t' = tab_accounts t ∧
  ∀ x, x ∈ tab_sessions t' → x ∈ tab_sessions t ∧ (r = Ok tt → ses_token x ≠ token).
Proof.
  unfold delete_session, mbind, sql_bind. intros E.
  destruct (delete_sessions _ env t n) as [[[c|e] t1] n1] eqn:Ed; injection E as <- <- _.
  - apply delete_sessions_spec in Ed as (Ha & now & Hs). split; [done|]. rewrite Hs.
    intros x [Hx Hin]%list_elem_of_filter. split; [done|]. intros _.
    by apply bool_decide_eq_false in Hx.
  - apply statement_Err in Ed. by subst.
Qed.

Lemma create_session_spec new env t n r t' n' :
  create_session new env t n = (r, t', n') →
  tab_accounts t' = tab_accounts t ∧
  match r with
  | Ok _ => ∃ row, ses_token row = new_token_sha256 new ∧ ses_account row = new_account_id new ∧
      row ∈ tab_sessions t' ∧ ∀ x, x ∈ tab_sessions t' → x = row ∨ x ∈ tab_sessions t
  | Err _ => ∀ x, x ∈ tab_sessions t' → x ∈ tab_sessions t
  end.
Proof.
  unfold create_session, mbind, sql_bind. intros E.
  destruct (delete_sessions _ env t n) as [[[c|e] t1] n1] eqn:Ed.
  2: { injection E as <- <- _. apply statement_Err in Ed. by subst. }
  apply delete_sessions_spec in Ed as (Ha & now & Hs).
  destruct (insert_session new env t1 n1) as [[[[]|e] t2] n2] eqn:Ei; injection E as <- <- _.
  - apply insert_session_spec in Ei as (Ha2 & _ & row & H1 & H2 & Hs2).
    split; [congruence|]. exists row. rewrite Hs2, Hs. split_and!; [done..|set_solver|].
    intros x [[_ Hx]%list_elem_of_filter|Hx%list_elem_of_singleton]%elem_of_app; auto.
  - apply statement_Err in Ei. subst t2. split; [done|]. rewrite Hs.
    by intros x [_ Hx]%list_elem_of_filter.
Qed.

(** A lookup changes no account. *)
Lemma session_accounts token env t n r t' n' :
  session token env t n = (r, t', n') → tab_accounts t' = tab_accounts t.
Proof.
  assert (Hp : preserves (λ x, tab_accounts x = tab_accounts t) (session token)).
  { unfold session, select_session. keep. apply preserves_statement.
    intros k x [] x' Hx [= <-]. exact Hx. }
  intros E. specialize (Hp env t n eq_refl). by rewrite E in Hp.
Qed.

(** C24: a password change, a password reset and the deletion of an account each
    end every session that the account had: its old tokens are refused from then
    on, at any time, apart from the fresh token that a password change sets. *)
Theorem credential_changes_end_sessions t id token row env n env' n' :
  wf t → row ∈ tab_sessions t → ses_token row = token → ses_account row = id →
  (∀ h current new ended t' n1,
     change_password id h current new env t n = (Ok ended, t', n1) →
     token ≠ new_token_sha256 new → ∀ s, (session token env' t' n').1.1 ≠ Ok (Some s)) ∧
  (∀ u h ended t' n1 a, a ∈ tab_accounts t → acc_id a = id → nocase (acc_username a) = nocase u →
     reset_password u h env t n = (Ok ended, t', n1) →
     ∀ s, (session token env' t' n').1.1 ≠ Ok (Some s)) ∧
  (∀ name t' n1, delete_account id env t n = (Ok (DeletedYes name), t', n1) →
     ∀ s, (session token env' t' n').1.1 ≠ Ok (Some s)).
Proof.
  intros Hw Hrow Htok Hacc.
  assert (Hold : ∀ t', (∀ s, s ∈ tab_sessions t' → ses_token s = token → False) →
    ∀ s, (session token env' t' n').1.1 ≠ Ok (Some s)).
  { intros t' Hno s Hs. destruct (session token env' t' n') as [[r t2] n2] eqn:E. simpl in Hs.
    subst r. destruct (session_Some _ _ _ _ _ _ _ E) as (r & a & Hr & Hrt & _). by eapply Hno. }
  assert (Huniq : ∀ s, s ∈ tab_sessions t → ses_token s = token → s = row)
    by (intros s Hs Hst; apply (in_token_eq t); [done..|by rewrite Hst]).
  split_and!.
  - intros h current new ended t' n1 E Hne. apply Hold. intros s Hs Hst.
    destruct (change_password_spec _ _ _ _ _ _ _ _ _ _ E) as (_ & _ & r & Hr & _ & Hiff).
    apply Hiff in Hs as [(Hs & Hsa & _)| ->]; [|congruence].
    apply Hsa. by rewrite (Huniq s Hs Hst).
  - intros u h ended t' n1 a Ha Hid Hu E. apply Hold. intros s Hs Hst.
    pose proof (reset_password_spec _ _ _ _ _ _ _ _ E) as Hr.
    destruct ended as [c|]; [|destruct Hr as [_ Hr]; by eapply Hr].
    destruct Hr as (b & Hb & Hbn & _ & Hiff). apply Hiff in Hs as [Hs Hsa].
    apply Hsa. rewrite (Huniq s Hs Hst), Hacc, <- Hid. f_equal.
    apply (name_eq t); [done..|]. congruence.
  - intros name t' n1 E. apply Hold. intros s Hs Hst.
    pose proof (delete_account_spec _ _ _ _ _ _ _ E) as (_ & _ & ->). simpl in Hs.
    apply list_elem_of_filter in Hs as [Hne Hs]. apply Hne. by rewrite (Huniq s Hs Hst).
Qed.

(** A live row with an account is accepted when the statements succeed. *)
Lemma session_accepts token env t n row a :
  wf t → row ∈ tab_sessions t → ses_token row = token →
  ses_live (tick_now (env n)) row = true → a ∈ tab_accounts t → acc_id a = ses_account row →
  tick_fault (env n) = None → tick_fault (env (S n)) = None →
  ∃ t', session token env t n =
    (Ok (Some {| session_account_id := ses_account row; session_username := acc_username a;
                 session_csrf_token := ses_csrf row |}), t', S (S n)).
Proof.
  intros Hw Hrow Ht Hl Ha Hid F1 F2. unfold session, mbind, sql_bind, select_session, statement.
  rewrite F1.
  assert (Es : List.find (λ s, has_token token s && ses_live (tick_now (env n)) s) (tab_sessions t)
    = Some row).
  { destruct (List.find _ _) as [r|] eqn:E.
    - apply find_Some_split in E as (l1 & l2 & El & [Er%bool_decide_eq_true _]%andb_true_iff & _).
      f_equal. apply (in_token_eq t); [done| |done|congruence]. rewrite El. set_solver.
    - apply find_None_Forall in E. rewrite Forall_forall in E. specialize (E row Hrow).
      unfold has_token in E. by rewrite bool_decide_true, Hl in E. }
  assert (Ea : List.find (has_id (ses_account row)) (tab_accounts t) = Some a).
  { destruct (List.find (has_id (ses_account row)) (tab_accounts t)) as [r|] eqn:E.
    - apply find_Some_split in E as (l1 & l2 & El & Er%has_id_true & _).
      f_equal. apply (key_eq acc_id (tab_accounts t)); [apply Hw| |done|congruence].
      rewrite El. set_solver.
    - apply find_None_Forall in E. rewrite Forall_forall in E. specialize (E a Ha).
      unfold has_id in E. lia. }
  rewrite Es. cbn [mbind option_bind]. rewrite Ea. cbn [mbind option_bind].
  unfold touch_session, statement. rewrite F2. by eexists.
Qed.

(** A token is refused only when no live row with an account has it, or when a
    statement fails. *)
Lemma session_None token env t n t' n' row a :
  wf t → session token env t n = (Ok None, t', n') → row ∈ tab_sessions t → ses_token row = token →
  ses_live (tick_now (env n)) row = true → a ∈ tab_accounts t → acc_id a = ses_account row → False.
Proof.
  intros Hw E Hrow Ht Hl Ha Hid. unfold session, mbind, sql_bind in E.
  destruct (select_session token env t n) as [[[o|e] t1] n1] eqn:Es; [|done].
  apply statement_Ok in Es as (_ & _ & [= Eo <-]).
  assert (o = None) as ->.
  { destruct o as [x|]; [|done]. by destruct (touch_session token env t n1) as [[[]]]. }
  destruct (List.find _ (tab_sessions t)) as [r|] eqn:Er.
  - apply find_Some_split in Er as (l1 & l2 & El & [Hk%bool_decide_eq_true _]%andb_true_iff & _).
    assert (r = row) as ->.
    { apply (in_token_eq t); [done| |done|congruence]. rewrite El. set_solver. }
    cbn [mbind option_bind] in Eo. destruct (List.find (has_id (ses_account row)) (tab_accounts t)) eqn:Ea; [done|].
    apply find_None_Forall in Ea. rewrite Forall_forall in Ea. specialize (Ea a Ha). unfold has_id in Ea. lia.
  - apply find_None_Forall in Er. rewrite Forall_forall in Er. specialize (Er row Hrow).
    unfold has_token in Er. by rewrite bool_decide_true, Hl in Er.
Qed.

Lemma session_Err token env t n e t' n' :
  session token env t n = (Err e, t', n') → ∃ k m, tick_fault (env k) = Some m.
Proof.
  unfold session, mbind, sql_bind, select_session, touch_session, statement.
  destruct (tick_fault (env n)) as [m|] eqn:F1; [by eauto|].
  intros E. repeat case_match; simplify_eq; eauto.
Qed.

(** A use leaves the row with its use recorded, give or take a minute. *)
Lemma session_touched token env t n s t' n' row :
  session token env t n = (Ok (Some s), t', n') → row ∈ tab_sessions t → ses_token row = token →
  ∃ row', row' ∈ tab_sessions t' ∧
    (ses_token row' = ses_token row ∧ ses_account row' = ses_account row ∧
     ses_csrf row' = ses_csrf row ∧ ses_expires_at row' = ses_expires_at row) ∧
    tick_now (env (S n)) - minutes 1 ≤ ses_last_seen_at row' ∧ tab_accounts t' = tab_accounts t.
Proof.
  intros E Hrow Ht. apply sql_bind_Ok in E as (found & t1 & n1 & (-> & _ & E1)%statement_Ok & E).
  injection E1 as _ <-. destruct found as [s'|]; [|done].
  apply sql_bind_Ok in E as ([] & t2 & n2 & (-> & _ & [= <-])%statement_Ok & [= _ <- _]).
  cbn [tab_sessions tab_accounts with_sessions].
  eexists. split; [by apply list_elem_of_fmap_2|].
  unfold has_token. rewrite bool_decide_true by done. simpl.
  destruct (Z.ltb_spec (ses_last_seen_at row) (tick_now (env (S n)) - minutes 1));
    simpl; split_and!; try done; unfold minutes; lia.
Qed.

(**  [session] accepts a token exactly while its session is live: younger
    than 24 hours and used in the last 60 minutes.  A use keeps the session
    alive: after it, the token is accepted again for the next 59 minutes, up to
    the 24 hours, at the price of at most one write a minute. *)
Theorem session_lifetime t token env n :
  wf t → tick_fault (env n) = None → tick_fault (env (S n)) = None →
  let now := tick_now (env n) in
  ∃ r t' n', session token env t n = (Ok r, t', n') ∧
  (is_Some r ↔ ∃ row, row ∈ tab_sessions t ∧ ses_token row = token ∧
     now < ses_created_at row + 24 * minutes 60 ∧ now - minutes 60 < ses_last_seen_at row) ∧
  (∀ row, r ≠ None → row ∈ tab_sessions t → ses_token row = token →
   ∀ env' m, tick_fault (env' m) = None → tick_fault (env' (S m)) = None →
     tick_now (env' m) < ses_created_at row + 24 * minutes 60 →
     tick_now (env' m) < tick_now (env (S n)) + minutes 59 →
     (session token env' t' m).1.1 = Ok r).
Proof.
  intros Hw F1 F2 now.
  assert (Hlive : ∀ row when, row ∈ tab_sessions t → ses_live when row = true ↔
    when < ses_created_at row + 24 * minutes 60 ∧ when - minutes 60 < ses_last_seen_at row).
  { intros row when Hrow. unfold ses_live, IDLE_CUTOFF.
    rewrite andb_true_iff, !Z.ltb_lt, (wf_expiry _ Hw row Hrow). done. }
  assert (Howner : ∀ row, row ∈ tab_sessions t → ∃ a, a ∈ tab_accounts t ∧ acc_id a = ses_account row).
  { intros row Hrow. apply (wf_owners _ Hw) in Hrow as (a & -> & Ha)%list_elem_of_fmap. by exists a. }
  destruct (List.find (λ s, has_token token s && ses_live now s) (tab_sessions t)) as [row|] eqn:Es.
  - apply find_Some_split in Es as (l1 & l2 & El & [Ht%bool_decide_eq_true Hl]%andb_true_iff & _).
    assert (Hrow : row ∈ tab_sessions t) by (rewrite El; set_solver).
    destruct (Howner row Hrow) as (a & Ha & Hid).
    destruct (session_accepts token env t n row a Hw Hrow Ht Hl Ha Hid F1 F2) as [t' E].
    exists (Some {| session_account_id := ses_account row; session_username := acc_username a;
                    session_csrf_token := ses_csrf row |}), t', (S (S n)).
    split_and!; [done| |].
    + split; [intros _|done]. exists row. by rewrite <- Hlive.
    + intros row' _ Hrow' Ht' env' m G1 G2 Hexp Hidle.
      assert (row' = row) as -> by (apply (in_token_eq t); [done..|congruence]).
      pose proof (run_op_wf (OpSession token) env t n Hw) as Hw'.
      unfold run_op, void, mbind, sql_bind in Hw'. rewrite E in Hw'. simpl in Hw'.
      destruct (session_touched _ _ _ _ _ _ _ row E Hrow Ht) as (row2 & Hin2 & Heq2 & Hseen & Hacc).
      destruct Heq2 as (Ht2 & Ha2 & Hc2 & Hx2).
      destruct (session_accepts token env' t' m row2 a) as [t2 ->]; try done.
      * congruence.
      * unfold ses_live, IDLE_CUTOFF. rewrite Hx2, (wf_expiry _ Hw row Hrow).
        apply andb_true_iff. unfold minutes in *. lia.
      * by rewrite Hacc.
      * congruence.
      * simpl. by rewrite Ha2, Hc2.
  - exists None, t, (S n). split_and!.
    + unfold session, mbind, sql_bind, select_session, statement. rewrite F1. fold now. by rewrite Es.
    + split; [by intros []|]. intros (row & Hrow & Ht & Hx). exfalso.
      apply find_None_Forall in Es. rewrite Forall_forall in Es. specialize (Es row Hrow).
      unfold has_token in Es. rewrite bool_decide_true in Es by done. simpl in Es.
      rewrite <- Hlive in Hx by done. congruence.
    + done.
Qed.

(** ** New accounts *)

Lemma insert_account_spec u h env t n r t' n' :
  insert_account u h env t n = (r, t', n') →
  match r with
  | Ok id => (id ∉ acc_id <$> tab_accounts t) ∧
      (∀ a, a ∈ tab_accounts t → nocase (acc_username a) ≠ nocase u) ∧
      t' = with_accounts (tab_accounts t ++
        [{| acc_id := id; acc_username := u; acc_hash := h;
            acc_created_at := tick_now (env n); acc_changed_at := tick_now (env n) |}]) t
  | Err ConstraintUnique => t' = t ∧
      ∃ a, a ∈ tab_accounts t ∧ nocase (acc_username a) = nocase u
  | Err _ => t' = t
  end.
Proof.
  intros E. destruct r as [id|e].
  - apply statement_Ok in E as (_ & _ & E). destruct (existsb _ _) eqn:Ex; [done|].
    apply bind_Ok in E as (id' & Hid & [= -> <-]). apply new_rowid_fresh in Hid.
    split_and!; [done| |done]. apply existsb_false in Ex. rewrite Forall_forall in Ex.
    intros a Ha. specialize (Ex a Ha). by bool_hyps.
  - pose proof (statement_Err _ _ _ _ _ _ _ E) as ->. destruct e; try done. split; [done|].
    unfold insert_account, statement in E. destruct (tick_fault (env n)); [done|].
    destruct (existsb _ _) eqn:Ex.
    + apply existsb_true, Exists_exists in Ex as (a & Ha & Hn). bool_hyps. by exists a.
    + exfalso. unfold new_rowid in E. simpl in E. repeat case_match; simplify_eq/=.
Qed.

Lemma create_first_account_spec u h env t n r t' n' :
  create_first_account u h env t n = (r, t', n') →
  match r with
  | Ok true => tab_accounts t = [] ∧ (∃ a, tab_accounts t' = [a] ∧ acc_username a = u ∧ acc_hash a = h) ∧
      tab_sessions t' = tab_sessions t
  | Ok false => t' = t ∧ tab_accounts t ≠ []
  | Err _ => t' = t
  end.
Proof.
  intros E. destruct r as [b|e]; [|by eapply transaction_Err].
  destruct (transaction_Ok _ _ _ _ _ _ _ E) as (b' & t1 & n1 & n2 & Eb & Hb).
  apply sql_bind_Ok in Eb as (c & t2 & n3 & (_ & _ & [= <- <-])%statement_Ok & Eb).
  destruct (Z.ltb_spec 0 (Z.of_nat (length (tab_accounts t)))) as [Hl|Hl].
  - injection Eb as <- _ _. destruct Hb as [<- ->]. split; [done|]. by destruct (tab_accounts t).
  - assert (Hnil : tab_accounts t = []) by (destruct (tab_accounts t); [done|simpl in Hl; lia]).
    apply sql_bind_Ok in Eb as (id & t3 & n4 & Ei & [= <- <- _]). destruct Hb as [<- ->].
    apply insert_account_spec in Ei as (_ & _ & ->). rewrite Hnil. split_and!; [done| |done].
    by eexists.
Qed.

(** [create_account] gives each name to one account.  It answers [None]
    exactly when an account with that name, up to ASCII case, exists; otherwise
    it adds the account under a fresh id, and a login with the name in any case
    then finds that account and no other.  When a statement fails nothing
    changes. *)
Theorem create_account_correct u h env t n r t' n' :
  wf t → create_account u h env t n = (r, t', n') →
  match r with
  | Ok None => t' = t ∧ ∃ a, a ∈ tab_accounts t ∧ nocase (acc_username a) = nocase u
  | Ok (Some id) => (id ∉ acc_id <$> tab_accounts t) ∧
      (∀ a, a ∈ tab_accounts t → nocase (acc_username a) ≠ nocase u) ∧
      ∀ u' env' m, nocase u' = nocase u → tick_fault (env' m) = None →
        find_account u' env' t' m =
          (Ok (Some {| account_id := id; account_username := u; account_hash := h |}), t', S m)
  | Err _ => t' = t
  end.
Proof.
  intros Hw E. unfold create_account, mbind, sql_bind, attempt in E.
  destruct (insert_account u h env t n) as [[ri ti] ni] eqn:Ei.
  apply insert_account_spec in Ei. destruct ri as [id|e].
  - injection E as <- <- _. destruct Ei as (Hid & Hnm & ->). split_and!; [done..|].
    intros u' env' m Hu F. unfold find_account, account_where, mbind, sql_bind, statement.
    rewrite F. cbn [tab_accounts with_accounts]. rewrite find_snoc; [done| |by apply bool_decide_true].
    apply Forall_forall. intros a Ha. apply bool_decide_false. rewrite Hu. auto.
  - destruct e; injection E as <- <- _; exact Ei.
Qed.

(** ** Migrations *)

Section migrate.
Context {schema : Type}.
(** [tx.execute_batch]: the schema after a script, or the message of its error. *)
Variable execute_batch : str → schema → result str schema.

Record SchemaDb := { db_schema : schema; user_version : Z }.

(** The errors of the statements around the scripts. *)
Record migrate_faults := {
  f_begin : option str; f_read : option str; f_write : option str; f_commit : option str }.

Definition may_fail (f : option str) : result str unit :=
  match f with Some e => Err e | None => Ok tt end.

(** The [for] loop: [n] counts from zero. *)
Fixpoint run_migrations (n : Z) (sqls : list str) (s : schema) : result str schema :=
  match sqls with
  | [] => Ok s
  | sql :: sqls =>
      s ← map_err (λ e, lit "migration " ++ to_string (n + 1) ++ lit ": " ++ e) (execute_batch sql s);
      run_migrations (n + 1) sqls s
  end.

Definition migrate_tx (f : migrate_faults) (migrations : list str) (d : SchemaDb) :
    result str SchemaDb :=
  _ ← may_fail (f_begin f);
  _ ← may_fail (f_read f);
  let done := user_version d in
  if done <? 0 then Err (lit "bad schema version")
  else if Z.of_nat (length migrations) <? done
  then Err (lit "the schema version is " ++ to_string done ++ lit ", but this Lodger knows only "
            ++ to_string (Z.of_nat (length migrations))
            ++ lit ": the database is from a newer Lodger")
  else
    s ← run_migrations done (drop (Z.to_nat done) migrations) (db_schema d);
    _ ← may_fail (f_write f);
    _ ← may_fail (f_commit f);
    Ok {| db_schema := s; user_version := Z.of_nat (length migrations) |}.

(** [migrate]: the transaction rolls back unless it commits. *)
Definition migrate (f : migrate_faults) (migrations : list str) (d : SchemaDb) :
    result str unit * SchemaDb :=
  match migrate_tx f migrations d with
  | Ok d' => (Ok tt, d')
  | Err e => (Err e, d)
  end.

Lemma run_migrations_app n l1 l2 s s' :
  run_migrations n (l1 ++ l2) s = Ok s' ↔
  ∃ s1, run_migrations n l1 s = Ok s1 ∧ run_migrations (n + Z.of_nat (length l1)) l2 s1 = Ok s'.
Proof.
  revert n s. induction l1 as [|q l1 IH]; intros n s; simpl.
  - rewrite Z.add_0_r. naive_solver.
  - rewrite bind_Ok. setoid_rewrite bind_Ok. setoid_rewrite IH.
    replace (n + 1 + Z.of_nat (length l1)) with (n + Z.of_nat (S (length l1))) by lia. naive_solver.
Qed.

(** Upgrades compose.  A database that any Lodger release migrated, then
    opened by a later release with more migrations, ends in the same schema and
    version as one that the later release migrated from the start: each script
    runs once, in order.  A failed migration changes nothing, a database of a
    newer release is refused, and opening again changes nothing. *)
Theorem migrate_upgrades f f' g old new d d1 d2 r :
  migrate f old d = (Ok tt, d1) →
  migrate f' (old ++ new) d1 = (r, d2) →
  match r with
  | Ok _ => user_version d2 = Z.of_nat (length (old ++ new)) ∧
      migrate (Build_migrate_faults None None None None) (old ++ new) d = (Ok tt, d2) ∧
      migrate (Build_migrate_faults None None None None) (old ++ new) d2 = (Ok tt, d2) ∧
      (new ≠ [] → ∃ e, migrate g old d2 = (Err e, d2))
  | Err _ => d2 = d1
  end.
Proof.
  intros E1 E2. unfold migrate in *.
  destruct (migrate_tx f old d) as [d1'|] eqn:T1; simplify_eq.
  destruct (migrate_tx f' (old ++ new) d1) as [d2'|e] eqn:T2; simplify_eq; [|done].
  unfold migrate_tx in T1.
  apply bind_Ok in T1 as ([] & _ & T1). apply bind_Ok in T1 as ([] & _ & T1).
  destruct (Z.ltb_spec (user_version d) 0) as [|V0]; [done|].
  destruct (Z.ltb_spec (Z.of_nat (length old)) (user_version d)) as [|V1]; [done|].
  apply bind_Ok in T1 as (s1 & R1 & T1). apply bind_Ok in T1 as ([] & _ & T1).
  apply bind_Ok in T1 as ([] & _ & T1). injection T1 as <-.
  unfold migrate_tx in T2. cbn [user_version db_schema] in T2.
  apply bind_Ok in T2 as ([] & _ & T2). apply bind_Ok in T2 as ([] & _ & T2).
  destruct (Z.ltb_spec (Z.of_nat (length old)) 0); [lia|].
  rewrite length_app in T2.
  destruct (Z.ltb_spec (Z.of_nat (length old + length new)) (Z.of_nat (length old))); [done|].
  apply bind_Ok in T2 as (s2 & R2 & T2). apply bind_Ok in T2 as ([] & _ & T2).
  apply bind_Ok in T2 as ([] & _ & T2). injection T2 as <-.
  rewrite Nat2Z.id, drop_app_length in R2. cbn [user_version]. rewrite length_app.
  assert (Hr : run_migrations (user_version d) (drop (Z.to_nat (user_version d)) (old ++ new))
    (db_schema d) = Ok s2).
  { rewrite drop_app_le by lia. apply run_migrations_app. exists s1. split; [done|].
    rewrite length_drop. replace (user_version d + _) with (Z.of_nat (length old)) by lia. done. }
  split_and!; [done|..].
  - unfold migrate_tx. simpl. rewrite length_app, Hr.
    destruct (Z.ltb_spec (user_version d) 0); [lia|].
    destruct (Z.ltb_spec (Z.of_nat (length old + length new)) (user_version d)); [lia|]. done.
  - unfold migrate_tx. cbn [user_version db_schema f_begin f_read f_write f_commit may_fail mbind result_bind].
    rewrite length_app, Nat2Z.id, Z.ltb_irrefl, drop_ge by (rewrite length_app; lia).
    destruct (Z.ltb_spec (Z.of_nat (length old + length new)) 0); [lia|]. done.
  - intros Hne. unfold migrate_tx. cbn [user_version db_schema].
    destruct (f_begin g), (f_read g); cbn [may_fail mbind result_bind]; try by eexists.
    destruct (Z.ltb_spec (Z.of_nat (length old + length new)) 0); [lia|].
    destruct (Z.ltb_spec (Z.of_nat (length old)) (Z.of_nat (length old + length new))); [by eexists|].
    destruct new; [done|]. simpl in *. lia.
Qed.
End migrate.

(** ** Witnesses *)

(** No statement fails; statement [n] runs [n] milliseconds after the start. *)
Definition calm (n : nat) : tick :=
  {| tick_now := Z.of_nat n; tick_fault := None; tick_spare_rowid := 0 |}.

Definition a_session (token : list Z) : NewSession :=
  {| new_token_sha256 := token; new_account_id := 1; new_csrf_token := lit "csrf";
     new_client_ip := lit "127.0.0.1"; new_user_agent := None |}.

(** Two accounts, and a session of the first. *)
Definition small : Tables :=
  run_ops [OpCreateFirst (lit "admin") (lit "h1"); OpCreate (lit "bob") (lit "h2");
           OpCreateSession (a_session [7])] calm no_tables 0.

Lemma small_wf : wf small.
Proof. apply run_ops_wf, wf_no_tables. Qed.

Lemma accounts_never_vanish_witness :
  tab_accounts (run_ops [OpDelete 1; OpDelete 2] calm small 20%nat) ≠ [].
Proof. apply accounts_never_vanish. by vm_compute. Defined.

Lemma credential_changes_end_sessions_witness :
  (session [7] calm small 30%nat).1.1 ≠ Ok None ∧
  ∀ s, (session [7] calm (reset_password (lit "ADMIN") (lit "h3") calm small 20%nat).1.2 30%nat).1.1 ≠ Ok (Some s).
Proof.
  split; [by vm_compute|].
  destruct (credential_changes_end_sessions small 1 [7]
    {| ses_token := [7]; ses_account := 1; ses_csrf := lit "csrf"; ses_created_at := 6;
       ses_last_seen_at := 6; ses_expires_at := 86400006; ses_client_ip := lit "127.0.0.1";
       ses_user_agent := None |} calm 20%nat calm 30%nat) as (_ & Hr & _).
  - exact small_wf.
  - apply list_elem_of_singleton. by vm_compute.
  - done.
  - done.
  - eapply (Hr (lit "ADMIN") (lit "h3") (Some 1) _ _
      {| acc_id := 1; acc_username := lit "admin"; acc_hash := lit "h1";
         acc_created_at := 2; acc_changed_at := 2 |}); [|done|by vm_compute|by vm_compute].
    apply list_elem_of_here.
Defined.

Lemma session_lifetime_witness :
  ∃ r t' n', session [7] calm small 20%nat = (Ok r, t', n') ∧ is_Some r.
Proof.
  destruct (session_lifetime small [7] calm 20%nat small_wf eq_refl eq_refl) as (r & t' & n' & E & Hr & _).
  exists r, t', n'. split; [exact E|]. apply Hr.
  eexists. split; [apply list_elem_of_here|]. by vm_compute.
Defined.

Lemma create_account_correct_witness :
  (create_account (lit "Carol") (lit "h4") calm small 20%nat).1.1 = Ok (Some 3) ∧
  ∀ u' env' m, nocase u' = nocase (lit "Carol") → tick_fault (env' m) = None →
  (find_account u' env' (create_account (lit "Carol") (lit "h4") calm small 20%nat).1.2 m).1.1 =
    Ok (Some {| account_id := 3; account_username := lit "Carol"; account_hash := lit "h4" |}).
Proof.
  split; [by vm_compute|]. intros u' env' m Hu F.
  destruct (create_account (lit "Carol") (lit "h4") calm small 20%nat) as [[r t'] n'] eqn:E.
  pose proof (create_account_correct _ _ _ _ _ _ _ _ small_wf E) as Hc.
  assert (r = Ok (Some 3)) as -> by (vm_compute in E; by simplify_eq).
  destruct Hc as (_ & _ & Hf). simpl. by rewrite (Hf u' env' m Hu F).
Defined.

Lemma migrate_upgrades_witness :
  let exec q (s : list str) := Ok (s ++ [q]) in
  let calm_migration := Build_migrate_faults None None None None in
  let d := {| db_schema := []; user_version := 0 |} in
  migrate exec calm_migration [lit "a"; lit "b"] d =
    (Ok tt, {| db_schema := [lit "a"; lit "b"]; user_version := 2 |}) ∧
  (∃ e, migrate exec calm_migration [lit "a"]
    {| db_schema := [lit "a"; lit "b"]; user_version := 2 |} =
    (Err e, {| db_schema := [lit "a"; lit "b"]; user_version := 2 |})).
Proof.
  intros exec f d.
  destruct (migrate_upgrades exec f f f [lit "a"] [lit "b"] d
    {| db_schema := [lit "a"]; user_version := 1 |}
    {| db_schema := [lit "a"; lit "b"]; user_version := 2 |} (Ok tt)) as (_ & H1 & _ & H2);
    [reflexivity..|].
  split; [exact H1|]. apply H2. done.
Defined.
