(* ===== verification/Http.v ===== *)
(** * Requests, responses and browser security
    (crates/lodger/src/security.rs and crates/lodger/src/client_ip.rs)

    Header maps and responses as the handlers use them, the Origin rule for
    state-changing requests, the origin of [public_url], the response headers,
    and the client's address behind a trusted proxy. *)

From S2P Require Import Prelude Text Net.

(** ** Header maps and responses *)

(** A [HeaderMap]: lower-case names with the bytes of their values, in order. *)
Abbreviation HeaderMap := (list (str * list Z)).

(** [HeaderValue::to_str]: visible ASCII and tabs only. *)
Definition to_str (v : list Z) : option str :=
  if forallb (λ b, (32 <=? b) && (b <=? 126) || (b =? 9)) v then Some v else None.

Definition header_get_all (h : HeaderMap) (name : str) : list (list Z) :=
  snd <$> filter (λ p : str * list Z, p.1 = name) h.

(** [headers.get(name)]: the first value. *)
Definition header_get (h : HeaderMap) (name : str) : option (list Z) :=
  head (header_get_all h name).

(** [headers.get(name).and_then(|v| v.to_str().ok())]. *)
Definition header_text (h : HeaderMap) (name : str) : option str :=
  v ← header_get h name; to_str v.

(** [headers.insert(name, value)]: the only value of the name from then on. *)
Definition header_insert (h : HeaderMap) (name : str) (value : str) : HeaderMap :=
  filter (λ p : str * list Z, p.1 ≠ name) h ++ [(name, value)].

Lemma header_insert_same h name v : header_get_all (header_insert h name v) name = [v].
Proof.
  unfold header_get_all, header_insert. rewrite filter_app, list_filter_filter.
  rewrite (list_filter_iff _ (λ _, False)) by (intros; naive_solver).
  assert (E : filter (λ _ : str * list Z, False) h = []) by (by induction h).
  rewrite E. cbn [app]. by rewrite filter_cons_True.
Qed.

Lemma header_insert_other h name name' v :
  name ≠ name' → header_get_all (header_insert h name v) name' = header_get_all h name'.
Proof.
  intros Hne. unfold header_get_all, header_insert. rewrite filter_app, list_filter_filter.
  rewrite (filter_cons_False _ (name, v)) by done. rewrite app_nil_r. f_equal.
  apply list_filter_iff. intros [a b]. simpl. naive_solver.
Qed.

Inductive Method := GET | HEAD | POST | PUT | DELETE | PATCH | OtherMethod (name : str).

#[export] Instance Method_eq_dec : EqDecision Method.
Proof. solve_decision. Defined.

(** A JSON value. *)
Inductive value :=
| VNull
| VText (s : str)
| VNum (n : Z)
| VBool (b : bool)
| VList (l : list value)
| VObject (fields : list (str * value)).

(** The body of an answer: nothing, JSON, or the bytes of a file. *)
Inductive Body :=
| NoBody
| JsonBody (v : value)
| FileBody (bytes : list Z).

Record Response := {
  r_status : Z;
  r_body : Body;
  r_headers : HeaderMap
}.

Definition plain (status : Z) : Response :=
  {| r_status := status; r_body := NoBody; r_headers := [] |}.

(** [Json(v).into_response()] with a status. *)
Definition json_value (status : Z) (v : value) : Response :=
  {| r_status := status; r_body := JsonBody v; r_headers := [] |}.

(** The [error] helper of the handlers: a status and an error message. *)
Definition error (code : Z) (message : str) : Response :=
  json_value code (VObject [(lit "error", VText message)]).

Definition json (status : Z) (body : list (str * value)) : Response :=
  json_value status (VObject body).

Definition add_header (name : str) (v : str) (r : Response) : Response :=
  {| r_status := r_status r; r_body := r_body r; r_headers := header_insert (r_headers r) name v |}.

(** ** security.rs *)

(** A URL as the [http] crate parses it. *)
Record Uri := {
  scheme_str : option str;
  authority : option str;
  host : str;
  port_u16 : option Z
}.

Section origin_of.
(** [url.parse::<Uri>()]. *)
Variable parse_uri : str → option Uri.
(** The [{:?}] form of a text, which follows the Unicode tables. *)
Variable debug_fmt : str → str.

Definition origin_of (url : str) : result str str :=
  let bad why := lit "public_url " ++ debug_fmt url ++ lit " " ++ why in
  uri ← ok_or (parse_uri url) (bad (lit "is not a URL"));
  scheme ← ok_or (to_ascii_lowercase <$> scheme_str uri) (bad (lit "has no scheme"));
  default_port ←
    (if bool_decide (scheme = lit "https") then Ok 443
     else if bool_decide (scheme = lit "http") then Ok 80
     else Err (bad (lit "must start with https:// or http://")));
  authority ← ok_or (authority uri) (bad (lit "has no host"));
  if contains_char 64 authority then Err (bad (lit "must not contain a user name"))
  else
    let host := to_ascii_lowercase (host uri) in
    Ok (match port_u16 uri with
        | Some port =>
            if negb (port =? default_port)
            then scheme ++ lit "://" ++ host ++ lit ":" ++ to_string port
            else scheme ++ lit "://" ++ host
        | None => scheme ++ lit "://" ++ host
        end).
End origin_of.

Definition is_safe (method : Method) : bool :=
  bool_decide (method = GET) || bool_decide (method = HEAD).

Definition from_lodger (headers : HeaderMap) (public_origin : option str) : bool :=
  if bool_decide (header_text headers (lit "sec-fetch-site") = Some (lit "same-origin")) then true
  else match header_text headers (lit "origin"), public_origin with
       | Some origin, Some public => eq_ignore_ascii_case origin public
       | _, _ => false
       end.

Definition FOREIGN : str :=
  lit "this request must come from a Lodger page. If it does, your browser sends no Sec-Fetch-Site header: set public_url in the configuration file".

(** [require_same_origin] as a guard: [None] runs the handler. *)
Definition require_same_origin (method : Method) (headers : HeaderMap) (public_origin : option str) :
    option Response :=
  if is_safe method || from_lodger headers public_origin then None
  else Some (error 403 FOREIGN).

(** [add_headers]: [csp] and [hsts] are fields of the state. *)
Definition add_headers (csp : str) (hsts : bool) (response : Response) : Response :=
  let response := add_header (lit "content-security-policy") csp response in
  let response := add_header (lit "referrer-policy") (lit "no-referrer") response in
  let response := add_header (lit "x-content-type-options") (lit "nosniff") response in
  if hsts then add_header (lit "strict-transport-security") (lit "max-age=31536000") response
  else response.

(** ** client_ip.rs *)

Section client_ip.
Context `{Ipnet}.

Definition client_ip (peer : ip_addr) (headers : HeaderMap) (trusted : list ipnet) : ip_addr :=
  if negb (existsb (λ net, ipnet_contains net peer) trusted) then peer
  else match (v ← header_text headers (lit "x-real-ip"); parse_ip (trim v)) with
       | Some ip => ip
       | None =>
           default peer (
             v ← header_text headers (lit "x-forwarded-for");
             v ← rsplit_first 44 v;
             parse_ip (trim v))
       end.
End client_ip.

(** ** Properties *)

(** The Origin rule.  A state-changing request reaches a handler exactly
    when the browser says that it comes from the same origin, or its [Origin] is
    [public_url]'s up to ASCII case; otherwise it gets 403.  No other header,
    [Host] among them, has a say. *)
Theorem same_origin_rule method headers public :
  (require_same_origin method headers public = None ↔
    method = GET ∨ method = HEAD ∨
    header_text headers (lit "sec-fetch-site") = Some (lit "same-origin") ∨
    ∃ origin p, header_text headers (lit "origin") = Some origin ∧ public = Some p ∧
      to_ascii_lowercase origin = to_ascii_lowercase p) ∧
  (∀ r, require_same_origin method headers public = Some r → r_status r = 403) ∧
  ∀ headers',
    filter (λ p : str * list Z, p.1 = lit "sec-fetch-site" ∨ p.1 = lit "origin") headers' =
    filter (λ p : str * list Z, p.1 = lit "sec-fetch-site" ∨ p.1 = lit "origin") headers →
    require_same_origin method headers' public = require_same_origin method headers public.
Proof.
  unfold require_same_origin, is_safe, from_lodger, eq_ignore_ascii_case. split_and!.
  - repeat case_bool_decide; simpl; try (split; [tauto|naive_solver]);
      destruct (header_text headers (lit "origin")) as [o|], public as [p|]; simpl;
      try case_bool_decide; naive_solver.
  - intros r. case_match; [done|]. by intros [= <-].
  - intros h' Hf.
    assert (Hg : ∀ n, n = lit "sec-fetch-site" ∨ n = lit "origin" →
      header_text h' n = header_text headers n).
    { intros n Hn. unfold header_text, header_get, header_get_all.
      assert (E : ∀ h : HeaderMap, filter (λ p : str * list Z, p.1 = n) h =
        filter (λ p : str * list Z, p.1 = n)
          (filter (λ p : str * list Z, p.1 = lit "sec-fetch-site" ∨ p.1 = lit "origin") h)).
      { intros h. rewrite list_filter_filter. apply list_filter_iff. intros [a b]. simpl. naive_solver. }
      by rewrite (E h'), (E headers), Hf. }
    by rewrite !Hg by tauto.
Qed.

Lemma rsplit_first_app c a b : c ∉ b → rsplit_first c (a ++ c :: b) = Some b.
Proof.
  intros Hb. unfold rsplit_first. induction a as [|x a IH]; simpl.
  - rewrite Z.eqb_refl, split_no_sep by done. done.
  - destruct (x =? c).
    + destruct (split c (a ++ c :: b)) eqn:E; [by apply split_not_nil in E|]. done.
    + destruct (split c (a ++ c :: b)) as [|p ps] eqn:E; [by apply split_not_nil in E|].
      destruct ps; [|done]. exfalso.
      assert (Hl : ∀ l, (2 ≤ length (split c (l ++ c :: b)))%nat).
      { clear. induction l as [|y l IH]; simpl.
        - rewrite Z.eqb_refl. simpl. destruct (split c b) eqn:E; [by apply split_not_nil in E|simpl; lia].
        - destruct (y =? c); simpl; [lia|]. destruct (split c (l ++ c :: b)); simpl in *; lia. }
      specialize (Hl a). rewrite E in Hl. simpl in Hl. lia.
Qed.

Section client_ip_properties.
Context `{Ipnet}.

(** The last entry of a list with commas. *)
Definition last_entry (text entry : str) : Prop :=
  44 ∉ entry ∧ (text = entry ∨ ∃ before, text = before ++ 44 :: entry).

(** The address in [X-Real-IP], and the last one in [X-Forwarded-For]. *)
Definition real_ip (headers : HeaderMap) (ip : ip_addr) : Prop :=
  ∃ v, header_text headers (lit "x-real-ip") = Some v ∧ parse_ip (trim v) = Some ip.
Definition forwarded_ip (headers : HeaderMap) (ip : ip_addr) : Prop :=
  ∃ v entry, header_text headers (lit "x-forwarded-for") = Some v ∧ last_entry v entry ∧ parse_ip (trim entry) = Some ip.

(** Whose address counts. *)
Inductive client_of (peer : ip_addr) (headers : HeaderMap) (trusted : list ipnet) : ip_addr → Prop :=
| no_proxy : (∀ net, net ∈ trusted → ipnet_contains net peer = false) → client_of peer headers trusted peer
| by_real_ip net ip : net ∈ trusted → ipnet_contains net peer = true →
    real_ip headers ip → client_of peer headers trusted ip
| by_forwarded net ip : net ∈ trusted → ipnet_contains net peer = true →
    (∀ other, ¬ real_ip headers other) → forwarded_ip headers ip → client_of peer headers trusted ip
| by_nothing net : net ∈ trusted → ipnet_contains net peer = true →
    (∀ other, ¬ real_ip headers other) → (∀ other, ¬ forwarded_ip headers other) → client_of peer headers trusted peer.

Lemma last_entry_rsplit text entry : last_entry text entry → rsplit_first 44 text = Some entry.
Proof.
  intros [Hn [->|(before & ->)]]; [|by apply rsplit_first_app]. unfold rsplit_first. by rewrite split_no_sep.
Qed.

Lemma last_entry_exists text : ∃ entry, last_entry text entry.
Proof.
  induction text as [|c text (entry & Hn & Ht)]; [exists []; split; [apply not_elem_of_nil|by left]|].
  destruct Ht as [->|(before & ->)].
  - destruct (decide (c = 44)) as [->|Hc]; [exists entry; split; [done|]; right; by exists []|].
    exists (c :: entry). split; [by apply not_elem_of_cons|by left].
  - exists entry. split; [done|]. right. by exists (c :: before).
Qed.

(** C38: the client's address is the TCP peer's, unless the peer is a trusted proxy, and
    then what the proxy says.  From a peer that is no trusted proxy every header is
    ignored.  Behind a trusted proxy the address in [X-Real-IP] counts when it is one, so
    a proxy has to replace the one that a client sends, as the documentation asks;
    without one the last entry of [X-Forwarded-For], which the proxy appended, whatever
    the client sent before it; and the peer when that is no address either.  There is
    exactly one such address, and it is the answer. *)
Theorem client_ip_correct peer headers trusted ip :
  client_of peer headers trusted ip ↔ client_ip peer headers trusted = ip.
Proof.
  assert (Hreal : ∀ i, (v ← header_text headers (lit "x-real-ip"); parse_ip (trim v)) = Some i ↔ real_ip headers i).
  { intros i. unfold real_ip. rewrite bind_Some. done. }
  assert (Hfwd : ∀ i, (v ← header_text headers (lit "x-forwarded-for"); v ← rsplit_first 44 v; parse_ip (trim v)) = Some i ↔
    forwarded_ip headers i).
  { intros i. unfold forwarded_ip. rewrite bind_Some. split.
    - intros (v & Hv & Hi). destruct (last_entry_exists v) as [entry He].
      rewrite (last_entry_rsplit v entry He) in Hi. by exists v, entry.
    - intros (v & entry & Hv & He & Hi). exists v. split; [done|]. by rewrite (last_entry_rsplit v entry He). }
  unfold client_ip.
  destruct (existsb (λ net, ipnet_contains net peer) trusted) eqn:Et; cbn [negb].
  - apply existsb_exists in Et as (net & Hin%list_elem_of_In & Hnet).
    assert (Hno : ¬ ∀ net, net ∈ trusted → ipnet_contains net peer = false).
    { intros Hn. rewrite Hn in Hnet by done. done. }
    destruct (v ← header_text headers (lit "x-real-ip"); parse_ip (trim v)) as [i|] eqn:Er.
    + assert (Hi : real_ip headers i) by by apply Hreal. split; [|intros <-; by eapply by_real_ip].
      intros [|net' ip' _ _ Hip|net' ip' _ _ Hn|net' _ _ Hn]; [done| |by apply Hn in Hi..].
      apply Hreal in Hip. congruence.
    + assert (Hn : ∀ other, ¬ real_ip headers other) by (intros o Ho%Hreal; congruence).
      destruct (v ← header_text headers (lit "x-forwarded-for"); v ← rsplit_first 44 v; parse_ip (trim v)) as [i|] eqn:Ef;
        cbn [default].
      * assert (Hi : forwarded_ip headers i) by by apply Hfwd. split; [|intros <-; by eapply by_forwarded].
        intros [|net' ip' _ _ Hip|net' ip' _ _ _ Hip|net' _ _ _ Hx]; [done|by apply Hn in Hip| |by apply Hx in Hi].
        apply Hfwd in Hip. by injection Hip.
      * assert (Hx : ∀ other, ¬ forwarded_ip headers other) by (intros o Ho%Hfwd; congruence).
        split; [|intros <-; by eapply by_nothing].
        by intros [|net' ip' _ _ Hip%Hn|net' ip' _ _ _ Hip%Hx|net' _ _ _ _].
  - rewrite existsb_false, Forall_forall in Et. split; [|intros <-; by apply no_proxy].
    intros [|net' ip' Hin Hc|net' ip' Hin Hc|net' Hin Hc]; [done|by rewrite Et in Hc..].
Qed.
End client_ip_properties.

Lemma to_ascii_lowercase_idem s : to_ascii_lowercase (to_ascii_lowercase s) = to_ascii_lowercase s.
Proof.
  unfold to_ascii_lowercase. rewrite <- list_fmap_compose. apply list_fmap_ext. intros _ c _.
  unfold compose, to_ascii_lower_char, is_ascii_upper.
  destruct ((65 <=? c) && (c <=? 90)) eqn:E; [|by rewrite E].
  apply andb_true_iff in E as [?%Z.leb_le ?%Z.leb_le].
  rewrite (proj2 (andb_false_iff _ _)); [done|]. right. apply Z.leb_gt. lia.
Qed.

(** The origin that Lodger compares is written as a browser writes it:
    [http] or [https], the host without upper-case ASCII letters, and a port only
    when it is not the default one. *)
Theorem origin_of_canonical parse_uri debug_fmt url o :
  origin_of parse_uri debug_fmt url = Ok o →
  ∃ scheme host port, o = scheme ++ lit "://" ++ host ++
      match port with Some p => lit ":" ++ to_string p | None => [] end ∧
    (scheme = lit "https" ∧ port ≠ Some 443 ∨ scheme = lit "http" ∧ port ≠ Some 80) ∧
    to_ascii_lowercase host = host.
Proof.
  unfold origin_of. intros E.
  apply bind_Ok in E as (uri & _ & E). apply bind_Ok in E as (scheme & _ & E).
  apply bind_Ok in E as (port & Hport & E). apply bind_Ok in E as (auth & _ & E).
  case_match; [done|]. injection E as <-.
  assert (Hl : to_ascii_lowercase (to_ascii_lowercase (host uri)) = to_ascii_lowercase (host uri)).
  { apply to_ascii_lowercase_idem. }
  exists scheme, (to_ascii_lowercase (host uri)), (match port_u16 uri with
    | Some p => if p =? port then None else Some p | None => None end).
  split_and!; [| |done].
  - destruct (port_u16 uri) as [p|]; [|by rewrite app_nil_r]. destruct (p =? port); simpl;
      [by rewrite app_nil_r|done].
  - case_bool_decide; [left|]; [|case_bool_decide; [right|done]]; simplify_eq;
      (split; [done|]); destruct (port_u16 uri) as [p|]; try done;
      destruct (Z.eqb_spec p 443), (Z.eqb_spec p 80); congruence.
Qed.

(** ** Witnesses *)

(** A client behind the proxy 10.0.0.7 forges an entry. *)
Definition proxied : HeaderMap := [(lit "x-forwarded-for", lit "6.6.6.6, 192.168.1.50")].
Definition proxies : list ipnet := [net_new_assert 167772160 24].

Lemma client_ip_correct_witness : client_of (V4 167772167) proxied proxies (V4 3232235826).
Proof. apply client_ip_correct. vm_compute. reflexivity. Defined.

Lemma same_origin_rule_witness :
  require_same_origin POST [(lit "host", lit "evil")] None = require_same_origin POST [] None.
Proof.
  destruct (same_origin_rule POST [] None) as (_ & _ & Hh). apply Hh. by vm_compute.
Defined.

Lemma origin_of_canonical_witness :
  let uri := {| scheme_str := Some (lit "HTTPS"); authority := Some (lit "NAS:443");
                host := lit "NAS"; port_u16 := Some 443 |} in
  ∃ scheme host port, lit "https://nas" = scheme ++ lit "://" ++ host ++
      match port with Some p => lit ":" ++ to_string p | None => [] end ∧
    (scheme = lit "https" ∧ port ≠ Some 443 ∨ scheme = lit "http" ∧ port ≠ Some 80) ∧
    to_ascii_lowercase host = host.
Proof.
  intros uri. apply (origin_of_canonical (λ _, Some uri) id (lit "HTTPS://NAS:443")). by vm_compute.
Defined.
