(* ===== verification/Config.v ===== *)
(** * The settings (crates/lodger/src/config.rs, and the defaults of cli.rs)

    How the file, the flags and systemd's variable make the settings, and the rule
    that passwords do not cross the network in clear text.  The TOML and URL parsers
    are libraries. *)

From S2P Require Import Prelude Text Os Net Http.

(** [SocketAddr]; the flow and scope of an IPv6 address are left out. *)
Record SocketAddr := { addr_ip : ip_addr; addr_port : Z }.

#[export] Instance SocketAddr_eq_dec : EqDecision SocketAddr.
Proof. solve_decision. Defined.

Definition SocketAddr_to_string (a : SocketAddr) : str :=
  match addr_ip a with
  | V4 _ => ip_to_string (addr_ip a) ++ lit ":" ++ to_string (addr_port a)
  | V6 _ => lit "[" ++ ip_to_string (addr_ip a) ++ lit "]:" ++ to_string (addr_port a)
  end.

(** The parser of [SocketAddrV4]. *)
Definition parse_socket_v4 (s : str) : option SocketAddr :=
  '(ip, rest) ← read_ipv4_addr s;
  match rest with
  | c :: digits =>
      if c =? 58
      then port ← all_read (read_number 10 (length digits) true 65535 digits);
           Some {| addr_ip := V4 ip; addr_port := port |}
      else None
  | [] => None
  end.

(** cli.rs. *)
Definition DEFAULT_LISTEN : str := lit "127.0.0.1:8460".
Definition DEFAULT_URI : str := lit "qemu:///system".

(** config.rs. *)
Definition DEFAULT_CONFIG : str := lit "/etc/lodger/config.toml".
Definition DEFAULT_STATE_DIR : str := lit "/var/lib/lodger".

Record TlsFiles := { cert : str; key : str }.

#[export] Instance TlsFiles_eq_dec : EqDecision TlsFiles.
Proof. solve_decision. Defined.

(** [Overrides]: the command line. *)
Record Overrides := {
  over_config : option str;
  over_listen : option SocketAddr;
  over_uri : option str;
  over_state_dir : option str
}.
Definition Overrides_default : Overrides :=
  {| over_config := None; over_listen := None; over_uri := None; over_state_dir := None |}.
Definition with_config (path : str) : Overrides :=
  {| over_config := Some path; over_listen := None; over_uri := None; over_state_dir := None |}.

Section config.
Context `{Ipnet}.

(** [File]: the settings as the file writes them. *)
Record ConfigFile := {
  file_listen : option SocketAddr;
  file_uri : option str;
  file_state_dir : option str;
  file_public_url : option str;
  file_trusted_proxies : list ipnet;
  file_tls_cert : option str;
  file_tls_key : option str;
  file_allow_plain_http : bool
}.
Definition ConfigFile_default : ConfigFile :=
  {| file_listen := None; file_uri := None; file_state_dir := None; file_public_url := None;
     file_trusted_proxies := []; file_tls_cert := None; file_tls_key := None;
     file_allow_plain_http := false |}.

Record Config := {
  listen : SocketAddr;
  uri : str;
  state_dir : str;
  public_url : option str;
  trusted_proxies : list ipnet;
  tls : option TlsFiles;
  allow_plain_http : bool
}.

(** The [toml] crate: a file's text as settings, with its own error text. *)
Variable toml_from_str : str → result str ConfigFile.
Variable parse_uri : str → option Uri.
Variable debug_fmt : str → str.

(** [parse] and [read]. *)
Definition parse (path text : str) : result str ConfigFile :=
  map_err (λ e, path ++ lit ": " ++ e) (toml_from_str text).
Definition cannot_read (path : str) (e : io_error) : str :=
  lit "cannot read " ++ path ++ lit ": " ++ io_text e.
Definition read_config (path : str) : os (result str ConfigFile) :=
  text ← read_to_string path;
  mret (text ← map_err (cannot_read path) text; parse path text).

(** The file that the settings come from. *)
Definition config_file (config : option str) (default_config : str) : os (result str ConfigFile) :=
  match config with
  | Some path => read_config path
  | None =>
      text ← read_to_string default_config;
      mret match text with
           | Ok text => parse default_config text
           | Err e =>
               match io_kind e with
               | KNotFound => Ok ConfigFile_default
               | _ => Err (cannot_read default_config e)
               end
           end
  end.

(** The first setting that is there. *)
Definition or_else {A} (a b : option A) : option A := match a with Some _ => a | None => b end.

(** The rest of [load_with_default]; the default address is a text of the code. *)
Definition settings (overrides : Overrides) (env : option str) (file : ConfigFile) : result str Config :=
  let systemd := match env with Some v => head (split 58 v) | None => None end in
  public_url ←
    match file_public_url file with
    | Some url => Some <$> origin_of parse_uri debug_fmt url
    | None => Ok None
    end;
  tls ←
    match file_tls_cert file, file_tls_key file with
    | Some cert, Some key => Ok (Some {| cert := cert; key := key |})
    | None, None => Ok None
    | _, _ => Err (lit "set both tls_cert and tls_key, or neither")
    end;
  Ok {| listen := default (default {| addr_ip := V4 0; addr_port := 0 |} (parse_socket_v4 DEFAULT_LISTEN))
                    (or_else (over_listen overrides) (file_listen file));
        uri := default DEFAULT_URI (or_else (over_uri overrides) (file_uri file));
        state_dir := default DEFAULT_STATE_DIR
          (or_else (or_else (over_state_dir overrides) (file_state_dir file)) systemd);
        public_url := public_url;
        trusted_proxies := file_trusted_proxies file;
        tls := tls;
        allow_plain_http := file_allow_plain_http file |}.

(** [Config::load_with_default]. *)
Definition load_with_default (overrides : Overrides) (state_directory_env : option str)
    (default_config : str) : os (result str Config) :=
  file ← config_file (over_config overrides) default_config;
  mret (file ← file; settings overrides state_directory_env file).

(** [Config::load]. *)
Definition load (overrides : Overrides) (state_directory_env : option str) : os (result str Config) :=
  load_with_default overrides state_directory_env DEFAULT_CONFIG.

(** [Config::check_plain_http]. *)
Definition check_plain_http (c : Config) : result str unit :=
  if is_loopback (addr_ip (listen c)) || bool_decide (is_Some (tls c)) ||
     negb (bool_decide (trusted_proxies c = [])) || allow_plain_http c
  then Ok tt
  else Err (lit "listen = " ++ SocketAddr_to_string (listen c) ++
    lit " is not loopback, and TLS is off, so passwords would cross the network in clear text. Set tls_cert and tls_key (sudo lodger install --self-signed <ip> makes a pair), or set trusted_proxies for a reverse proxy with TLS, or set allow_plain_http = true if a TLS proxy that Lodger does not trust for client addresses sits in front of it").

(** [Config::plain_http_by_opt_in]. *)
Definition plain_http_by_opt_in (c : Config) : bool :=
  allow_plain_http c && negb (is_loopback (addr_ip (listen c))) && bool_decide (tls c = None) &&
  bool_decide (trusted_proxies c = []).
End config.

Lemma load_looks `{Ipnet} toml uri debug overrides env : looks (load toml uri debug overrides env).
Proof.
  unfold load, load_with_default, config_file, read_config, read_to_string. looks.
Qed.
#[export] Hint Resolve load_looks : looks.

