(* ===== verification/Tls.v ===== *)
(** * Certificates (crates/lodger/src/tls.rs)

    Which files a TLS pair is read from and what makes it unusable, the self-signed
    pair of the installer, and the names that can go into it.  Reading PEM and X.509,
    making keys and the TLS protocol are libraries. *)

From S2P Require Import Prelude Text Os Net Config.

Definition SELF_SIGNED_DAYS : Z := 730.
Definition SELF_SIGNED_MARK : str := lit "Lodger self-signed".

(** What tls.rs asks of [rcgen]. *)
Inductive DnType := CommonName | OrganizationName.
Record CertificateParams := {
  subject_alt_names : list str;
  distinguished_name : list (DnType * str);
  is_ca : bool;
  server_auth : bool;
  not_before : Z;
  params_not_after : Z
}.
Record Made := { made_der : list Z; made_pem : str; made_key_pem : str }.

(** The libraries, with the texts of their errors.  Times are seconds since 1970. *)
Class TlsLib := {
  certificate : Type;
  private_key : Type;
  tls_config : Type;
  (** [CertificateDer::pem_file_iter], [PrivateKeyDer::from_pem_file], on the bytes of a file *)
  pem_certs : list Z → result str (list certificate);
  pem_key : list Z → result str private_key;
  pem_io_text : io_error → str;
  (** rustls *)
  protocol_versions : result str unit;
  single_cert : list certificate → private_key → result str tls_config;
  (** x509_cert: the subject as text, and the end of the validity *)
  x509_from_pem : list Z → result str (str * Z);
  date_text : Z → str;
  (** rcgen: whether the names are good, and the pair for a new key *)
  params_new : list str → result str unit;
  rcgen_make : CertificateParams → result str Made
}.

Section tls.
Context `{TlsLib}.

(** [read_chain]. *)
Definition read_chain (path : str) : os (result str (list certificate)) :=
  let fail e := lit "cannot read the TLS certificate " ++ path ++ lit ": " ++ e in
  bytes ← read path;
  mret (chain ← map_err fail (match bytes with Ok bytes => pem_certs bytes | Err e => Err (pem_io_text e) end);
        if bool_decide (length chain = 0%nat)
        then Err (lit "the TLS certificate " ++ path ++ lit " holds no certificate")
        else Ok chain).

(** [server_config]. *)
Definition server_config (files : TlsFiles) : os (result str tls_config) :=
  and_then (read_chain (cert files)) (λ chain,
    bytes ← read (key files);
    mret (
      key_der ← map_err (λ e, lit "cannot read the TLS key " ++ key files ++ lit ": " ++ e)
        (match bytes with Ok bytes => pem_key bytes | Err e => Err (pem_io_text e) end);
      _ ← map_err (λ e, lit "cannot set up TLS: " ++ e) protocol_versions;
      map_err (λ e, lit "cannot use the TLS certificate " ++ cert files ++ lit " with the key " ++
                    key files ++ lit ": " ++ e)
        (single_cert chain key_der))).

(** [not_after]. *)
Definition not_after (path : str) : os (result str Z) :=
  let fail e := lit "cannot read the TLS certificate " ++ path ++ lit ": " ++ e in
  bytes ← read path;
  mret (bytes ← map_err (λ e, fail (io_text e)) bytes;
        '(_, end_) ← map_err fail (x509_from_pem bytes);
        Ok end_).

(** [made_by_lodger]. *)
Definition made_by_lodger (pem : list Z) : bool :=
  match x509_from_pem pem with
  | Err _ => false
  | Ok (subject, _) => existsb (λ part, bool_decide (part = lit "O=" ++ SELF_SIGNED_MARK)) (split 44 subject)
  end.

(** [{b:02X}]. *)
Definition hex_upper (d : Z) : Z := if d <? 10 then 48 + d else 55 + d.
Definition byte_text (b : Z) : str := [hex_upper (b / 16); hex_upper (b mod 16)].
Definition fingerprint_of (digest : list Z) : str := join [58] (byte_text <$> digest).

Record SelfSigned := {
  cert_pem : str;
  key_pem : str;
  fingerprint : str;
  pair_not_after : Z
}.

Variable sha256_bytes : list Z → list Z.

(** [self_signed]: the parameters of the certificate, and the pair. *)
Definition self_signed_params (name : str) (now : Z) : CertificateParams :=
  {| subject_alt_names := [name];
     distinguished_name := [(CommonName, name); (OrganizationName, SELF_SIGNED_MARK)];
     is_ca := false;
     server_auth := true;
     not_before := now - 60 * 60;
     params_not_after := now + SELF_SIGNED_DAYS * 24 * 60 * 60 |}.

Definition self_signed (name : str) (now : Z) : result str SelfSigned :=
  let fail e := lit "cannot make a certificate for " ++ name ++ lit ": " ++ e in
  _ ← map_err fail (params_new [name]);
  made ← map_err fail (rcgen_make (self_signed_params name now));
  '(_, end_) ← map_err (λ e, lit "cannot read the new certificate: " ++ e) (x509_from_pem (as_bytes (made_pem made)));
  Ok {| cert_pem := made_pem made; key_pem := made_key_pem made;
        fingerprint := fingerprint_of (sha256_bytes (made_der made)); pair_not_after := end_ |}.
End tls.

(** A label of a host name. *)
Definition valid_label (label : str) : bool :=
  (1 <=? utf8_len label) && (utf8_len label <=? 63) && negb (starts_with (lit "-") label) &&
  negb (ends_with (lit "-") label) && forallb (λ c, is_ascii_alphanumeric c || (c =? 45)) label.

(** [valid_name]. *)
Definition valid_name (name : str) : bool :=
  if bool_decide (is_Some (parse_ip name)) then true
  else negb (bool_decide (name = [])) && (utf8_len name <=? 253) && forallb valid_label (split 46 name).

(** ** What is shown and what is written *)

Lemma hex_upper_inj a b : 0 ≤ a < 16 → 0 ≤ b < 16 → hex_upper a = hex_upper b → a = b.
Proof. unfold hex_upper. destruct (Z.ltb_spec a 10), (Z.ltb_spec b 10); lia. Qed.

Lemma byte_text_inj a b : 0 ≤ a < 256 → 0 ≤ b < 256 → byte_text a = byte_text b → a = b.
Proof.
  intros Ha Hb [= H1 H2].
  pose proof (Z.div_mod a 16 ltac:(lia)). pose proof (Z.div_mod b 16 ltac:(lia)).
  pose proof (Z.mod_pos_bound a 16 ltac:(lia)). pose proof (Z.mod_pos_bound b 16 ltac:(lia)).
  assert (0 ≤ a / 16 < 16) by (split; [apply Z.div_pos; lia|apply Z.div_lt_upper_bound; lia]).
  assert (0 ≤ b / 16 < 16) by (split; [apply Z.div_pos; lia|apply Z.div_lt_upper_bound; lia]).
  apply hex_upper_inj in H1; [|lia..]. apply hex_upper_inj in H2; lia.
Qed.

(** The fingerprint that a person compares names one digest. *)
Lemma fingerprint_inj d1 d2 :
  Forall (λ b, 0 ≤ b < 256) d1 → Forall (λ b, 0 ≤ b < 256) d2 →
  fingerprint_of d1 = fingerprint_of d2 → d1 = d2.
Proof.
  intros H1. revert d2. induction H1 as [|a d1 Ha H1 IH]; intros d2 H2.
  - destruct H2 as [|b [|c d2] _ _]; by intros [=].
  - destruct H2 as [|b d2 Hb H2]; [by destruct d1|].
    destruct d1 as [|a' d1], d2 as [|b' d2]; intros E.
    + f_equal. apply byte_text_inj; [done..|exact E].
    + by destruct d2.
    + by destruct d1.
    + assert (Hc : byte_text a ++ 58 :: fingerprint_of (a' :: d1) = byte_text b ++ 58 :: fingerprint_of (b' :: d2))
        by exact E.
      injection Hc as Ex Ey Et. f_equal; [apply byte_text_inj; [done..|]; unfold byte_text; congruence|].
      by apply IH.
Qed.

(** The characters of a name that goes into a certificate: no comma, quote, space or
    control character can get in. *)
Lemma valid_name_chars name :
  valid_name name = true → parse_ip name = None →
  Forall (λ c, is_ascii_alphanumeric c = true ∨ c = 45 ∨ c = 46) name.
Proof.
  unfold valid_name. intros Hv Hip. rewrite Hip in Hv. cbn in Hv.
  apply andb_prop in Hv as [_ Hv]. rewrite <- (join_split 46 name).
  apply forallb_Forall in Hv. apply Forall_forall. intros c Hc.
  apply elem_of_join in Hc as [Hc|(p & Hp & Hc)]; [by auto|].
  rewrite Forall_forall in Hv. specialize (Hv p Hp). unfold valid_label in Hv.
  apply andb_prop in Hv as [_ Hv]. apply forallb_Forall in Hv. rewrite Forall_forall in Hv.
  specialize (Hv c Hc). cbn in Hv. apply orb_prop in Hv as [?|Hv]; [auto|]. apply Z.eqb_eq in Hv. auto.
Qed.

Lemma server_config_looks `{TlsLib} files : looks (server_config files).
Proof.
  unfold server_config, read_chain. apply looks_and_then; [apply looks_bind; [apply looks_look|done]|].
  intros chain. apply looks_bind; [apply looks_look|done].
Qed.
Lemma not_after_looks `{TlsLib} path : looks (not_after path).
Proof. apply looks_bind; [apply looks_look|done]. Qed.
#[export] Hint Resolve server_config_looks not_after_looks : looks.
