(* ===== verification/TlsListener.v ===== *)
(** * The TLS listener (crates/lodger/src/tls.rs: [TlsListener] and [accept_loop])

    The accept loop, one task for each handshake, and the bounded channel to the server,
    as a transition system over the connections in the order in which they came. *)

From S2P Require Import Prelude Text.

(** Ten seconds, in nanoseconds. *)
Definition HANDSHAKE_TIMEOUT : Z := 10 * 1000000000.
Definition QUEUE : nat := 64.

Record Listener := {
  (** how many connections came, and whether the accept loop runs *)
  came : nat;
  looping : bool;
  (** the tasks in a handshake, with the start of each, and those in [send] *)
  handshakes : gmap nat Z;
  sending : list nat;
  (** the channel, and whether its receiver is gone *)
  ready : list nat;
  closed : bool;
  (** what the server took *)
  taken : list nat
}.

(** [TlsListener::new]. *)
Definition Listener_new : Listener :=
  {| came := O; looping := true; handshakes := ∅; sending := []; ready := []; closed := false; taken := [] |}.

Inductive Occurs :=
| Accepted (now : Z)
| AcceptFailed
| Finished (i : nat)
| Refused (i : nat)
| TimedOut (i : nat) (now : Z)
| Sent
| Taken
| ListenerDropped.

Definition with_handshakes (h : gmap nat Z) (sending_ : list nat) (s : Listener) : Listener :=
  {| came := came s; looping := looping s; handshakes := h; sending := sending_; ready := ready s;
     closed := closed s; taken := taken s |}.

(** [accept_loop], the handshake tasks, and [accept] of the listener. *)
Definition occur (o : Occurs) (s : Listener) : option Listener :=
  match o with
  | Accepted now =>
      if negb (looping s) then None
      else if closed s
      then Some {| came := came s; looping := false; handshakes := handshakes s; sending := sending s;
                   ready := ready s; closed := true; taken := taken s |}
      else Some {| came := S (came s); looping := true; handshakes := <[came s := now]> (handshakes s);
                   sending := sending s; ready := ready s; closed := false; taken := taken s |}
  | AcceptFailed => if looping s then Some s else None
  | Finished i =>
      match handshakes s !! i with
      | Some _ => Some (with_handshakes (delete i (handshakes s)) (sending s ++ [i]) s)
      | None => None
      end
  | Refused i =>
      match handshakes s !! i with
      | Some _ => Some (with_handshakes (delete i (handshakes s)) (sending s) s)
      | None => None
      end
  | TimedOut i now =>
      match handshakes s !! i with
      | Some start =>
          if start + HANDSHAKE_TIMEOUT <=? now
          then Some (with_handshakes (delete i (handshakes s)) (sending s) s)
          else None
      | None => None
      end
  | Sent =>
      match sending s with
      | i :: rest =>
          if closed s then Some (with_handshakes (handshakes s) rest s)
          else if (length (ready s) <? QUEUE)%nat
          then Some {| came := came s; looping := looping s; handshakes := handshakes s; sending := rest;
                       ready := ready s ++ [i]; closed := false; taken := taken s |}
          else None
      | [] => None
      end
  | Taken =>
      match ready s with
      | i :: rest =>
          Some {| came := came s; looping := looping s; handshakes := handshakes s; sending := sending s;
                  ready := rest; closed := closed s; taken := taken s ++ [i] |}
      | [] => None
      end
  | ListenerDropped =>
      Some {| came := came s; looping := looping s; handshakes := handshakes s; sending := sending s;
              ready := []; closed := true; taken := taken s |}
  end.

Fixpoint occurs (l : list Occurs) (s : Listener) : option Listener :=
  match l with [] => Some s | o :: l => occur o s ≫= occurs l end.

(** ** What the server gets *)

(** The connections whose handshake finished, in that order. *)
Definition finished (l : list Occurs) : list nat := omap (λ o, match o with Finished i => Some i | _ => None end) l.

(** After [l]: the channel is bounded, every connection is in one place, and while the
    receiver is there, what was taken and what is on its way are the finished ones. *)
Record listener_wf (l : list Occurs) (s : Listener) : Prop := {
  lw_queue : (length (ready s) ≤ QUEUE)%nat;
  lw_order : if closed s then ready s = [] ∧ taken s `prefix_of` finished l
             else taken s ++ ready s ++ sending s = finished l;
  lw_nodup : NoDup (finished l);
  lw_past : Forall (λ i, (i < came s)%nat ∧ handshakes s !! i = None) (finished l);
  lw_tasks : ∀ i t, handshakes s !! i = Some t → (i < came s)%nat
}.

Lemma finished_snoc l o : finished (l ++ [o]) = finished l ++ match o with Finished i => [i] | _ => [] end.
Proof. unfold finished. rewrite omap_app. by destruct o. Qed.

(** A step that only ends a task. *)
Lemma task_ended_wf l o s i :
  finished (l ++ [o]) = finished l → listener_wf l s →
  listener_wf (l ++ [o]) (with_handshakes (delete i (handshakes s)) (sending s) s).
Proof.
  intros Hf [Hq Ho Hd Hp Ht]. split; rewrite ?Hf; cbn; try done.
  - eapply Forall_impl; [exact Hp|]. intros j [Hj Hn]. split; [done|]. apply lookup_delete_None. by right.
  - intros j t [_ H]%lookup_delete_Some. eauto.
Qed.

Lemma occur_wf l o s s' : listener_wf l s → occur o s = Some s' → listener_wf (l ++ [o]) s'.
Proof.
  intros Hw E. pose proof Hw as [Hq Ho Hd Hp Ht].
  assert (Hf : match o with Finished _ => True | _ => finished (l ++ [o]) = finished l end)
    by (destruct o; try done; by rewrite finished_snoc, app_nil_r).
  destruct o as [now| |i|i|i now| | |]; cbn [occur] in E.
  - destruct (looping s); [|done]. cbn [negb] in E. destruct (closed s) eqn:Ec; injection E as <-.
    { split; by rewrite ?Hf. }
    split; rewrite ?Hf; cbn; try done.
    + eapply Forall_impl; [exact Hp|]. intros i [Hi Hn]. split; [lia|]. by rewrite lookup_insert_ne by lia.
    + intros j t [[<- _]|[_ H]]%lookup_insert_Some; [lia|]. specialize (Ht _ _ H). lia.
  - destruct (looping s); [|done]. injection E as <-. split; by rewrite ?Hf.
  - destruct (handshakes s !! i) as [t|] eqn:Ei; [|done]. injection E as <-.
    assert (Hnew : i ∉ finished l).
    { intros Hin. rewrite Forall_forall in Hp. destruct (Hp i Hin). congruence. }
    split; rewrite ?finished_snoc; cbn; try done.
    + destruct (closed s); [|by rewrite <- Ho, <- !app_assoc]. destruct Ho as [? [k ->]].
      split; [done|]. exists (k ++ [i]). by rewrite app_assoc.
    + apply NoDup_app. split_and!; [done| |apply NoDup_singleton]. intros x Hx ->%list_elem_of_singleton. done.
    + apply Forall_app_2.
      * eapply Forall_impl; [exact Hp|]. intros j [Hj Hn]. split; [done|]. apply lookup_delete_None. by right.
      * apply Forall_singleton. split; [eauto|apply lookup_delete_eq].
    + intros j t' [_ H]%lookup_delete_Some. eauto.
  - destruct (handshakes s !! i); [|done]. injection E as <-. by apply task_ended_wf.
  - destruct (handshakes s !! i); [|done]. destruct (_ <=? _); [|done]. injection E as <-. by apply task_ended_wf.
  - destruct (sending s) as [|i rest] eqn:Es; [done|]. destruct (closed s) eqn:Ec; [|destruct (Nat.ltb_spec (length (ready s)) QUEUE); [|done]];
      injection E as <-; (split; rewrite ?Hf; cbn; rewrite ?Ec; try done).
    + rewrite length_app. cbn. lia.
    + by rewrite <- app_assoc.
  - destruct (ready s) as [|i rest] eqn:Er; [done|]. injection E as <-. split; rewrite ?Hf; cbn; try done.
    + cbn in Hq. lia.
    + destruct (closed s); [by destruct Ho|]. by rewrite <- app_assoc.
  - injection E as <-. split; rewrite ?Hf; cbn; try done.
    + unfold QUEUE. lia.
    + split; [done|]. destruct (closed s); [by destruct Ho|]. rewrite <- Ho. by eexists.
Qed.

Lemma occurs_wf l0 l s s' : listener_wf l0 s → occurs l s = Some s' → listener_wf (l0 ++ l) s'.
Proof.
  revert l0 s. induction l as [|o l IH]; intros l0 s Hw E; [by injection E as <-; rewrite app_nil_r|].
  cbn in E. destruct (occur o s) as [s1|] eqn:E1; [|done]. cbn in E.
  rewrite (cons_middle o l0 l), app_assoc. eapply IH; [|exact E]. by eapply occur_wf.
Qed.

(** ** Slow clients *)

(** The server takes what is in the channel, then each task in [send] has its turn. *)
Definition drain (s : Listener) : list Occurs :=
  replicate (length (ready s)) Taken ++ concat (replicate (length (sending s)) [Sent; Taken]).

Lemma occurs_app l1 l2 s : occurs (l1 ++ l2) s = occurs l1 s ≫= occurs l2.
Proof. revert s. induction l1 as [|o l1 IH]; intros s; [done|]. cbn. destruct (occur o s); [apply IH|done]. Qed.

(** [s'] is [s] after the server has taken [more]. *)
Definition took (more rest : list nat) (s s' : Listener) : Prop :=
  taken s' = taken s ++ more ∧ ready s' = [] ∧ sending s' = rest ∧ handshakes s' = handshakes s ∧
  closed s' = closed s ∧ came s' = came s.

Lemma take_ready s :
  ∃ s', occurs (replicate (length (ready s)) Taken) s = Some s' ∧ took (ready s) (sending s) s s'.
Proof.
  remember (ready s) as r eqn:Er. revert s Er. induction r as [|i r IH]; intros s Er.
  { exists s. split; [done|]. unfold took. by rewrite app_nil_r. }
  cbn [length replicate occurs occur]. rewrite <- Er. cbn [mbind option_bind].
  destruct (IH {| came := came s; looping := looping s; handshakes := handshakes s; sending := sending s;
    ready := r; closed := closed s; taken := taken s ++ [i] |} eq_refl) as (s' & E & Ht & ? & ? & ? & ? & ?).
  exists s'. split; [exact E|]. cbn in *. unfold took. by rewrite Ht, <- app_assoc.
Qed.

Lemma take_sending s :
  ready s = [] → closed s = false →
  ∃ s', occurs (concat (replicate (length (sending s)) [Sent; Taken])) s = Some s' ∧ took (sending s) [] s s'.
Proof.
  remember (sending s) as r eqn:Es. revert s Es. induction r as [|i r IH]; intros s Es Er Ec.
  { exists s. split; [done|]. unfold took. by rewrite app_nil_r. }
  cbn [length replicate concat app occurs occur]. rewrite <- Es, Ec, Er.
  change (length [] <? QUEUE)%nat with true. cbn [mbind option_bind ready app].
  destruct (IH {| came := came s; looping := looping s; handshakes := handshakes s; sending := r;
    ready := []; closed := false; taken := taken s ++ [i] |} eq_refl eq_refl eq_refl) as (s' & E & Ht & ? & ? & ? & ? & ?).
  exists s'. split; [exact E|]. cbn in *. unfold took. rewrite Ht, <- app_assoc. by rewrite Ec.
Qed.

(** C22: the server gets exactly the connections with a finished handshake, and a slow
    client holds up nobody.  Take any order of connections, failed accepts, finished,
    refused and late handshakes, sends and takes.  The channel never holds more than 64
    (the finished handshakes that wait for room in it are not bounded, see
    [hundred_wait]); until the server drops the listener, what it took and what is on its
    way are the connections that finished, each once and in that order, and after that it
    took the first of them; at any time the server can take all that finished while every
    other handshake stays where it is; and a handshake is ended as late once it has taken
    ten seconds, and not before. *)
Theorem listener_correct l s :
  occurs l Listener_new = Some s →
  (length (ready s) ≤ 64)%nat ∧ NoDup (finished l) ∧ taken s `prefix_of` finished l ∧
  (closed s = false → taken s ++ ready s ++ sending s = finished l ∧
    ∃ s', occurs (drain s) s = Some s' ∧ taken s' = finished l ∧ handshakes s' = handshakes s) ∧
  ∀ i start now, handshakes s !! i = Some start →
    (is_Some (occur (TimedOut i now) s) ↔ start + 10000000000 ≤ now) ∧
    ∀ s', occur (TimedOut i now) s = Some s' → handshakes s' = delete i (handshakes s).
Proof.
  intros E. assert (Hw : listener_wf [] Listener_new).
  { split; cbn; [unfold QUEUE; lia|done|constructor|constructor|]. intros i t. by rewrite lookup_empty. }
  apply (occurs_wf [] l) in E as [Hq Ho Hd _ _]; [|done]. cbn [app] in *. split_and!; [done|done| | |].
  - destruct (closed s); [by destruct Ho|]. rewrite <- Ho. by eexists.
  - intros Hc. rewrite Hc in Ho. split; [done|].
    destruct (take_ready s) as (s1 & E1 & Ht1 & Hr1 & Hs1 & Hh1 & Hc1 & _).
    destruct (take_sending s1) as (s2 & E2 & Ht2 & _ & _ & Hh2 & _); [done|congruence|].
    exists s2. unfold drain. rewrite occurs_app, E1. cbn [mbind option_bind]. rewrite <- Hs1. split; [done|].
    split; [|congruence]. by rewrite Ht2, Ht1, Hs1, <- app_assoc.
  - intros i start now Hi. cbn [occur]. rewrite Hi. change HANDSHAKE_TIMEOUT with 10000000000.
    destruct (Z.leb_spec (start + 10000000000) now).
    + split; [by split|]. by intros s' [= <-].
    + split; [|done]. split; [by intros []|lia].
Qed.

(** A hundred clients finish their handshake before the server takes one: 64 are in the
    channel, and 36 more wait in their tasks for room in it. *)
Lemma hundred_wait :
  (λ s, (length (ready s), length (sending s), occur Sent s)) <$>
    occurs (((λ i, Accepted (Z.of_nat i)) <$> seq 0 100) ++ (Finished <$> seq 0 100) ++ replicate 64 Sent) Listener_new =
  Some (64%nat, 36%nat, None).
Proof. vm_compute. reflexivity. Qed.

(** ** Witness: the second client is slow *)

Lemma listener_correct_witness :
  ∃ s s', occurs [Accepted 0; Accepted 1; Accepted 2; Finished 2; Finished 0; Sent] Listener_new = Some s ∧
    occurs (drain s) s = Some s' ∧ taken s' = [2; 0]%nat ∧ handshakes s' = handshakes s.
Proof.
  eexists. assert (Hc := listener_correct [Accepted 0; Accepted 1; Accepted 2; Finished 2; Finished 0; Sent] _ eq_refl).
  destruct Hc as (_ & _ & _ & Hc & _). destruct (Hc eq_refl) as [_ (s' & ? & ? & ?)]. exists s'. by repeat split.
Defined.
