(* ===== verification/Assets.v ===== *)
(** * The embedded web files (crates/lodger/src/assets.rs)

    The answer for a path that no route claims, over the files of the web build,
    which are a parameter [source]. *)

From S2P Require Import Prelude Text Net Tickets Http.

Definition FALLBACK : str := lit "200.html".
Definition IMMUTABLE_PREFIX : str := lit "_app/immutable/".
Definition IMMUTABLE_CACHE : str := lit "public, max-age=31536000, immutable".
Definition REVALIDATE : str := lit "no-cache".

(** One file of the build: its bytes, its SHA-256 and its media type. *)
Record Asset := { bytes : list Z; asset_sha256 : list Z; mime : str }.

(** [Response::builder().header(..)]: the headers in order. *)
Definition built (status : Z) (headers : list (str * str)) (body : Body) : Response :=
  {| r_status := status; r_body := body; r_headers := headers |}.

Definition status (code : Z) : Response := built code [] NoBody.

(** A strong [ETag] from the first 16 bytes of the hash. *)
Definition etag (sha256 : list Z) : str := [34] ++ hex_encode (take 16 sha256) ++ [34].

Definition with_charset (mime : str) : str :=
  let text := starts_with (lit "text/") mime ||
    existsb (λ m, bool_decide (mime = m))
      [lit "application/javascript"; lit "application/json"; lit "application/xml"; lit "image/svg+xml"] ||
    ends_with (lit "+xml") mime || ends_with (lit "+json") mime in
  if text && negb (contains_str (lit "charset=") mime) then mime ++ lit "; charset=utf-8" else mime.

(** [HeaderValue::from_str]: no control character but the tab. *)
Definition header_value (s : str) : option str :=
  if forallb (λ c, (32 <=? c) && negb (c =? 127) || (c =? 9)) s then Some s else None.

(** The body of an answer: none for HEAD. *)
Definition body_for (method : Method) (body : list Z) : Body :=
  if bool_decide (method = HEAD) then NoBody else FileBody body.

Definition not_modified (headers : HeaderMap) (tag : str) : bool :=
  match header_text headers (lit "if-none-match") with
  | Some v => existsb (λ t, bool_decide (trim t = tag)) (split 44 v)
  | None => false
  end.

Definition file (method : Method) (headers : HeaderMap) (asset : Asset) (cache : str) : Response :=
  let tag := etag (asset_sha256 asset) in
  let common := [(lit "etag", tag); (lit "cache-control", cache)] in
  if not_modified headers tag then built 304 common NoBody
  else
    let mime := default (lit "application/octet-stream") (header_value (with_charset (mime asset))) in
    built 200 (common ++ [(lit "content-type", mime);
                          (lit "content-length", to_string (Z.of_nat (length (bytes asset))))])
      (body_for method (bytes asset)).

Definition html (method : Method) (page : list Z) : Response :=
  built 200 [(lit "content-type", lit "text/html; charset=utf-8"); (lit "cache-control", REVALIDATE)]
    (body_for method page).

Section respond.
(** The page of a binary without a web build. *)
Variable STUB_PAGE : list Z.

(** The name of a file that the path asks for: no leading slash. *)
Definition asset_path (path : str) : str := trim_start_with (λ c, c =? 47) path.

(** A path that is looked up at all: no backslash and no [..] segment. *)
Definition unsafe_path (path : str) : bool :=
  contains_char 92 path || existsb (λ seg, bool_decide (seg = lit "..")) (split 47 path).

Definition fallback (source : str → option Asset) (method : Method) (headers : HeaderMap) : Response :=
  match source FALLBACK with
  | Some asset => file method headers asset REVALIDATE
  | None => html method STUB_PAGE
  end.

Definition respond (source : str → option Asset) (method : Method) (path : str) (headers : HeaderMap) :
    Response :=
  if negb (bool_decide (method = GET)) && negb (bool_decide (method = HEAD))
  then built 405 [(lit "allow", lit "GET, HEAD")] NoBody
  else
    let path := asset_path path in
    if unsafe_path path then status 404
    else if bool_decide (path = []) then fallback source method headers
    else
      match source path with
      | Some asset =>
          file method headers asset
            (if starts_with IMMUTABLE_PREFIX path then IMMUTABLE_CACHE else REVALIDATE)
      | None =>
          if contains_char 46 (default [] (rsplit_first 47 path)) then status 404
          else fallback source method headers
      end.

(** ** Properties *)

(** C39: the web files cannot be escaped, and a missing script is no page.  Only GET
    and HEAD are served, HEAD without a body.  A request looks at nothing but the
    fallback page and the one file that its path names, and at nothing when the
    path has a [..] segment or a backslash, in which case it gets 404.  A path whose
    file is missing and whose last segment has a dot gets 404, and a client that
    sends the tag of the file gets 304 without a body. *)
Theorem assets_contained source method path headers :
  let p := asset_path path in
  let r := respond source method path headers in
  (r_status r = 405 ↔ method ≠ GET ∧ method ≠ HEAD) ∧
  (∀ source', (unsafe_path p = false → source' p = source p) → source' FALLBACK = source FALLBACK →
     respond source' method path headers = r) ∧
  (method = HEAD → r_body r = NoBody) ∧
  (method = GET ∨ method = HEAD → unsafe_path p = true → r = status 404) ∧
  (method = GET ∨ method = HEAD → unsafe_path p = false → p ≠ [] → source p = None →
     contains_char 46 (default [] (rsplit_first 47 p)) = true → r = status 404) ∧
  (∀ asset, method = GET ∨ method = HEAD → unsafe_path p = false → p ≠ [] → source p = Some asset →
     (r_status r = 304 ↔ not_modified headers (etag (asset_sha256 asset)) = true) ∧
     (r_status r = 304 → r_body r = NoBody) ∧
     (r_status r ≠ 304 → method = GET → r_status r = 200 ∧ r_body r = FileBody (bytes asset))).
Proof.
  intros p r. unfold r, respond. fold p.
  assert (Hhead : ∀ asset cache, r_body (file HEAD headers asset cache) = NoBody).
  { intros. unfold file. by destruct (not_modified _ _). }
  assert (Hcode : ∀ m asset cache, r_status (file m headers asset cache) ≠ 405).
  { intros. unfold file. by destruct (not_modified _ _). }
  assert (Hfall : r_status (fallback source method headers) ≠ 405).
  { unfold fallback. destruct (source FALLBACK); [apply Hcode|done]. }
  destruct (decide (method = GET ∨ method = HEAD)) as [Hm|Hm].
  2: { rewrite !bool_decide_false by naive_solver. simpl. naive_solver. }
  assert (Eg : negb (bool_decide (method = GET)) && negb (bool_decide (method = HEAD)) = false)
    by (destruct Hm as [->| ->]; done).
  rewrite Eg. split_and!.
  - split; [|naive_solver]. destruct (unsafe_path p); [done|].
    destruct (bool_decide (p = [])); [by intros ?%Hfall|].
    destruct (source p); [by intros ?%Hcode|]. by destruct (contains_char 46 _); [|intros ?%Hfall].
  - intros source' Hp Hf. unfold fallback. rewrite Hf. destruct (unsafe_path p); [done|].
    by rewrite Hp.
  - intros ->. destruct (unsafe_path p); [done|].
    assert (r_body (fallback source HEAD headers) = NoBody).
    { unfold fallback. by destruct (source FALLBACK). }
    destruct (bool_decide (p = [])); [done|]. destruct (source p); [done|]. by destruct (contains_char 46 _).
  - by intros _ ->.
  - intros _ -> Hne Hs Hd. by rewrite bool_decide_false, Hs, Hd.
  - intros asset _ -> Hne Hs. rewrite bool_decide_false, Hs by done. unfold file.
    destruct (not_modified _ _); split_and!; try done. intros _ ->. done.
Qed.
End respond.

Lemma assets_contained_witness :
  r_status (respond [] (λ _, None) GET (lit "/app/../secret") []) = 404 ∧
  r_status (respond [] (λ _, None) GET (lit "/missing.js") []) = 404.
Proof.
  destruct (assets_contained [] (λ _, None) GET (lit "/app/../secret") []) as (_ & _ & _ & Hu & _ & _).
  destruct (assets_contained [] (λ _, None) GET (lit "/missing.js") []) as (_ & _ & _ & _ & Hd & _).
  split; [rewrite Hu|rewrite Hd]; (reflexivity || by left || done).
Defined.
