(* ===== verification/Csp.v ===== *)
(** * The Content-Security-Policy (crates/lodger/src/security.rs)

    The policy that every answer carries, computed at the start from the page of the
    web build.  SHA-256 and the base64 encoding are parameters. *)

From S2P Require Import Prelude Text Os Net Http Tickets Assets.

Section csp.
Variable sha256_bytes : list Z → list Z.
(** [base64::STANDARD.encode]. *)
Variable base64 : list Z → str.

Definition OPEN : str := lit "<script".
Definition CLOSE : str := lit "</script>".

(** The CSP source of one inline script. *)
Definition source_of (body : str) : str := lit "'sha256-" ++ base64 (sha256_bytes (as_bytes body)) ++ lit "'".

(** [script_hashes]; [None] is the panic of a slice whose end is before its start.  [n]
    bounds the rounds of the loop. *)
Fixpoint script_hashes_fuel (n : nat) (rest : str) : option (list str) :=
  match n, find_str OPEN rest with
  | S n, Some (_, rest) =>
      match find_str [62] rest, find_str CLOSE rest with
      | Some (tag, _), Some (until_close, from_close) =>
          if (length until_close <? length tag + 1)%nat then None
          else
            let body := drop (length tag + 1) until_close in
            later ← script_hashes_fuel n (drop (length CLOSE) from_close);
            Some ((if contains_str (lit " src=") tag then [] else [source_of body]) ++ later)
      | _, _ => Some []
      end
  | _, _ => Some []
  end.
Definition script_hashes (page : str) : option (list str) := script_hashes_fuel (length page) page.

(** The socket address of the public origin. *)
Definition socket_source (public_origin : option str) : str :=
  match public_origin with
  | Some o =>
      match strip_prefix (lit "https://") o, strip_prefix (lit "http://") o with
      | Some h, _ => lit " wss://" ++ h
      | None, Some h => lit " ws://" ++ h
      | None, None => []
      end
  | None => []
  end.

(** [csp]; [None] is a panic. *)
Definition csp (page : str) (public_origin : option str) : option str :=
  hashes ← script_hashes page;
  let script_src := foldl (λ src hash, src ++ [32] ++ hash) (lit "'self'") hashes in
  header_value
    (lit "default-src 'self'; script-src " ++ script_src ++ lit "; style-src 'self' 'unsafe-inline'; img-src 'self' data:; connect-src 'self'" ++
     socket_source public_origin ++
     lit "; object-src 'none'; base-uri 'none'; form-action 'self'; frame-ancestors 'none'").

(** [AppState::new]: the policy of the page that the server answers with. *)
Definition initial_csp (STUB_PAGE : str) (source : str → option Asset)
    (public_origin : option str) : option str :=
  csp (match source FALLBACK with Some asset => from_utf8_lossy (bytes asset) | None => STUB_PAGE end) public_origin.
End csp.

(** ** Finding a pattern *)

Lemma find_str_Some p s a b : find_str p s = Some (a, b) → s = a ++ b ∧ p `prefix_of` b.
Proof.
  revert a b. induction s as [|c s IH]; intros a b; cbn [find_str];
    destruct (starts_with p _) eqn:Es; try done; try (intros [= <- <-]; by apply starts_with_true in Es).
  destruct (find_str p s) as [[a' b']|]; [|done]. intros [= <- <-].
  destruct (IH a' b' eq_refl) as [-> ?]. done.
Qed.

Lemma find_str_tail p c s : find_str p (c :: s) = None → find_str p s = None.
Proof. cbn. destruct (starts_with _ _); [done|]. by destruct (find_str p s) as [[]|]. Qed.

Lemma find_str_cons_ne a p c s : a ≠ c → find_str (a :: p) s = None → find_str (a :: p) (c :: s) = None.
Proof.
  intros Hne Hs. cbn [find_str]. rewrite Hs. unfold starts_with. cbn [strip_prefix].
  destruct (Z.eqb_spec a c); done.
Qed.

Lemma find_str_app_ne a p u s : a ∉ u → find_str (a :: p) s = None → find_str (a :: p) (u ++ s) = None.
Proof.
  intros Hu Hs. induction u as [|c u IH]; [done|]. apply not_elem_of_cons in Hu as [? ?].
  apply find_str_cons_ne; auto.
Qed.

(** A pattern whose first character does not come again in it is found where it is
    put, when it is not in the text before. *)
Lemma find_str_app a p u s :
  a ∉ p → find_str (a :: p) u = None →
  find_str (a :: p) (u ++ (a :: p) ++ s) = Some (u, (a :: p) ++ s).
Proof.
  intros Ha. induction u as [|c u IH]; intros Hu.
  - cbn [find_str app]. by rewrite (proj2 (starts_with_true (a :: p) (a :: p ++ s)) ltac:(by exists s)).
  - pose proof (find_str_tail _ _ _ Hu) as Hu'. cbn [find_str app].
    destruct (starts_with (a :: p) (c :: u ++ a :: p ++ s)) eqn:Es.
    + exfalso. apply starts_with_true in Es as [r Er]. injection Er as -> Er.
      assert (Hno : ∀ k, u ≠ p ++ k).
      { intros k ->. cbn [find_str] in Hu. rewrite (proj2 (starts_with_true (a :: p) (a :: p ++ k))) in Hu; [done|by exists k]. }
      apply app_eq_inv in Er as [(k & Hk & _)|([|x k] & Hk1 & Hk2)]; [by apply (Hno k)| |].
      * apply (Hno []). by rewrite Hk1, !app_nil_r.
      * injection Hk2 as <- _. apply Ha. rewrite Hk1. set_solver.
    + specialize (IH Hu'). cbn [app] in IH. by rewrite IH.
Qed.

(** The length of the page is enough rounds. *)
Lemma script_hashes_fuel_enough sha base64 n m page :
  (length page ≤ n)%nat → (length page ≤ m)%nat →
  script_hashes_fuel sha base64 n page = script_hashes_fuel sha base64 m page.
Proof.
  revert m page. induction n as [|n IH]; intros m page Hn Hm.
  { destruct page; [by destruct m|cbn in Hn; lia]. }
  destruct m as [|m]; [destruct page; [done|cbn in Hm; lia]|]. cbn [script_hashes_fuel].
  destruct (find_str OPEN page) as [[before rest]|] eqn:E1; [|done].
  apply find_str_Some in E1 as [-> Hp]. rewrite length_app in Hn, Hm.
  destruct (find_str [62] rest) as [[tag from]|]; [|done].
  destruct (find_str CLOSE rest) as [[until from_close]|] eqn:E3; [|done].
  apply find_str_Some in E3 as [-> [r ->]]. destruct (_ <? _)%nat; [done|].
  rewrite drop_app_length. rewrite length_app in Hn, Hm. rewrite length_app in Hn, Hm. change (length CLOSE) with 9%nat in Hn, Hm.
  by rewrite (IH m) by lia.
Qed.

(** ** Words of a list *)

Lemma words_cons_space s : words (32 :: s) = words s.
Proof. unfold words. change (split_spaces (32 :: s)) with ([] :: split_spaces s). by rewrite filter_cons_False by auto. Qed.

Lemma split_spaces_word w : Forall (λ c, is_whitespace c = false) w → split_spaces w = [w].
Proof. induction 1 as [|c w Hc _ IH]; [done|]. cbn [split_spaces]. by rewrite Hc, IH. Qed.

Lemma split_spaces_app w s :
  Forall (λ c, is_whitespace c = false) w → split_spaces (w ++ 32 :: s) = w :: split_spaces s.
Proof. induction 1 as [|c w Hc _ IH]; [done|]. cbn [split_spaces app]. by rewrite Hc, IH. Qed.

(** A word of a policy: no white space, no semicolon, and only visible characters. *)
Definition word (w : str) : Prop := w ≠ [] ∧ Forall (λ c, 33 ≤ c < 127 ∧ c ≠ 59) w.

Lemma visible_no_space (w : str) : Forall (λ c, 33 ≤ c < 127 ∧ c ≠ 59) w → Forall (λ c, is_whitespace c = false) w.
Proof. intros H. eapply Forall_impl; [exact H|]. intros c [Hc _]. unfold is_whitespace.
  repeat (apply orb_false_intro); rewrite ?andb_false_iff, ?Z.leb_gt, ?Z.eqb_neq; lia. Qed.

Lemma visible_text w :
  forallb (λ c, (33 <=? c) && (c <? 127) && negb (c =? 59)) w = true → Forall (λ c, 33 ≤ c < 127 ∧ c ≠ 59) w.
Proof. intros H%forallb_Forall. eapply Forall_impl; [exact H|]. cbn beta. lia. Qed.

Lemma words_join ws : ws ≠ [] → Forall word ws → words (join [32] ws) = ws.
Proof.
  intros Hne. induction 1 as [|w ws [Hw Hv] Hws IH]; [done|]. apply visible_no_space in Hv. unfold words.
  destruct (decide (ws = [])) as [->|Hn].
  - cbn [join]. rewrite split_spaces_word by done. by rewrite filter_cons_True.
  - rewrite join_cons, split_spaces_app, filter_cons_True by done. f_equal. by apply IH.
Qed.

Lemma foldl_words src ws : foldl (λ src w, src ++ [32] ++ w) src ws = join [32] (src :: ws).
Proof.
  revert src. induction ws as [|w ws IH]; intros src; [done|]. cbn [foldl]. rewrite IH.
  destruct ws as [|w' ws]; [done|]. rewrite !join_cons by done.
  by rewrite <- !app_assoc.
Qed.

(** How a browser reads a policy: directives between semicolons, of which the first with
    a name counts, with the words after the name. *)
Definition directive (name policy : str) : option (list str) :=
  tail <$> List.find (λ ws, bool_decide (head ws = Some name)) (words <$> split 59 policy).

(** The text of a policy, and what a browser reads in it. *)
Definition policy_text (ds : list (list str)) : str := join [59] ((λ ws, 32 :: join [32] ws) <$> ds).

Lemma directives_read ds :
  ds ≠ [] → Forall (λ ws, ws ≠ [] ∧ Forall word ws) ds → words <$> split 59 (policy_text ds) = ds.
Proof.
  intros Hne Hds. unfold policy_text. rewrite split_join.
  - rewrite <- list_fmap_compose. induction Hds as [|ws ds [Hws Hw] Hds IH]; [done|]. cbn [fmap list_fmap].
    unfold compose at 1. rewrite words_cons_space, words_join by done. f_equal.
    destruct ds as [|d ds]; [done|]. by apply IH.
  - by destruct ds.
  - apply Forall_fmap. eapply Forall_impl; [exact Hds|]. intros ws [_ Hw]. cbn.
    intros [?|H]%elem_of_cons; [done|]. apply elem_of_join in H as [?|(w & Hin & H)]; [done|].
    rewrite Forall_forall in Hw. destruct (Hw w Hin) as [_ Hv]. rewrite Forall_forall in Hv.
    by destruct (Hv 59 H).
Qed.

(** Every character of a policy can be in a header. *)
Lemma policy_header ds : Forall (Forall word) ds → header_value (policy_text ds) = Some (policy_text ds).
Proof.
  intros Hds. unfold header_value.
  rewrite (proj2 (forallb_Forall _ _)); [done|]. apply Forall_forall. intros c Hc.
  assert (H : c = 59 ∨ c = 32 ∨ 33 ≤ c < 127); [|lia].
  apply elem_of_join in Hc as [?|(t & Ht & Hc)]; [by left|]. right.
  apply list_elem_of_fmap in Ht as (ws & -> & Hws). apply elem_of_cons in Hc as [?|Hc]; [by left|].
  apply elem_of_join in Hc as [?|(w & Hw & Hc)]; [by left|]. right.
  rewrite Forall_forall in Hds. specialize (Hds _ Hws). rewrite Forall_forall in Hds.
  destruct (Hds _ Hw) as [_ Hv]. rewrite Forall_forall in Hv. by destruct (Hv _ Hc).
Qed.

Lemma header_value_tail c s : header_value (c :: s) = Some (c :: s) → header_value s = Some s.
Proof.
  unfold header_value. cbn [forallb]. destruct (forallb _ s); [done|]. by rewrite andb_false_r.
Qed.

(** ** Pages *)

(** A script element of a page, [<script attributes>inline</script>]. *)
Record Script := { attributes : str; inline : str }.
Definition script_text (s : Script) : str := OPEN ++ attributes s ++ [62] ++ inline s ++ CLOSE.
Definition in_page (s : Script) : bool := negb (contains_str (lit " src=") (OPEN ++ attributes s)).

(** A page: scripts with the text before each, and the text at the end. *)
Fixpoint page_text (pieces : list (str * Script)) (rest : str) : str :=
  match pieces with
  | [] => rest
  | (before, s) :: pieces => before ++ script_text s ++ page_text pieces rest
  end.

Definition plain_piece (x : str * Script) : Prop :=
  find_str OPEN (x.1) = None ∧ (60 ∉ attributes (x.2)) ∧ (62 ∉ attributes (x.2)) ∧ find_str CLOSE (inline (x.2)) = None.

Section pages.
Variable sha256_bytes : list Z → list Z.
Variable base64 : list Z → str.
(** The alphabet of base64. *)
Hypothesis base64_alphabet : ∀ b, Forall (λ c, is_ascii_alphanumeric c = true ∨ c ∈ lit "+/=") (base64 b).

Definition inline_sources (pieces : list (str * Script)) : list str :=
  (λ x, source_of sha256_bytes base64 (inline x.2)) <$> filter (λ x, in_page x.2) pieces.

Lemma no_close_before s : 60 ∉ attributes s → find_str CLOSE (inline s) = None →
  find_str CLOSE (OPEN ++ attributes s ++ [62] ++ inline s) = None.
Proof.
  intros Ha Hi. assert (H : find_str CLOSE (lit "script" ++ attributes s ++ [62] ++ inline s) = None).
  { apply (find_str_app_ne 60); [by vm_compute; set_solver|]. apply (find_str_app_ne 60); [done|].
    apply (find_str_app_ne 60); [set_solver|done]. }
  change (OPEN ++ attributes s ++ [62] ++ inline s) with (60 :: lit "script" ++ attributes s ++ [62] ++ inline s).
  cbn [find_str]. by rewrite H.
Qed.

Lemma script_hashes_page n pieces rest :
  Forall plain_piece pieces → find_str OPEN rest = None → (length (page_text pieces rest) ≤ n)%nat →
  script_hashes_fuel sha256_bytes base64 n (page_text pieces rest) = Some (inline_sources pieces).
Proof.
  intros Hp Hr. revert n. induction Hp as [|[before s] pieces (Hb & H60 & H62 & Hc) Hp IH]; intros n Hn.
  { cbn [page_text]. destruct n; cbn [script_hashes_fuel]; by rewrite ?Hr. }
  cbn [fst snd page_text] in *. set (more := page_text pieces rest) in *. unfold script_text in *.
  rewrite !length_app in Hn. destruct n as [|n]; [cbn in Hn; lia|].
  rewrite <- !app_assoc. set (tag := OPEN ++ attributes s).
  assert (E1 : find_str OPEN (before ++ OPEN ++ attributes s ++ [62] ++ inline s ++ CLOSE ++ more) =
    Some (before, OPEN ++ attributes s ++ [62] ++ inline s ++ CLOSE ++ more)).
  { apply (find_str_app 60 (lit "script")); [|done]. vm_compute. set_solver. }
  assert (E2 : find_str [62] (OPEN ++ attributes s ++ [62] ++ inline s ++ CLOSE ++ more) =
    Some (tag, [62] ++ inline s ++ CLOSE ++ more)).
  { rewrite app_assoc. apply (find_str_app 62 [] tag); [set_solver|]. rewrite <- (app_nil_r tag).
    apply (find_str_app_ne 62 []); [|done]. unfold tag. rewrite elem_of_app. intros [H|H]; [|done]. revert H. vm_compute. set_solver. }
  assert (E3 : find_str CLOSE (OPEN ++ attributes s ++ [62] ++ inline s ++ CLOSE ++ more) =
    Some (tag ++ [62] ++ inline s, CLOSE ++ more)).
  { unfold tag. pose proof (find_str_app 60 (lit "/script>") (tag ++ [62] ++ inline s) more) as H.
    unfold tag in H. rewrite <- !app_assoc in H. rewrite <- !app_assoc. apply H; [vm_compute; set_solver|].
    by apply no_close_before. }
  cbn [script_hashes_fuel]. rewrite E1, E2, E3, !length_app. rewrite (proj2 (Nat.ltb_ge _ _)) by (cbn; lia).
  rewrite (app_assoc tag), drop_app_length', drop_app_length by (rewrite length_app; cbn; lia).
  rewrite IH by (cbn in Hn; lia). cbn [mbind option_bind]. unfold inline_sources, in_page. fold tag.
  destruct (contains_str (lit " src=") tag) eqn:Es; unfold in_page.
  - by rewrite filter_cons_False by (unfold tag in Es; cbn [snd]; rewrite Es; auto).
  - by rewrite filter_cons_True by (unfold tag in Es; cbn [snd]; rewrite Es; done).
Qed.

Lemma source_word body : word (source_of sha256_bytes base64 body).
Proof.
  split; [done|]. unfold source_of. rewrite !Forall_app. split_and!; [by apply visible_text| |by apply visible_text].
  eapply Forall_impl; [apply base64_alphabet|]. intros c [H|H]; cbn beta.
  - apply alphanumeric_ascii in H as H'. unfold is_ascii_alphanumeric, is_ascii_digit, is_ascii_upper, is_ascii_lower in H. lia.
  - revert H. vm_compute. set_solver by lia.
Qed.

(** The directives of [csp]. *)
Definition directives (hashes socket : list str) : list (list str) :=
  [[lit "default-src"; lit "'self'"]; lit "script-src" :: lit "'self'" :: hashes;
   [lit "style-src"; lit "'self'"; lit "'unsafe-inline'"]; [lit "img-src"; lit "'self'"; lit "data:"];
   lit "connect-src" :: lit "'self'" :: socket; [lit "object-src"; lit "'none'"]; [lit "base-uri"; lit "'none'"];
   [lit "form-action"; lit "'self'"]; [lit "frame-ancestors"; lit "'none'"]].

(** The words that the public origin adds. *)
Definition socket_words (public_origin : option str) (socket : list str) : Prop :=
  (public_origin = None → socket = []) ∧
  (∀ h, public_origin = Some (lit "https://" ++ h) → socket = [lit "wss://" ++ h]) ∧
  (∀ h, public_origin = Some (lit "http://" ++ h) → socket = [lit "ws://" ++ h]).

Lemma socket_words_exist public_origin :
  Forall (λ c, 33 ≤ c < 127 ∧ c ≠ 59) (default [] public_origin) →
  ∃ socket, socket_words public_origin socket ∧ Forall word socket ∧
    socket_source public_origin = match socket with w :: _ => 32 :: w | [] => [] end ∧ (length socket ≤ 1)%nat.
Proof.
  intros Ho. destruct public_origin as [o|]; cbn [socket_source default] in *.
  2: { exists []. split; [split_and!; [done|intros h [=]..]|]. split_and!; [constructor|done|cbn; lia]. }
  destruct (strip_prefix (lit "https://") o) as [h|] eqn:E1.
  { apply strip_prefix_Some in E1 as ->. exists [lit "wss://" ++ h]. apply Forall_app in Ho as [_ Ho].
    split; [split_and!; [done|by intros h' [= <-]|intros h' [=]]|]. split_and!; [|done|cbn; lia].
    apply Forall_singleton. split; [done|]. apply Forall_app_2; [by apply visible_text|done]. }
  destruct (strip_prefix (lit "http://") o) as [h|] eqn:E2.
  { apply strip_prefix_Some in E2 as ->. exists [lit "ws://" ++ h]. apply Forall_app in Ho as [_ Ho].
    split; [split_and!; [done|intros h' [=]|by intros h' [= <-]]|]. split_and!; [|done|cbn; lia].
    apply Forall_singleton. split; [done|]. apply Forall_app_2; [by apply visible_text|done]. }
  exists []. split; [split_and!; [done|..]|split_and!; [constructor|done|cbn; lia]].
  - intros h [= ->]. by rewrite (proj2 (strip_prefix_Some _ _ h)) in E1.
  - intros h [= ->]. by rewrite (proj2 (strip_prefix_Some _ _ h)) in E2.
Qed.

Lemma split_cons_space s : words <$> split 59 (32 :: s) = words <$> split 59 s.
Proof.
  cbn [split]. change (32 =? 59) with false. destruct (split 59 s) as [|p ps] eqn:E; [by apply split_not_nil in E|].
  cbn [fmap list_fmap]. by rewrite words_cons_space.
Qed.

(** C36: the policy lets the scripts of the page run and no other.  For every page that
    is text with script elements in it, and a public origin of visible characters: the
    server starts with a policy, and a browser that reads it finds that scripts come
    from Lodger itself or have the hash of an inline script of the page (one source for
    each, in order, and none for a script with an address), that sockets go to Lodger's
    own origin, and that objects, base addresses and frames are ruled out. *)
Theorem csp_exact pieces rest public_origin :
  Forall plain_piece pieces → find_str OPEN rest = None →
  Forall (λ c, 33 ≤ c < 127 ∧ c ≠ 59) (default [] public_origin) →
  ∃ policy socket, csp sha256_bytes base64 (page_text pieces rest) public_origin = Some policy ∧
    directive (lit "script-src") policy = Some (lit "'self'" :: inline_sources pieces) ∧
    directive (lit "connect-src") policy = Some (lit "'self'" :: socket) ∧ socket_words public_origin socket ∧
    Forall (λ name, directive name policy = Some [lit "'none'"])
      [lit "object-src"; lit "base-uri"; lit "frame-ancestors"] ∧
    Forall (λ name, directive name policy = Some [lit "'self'"]) [lit "default-src"; lit "form-action"].
Proof.
  intros Hp Hr Ho. destruct (socket_words_exist public_origin Ho) as (socket & Hs & Hws & Es & Hlen).
  pose proof (script_hashes_page _ pieces rest Hp Hr (le_n _)) as Eh.
  set (hashes := inline_sources pieces) in *. set (ds := directives hashes socket).
  assert (Hds : Forall (λ ws, ws ≠ [] ∧ Forall word ws) ds).
  { assert (Hh : Forall word hashes) by (apply Forall_fmap, Forall_true; intros; apply source_word).
    repeat apply Forall_cons_2; [..|apply Forall_nil_2]; (split; [done|]); repeat apply Forall_cons_2;
      try apply Forall_nil_2; try done; (split; [done|]; by apply visible_text). }
  assert (E : ∃ policy, csp sha256_bytes base64 (page_text pieces rest) public_origin = header_value policy ∧
    32 :: policy = policy_text ds).
  { eexists. split.
    - unfold csp, script_hashes. rewrite Eh. cbn [mbind option_bind]. rewrite foldl_words, Es. reflexivity.
    - destruct socket as [|w [|]]; [reflexivity..|cbn in Hlen; lia]. }
  destruct E as (policy & E & Et). exists policy, socket.
  pose proof (policy_header ds) as Hh. rewrite <- Et in Hh.
  assert (Ew : words <$> split 59 policy = ds).
  { rewrite <- split_cons_space, Et. by apply directives_read. }
  unfold directive. rewrite Ew, E. split_and!; [|reflexivity..|done| |]; [|by repeat constructor..].
  apply header_value_tail with 32. rewrite Et. apply policy_header. eapply Forall_impl; [exact Hds|]. by intros ? [].
Qed.
End pages.

(** ** Witness: a page with one inline script and one with an address *)

Definition demo_page : list (str * Script) :=
  [(lit "<p>", {| attributes := lit " type=module"; inline := lit "start()" |});
   (lit "</p>", {| attributes := lit " src=/app.js"; inline := [] |})].
Definition demo_base64 (b : list Z) : str := to_string (Z.of_nat (length b)).

Lemma demo_alphabet b : Forall (λ c, is_ascii_alphanumeric c = true ∨ c ∈ lit "+/=") (demo_base64 b).
Proof.
  destruct (to_string_spec (Z.of_nat (length b)) ltac:(lia)) as (Hd & _). unfold demo_base64.
  eapply Forall_impl; [exact Hd|]. intros c Hc. left. unfold is_digit in Hc.
  unfold is_ascii_alphanumeric, is_ascii_digit. lia.
Qed.

Lemma csp_exact_witness :
  csp id demo_base64 (page_text demo_page (lit "</html>")) (Some (lit "https://vm.lan")) =
    Some (lit "default-src 'self'; script-src 'self' 'sha256-7'; style-src 'self' 'unsafe-inline'; img-src 'self' data:; connect-src 'self' wss://vm.lan; object-src 'none'; base-uri 'none'; form-action 'self'; frame-ancestors 'none'") ∧
  ∃ policy socket, csp id demo_base64 (page_text demo_page (lit "</html>")) (Some (lit "https://vm.lan")) = Some policy ∧
    directive (lit "script-src") policy = Some (lit "'self'" :: inline_sources id demo_base64 demo_page) ∧
    directive (lit "connect-src") policy = Some (lit "'self'" :: socket) ∧
    socket_words (Some (lit "https://vm.lan")) socket ∧
    Forall (λ name, directive name policy = Some [lit "'none'"])
      [lit "object-src"; lit "base-uri"; lit "frame-ancestors"] ∧
    Forall (λ name, directive name policy = Some [lit "'self'"]) [lit "default-src"; lit "form-action"].
Proof.
  split; [vm_compute; reflexivity|]. apply (csp_exact id demo_base64 demo_alphabet).
  - repeat apply Forall_cons_2; [..|apply Forall_nil_2]; (split_and!; [done|vm_compute; set_solver..|done]).
  - reflexivity.
  - apply visible_text. reflexivity.
Defined.
