(* ===== verification/AuditLog.v ===== *)
(** * The audit log (crates/lodger/src/audit.rs)

    An audit entry, its journald line as JSON, its database row, and the order
    in which the two are written.  [serde_json]'s compact text of the entry is
    written out: strings escape the quote, the backslash and the control
    characters. *)

From S2P Require Import Prelude Text Net Db.

Definition KEEP_DAYS : Z := 365.

Record Detail := {
  via : option str;
  sudo_user : option str;
  action : option str;
  reason : option str
}.

#[export] Instance Detail_eq_dec : EqDecision Detail.
Proof. solve_decision. Defined.

Definition Detail_default : Detail :=
  {| via := None; sudo_user := None; action := None; reason := None |}.

Record Entry := {
  event : str;
  account : option str;
  client_ip : option ip_addr;
  target_kind : option str;
  target : option str;
  result_ : str;
  detail : Detail
}.

Definition is_empty (d : Detail) : bool := bool_decide (d = Detail_default).

Definition Entry_ok (event : str) : Entry :=
  {| event := event; account := None; client_ip := None; target_kind := None; target := None;
     result_ := lit "ok"; detail := Detail_default |}.

Definition Entry_failed (event reason : str) : Entry :=
  {| event := event; account := None; client_ip := None; target_kind := None; target := None;
     result_ := lit "failed";
     detail := {| via := None; sudo_user := None; action := None; reason := Some reason |} |}.

Definition with_account (name : str) (e : Entry) : Entry :=
  {| event := event e; account := Some name; client_ip := client_ip e;
     target_kind := target_kind e; target := target e; result_ := result_ e; detail := detail e |}.

Definition with_client_ip (ip : ip_addr) (e : Entry) : Entry :=
  {| event := event e; account := account e; client_ip := Some ip;
     target_kind := target_kind e; target := target e; result_ := result_ e; detail := detail e |}.

Definition with_target (kind name : str) (e : Entry) : Entry :=
  {| event := event e; account := account e; client_ip := client_ip e;
     target_kind := Some kind; target := Some name; result_ := result_ e; detail := detail e |}.

Definition target_account (name : str) : Entry → Entry := with_target (lit "account") name.
Definition target_vm (name : str) : Entry → Entry := with_target (lit "vm") name.
Definition target_pool (name : str) : Entry → Entry := with_target (lit "pool") name.
Definition target_volume (pool volume : str) : Entry → Entry :=
  with_target (lit "volume") (pool ++ lit "/" ++ volume).
Definition target_network (name : str) : Entry → Entry := with_target (lit "network") name.

(** ** JSON text *)

Definition json_char (c : Z) : str :=
  if c =? 34 then [92; 34]
  else if c =? 92 then [92; 92]
  else if c =? 8 then [92; 98]
  else if c =? 9 then [92; 116]
  else if c =? 10 then [92; 110]
  else if c =? 12 then [92; 102]
  else if c =? 13 then [92; 114]
  else if c <? 32 then [92; 117; 48; 48; hex_digit (Z.shiftr c 4 mod 16); hex_digit (c mod 16)]
  else [c].

Definition json_string (s : str) : str := [34] ++ (s ≫= json_char) ++ [34].

(** A field that [skip_serializing_if] drops when it is [None]. *)
Definition field (name : str) (v : option str) : list str :=
  match v with Some v => [json_string name ++ [58] ++ v] | None => [] end.

Definition json_object (fields : list (list str)) : str :=
  [123] ++ join [44] (concat fields) ++ [125].

Definition Detail_json (d : Detail) : str :=
  json_object [field (lit "via") (json_string <$> via d);
               field (lit "sudo_user") (json_string <$> sudo_user d);
               field (lit "action") (json_string <$> action d);
               field (lit "reason") (json_string <$> reason d)].

Definition Entry_json (e : Entry) : str :=
  json_object [field (lit "event") (Some (json_string (event e)));
               field (lit "account") (json_string <$> account e);
               field (lit "client_ip") (json_string ∘ ip_to_string <$> client_ip e);
               field (lit "target_kind") (json_string <$> target_kind e);
               field (lit "target") (json_string <$> target e);
               field (lit "result") (Some (json_string (result_ e)));
               field (lit "detail")
                 (if is_empty (detail e) then None else Some (Detail_json (detail e)))].

Definition line (e : Entry) : str := lit "lodger: audit: " ++ Entry_json e.

Definition row (e : Entry) : AuditRow :=
  {| aud_event := event e;
     aud_account_name := account e;
     aud_client_ip := ip_to_string <$> client_ip e;
     aud_target_kind := target_kind e;
     aud_target_name := target e;
     aud_result := result_ e;
     aud_detail_json := if negb (is_empty (detail e)) then Some (Detail_json (detail e)) else None |}.

(** ** Writing *)

(** Texts in log lines that follow other crates or the Unicode tables: an error of the
    database, and the [{:?}] form of a text. *)
Class LogText := { sql_text : SqlError → str; debug_text : str → str }.

(** [debug_struct] of std, with some fields and [finish_non_exhaustive], on one line. *)
Definition debug_struct (name : str) (fields : list (str * str)) : str :=
  name ++ lit " { " ++ foldr (λ f rest, f.1 ++ lit ": " ++ f.2 ++ lit ", " ++ rest) (lit ".. }") fields.

Inductive Journal := Stderr | Socket (path : str).
Inductive Wrote := WroteSocket | WroteStderr.

(** [Journal::write].  [sent] is whether the datagram to the journal socket went
    out.  The message carries the line as its last field. *)
Definition journal_message (line : str) : str :=
  lit "SYSLOG_IDENTIFIER=lodger" ++ [10] ++ lit "PRIORITY=5" ++ [10] ++ lit "MESSAGE=" ++ line ++ [10].

Definition journal_write (j : Journal) (sent : bool) (line : str) : Wrote * str :=
  match j with
  | Socket _ => if sent then (WroteSocket, journal_message line) else (WroteStderr, line)
  | Stderr => (WroteStderr, line)
  end.

(** [record]: the journald copy, then the row.  The state is the journal so far
    and the tables. *)
Definition record `{LogText} (j : Journal) (sent : bool) (e : Entry) (env : nat → tick)
    (journal : list str) (t : Tables) (n : nat) :
    list str * (result str unit * Tables * nat) :=
  let '(_, text) := journal_write j sent (line e) in
  let journal := journal ++ [text] in
  let '(r, t, n) := Db.audit (row e) env t n in
  (journal, (map_err (λ e, lit "cannot write the audit row: " ++ sql_text e) r, t, n)).

(** [log]: a failed write is logged and the request goes on. *)
Definition log `{LogText} (e : Entry) (env : nat → tick) (journal : list str) (t : Tables) (n : nat) :
    list str * Tables * nat :=
  let '(journal, (r, t, n)) := record Stderr false e env journal t n in
  (match r with Ok _ => journal | Err e => journal ++ [lit "lodger: " ++ e] end, t, n).

(** One tick of [delete_old_rows]. *)
Definition delete_old_rows `{LogText} (env : nat → tick) (printed : list str) (t : Tables) (n : nat) :
    list str * Tables * nat :=
  let '(r, t, n) := delete_old_audit_rows KEEP_DAYS env t n in
  (match r with
   | Ok rows =>
       if rows =? 0 then printed
       else printed ++ [lit "lodger: audit log: deleted " ++ to_string rows ++ lit " rows older than " ++
                        to_string KEEP_DAYS ++ lit " days"]
   | Err e => printed ++ [lit "lodger: audit log: cannot delete old rows: " ++ sql_text e]
   end, t, n).

(** ** Properties *)

Lemma hex_digit_range d : 0 ≤ d < 16 → 48 ≤ hex_digit d ≤ 102.
Proof. intros. unfold hex_digit. destruct (Z.ltb_spec d 10); lia. Qed.

Lemma json_char_visible c : Forall (λ x, 32 ≤ x) (json_char c).
Proof.
  unfold json_char.
  pose proof (hex_digit_range (Z.shiftr c 4 mod 16) (Z.mod_pos_bound _ 16 ltac:(lia))).
  pose proof (hex_digit_range (c mod 16) (Z.mod_pos_bound _ 16 ltac:(lia))).
  repeat (case_match; [repeat (apply Forall_cons; split; [lia|]); by apply Forall_nil|]).
  bool_hyps. by apply Forall_singleton.
Qed.

Definition visible (s : str) : Prop := Forall (λ x, 32 ≤ x) s.

Lemma visible_app a b : visible (a ++ b) ↔ visible a ∧ visible b.
Proof. apply Forall_app. Qed.

Lemma json_string_visible s : visible (json_string s).
Proof.
  unfold json_string. rewrite !visible_app. split_and!; try by apply Forall_singleton.
  induction s as [|c s IH]; [by apply Forall_nil|]. apply Forall_app. split; [|done].
  apply json_char_visible.
Qed.

Lemma join_visible c ps : 32 ≤ c → Forall visible ps → visible (join [c] ps).
Proof.
  intros Hc. induction 1 as [|p ps Hp Hps IH]; [by apply Forall_nil|].
  destruct ps as [|q ps]; [done|]. rewrite join_cons by done.
  rewrite visible_app. split; [done|]. by apply Forall_cons.
Qed.

Lemma field_visible name v :
  match v with Some v => visible v | None => True end → Forall visible (field name v).
Proof.
  destruct v as [v|]; unfold field; [|by constructor]. intros Hv. apply Forall_singleton.
  rewrite !visible_app. split_and!; [apply json_string_visible|by apply Forall_singleton|done].
Qed.

Lemma json_object_visible fields : Forall (Forall visible) fields → visible (json_object fields).
Proof.
  intros Hf. unfold json_object. rewrite !visible_app.
  split_and!; try by apply Forall_singleton. apply join_visible; [lia|]. by apply Forall_concat.
Qed.

Lemma Entry_json_visible e : visible (Entry_json e).
Proof.
  assert (Hs : ∀ (o : option str), match json_string <$> o with Some v => visible v | None => True end)
    by (intros [s|]; simpl; [apply json_string_visible|done]).
  apply json_object_visible.
  repeat (apply Forall_cons; split; [apply field_visible|]); try apply Forall_nil; try done;
    try apply Hs; try apply json_string_visible.
  - destruct (client_ip e); simpl; [apply json_string_visible|done].
  - destruct (is_empty (detail e)); [done|]. apply json_object_visible.
    by repeat (apply Forall_cons; split; [apply field_visible, Hs|]).
Qed.

Lemma line_visible e : visible (line e).
Proof.
  unfold line. rewrite visible_app. split; [|apply Entry_json_visible].
  by repeat (apply Forall_cons; split; [by vm_compute|]).
Qed.

(** Nobody can forge a log line.  Whatever the names in an audit entry hold,
    its journald line is one line without any control character, and the message
    for the journal socket holds exactly three newlines, so exactly three fields.
    The copy reaches the journal also when the database write fails, and a failed
    write leaves the tables as they were. *)
Theorem audit_cannot_forge_lines `{LogText} e j sent env journal t n :
  (∀ c, c ∈ line e → 32 ≤ c) ∧
  length (filter (λ c, c = 10) (journal_message (line e))) = 3%nat ∧
  (let '(journal', (r, t', _)) := record j sent e env journal t n in
   (∃ text, journal' = journal ++ [text] ∧ (text = line e ∨ text = journal_message (line e))) ∧
   match r with
   | Ok _ => ∃ ts, tab_audit t' = tab_audit t ++ [(ts, row e)]
   | Err _ => t' = t
   end).
Proof.
  pose proof (line_visible e) as Hv. unfold visible in Hv. rewrite Forall_forall in Hv.
  split_and!; [done| |].
  - unfold journal_message. rewrite !filter_app.
    assert (Hl : filter (λ c, c = 10) (line e) = []).
    { generalize Hv. generalize (line e). intros l Hl. induction l as [|c l IH]; [done|].
      rewrite filter_cons_False; [apply IH; set_solver|]. intros ->. specialize (Hl 10). set_solver by lia. }
    rewrite Hl. reflexivity.
  - unfold record, journal_write.
    destruct (Db.audit (row e) env t n) as [[r t'] n'] eqn:E.
    destruct j; [|destruct sent]; (split; [eexists; split; [done|tauto]|]);
      (destruct r as [[]|err]; simpl;
       [apply statement_Ok in E as (_ & _ & [= <-]); by eexists|by eapply statement_Err]).
Qed.

(** Log texts for the witnesses. *)
Definition log_text_plain : LogText := {| sql_text := λ _, lit "database error"; debug_text := λ t, t |}.
