(* ===== verification/Server.v ===== *)
(** * Handlers as programs over shared state
    (crates/lodger/src/server.rs: [AppState]; crates/lodger/src/passwords.rs)

    A handler is a program of atomic steps on the state that all requests share.
    Between two steps other requests run, as at the [await] points of the code:
    [exec] runs one program alone, [pool_step] interleaves any number of them.
    Each step reads an environment: the clock, the fate of each SQL statement,
    the random bytes, whether a blocking task survived, and the salt of a hash. *)

From S2P Require Import Prelude Text Net Throttle Tickets Db AuditLog.

Record SetupToken := { setup_hash : list Z; setup_expires : Z }.

(** A run of argon2: what the time and the memory of a request go to. *)
Inductive Argon2Run := Hashes (password : str) | Checks (password stored : str).

(** [app_argon2] is no field of the code: it keeps the runs of argon2 that the requests
    asked for, which a client sees as the time of its answer. *)
Record AppState := {
  app_db : Tables;
  app_throttle : Counters;
  app_tickets : Tickets;
  app_setup : option SetupToken;
  app_journal : list str;
  app_argon2 : list Argon2Run
}.

Record env := {
  e_instant : Z;
  e_sql : nat → tick;
  e_random : result str (list Z);
  e_task : bool;
  e_salt : list Z
}.

Definition with_db (t : Tables) (s : AppState) : AppState :=
  {| app_db := t; app_throttle := app_throttle s; app_tickets := app_tickets s;
     app_setup := app_setup s; app_journal := app_journal s;
     app_argon2 := app_argon2 s |}.
Definition with_throttle (c : Counters) (s : AppState) : AppState :=
  {| app_db := app_db s; app_throttle := c; app_tickets := app_tickets s;
     app_setup := app_setup s; app_journal := app_journal s;
     app_argon2 := app_argon2 s |}.
Definition with_tickets (m : Tickets) (s : AppState) : AppState :=
  {| app_db := app_db s; app_throttle := app_throttle s; app_tickets := m;
     app_setup := app_setup s; app_journal := app_journal s;
     app_argon2 := app_argon2 s |}.
Definition with_setup (o : option SetupToken) (s : AppState) : AppState :=
  {| app_db := app_db s; app_throttle := app_throttle s; app_tickets := app_tickets s;
     app_setup := o; app_journal := app_journal s;
     app_argon2 := app_argon2 s |}.
Definition with_journal (l : list str) (s : AppState) : AppState :=
  {| app_db := app_db s; app_throttle := app_throttle s; app_tickets := app_tickets s;
     app_setup := app_setup s; app_journal := l;
     app_argon2 := app_argon2 s |}.

Definition with_argon2 (runs : list Argon2Run) (s : AppState) : AppState :=
  {| app_db := app_db s; app_throttle := app_throttle s; app_tickets := app_tickets s;
     app_setup := app_setup s; app_journal := app_journal s; app_argon2 := runs |}.

(** ** Programs *)

Inductive prog (A : Type) : Type :=
| Ret (a : A)
| Atom (B : Type) (f : env → AppState → AppState * B) (k : B → prog A).
Arguments Ret {A} a.
Arguments Atom {A B} f k.

#[export] Instance prog_ret : MRet prog := @Ret.
#[export] Instance prog_bind : MBind prog := λ A B f,
  fix go p := match p with Ret a => f a | Atom g k => Atom g (λ b, go (k b)) end.

Definition atom {B} (f : env → AppState → AppState * B) : prog B := Atom f Ret.

(** A program alone: step [n] has environment [e n]. *)
Fixpoint exec {A} (p : prog A) (e : nat → env) (s : AppState) (n : nat) : A * AppState * nat :=
  match p with
  | Ret a => (a, s, n)
  | Atom f k => let '(s', b) := f (e n) s in exec (k b) e s' (S n)
  end.

(** Any number of programs, one step of one of them at a time. *)
Inductive pool_step {A} : AppState * list (prog A) → AppState * list (prog A) → Prop :=
| pool_atom s ps i B (f : env → AppState → AppState * B) k e s' b :
    ps !! i = Some (Atom f k) → f e s = (s', b) → pool_step (s, ps) (s', <[i := k b]> ps).

(** A schedule: which program takes the next step, and in which environment. *)
Fixpoint run_schedule {A} (sched : list (nat * env)) (c : AppState * list (prog A)) :
    AppState * list (prog A) :=
  match sched with
  | [] => c
  | (i, e) :: sched =>
      match c.2 !! i with
      | Some (Atom f k) => let '(s', b) := f e c.1 in run_schedule sched (s', <[i := k b]> c.2)
      | _ => run_schedule sched c
      end
  end.

Lemma run_schedule_steps {A} sched (c : AppState * list (prog A)) :
  rtc pool_step c (run_schedule sched c).
Proof.
  revert c. induction sched as [|[i e] sched IH]; intros [s ps]; simpl; [done|].
  destruct (ps !! i) as [[a|B f k]|] eqn:Ep; [apply IH| |apply IH].
  destruct (f e s) as [s' b] eqn:Ef. eapply rtc_l; [by eapply pool_atom|apply IH].
Qed.

(** ** The steps of the handlers *)

(** A database call: it holds the connection's mutex to its end. *)
Definition db {A} (m : sql A) : prog (result SqlError A) :=
  atom (λ e s, let '(r, t, _) := m (e_sql e) (app_db s) O in (with_db t s, r)).

(** [eprintln!]: the standard error, which also has the lines of the audit log. *)
Definition eprintln (line : str) : prog unit :=
  atom (λ _ s, (with_journal (app_journal s ++ [line]) s, tt)).

(** [audit::log]. *)
Definition audit_log `{LogText} (entry : Entry) : prog unit :=
  atom (λ e s, let '(j, t, _) := log entry (e_sql e) (app_journal s) (app_db s) O in
               (with_journal j (with_db t s), tt)).

(** [getrandom::fill]. *)
Definition random : prog (result str (list Z)) := atom (λ e s, (s, e_random e)).

(** Work with argon2: its runs, and its result. *)
Definition hashing (A : Type) : Type := env → list Argon2Run * A.

(** [passwords::run]: [None] when the task failed. *)
Definition run_task {A} (work : hashing A) : prog (option A) :=
  atom (λ e s, let '(runs, a) := work e in
               (with_argon2 (app_argon2 s ++ runs) s, if e_task e then Some a else None)).

(** The argon2 crate: a hash for a salt, and the check of a PHC string. *)
Class Argon2 := {
  argon2_hash : list Z → str → result str str;
  argon2_verify : str → str → bool
}.

(** What its documentation promises: a password matches its own hash. *)
Class Argon2Laws `{Argon2} := {
  verify_hash salt p h : argon2_hash salt p = Ok h → argon2_verify p h = true
}.

Section passwords.
Context `{Argon2}.

(** passwords.rs. *)
Definition hash (password : str) : hashing (result str str) := λ e,
  ([Hashes password], argon2_hash (e_salt e) password).
Definition verify (password stored : str) : hashing bool := λ _,
  ([Checks password stored], argon2_verify password stored).
(** [verify_nobody]: the check against the dummy hash, whose result is dropped. *)
Definition verify_nobody (dummy password : str) : hashing bool := λ e,
  let '(runs, _) := verify password dummy e in (runs, false).
End passwords.

(** ** Facts about programs *)

Lemma exec_bind {A B} (p : prog A) (f : A → prog B) e s n :
  exec (p ≫= f) e s n = let '(a, s', n') := exec p e s n in exec (f a) e s' n'.
Proof.
  revert s n. induction p as [a|C g k IH]; intros s n; [done|]. simpl.
  destruct (g (e n) s) as [s' b]. apply IH.
Qed.

(** What an audit entry does to the tables is its row. *)
Lemma log_tables `{LogText} entry e j t n :
  (log entry e j t n).1.2 = (Db.audit (row entry) e t n).1.2.
Proof. unfold log, record. simpl. by destruct (Db.audit (row entry) e t n) as [[r t'] n']. Qed.

(** The audit log touches neither accounts nor sessions. *)
Lemma audit_log_tables `{LogText} entry e s n :
  let s' := (exec (audit_log entry) e s n).1.2 in
  tab_accounts (app_db s') = tab_accounts (app_db s) ∧
  tab_sessions (app_db s') = tab_sessions (app_db s) ∧
  app_throttle s' = app_throttle s ∧ app_tickets s' = app_tickets s ∧ app_setup s' = app_setup s.
Proof.
  simpl. pose proof (log_tables entry (e_sql (e n)) (app_journal s) (app_db s) 0) as Hl.
  destruct (log entry (e_sql (e n)) (app_journal s) (app_db s) 0) as [[j t] m]. simpl in *. subst t.
  unfold Db.audit, statement. by destruct (tick_fault _).
Qed.

(** ** What a program run alone guarantees *)

Definition wp {A} (p : prog A) (Q : A → AppState → Prop) (s : AppState) : Prop :=
  ∀ e n, Q (exec p e s n).1.1 (exec p e s n).1.2.

Lemma wp_ret {A} (a : A) (Q : A → AppState → Prop) s : Q a s → wp (mret a) Q s.
Proof. by intros HQ e n. Qed.

Lemma wp_bind {A B} (p : prog A) (f : A → prog B) Q s :
  wp p (λ a s', wp (f a) Q s') s → wp (p ≫= f) Q s.
Proof.
  intros Hp e n. specialize (Hp e n). rewrite exec_bind.
  destruct (exec p e s n) as [[a s'] n']. apply Hp.
Qed.

Lemma wp_atom {B} (f : env → AppState → AppState * B) (Q : B → AppState → Prop) s :
  (∀ e, Q (f e s).2 (f e s).1) → wp (atom f) Q s.
Proof. intros Hf e n. specialize (Hf (e n)). simpl. by destruct (f (e n) s). Qed.

Lemma wp_db {A} (m : sql A) Q s :
  (∀ env r t n, m env (app_db s) O = (r, t, n) → Q r (with_db t s)) → wp (db m) Q s.
Proof.
  intros Hm. apply wp_atom. intros e.
  destruct (m (e_sql e) (app_db s) O) as [[r t] n] eqn:E. by eapply Hm.
Qed.

Lemma wp_run_task {A} (work : hashing A) Q s :
  (∀ e, Q (if e_task e then Some (work e).2 else None) (with_argon2 (app_argon2 s ++ (work e).1) s)) →
  wp (run_task work) Q s.
Proof. intros HQ. apply wp_atom. intros e. specialize (HQ e). by destruct (work e) as [runs a]. Qed.

Lemma wp_audit `{LogText} entry (Q : unit → AppState → Prop) s :
  (∀ s', tab_accounts (app_db s') = tab_accounts (app_db s) →
         tab_sessions (app_db s') = tab_sessions (app_db s) →
         app_throttle s' = app_throttle s → app_tickets s' = app_tickets s →
         app_setup s' = app_setup s → Q tt s') →
  wp (audit_log entry) Q s.
Proof.
  intros HQ e n. destruct (audit_log_tables entry e s n) as (Ha & Hs & Ht & Hk & Hp).
  destruct (exec (audit_log entry) e s n) as [[[] s'] n']. by apply HQ.
Qed.

Lemma wp_eprintln line (Q : unit → AppState → Prop) s :
  (∀ j, Q tt (with_journal j s)) → wp (eprintln line) Q s.
Proof. intros HQ. apply wp_atom. intros e. apply HQ. Qed.

Lemma wp_mono {A} (p : prog A) (Q Q' : A → AppState → Prop) s :
  wp p Q s → (∀ a s', Q a s' → Q' a s') → wp p Q' s.
Proof. intros Hp HQ e n. apply HQ, Hp. Qed.
