(* ===== verification/Admin.v ===== *)
(** * Account recovery (crates/lodger/src/admin.rs)

    [lodger admin]: what must hold before a command opens the database, and the two
    commands as programs on the database of the running service. *)

From S2P Require Import Prelude Text Os Net Validate Password Throttle Tickets Db AuditLog Http Config Server.

(** db/mod.rs: the file of the database in the state directory. *)
Definition FILE : str := lit "lodger.db".

Inductive AdminAction := ResetPassword (username : str) | Create (username : str).

(** [effective_uid]. *)
Definition effective_uid (status : str) : option Z :=
  ids ← head (omap (strip_prefix (lit "Uid:")) (lines status));
  words ids !! 1%nat ≫= parse_unsigned U32_MAX.

(** [require_root]. *)
Definition require_root (status : result io_error str) (command : str) : result str unit :=
  match ok status ≫= effective_uid with
  | Some 0 => Ok tt
  | _ => Err (lit "lodger " ++ command ++ lit " must run as root. Use sudo lodger " ++ command ++ lit " ...")
  end.

(** [read_password]: the two answers of the prompt, or one line of stdin. *)
Definition read_password (terminal : bool) (first second line : result str str) : result str str :=
  let cannot e := lit "cannot read the password: " ++ e in
  if terminal then
    first ← map_err cannot first;
    second ← map_err cannot second;
    if bool_decide (first = second) then Ok first else Err (lit "the two passwords differ")
  else
    line ← map_err cannot line;
    Ok (trim_end_with (λ c, (c =? 10) || (c =? 13)) line).

Definition RESET : str := lit "account.reset_password".
Definition CREATE : str := lit "account.create".

(** [Context]: the user who ran sudo. *)
Definition cli_entry (sudo_user : option str) (e : Entry) : Entry :=
  {| event := event e; account := account e; AuditLog.client_ip := AuditLog.client_ip e; target_kind := target_kind e;
     target := target e; result_ := result_ e;
     detail := {| via := Some (lit "cli"); sudo_user := sudo_user; action := action (detail e);
                  reason := reason (detail e) |} |}.

Section admin.
Context `{Ipnet} `{Lowercase} `{Argon2} `{LogText}.
Variable COMMON : list str.
(** The texts of the errors. *)
Variable input_error_text : InputError → str.
Variable password_error_text : PasswordError → str.
(** The journal of the host, whether it takes a message, and who ran sudo. *)
Variable journal : Journal.
Variable sent : env → bool.
Variable sudo : option str.
(** [read_password] for a name. *)
Variable read : str → result str str.

(** A database call of a command, with [?]. *)
Definition db_or {A} (m : sql A) (k : A → prog (result str str)) : prog (result str str) :=
  r ← db m; match r with Ok a => k a | Err e => mret (Err (sql_text e)) end.

(** [Context::audit]. *)
Definition audit (entry : Entry) : prog (result str unit) :=
  atom (λ e s,
    let '(j, (r, t, _)) := record journal (sent e) (cli_entry sudo entry) (e_sql e) (app_journal s) (app_db s) O in
    (with_journal j (with_db t s), r)).
Definition audit_then (entry : Entry) (r : result str str) : prog (result str str) :=
  written ← audit entry; mret (match written with Ok _ => r | Err e => Err e end).

(** [new_hash]. *)
Definition new_hash (username : str) : prog (result str str) :=
  atom (λ e s,
    match (password ← read username;
           _ ← map_err password_error_text (Password.check COMMON password);
           mret password) : result str str with
    | Err err => (s, Err err)
    | Ok password =>
        let '(runs, hashed) := Server.hash password e in
        (with_argon2 (app_argon2 s ++ runs) s, map_err (λ err, lit "cannot hash the password: " ++ err) hashed)
    end).

(** [parse_name]. *)
Definition parse_name (username : str) : result str str :=
  map_err input_error_text (as_str <$> Name_parse (lit "username") username).

Definition no_account (username : str) : str := lit "there is no account called " ++ username.
Definition name_taken (username : str) : str := lit "an account called " ++ username ++ lit " exists already".

(** [reset_password]. *)
Definition reset_password (username : str) : prog (result str str) :=
  match parse_name username with
  | Err e => mret (Err e)
  | Ok username =>
      let missing := audit_then (target_account username (Entry_failed RESET (lit "no_such_account")))
                       (Err (no_account username)) in
      db_or (find_account username) (λ found,
        match found with
        | None => missing
        | Some account =>
            let name := account_username account in
            hash ← new_hash name;
            match hash with
            | Err e => mret (Err e)
            | Ok hash =>
                db_or (Db.reset_password name hash) (λ ended,
                  match ended with
                  | Some ended =>
                      audit_then (target_account name (Entry_ok RESET))
                        (Ok (lit "Set a new password for " ++ name ++ lit " and ended " ++ to_string ended ++
                             lit " session(s)."))
                  | None => missing
                  end)
            end
        end)
  end.

(** [create]. *)
Definition create (username : str) : prog (result str str) :=
  match parse_name username with
  | Err e => mret (Err e)
  | Ok username =>
      let taken := audit_then (target_account username (Entry_failed CREATE (lit "name_taken")))
                     (Err (name_taken username)) in
      db_or (find_account username) (λ found,
        match found with
        | Some _ => taken
        | None =>
            hash ← new_hash username;
            match hash with
            | Err e => mret (Err e)
            | Ok hash =>
                db_or (create_account username hash) (λ id,
                  match id with
                  | Some _ => audit_then (target_account username (Entry_ok CREATE))
                                (Ok (lit "Created the account " ++ username ++ lit "."))
                  | None => taken
                  end)
            end
        end)
  end.

(** ** Before the database *)

Variable toml_from_str : str → result str ConfigFile.
Variable parse_uri : str → option Uri.
Variable debug_fmt : str → str.

(** The start of [run]: the state directory whose database the command opens. *)
Definition checked_state_dir (overrides : Overrides) (state_directory : option str) : os (result str str) :=
  status ← read_to_string (lit "/proc/self/status");
  match require_root status (lit "admin") with
  | Err e => mret (Err e)
  | Ok _ =>
      and_then (load toml_from_str parse_uri debug_fmt overrides state_directory) (λ config,
        let path := join_path (state_dir config) FILE in
        there ← exists_ path;
        mret (if (there : bool) then Ok (state_dir config)
              else Err (lit "there is no database at " ++ path ++
                lit ". Start the Lodger service once, or name the state directory with --state-dir")))
  end.

(** The rest of [run], once [Db::open] has opened the database. *)
Definition run_action (action : AdminAction) (opened : result str unit) : prog (result str str) :=
  match opened with
  | Err e => mret (Err e)
  | Ok _ => match action with ResetPassword username => reset_password username | Create username => create username end
  end.
End admin.

(** ** What the commands guarantee *)

Section guarantees.
Context `{Ipnet} `{Lowercase} `{Argon2} `{!Argon2Laws} `{LogText}.
Variables (COMMON : list str) (input_error_text : InputError → str)
  (password_error_text : PasswordError → str)
  (journal : Journal) (sent : env → bool) (sudo : option str) (read : str → result str str).

Definition audit_failed (r : result str str) : Prop :=
  ∃ err, r = Err (lit "cannot write the audit row: " ++ sql_text err).

(** The accounts and sessions are as they were. *)
Definition same_access (s s' : AppState) : Prop :=
  tab_accounts (app_db s') = tab_accounts (app_db s) ∧ tab_sessions (app_db s') = tab_sessions (app_db s).

(** The last audit row is this entry, marked as a change of the command line. *)
Definition recorded (entry : Entry) (s' : AppState) : Prop :=
  ∃ now, last (tab_audit (app_db s')) = Some (now, row (cli_entry sudo entry)).

Lemma wp_audit_then entry r (Q : result str str → AppState → Prop) s :
  (∀ s', same_access s s' → recorded entry s' → Q r s') →
  (∀ r' s', audit_failed r' → same_access s s' → Q r' s') →
  wp (audit_then journal sent sudo entry r) Q s.
Proof.
  intros HO HE. apply wp_bind, wp_atom. intros e. unfold record.
  destruct (journal_write _ _ _) as [w text].
  destruct (Db.audit (row (cli_entry sudo entry)) (e_sql e) (app_db s) 0%nat) as [[[u|err] t] n] eqn:E;
    cbn [fst snd map_err]; apply wp_ret.
  - apply statement_Ok in E as (_ & _ & [= _ <-]). apply HO; [done|]. eexists. cbn. by rewrite last_snoc.
  - apply statement_Err in E as ->. apply HE; [by eexists|done].
Qed.

Lemma wp_new_hash username (Q : result str str → AppState → Prop) s :
  (∀ p salt h s', read username = Ok p → Password.check COMMON p = Ok tt → argon2_hash salt p = Ok h →
     app_db s' = app_db s → Q (Ok h) s') →
  (∀ e s', app_db s' = app_db s → Q (Err e) s') →
  wp (new_hash COMMON password_error_text read username) Q s.
Proof.
  intros HO HE. apply wp_atom. intros e. unfold Server.hash.
  destruct (read username) as [p|] eqn:Er; [|by apply HE]. cbn [mbind result_bind].
  destruct (Password.check COMMON p) as [[]|] eqn:Ec; [|by apply HE]. cbn [map_err mbind result_bind mret result_ret fst snd].
  destruct (argon2_hash (e_salt e) p) eqn:Eh; [by eapply HO|by apply HE].
Qed.

(** What a new password does to a row: the password opens it, and nothing but the hash
    and the time of its change is new. *)
Definition password_set (p : str) (c c' : AccountRow) : Prop :=
  argon2_verify p (acc_hash c') = true ∧ acc_id c' = acc_id c ∧ acc_username c' = acc_username c ∧
  acc_created_at c' = acc_created_at c.

(** The access that a new password leaves: it is the password of this account, every
    other row is as it was, and of the sessions exactly those of this account are gone. *)
Definition reset_done (a : AccountRow) (p : str) (s s' : AppState) : Prop :=
  Forall2 (λ c c', if acc_id c =? acc_id a then password_set p c c' else c' = c)
    (tab_accounts (app_db s)) (tab_accounts (app_db s')) ∧
  tab_sessions (app_db s') = filter (λ x, ses_account x ≠ acc_id a) (tab_sessions (app_db s)).

Definition reset_post (username : str) (s : AppState) (r : result str str) (s' : AppState) : Prop :=
  same_access s s' ∧ is_ok r = false ∨
  ∃ name a b p, parse_name input_error_text username = Ok name ∧
    a ∈ tab_accounts (app_db s) ∧ nocase (acc_username a) = nocase name ∧
    b ∈ tab_accounts (app_db s) ∧ nocase (acc_username b) = nocase name ∧
    read (acc_username b) = Ok p ∧ Password.check COMMON p = Ok tt ∧
    reset_done a p s s' ∧
    (is_ok r = true ∧ recorded (target_account (acc_username b) (Entry_ok RESET)) s' ∨ audit_failed r).

(** C14: the recovery command gives the account back.  Whatever fails and whatever the
    password is: either nothing about accounts and sessions changed and the command
    ends with an error; or the name passed the same check as in the web UI, an account
    has it up to case, the new password passed the policy and now opens that account,
    every session of the account is gone, no other session is, and the change is in
    the audit log with the mark of the command line (when that row cannot be written,
    the command says so and ends with an error). *)
Theorem admin_reset_correct username s :
  wp (reset_password COMMON input_error_text password_error_text journal sent sudo read username)
     (reset_post username s) s.
Proof.
  unfold reset_password. destruct (parse_name input_error_text username) as [name|e] eqn:En.
  2: { apply wp_ret. by left. }
  assert (Hmissing : ∀ s1 entry e, same_access s s1 →
    wp (audit_then journal sent sudo entry (Err e)) (reset_post username s) s1).
  { intros s1 entry e [Ha1 Ha2]. apply wp_audit_then.
    - intros s2 [Ha3 Ha4] _. left. split; [split; congruence|done].
    - intros r' s2 [err ->] [Ha3 Ha4]. left. split; [split; congruence|done]. }
  unfold db_or. apply wp_bind, wp_db. intros env r t n E. apply find_account_spec in E as [-> Hr].
  destruct r as [[account|]|err]; [|by apply Hmissing|apply wp_ret; by left].
  destruct Hr as (b & Hb & Hbn & ->). apply wp_bind, wp_new_hash; [|intros e s1 Hs1; apply wp_ret; left; unfold same_access; by rewrite Hs1].
  intros p salt h s1 Hp Hc Hh Hs1. cbn [account_username to_account app_db with_db] in *.
  apply wp_bind, wp_db. intros env' r' t' n' E'. rewrite Hs1 in E'.
  destruct r' as [[ended|]|err].
  - destruct (reset_password_rows _ _ _ _ _ _ _ _ E') as (a & Ha & Han & Hrows & Hses).
    assert (Hdone : ∀ s2, same_access (with_db t' s1) s2 → reset_done a p s s2).
    { intros s2 [Ha1 Ha2]. cbn [app_db with_db] in Ha1, Ha2. unfold reset_done. rewrite Ha1, Ha2. split; [|done].
      eapply Forall2_impl; [exact Hrows|]. intros c c' Hcc. cbv beta in *. destruct (acc_id c =? acc_id a); [|done].
      destruct Hcc as (Hash & Hrest). split; [|done]. rewrite Hash. by eapply verify_hash. }
    apply wp_audit_then; [intros s2 Hs2 Hrec|intros r2 s2 Hr2 Hs2]; right; exists name, a, b, p;
      (split_and!; [done|done|congruence|done..|by apply Hdone|]); [by left|by right].
  - destruct (reset_password_spec _ _ _ _ _ _ _ _ E') as [-> _]. apply Hmissing. unfold same_access. by rewrite <- Hs1.
  - apply transaction_Err in E' as ->. apply wp_ret. left. unfold same_access. by rewrite <- Hs1.
Qed.

Definition create_post (username : str) (s : AppState) (r : result str str) (s' : AppState) : Prop :=
  same_access s s' ∧ is_ok r = false ∨
  ∃ name p a, parse_name input_error_text username = Ok name ∧ read name = Ok p ∧
    Password.check COMMON p = Ok tt ∧
    (∀ b, b ∈ tab_accounts (app_db s) → nocase (acc_username b) ≠ nocase name) ∧
    tab_accounts (app_db s') = tab_accounts (app_db s) ++ [a] ∧ acc_username a = name ∧
    argon2_verify p (acc_hash a) = true ∧ tab_sessions (app_db s') = tab_sessions (app_db s) ∧
    (is_ok r = true ∧ recorded (target_account name (Entry_ok CREATE)) s' ∨ audit_failed r).

(** The command that adds an account adds exactly one, under a name that no account
    has up to case, with a password that passed the policy and opens it. *)
Theorem admin_create_correct username s :
  wp (create COMMON input_error_text password_error_text journal sent sudo read username)
     (create_post username s) s.
Proof.
  unfold create. destruct (parse_name input_error_text username) as [name|e] eqn:En.
  2: { apply wp_ret. by left. }
  assert (Htaken : ∀ s1 entry e, same_access s s1 →
    wp (audit_then journal sent sudo entry (Err e)) (create_post username s) s1).
  { intros s1 entry e [Ha1 Ha2]. apply wp_audit_then.
    - intros s2 [Ha3 Ha4] _. left. split; [split; congruence|done].
    - intros r' s2 [err ->] [Ha3 Ha4]. left. split; [split; congruence|done]. }
  unfold db_or. apply wp_bind, wp_db. intros env r t n E. apply find_account_spec in E as [-> Hr].
  destruct r as [[account|]|err]; [by apply Htaken| |apply wp_ret; by left].
  apply wp_bind, wp_new_hash; [|intros e s1 Hs1; apply wp_ret; left; unfold same_access; by rewrite Hs1].
  intros p salt h s1 Hp Hc Hh Hs1. cbn [app_db with_db] in Hs1. apply wp_bind, wp_db. intros env' r' t' n' E'. rewrite Hs1 in E'.
  unfold create_account, mbind, sql_bind, attempt in E'.
  destruct (insert_account name h env' (app_db s) 0%nat) as [[ri ti] ni] eqn:Ei.
  pose proof (insert_account_spec _ _ _ _ _ _ _ _ Ei) as Hi.
  destruct ri as [id|ei].
  - injection E' as <- <- _. destruct Hi as (_ & Hfree & ->).
    apply wp_audit_then; [intros s2 [Ha1 Ha2] Hrec|intros r2 s2 Hr2 [Ha1 Ha2]]; right; exists name, p; eexists;
      cbn [app_db with_db tab_accounts tab_sessions with_accounts] in Ha1, Ha2;
      (split_and!; [done..|exact Ha1|done|by eapply verify_hash|exact Ha2|]); [by left|by right].
  - destruct ei; injection E' as <- <- _; try (subst ti; apply wp_ret; by left).
    destruct Hi as [-> _]. by apply Htaken.
Qed.
End guarantees.

(** ** Witness: the password of bob is set again *)

Definition argon2_demo : Argon2 := {| argon2_hash := λ _ p, Ok (36 :: p); argon2_verify := λ p h, bool_decide (h = 36 :: p) |}.
Definition argon2_demo_laws : @Argon2Laws argon2_demo.
Proof. constructor. intros salt p h [= <-]. by apply bool_decide_true. Defined.

Definition recovery_state : AppState :=
  {| app_db := small; app_throttle := Counters_default; app_tickets := ∅; app_setup := None; app_journal := []; app_argon2 := [] |}.

Definition recovery_env (n : nat) : env :=
  {| e_instant := 0; e_sql := calm; e_random := Ok []; e_task := true; e_salt := [] |}.

Definition types_it (_ : str) : result str str := Ok (lit "a brand new password").

Definition reset_bob : prog (result str str) :=
  @reset_password ipnet_ref ascii_lowercase argon2_demo log_text_plain [] (λ _, []) (λ _, []) Stderr (λ _, false)
    (Some (lit "root")) types_it (lit "BOB").

Lemma admin_reset_correct_witness :
  (exec reset_bob recovery_env recovery_state O).1.1 = Ok (lit "Set a new password for bob and ended 0 session(s).") ∧
  wp reset_bob (@reset_post ipnet_ref ascii_lowercase argon2_demo log_text_plain [] (λ _, []) (Some (lit "root")) types_it (lit "BOB") recovery_state)
    recovery_state.
Proof. split; [vm_compute; reflexivity|]. apply (@admin_reset_correct ipnet_ref ascii_lowercase argon2_demo argon2_demo_laws log_text_plain). Defined.
