(* ===== verification/DbFile.v ===== *)
(** * Opening the database (crates/lodger/src/db/mod.rs: [open], [prepare] and
    [prepare_files])

    The folder and the file of the database as a program of system calls, and the
    settings of the connection before the migrations.  SQLite is an interface. *)

From S2P Require Import Prelude Text Os Db Admin.

(** ** The folder and the file *)

(** [mkdir] with a mode. *)
Definition mkdir (mode : Z) (p : str) : os (result io_error unit) :=
  Os.may_fail (λ e w,
    match fs w !! p with
    | Some _ => (w, Err EEXIST)
    | None =>
        if match parent p with Some dir => is_dir_at (fs w) dir | None => false end
        then (with_fs (<[p := Folder (Z.ldiff mode (umask e)) (ids e).1 (ids e).2]> (fs w)) w, Ok tt)
        else (w, Err ENOENT)
    end).

(** A folder that is there already is no error. *)
Definition unless_dir (p : str) (r : result io_error unit) : os (result io_error unit) :=
  match r with
  | Ok _ => mret (Ok tt)
  | Err e => there ← is_dir p; mret (if (there : bool) then Ok tt else Err e)
  end.

(** [DirBuilder::new().recursive(true).mode(..).create(..)], where [n] bounds the depth. *)
Fixpoint create_all_fuel (n : nat) (mode : Z) (p : str) : os (result io_error unit) :=
  if bool_decide (p = []) then mret (Ok tt)
  else
    made ← mkdir mode p;
    match made, n with
    | Err e, S n =>
        match io_kind e with
        | KNotFound =>
            match parent p with
            | Some up =>
                and_then (create_all_fuel n mode up) (λ _, again ← mkdir mode p; unless_dir p again)
            | None => mret (Err {| io_kind := KOther; io_text := lit "failed to create whole tree" |})
            end
        | _ => unless_dir p made
        end
    | _, _ => unless_dir p made
    end.
Definition create_all (mode : Z) (p : str) : os (result io_error unit) := create_all_fuel (length p) mode p.

(** [OpenOptions] with write, create_new and a mode. *)
Definition open_new (p : str) (mode : Z) : os (result io_error unit) :=
  Os.may_fail (λ e w,
    match fs w !! p with
    | Some _ => (w, Err EEXIST)
    | None =>
        if match parent p with Some dir => is_dir_at (fs w) dir | None => false end
        then (with_fs (<[p := File [] (Z.ldiff mode (umask e)) (ids e).1 (ids e).2]> (fs w)) w, Ok tt)
        else (w, Err ENOENT)
    end).

Definition failed_to (what path : str) (e : io_error) : str := lit "cannot " ++ what ++ path ++ lit ": " ++ io_text e.

(** [map_err]. *)
Definition os_map_err {E F A} (f : E → F) (p : os (result E A)) : os (result F A) := r ← p; mret (map_err f r).

(** [prepare_files]; the modes 0700 and 0600 are 448 and 384. *)
Definition prepare_files (state_dir path : str) : os (result str unit) :=
  and_then (os_map_err (failed_to (lit "create ") state_dir) (create_all 448 state_dir)) (λ _,
  and_then (os_map_err (failed_to (lit "set the mode of ") state_dir) (set_folder_mode state_dir 448)) (λ _,
  made ← open_new path 384;
  match made with
  | Ok _ => mret (Ok tt)
  | Err e =>
      match io_kind e with
      | KAlreadyExists => os_map_err (failed_to (lit "set the mode of ") path) (set_folder_mode path 384)
      | _ => mret (Err (failed_to (lit "create ") path e))
      end
  end)).

(** ** The connection *)

Inductive PragmaValue := PText (s : str) | PBool (b : bool) | PInt (n : Z).

(** What can go wrong in SQLite while it opens. *)
Record open_faults := {
  f_open : option str;
  f_pragma : str → option str;
  f_migrate : migrate_faults;
  (** the blocking task did not survive *)
  f_join : option str
}.

Section connection.
Context {schema : Type}.
Variable execute_batch : str → schema → result str schema.
Variable MIGRATIONS : list str.

(** A connection: its settings, and the database behind it. *)
Record Connection := { pragmas : list (str * PragmaValue); conn_db : SchemaDb (schema := schema) }.

(** One [pragma_update]. *)
Definition pragma (f : open_faults) (name : str) (value : PragmaValue) (c : Connection) : result str Connection :=
  match f_pragma f name with
  | Some e => Err (lit "PRAGMA " ++ name ++ lit ": " ++ e)
  | None => Ok {| pragmas := pragmas c ++ [(name, value)]; conn_db := conn_db c |}
  end.

(** [prepare]; the migrations commit or leave the database as it was. *)
Definition prepare (f : open_faults) (d : SchemaDb) : result str Connection * SchemaDb :=
  match (c ← pragma f (lit "journal_mode") (PText (lit "WAL")) {| pragmas := []; conn_db := d |};
         c ← pragma f (lit "synchronous") (PText (lit "FULL")) c;
         c ← pragma f (lit "foreign_keys") (PBool true) c;
         pragma f (lit "busy_timeout") (PInt 5000) c : result str Connection) with
  | Err e => (Err e, d)
  | Ok c =>
      match migrate execute_batch (f_migrate f) MIGRATIONS d with
      | (Ok _, d') => (Ok {| pragmas := pragmas c; conn_db := d' |}, d')
      | (Err e, d') => (Err (lit "migrations: " ++ e), d')
      end
  end.

(** The blocking task of [open]. *)
Definition connect (f : open_faults) (path : str) (d : SchemaDb) : result str Connection * SchemaDb :=
  match f_open f with
  | Some e => (Err (lit "cannot open " ++ path ++ lit ": " ++ e), d)
  | None =>
      let '(r, d') := prepare f d in
      (match f_join f with
       | Some e => Err e
       | None => map_err (λ e, lit "cannot prepare " ++ path ++ lit ": " ++ e) r
       end, d')
  end.

(** A connection that opens enforces foreign keys, and its database is migrated. *)
Lemma connect_Ok f path d c d' :
  connect f path d = (Ok c, d') →
  conn_db c = d' ∧ (lit "foreign_keys", PBool true) ∈ pragmas c ∧ (lit "synchronous", PText (lit "FULL")) ∈ pragmas c ∧
  user_version d' = Z.of_nat (length MIGRATIONS).
Proof.
  unfold connect, prepare, pragma. destruct (f_open f); [done|]. cbn [mbind result_bind].
  destruct (f_pragma f (lit "journal_mode")), (f_pragma f (lit "synchronous")), (f_pragma f (lit "foreign_keys")),
    (f_pragma f (lit "busy_timeout")); cbn [mbind result_bind pragmas conn_db]; try (cbn; by destruct (f_join f)).
  destruct (migrate _ _ _ _) as [[[]|e] d2] eqn:Em; cbn [mbind result_bind]; destruct (f_join f); try done.
  intros [= <- <-]. cbn [pragmas conn_db]. split_and!; [done|set_solver|set_solver|].
  unfold migrate, migrate_tx in Em. destruct (may_fail (f_begin _)), (may_fail (f_read _)); cbn [mbind result_bind] in Em; try done.
  destruct (_ <? _); [done|]. destruct (_ <? _); [done|].
  destruct (run_migrations _ _ _ _); cbn [mbind result_bind] in Em; [|done].
  destruct (may_fail (f_write _)), (may_fail (f_commit _)); cbn [mbind result_bind] in Em; try done.
  by injection Em as <-.
Qed.
End connection.

(** ** The depth is enough *)

Lemma create_all_fuel_enough n m mode p e w i :
  (length p ≤ n)%nat → (length p ≤ m)%nat →
  os_exec (create_all_fuel n mode p) e w i = os_exec (create_all_fuel m mode p) e w i.
Proof.
  revert m p w i. induction n as [|n IH]; intros m p w i Hn Hm.
  { destruct p; [by destruct m|cbn in Hn; lia]. }
  destruct m as [|m]; [destruct p; [done|cbn in Hm; lia]|]. cbn [create_all_fuel].
  case_bool_decide; [done|]. rewrite !os_exec_bind. destruct (os_exec (mkdir mode p) e w i) as [[[[]|x] w1] i1]; [done|].
  destruct (io_kind x); try done. destruct (parent p) as [up|] eqn:Eu; [|done]. apply parent_shorter in Eu.
  unfold and_then. rewrite !os_exec_bind. by rewrite (IH m up) by lia.
Qed.

(** ** The file is private from its first moment *)

Definition mode_of (n : node) : Z := match n with File _ m _ _ => m | Folder m _ _ => m end.
(** No bit for the group and for others. *)
Definition private (n : node) : Prop := Z.land (mode_of n) 63 = 0.

Lemma private_mode mode mask : Z.land mode 63 = 0 → Z.land (Z.ldiff mode mask) 63 = 0.
Proof.
  intros H. apply Z.bits_inj'. intros k Hk. apply (f_equal (λ z, Z.testbit z k)) in H.
  rewrite Z.land_spec, Z.bits_0 in *. rewrite Z.ldiff_spec.
  by destruct (Z.testbit mode k), (Z.testbit mask k), (Z.testbit 63 k).
Qed.

Section privacy.
Variables (dir path : str).
Variable f0 : gmap str node.

(** What the preparation may make of the node at [q]: nothing; a private node with the
    content that was there; or, where nothing was, a private new folder on the way to the
    database or a private empty file in its place. *)
Definition prepared (q : str) (old new : option node) : Prop :=
  new = old ∨
  ∃ n, new = Some n ∧ private n ∧
    match old, n with
    | None, Folder _ _ _ => q ∈ ancestors dir
    | None, File b _ _ _ => q = path ∧ b = []
    | Some (File b _ u g), File b' _ u' g' => (q = dir ∨ q = path) ∧ b' = b ∧ u' = u ∧ g' = g
    | Some (Folder _ u g), Folder _ u' g' => (q = dir ∨ q = path) ∧ u' = u ∧ g' = g
    | _, _ => False
    end.

Definition J (f : gmap str node) : Prop := ∀ q, prepared q (f0 !! q) (f !! q).
#[local] Abbreviation I := (λ w : World, J (fs w)).
#[local] Abbreviation anything := (λ _ : os_env, True).

Lemma J_insert f p n : J f → prepared p (f0 !! p) (Some n) → J (<[p := n]> f).
Proof.
  intros Hf Hp q. destruct (decide (q = p)) as [->|Hne].
  - by rewrite lookup_insert_eq.
  - rewrite lookup_insert_ne by congruence. apply Hf.
Qed.

Lemma J_missing f p : J f → f !! p = None → f0 !! p = None.
Proof. intros Hf Hp. specialize (Hf p). rewrite Hp in Hf. destruct Hf as [?|(n & ? & _)]; congruence. Qed.

Lemma wpc_mkdir p w :
  p ∈ ancestors dir → I w → wpc anything I (mkdir 448 p) (λ _ _, True) w.
Proof.
  intros Hp Hi. apply wpc_may_fail; [done..|]. intros e _. destruct (fs w !! p) eqn:Ep; [done|].
  destruct (match parent p with Some _ => _ | None => _ end); [|done]. split; [|done].
  apply J_insert; [done|]. right. eexists. split; [done|]. split; [by apply private_mode|].
  by rewrite (J_missing _ _ Hi Ep).
Qed.

Lemma wpc_unless_dir p r w :
  I w → wpc anything I (unless_dir p r) (λ _ _, True) w.
Proof.
  intros Hi. destruct r as [[]|x]; [by apply wpc_ret|]. apply wpc_bind, wpc_look; [done|]. intros e _. by apply wpc_ret.
Qed.

Lemma wpc_create_all n p w :
  (∀ a, a ∈ ancestors_fuel n p → a ∈ ancestors dir) → I w →
  wpc anything I (create_all_fuel n 448 p) (λ _ _, True) w.
Proof.
  revert p w. induction n as [|n IH]; intros p w Ha Hi; cbn [create_all_fuel]; (case_bool_decide; [by apply wpc_ret|]);
    (apply wpc_bind; eapply wpc_mono; [|apply wpc_mkdir; [apply Ha; left|done]]); intros made w1 Hi1 _.
  { destruct made; by apply wpc_unless_dir. }
  destruct made as [[]|x]; [by apply wpc_unless_dir|].
  destruct (io_kind x); try by apply wpc_unless_dir.
  destruct (parent p) as [up|] eqn:Eu; [|by apply wpc_ret].
  apply wpc_and_then. eapply wpc_mono; [|apply IH; [|done]].
  - intros [[]|err] w2 Hi2 _; [|done]. apply wpc_bind. eapply wpc_mono; [|apply wpc_mkdir; [apply Ha; left|done]].
    intros r w3 Hi3 _. by apply wpc_unless_dir.
  - intros a Hin. apply Ha. cbn [ancestors_fuel]. rewrite Eu. by right.
Qed.

(** What [set_permissions] makes of a node. *)
Definition chmod (mode : Z) (n : node) : node :=
  match n with File b _ u g => File b mode u g | Folder _ u g => Folder mode u g end.

Definition set_to (mode : Z) (p : str) (w : World) : Prop := ∃ n, fs w !! p = Some n ∧ mode_of n = mode.

Lemma prepared_chmod p mode old n :
  p = dir ∨ p = path → Z.land mode 63 = 0 → prepared p old (Some n) → prepared p old (Some (chmod mode n)).
Proof.
  intros Hp Hm [<-|(n' & [= <-] & _ & H)]; right; exists (chmod mode n); (split_and!; [done|by destruct n|]).
  - by destruct n.
  - destruct old as [[]|], n; cbn; naive_solver.
Qed.

Lemma wpc_close p mode w :
  p = dir ∨ p = path → Z.land mode 63 = 0 → I w →
  wpc anything I (set_folder_mode p mode)
    (λ r w', (r = Ok tt → set_to mode p w') ∧ ∀ q, q ≠ p → fs w' !! q = fs w !! q) w.
Proof.
  intros Hp Hm Hi. apply wpc_may_fail; [done|by split|]. intros e _.
  destruct (fs w !! p) as [n|] eqn:Ep; [|by split].
  assert (H : J (<[p := chmod mode n]> (fs w)) ∧
    (set_to mode p (with_fs (<[p := chmod mode n]> (fs w)) w)) ∧
    ∀ q, q ≠ p → <[p := chmod mode n]> (fs w) !! q = fs w !! q).
  { split_and!.
    - apply J_insert; [done|]. apply prepared_chmod; [done..|]. rewrite <- Ep. apply Hi.
    - exists (chmod mode n). cbn [fs with_fs]. rewrite lookup_insert_eq. by destruct n.
    - intros q Hq. by rewrite lookup_insert_ne by congruence. }
  destruct H as (? & ? & ?). by destruct n.
Qed.

Lemma wpc_open_new w :
  I w →
  wpc anything I (open_new path 384)
    (λ r w', (r = Ok tt → ∃ n, fs w' !! path = Some n ∧ private n) ∧ ∀ q, q ≠ path → fs w' !! q = fs w !! q) w.
Proof.
  intros Hi. apply wpc_may_fail; [done|by split|]. intros e _.
  destruct (fs w !! path) as [n|] eqn:Ep; [by split|].
  destruct (match parent path with Some _ => _ | None => _ end); [|by split].
  assert (Hm : private (File [] (Z.ldiff 384 (umask e)) (ids e).1 (ids e).2)) by by apply private_mode.
  cbn [fst snd fs with_fs]. split; [|split].
  - apply J_insert; [done|]. right. eexists. split; [done|]. split; [done|]. by rewrite (J_missing _ _ Hi Ep).
  - intros _. eexists. cbn [fs with_fs]. by rewrite lookup_insert_eq.
  - intros q Hq. cbn [fs with_fs]. by rewrite lookup_insert_ne by congruence.
Qed.

Lemma wpc_os_map_err {E F A} (g : E → F) (p : os (result E A)) Q w :
  wpc anything I p (λ r w', Q (map_err g r) w') w → wpc anything I (os_map_err g p) Q w.
Proof. intros Hp. apply wpc_bind. eapply wpc_mono; [|exact Hp]. intros r w' Hi HQ. by apply wpc_ret. Qed.

Lemma wpc_prepare_files w :
  dir ≠ path → I w →
  wpc anything I (prepare_files dir path)
    (λ r w', r = Ok tt → set_to 448 dir w' ∧ ∃ n, fs w' !! path = Some n ∧ private n) w.
Proof.
  intros Hne Hi. unfold prepare_files, create_all. apply wpc_and_then, wpc_os_map_err.
  eapply wpc_mono; [|by apply wpc_create_all]. intros [[]|err] w1 Hi1 _; [|done]. cbn [map_err].
  apply wpc_and_then, wpc_os_map_err. eapply wpc_mono; [|apply wpc_close; [by left|done..]].
  intros [[]|err] w2 Hi2 [H2 _]; [|done]. cbn [map_err]. specialize (H2 eq_refl).
  assert (Hkeep : ∀ w3, (∀ q, q ≠ path → fs w3 !! q = fs w2 !! q) → set_to 448 dir w3).
  { intros w3 Hq. unfold set_to in *. by rewrite Hq. }
  apply wpc_bind. eapply wpc_mono; [|by apply wpc_open_new]. intros [[]|err] w3 Hi3 [H3 Hq3].
  { apply wpc_ret; [done|]. intros _. split; [by apply Hkeep|by apply H3]. }
  destruct (io_kind err); try by apply wpc_ret.
  apply wpc_os_map_err. eapply wpc_mono; [|apply wpc_close; [by right|done..]].
  intros [[]|err'] w4 Hi4 [H4 Hq4]; [|done]. intros _. split.
  - apply Hkeep. intros q Hq. by rewrite Hq4, Hq3.
  - destruct (H4 eq_refl) as (n & ? & Hn). exists n. split; [done|]. unfold private. by rewrite Hn.
Qed.
End privacy.

Lemma file_not_folder dir : dir ≠ join_path dir FILE.
Proof.
  intros H. apply (f_equal length) in H. unfold join_path in H. change (starts_with [47] FILE) with false in H.
  destruct (_ || _); rewrite !length_app in H; change (length FILE) with 9%nat in H; lia.
Qed.

(** C25: the database is private from its first moment.  Whatever fails while the server
    prepares the files, and wherever it is killed: no node loses its content or owner, a
    folder that is made on the way and a new database file are closed to the group and
    to others from the start, and nothing else changes.  When the preparation succeeds,
    the folder has mode 0700 and no bit of the database's mode is for others, also when
    both were there before with wider modes. *)
Theorem database_private dir w :
  let path := join_path dir FILE in
  wpc (λ _, True) (λ w', ∀ q, prepared dir path q (fs w !! q) (fs w' !! q)) (prepare_files dir path)
    (λ r w', r = Ok tt → set_to 448 dir w' ∧ ∃ n, fs w' !! path = Some n ∧ private n) w.
Proof. apply wpc_prepare_files; [apply file_not_folder|]. intros q. by left. Qed.
