(* ===== verification/Auth.v ===== *)
(** * Login, sessions and logout (crates/lodger/src/auth.rs)

    The session cookie, the session guard of the protected routes, the throttled
    password check, login, logout, and the tickets of WebSocket upgrades, as
    programs over the shared state.  SHA-256, argon2 and the random source are
    parameters. *)

From S2P Require Import Prelude Text Net Throttle Tickets Db AuditLog Http Server.

Definition COOKIE : str := lit "__Host-lodger_sid".
Definition CSRF_HEADER : str := lit "x-csrf-token".
(** Two seconds, in nanoseconds. *)
Definition SOCKET_SESSION_CHECK : Z := secs 2.

Definition unauthorized : Response := error 401 (lit "log in first").
Definition lookup_failed : Response := error 500 (lit "cannot check the session").

Record Login := { login_username : str; login_password : str }.

(** [Debug for Login], for a log line that prints one. *)
Definition Login_debug `{LogText} (l : Login) : str :=
  debug_struct (lit "Login") [(lit "username", debug_text (login_username l))].

Definition LOGIN_SUCCEEDED : str := lit "login.succeeded".
Definition LOGIN_FAILED : str := lit "login.failed".

(** [cookie_token]: the first cookie of that name in any [Cookie] header. *)
Definition cookie_token (headers : HeaderMap) : option str :=
  let texts := omap to_str (header_get_all headers (lit "cookie")) in
  let pairs := omap (λ pair, split_once 61 (trim pair)) (texts ≫= split 59) in
  snd <$> List.find (λ p : str * str, bool_decide (p.1 = COOKIE)) pairs.

Definition set_cookie (token : str) : str :=
  COOKIE ++ lit "=" ++ token ++ lit "; Path=/; Secure; HttpOnly; SameSite=Strict".
Definition clear_cookie : str :=
  COOKIE ++ lit "=; Path=/; Secure; HttpOnly; SameSite=Strict; Max-Age=0".

(** [csrf_matches]: the bytes of the header against those of the token, which is
    hexadecimal text. *)
Definition csrf_matches (headers : HeaderMap) (session : Session) : bool :=
  match header_get headers CSRF_HEADER with
  | Some sent => bool_decide (sent = session_csrf_token session)
  | None => false
  end.

Section auth.
Context `{Ipnet} `{Lowercase} `{Argon2} `{LogText}.
Variable sha256 : str → list Z.
(** The configuration: [trusted_proxies], and the dummy hash of passwords.rs. *)
Variable trusted_proxies : list ipnet.
Variable DUMMY : str.

Definition random_token : prog (result str str) :=
  r ← random;
  mret (hex_encode <$> map_err (λ e, lit "cannot make a token: " ++ e) r).

Definition token_hash (token : str) : list Z := sha256 token.

Definition new_session (account_id : Z) (ip : ip_addr) (headers : HeaderMap) :
    prog (result str (str * NewSession)) :=
  token ← random_token;
  match token with
  | Err e => mret (Err e)
  | Ok token =>
      let user_agent := take 256 <$> header_text headers (lit "user-agent") in
      csrf ← random_token;
      match csrf with
      | Err e => mret (Err e)
      | Ok csrf =>
          mret (Ok (token, {| new_token_sha256 := token_hash token; new_account_id := account_id;
                              new_csrf_token := csrf; new_client_ip := ip_to_string ip;
                              new_user_agent := user_agent |}))
      end
  end.

Definition session_key (headers : HeaderMap) : option (list Z) :=
  token_hash <$> cookie_token headers.

Definition lookup (headers : HeaderMap) : prog (result unit (option Session)) :=
  match cookie_token headers with
  | None => mret (Ok None)
  | Some token =>
      r ← db (session (token_hash token));
      match r with
      | Ok session => mret (Ok session)
      | Err e =>
          _ ← eprintln (lit "lodger: session lookup: the database failed: " ++ sql_text e);
          mret (Err tt)
      end
  end.

(** The check of [require_session]: the session that the handler gets, or the
    answer of the guard. *)
Definition authenticate (method : Method) (headers : HeaderMap) : prog (result Response Session) :=
  r ← lookup headers;
  mret match r with
       | Ok (Some session) =>
           if negb (is_safe method) && negb (csrf_matches headers session)
           then Err (error 403 (lit "missing or wrong X-CSRF-Token"))
           else Ok session
       | Ok None => Err unauthorized
       | Err _ => Err lookup_failed
       end.

(** [require_session] around the handler [next]. *)
Definition require_session (method : Method) (headers : HeaderMap)
    (next : Session → prog Response) : prog Response :=
  r ← authenticate method headers;
  match r with
  | Ok session => next session
  | Err response => mret response
  end.

(** [throttle_warning]: the line of an attempt that waits, with at most 64 characters of
    the name of an account. *)
Definition throttle_warning (attempt : Attempt) (account : option str) (ip : ip_addr) : str :=
  let account := match account with
                 | Some name => lit "account " ++ debug_text (take 64 name)
                 | None => lit "an unknown account"
                 end in
  lit "lodger: WARNING: " ++ to_string (failures attempt) ++ lit " failed logins in 15 minutes for " ++
  account ++ lit " or from " ++ ip_to_string ip ++ lit "; this attempt waits " ++
  to_string (wait attempt / secs 1) ++ lit " s".

(** [throttled]: an attempt that waits looks the account up for its log line and
    sleeps. *)
Definition throttled (username : str) (ip : ip_addr) : prog (result Response Attempt) :=
  r ← atom (λ e s, let '(c, r) := begin (app_throttle s) username ip (e_instant e) in
                   (with_throttle c s, r));
  match r with
  | Ok attempt =>
      if negb (wait attempt =? 0) then
        found ← db (find_account username);
        let known := match found with Ok (Some _) => true | _ => false end in
        _ ← eprintln (throttle_warning attempt (if known then Some username else None) ip);
        mret (Ok attempt)
      else mret (Ok attempt)
  | Err retry =>
      mret (Err (add_header (lit "retry-after") (to_string (retry / secs 1))
        (error 429 (lit "too many password attempts. Try again later"))))
  end.

Definition throttle_succeed (username : str) (ip : ip_addr) (attempt : Attempt) : prog unit :=
  atom (λ _ s, (with_throttle (succeed (app_throttle s) username ip attempt) s, tt)).

Definition cannot_start : Response := error 500 (lit "cannot start a session").
Definition login_failed_line (e : SqlError) : str := lit "lodger: login: the database failed: " ++ sql_text e.

(** The end of [login], from the new session on. *)
Definition start_session (account : Account) (ip : ip_addr) (headers : HeaderMap) : prog Response :=
  made ← new_session (account_id account) ip headers;
  match made with
  | Err e => _ ← eprintln (lit "lodger: login: " ++ e); mret cannot_start
  | Ok (token, new) =>
      let csrf_token := new_csrf_token new in
      ended ← match session_key headers with
              | Some old => db (delete_session old)
              | None => mret (Ok tt)
              end;
      match ended with
      | Err e => _ ← eprintln (login_failed_line e); mret cannot_start
      | Ok _ =>
          created ← db (create_session new);
          match created with
          | Err e => _ ← eprintln (login_failed_line e); mret cannot_start
          | Ok _ =>
              _ ← audit_log (with_client_ip ip
                    (with_account (account_username account) (Entry_ok LOGIN_SUCCEEDED)));
              mret (add_header (lit "set-cookie") (set_cookie token)
                (json 200 [(lit "username", VText (account_username account));
                           (lit "csrf_token", VText csrf_token)]))
          end
      end
  end.

(** [login].  [body] is the parsed JSON or the answer of its rejection. *)
Definition login (peer : ip_addr) (headers : HeaderMap) (body : result Response Login) :
    prog Response :=
  match body with
  | Err rejection => mret rejection
  | Ok login =>
      let ip := Http.client_ip peer headers trusted_proxies in
      attempt ← throttled (login_username login) ip;
      match attempt with
      | Err response => mret response
      | Ok attempt =>
          account ← db (find_account (login_username login));
          match account with
          | Err e => _ ← eprintln (login_failed_line e); mret (error 500 (lit "cannot check the login"))
          | Ok account =>
              verified ← run_task
                match account with
                | Some a => verify (login_password login) (account_hash a)
                | None => verify_nobody DUMMY (login_password login)
                end;
              match (if default false verified then account else None) with
              | None =>
                  let entry := match account with
                    | Some a => with_account (account_username a)
                                  (Entry_failed LOGIN_FAILED (lit "wrong_password"))
                    | None => Entry_failed LOGIN_FAILED (lit "no_such_account")
                    end in
                  _ ← audit_log (with_client_ip ip entry);
                  mret (error 401 (lit "wrong username or password"))
              | Some account =>
                  _ ← throttle_succeed (login_username login) ip attempt;
                  start_session account ip headers
              end
          end
      end
  end.

Definition current (session : Session) : Response :=
  json 200 [(lit "username", VText (session_username session));
            (lit "csrf_token", VText (session_csrf_token session))].

(** [logout]; [None] is the panic of [expect], for a request without a cookie. *)
Definition logout (headers : HeaderMap) : prog (option Response) :=
  match cookie_token headers with
  | None => mret None
  | Some token =>
      r ← db (delete_session (token_hash token));
      match r with
      | Err e =>
          _ ← eprintln (lit "lodger: logout: the database failed: " ++ sql_text e);
          mret (Some (error 500 (lit "cannot end the session")))
      | Ok _ => mret (Some (add_header (lit "set-cookie") clear_cookie (Http.plain 204)))
      end
  end.

Definition issue_ticket (headers : HeaderMap) : prog (option Response) :=
  match session_key headers with
  | None => mret None
  | Some key =>
      let origin := header_text headers (lit "origin") in
      r ← atom (λ e s, let '(m, r) := issue sha256 (app_tickets s) key origin (e_instant e) (e_random e) in
                       (with_tickets m s, r));
      match r with
      | Ok (Some ticket) => mret (Some (json 201 [(lit "ticket", VText ticket)]))
      | Ok None => mret (Some (error 429 (lit "too many open tickets")))
      | Err e =>
          _ ← eprintln (lit "lodger: ws ticket: " ++ e);
          mret (Some (error 500 (lit "cannot make a ticket")))
      end
  end.

(** [open_socket]; the query may carry a ticket.  [None] is the panic of
    [expect]. *)
Definition open_socket (headers : HeaderMap) (query_ticket : option str) :
    prog (option (result Response (list Z))) :=
  r ← lookup headers;
  match r with
  | Ok (Some _) =>
      match session_key headers with
      | None => mret None
      | Some key =>
          let ticket := default [] query_ticket in
          let origin := header_text headers (lit "origin") in
          good ← atom (λ e s, let '(m, b) := redeem sha256 (app_tickets s) ticket key origin (e_instant e) in
                              (with_tickets m s, b));
          if negb good
          then mret (Some (Err (error 403 (lit "missing, used, or expired ticket, or a page from another origin"))))
          else mret (Some (Ok key))
      end
  | Ok None => mret (Some (Err unauthorized))
  | Err _ => mret (Some (Err lookup_failed))
  end.

(** One round of [session_ended]: whether the socket stops. *)
Definition session_check (key : list Z) : prog bool :=
  r ← db (session_alive key);
  match r with
  | Ok alive => mret (negb alive)
  | Err e =>
      _ ← eprintln (lit "lodger: socket session check: the database failed: " ++ sql_text e);
      mret true
  end.

(** ** Properties *)

(** A cookie that [lookup] accepts. *)
Lemma wp_lookup headers (Q : result unit (option Session) → AppState → Prop) s :
  (∀ r t j, (∀ sess, r = Ok (Some sess) → ∃ token now row a,
             cookie_token headers = Some token ∧ row ∈ tab_sessions (app_db s) ∧
             ses_token row = token_hash token ∧ ses_live now row = true ∧
             a ∈ tab_accounts (app_db s) ∧ acc_id a = ses_account row ∧
             sess = {| session_account_id := ses_account row; session_username := acc_username a;
                       session_csrf_token := ses_csrf row |}) →
     tab_accounts t = tab_accounts (app_db s) → Q r (with_journal j (with_db t s))) →
  wp (lookup headers) Q s.
Proof.
  intros HQ. unfold lookup. destruct (cookie_token headers) as [token|] eqn:Ec.
  - apply wp_bind, wp_db. intros env r t n E.
    assert (Ht : tab_accounts t = tab_accounts (app_db s)) by (by eapply session_accounts).
    destruct r as [o|e]; [|apply wp_bind, wp_eprintln; intros j; by apply wp_ret, HQ].
    apply wp_ret. apply (HQ (Ok o) t (app_journal s)); [|done]. intros sess [= ->].
    destruct (session_Some _ _ _ _ _ _ _ E) as (row & a & Hr1 & Htk & Hl & Ha & Hid & ->).
    by exists token, (tick_now (env 0%nat)), row, a.
  - apply wp_ret. destruct s as [d ? ? ? j ?]. apply (HQ (Ok None) d j); done.
Qed.

(** A session that is live at [now]: younger than 24 hours, used in the last 60
    minutes, and of an account that exists. *)
Definition live_session (now : Z) (token : str) (t : Tables) (sess : Session) : Prop :=
  ∃ row a, row ∈ tab_sessions t ∧ ses_token row = token_hash token ∧
    now < ses_created_at row + 24 * 60 * 60 * 1000 ∧ now - 60 * 60 * 1000 < ses_last_seen_at row ∧
    a ∈ tab_accounts t ∧ acc_id a = ses_account row ∧
    sess = {| session_account_id := acc_id a; session_username := acc_username a;
              session_csrf_token := ses_csrf row |}.

(** The clock of the lookup in step [n]. *)
Definition clock (e : nat → env) (n : nat) : Z := tick_now (e_sql (e n) 0%nat).
Definition database_fails (e : nat → env) (n : nat) : Prop := ∃ k m, tick_fault (e_sql (e n) k) = Some m.

(** What a lookup leaves: only sessions are touched. *)
Definition untouched (s s' : AppState) : Prop :=
  tab_accounts (app_db s') = tab_accounts (app_db s) ∧ app_throttle s' = app_throttle s ∧
  app_tickets s' = app_tickets s ∧ app_setup s' = app_setup s.

Lemma live_row t row now :
  wf t → row ∈ tab_sessions t →
  ses_live now row = true ↔
    now < ses_created_at row + 24 * 60 * 60 * 1000 ∧ now - 60 * 60 * 1000 < ses_last_seen_at row.
Proof.
  intros Hw Hrow. unfold ses_live, IDLE_CUTOFF. rewrite (wf_expiry _ Hw row Hrow), andb_true_iff, !Z.ltb_lt.
  unfold minutes. lia.
Qed.

(** [lookup], in the environment of its step. *)
Lemma lookup_exact headers e s n :
  wf (app_db s) →
  let '(r, s', n') := exec (lookup headers) e s n in
  untouched s s' ∧
  match r with
  | Ok (Some sess) => n' = S n ∧ ∃ token, cookie_token headers = Some token ∧
      live_session (clock e n) token (app_db s) sess
  | Ok None => ∀ token sess, cookie_token headers = Some token → ¬ live_session (clock e n) token (app_db s) sess
  | Err _ => database_fails e n
  end.
Proof.
  intros Hw. unfold lookup. destruct (cookie_token headers) as [token|]; [|by split].
  rewrite exec_bind. unfold db, atom. cbn [exec].
  destruct (session (token_hash token) (e_sql (e n)) (app_db s) 0%nat) as [[r t] k] eqn:E.
  pose proof (session_accounts _ _ _ _ _ _ _ E) as Ha. destruct r as [[sess|]|err]; cbn [exec mret prog_ret].
  - split; [done|]. split; [done|]. exists token. split; [done|].
    destruct (session_Some _ _ _ _ _ _ _ E) as (row & a & Hrow & Htk & Hl & Hacc & Hid & ->).
    apply (live_row _ _ _ Hw Hrow) in Hl as [Hl1 Hl2]. exists row, a. rewrite Hid. done.
  - split; [done|]. intros token' sess [= <-] (row & a & Hrow & Htk & Hl1 & Hl2 & Hacc & Hid & _).
    eapply session_None; [exact Hw|exact E|exact Hrow|exact Htk| |exact Hacc|exact Hid].
    by apply (live_row _ _ _ Hw Hrow).
  - split; [done|]. destruct (session_Err _ _ _ _ _ _ _ E) as (j & m & Hf). by exists j, m.
Qed.


Lemma wp_throttled username ip (Q : result Response Attempt → AppState → Prop) s :
  (∀ r c j, (∀ resp, r = Err resp → r_status resp = 429) → Q r (with_journal j (with_throttle c s))) →
  wp (throttled username ip) Q s.
Proof.
  intros HQ. unfold throttled. apply wp_bind, wp_atom. intros e.
  destruct (begin (app_throttle s) username ip (e_instant e)) as [c r]. cbn [fst snd].
  destruct r as [attempt|retry].
  - destruct (wait attempt =? 0); cbn [negb]; [by apply wp_ret, (HQ (Ok attempt) c (app_journal s))|].
    apply wp_bind, wp_db. intros env r t n E.
    assert (t = app_db s) as -> by (by apply find_account_spec in E as [-> _]).
    apply wp_bind, wp_eprintln. intros j. apply wp_ret. by apply (HQ (Ok attempt) c j).
  - apply wp_ret, (HQ _ c (app_journal s)). by intros resp [= <-].
Qed.

Lemma wp_random_token (Q : result str str → AppState → Prop) s :
  (∀ r, Q r s) → wp random_token Q s.
Proof. intros HQ. apply wp_bind, wp_atom. intros e. apply wp_ret, HQ. Qed.

Lemma wp_new_session id ip headers (Q : result str (str * NewSession) → AppState → Prop) s :
  (∀ e, Q (Err e) s) →
  (∀ token new, new_token_sha256 new = token_hash token → new_account_id new = id → Q (Ok (token, new)) s) →
  wp (new_session id ip headers) Q s.
Proof.
  intros HE HO. unfold new_session. apply wp_bind, wp_random_token. intros [token|e]; [|by apply wp_ret].
  apply wp_bind, wp_random_token. intros [csrf|e]; [|by apply wp_ret]. by apply wp_ret, HO.
Qed.

(** What a login leaves, on every branch. *)
Definition login_post (login : Login) (s : AppState) (r : Response) (s' : AppState) : Prop :=
  tab_accounts (app_db s') = tab_accounts (app_db s) ∧
  (r_status r = 200 ∧
     (∃ a token row, a ∈ tab_accounts (app_db s) ∧
        nocase (acc_username a) = nocase (login_username login) ∧
        argon2_verify (login_password login) (acc_hash a) = true ∧
        r_headers r = [(lit "set-cookie", set_cookie token)] ∧
        row ∈ tab_sessions (app_db s') ∧ ses_token row = token_hash token ∧ ses_account row = acc_id a ∧
        ∀ x, x ∈ tab_sessions (app_db s') → x = row ∨ x ∈ tab_sessions (app_db s)) ∨
   r_status r ≠ 200 ∧ (∀ x, x ∈ tab_sessions (app_db s') → x ∈ tab_sessions (app_db s)) ∧
     (r_status r = 401 → r = error 401 (lit "wrong username or password"))).

Lemma start_session_post login s s1 account ip headers a :
  tab_accounts (app_db s1) = tab_accounts (app_db s) →
  tab_sessions (app_db s1) = tab_sessions (app_db s) →
  a ∈ tab_accounts (app_db s) → nocase (acc_username a) = nocase (login_username login) →
  argon2_verify (login_password login) (acc_hash a) = true → account = to_account a →
  wp (start_session account ip headers) (login_post login s) s1.
Proof.
  intros Ha1 Hs1 Ha Hn Hv ->. unfold start_session. apply wp_bind, wp_new_session.
  { intros e. apply wp_bind, wp_eprintln. intros j. apply wp_ret. split; [done|]. right. cbn. rewrite Hs1. done. }
  intros token new Ht Hid. apply wp_bind.
  assert (Hend : ∀ (k : result SqlError unit → AppState → Prop),
    (∀ r t, tab_accounts t = tab_accounts (app_db s) →
       (∀ x, x ∈ tab_sessions t → x ∈ tab_sessions (app_db s)) → k r (with_db t s1)) →
    wp (match session_key headers with Some old => db (delete_session old) | None => mret (Ok tt) end) k s1).
  { intros k Hk. destruct (session_key headers) as [old|].
    - apply wp_db. intros env r t n E. destruct (delete_session_sub _ _ _ _ _ _ _ E) as [E1 E2].
      apply Hk; [congruence|]. intros x Hx. rewrite <- Hs1. by apply E2.
    - apply wp_ret. destruct s1 as [d]. apply (Hk (Ok tt) d); [done|]. by rewrite <- Hs1. }
  apply Hend. intros [[]|e] t Hta Hts; [|apply wp_bind, wp_eprintln; intros j; apply wp_ret; split; [done|]; right; done].
  apply wp_bind, wp_db. intros env r t' n E. cbn [app_db with_db] in E.
  destruct (create_session_spec _ _ _ _ _ _ _ E) as [Hta' Hc]. destruct r as [[]|e].
  - destruct Hc as (row & Hr1 & Hr2 & Hin & Hsub). apply wp_bind, wp_audit.
    intros s' Hsa Hss _ _ _. cbn [app_db with_db] in *. apply wp_ret. split; [congruence|].
    left. split; [done|]. exists a, token, row. rewrite Hss. split_and!; try done; try congruence.
    + by rewrite Hr2, Hid.
    + intros x Hx. destruct (Hsub x Hx); auto.
  - apply wp_bind, wp_eprintln. intros j. apply wp_ret. split; [simpl; congruence|]. right.
    split_and!; try done. simpl. auto.
Qed.

(** C13: a login starts a session only for the right password.  When login
    answers 200, the database holds an account with the given name, up to ASCII
    case, whose hash verifies against the given password, the cookie's token
    names exactly one new session, and that session belongs to the account.  Any
    other answer starts no session, and a wrong name and a wrong password get the
    same 401. *)
Theorem login_correct peer headers l s :
  wp (login peer headers (Ok l)) (login_post l s) s.
Proof.
  unfold login. apply wp_bind, wp_throttled. intros r c j Hr.
  destruct r as [attempt|resp].
  2: { apply wp_ret. split; [done|]. right. rewrite (Hr resp eq_refl). done. }
  apply wp_bind, wp_db. intros env r t n E. apply find_account_spec in E as [-> Hf].
  cbn [app_db with_throttle with_journal] in *. destruct r as [account|e].
  2: { apply wp_bind, wp_eprintln. intros j'. apply wp_ret. split; [done|]. right. done. }
  apply wp_bind, wp_run_task. intros e.
  match goal with |- wp (match (if ?v then _ else _) with _ => _ end) _ _ => destruct v eqn:Ev end.
  2: { apply wp_bind, wp_audit. intros s' Hsa Hss _ _ _. apply wp_ret. split; [done|].
       right. rewrite Hss. done. }
  destruct account as [account|].
  2: { apply wp_bind, wp_audit. intros s' Hsa Hss _ _ _. apply wp_ret. split; [done|].
       right. rewrite Hss. done. }
  destruct Hf as (a & Ha & Hn & ->). apply wp_bind, wp_atom. intros e'.
  apply start_session_post with (a := a); try done.
  destruct (e_task e); [exact Ev|done].
Qed.

(** C34: a WebSocket opens exactly for a session that is live by the clock of that
    moment and a ticket that the same session got for the same [Origin], unused and
    unexpired when it is redeemed; without the session the answer is 401, without such
    a ticket 403, and 500 only when a statement of the lookup failed.  Once the session
    was accepted, the ticket is gone, whatever the answer; before that no ticket is. *)
Theorem socket_guard headers query e s n :
  wf (app_db s) →
  let '(r, s', _) := exec (open_socket headers query) e s n in
  let named token sess := cookie_token headers = Some token ∧ live_session (clock e n) token (app_db s) sess in
  let hashed := sha256 (default [] query) in
  let good token t := app_tickets s !! hashed = Some t ∧ t_session t = token_hash token ∧
    t_origin t = header_text headers (lit "origin") ∧ e_instant (e (S n)) < t_expires t in
  match r with
  | Some (Ok key) => ∃ token sess t, named token sess ∧ key = token_hash token ∧ good token t ∧
      app_tickets s' = delete hashed (app_tickets s)
  | Some (Err resp) =>
      r_status resp = 401 ∧ (∀ token sess, ¬ named token sess) ∧ app_tickets s' = app_tickets s ∨
      r_status resp = 403 ∧ (∃ token sess, named token sess ∧ ∀ t, ¬ good token t) ∧
        app_tickets s' = delete hashed (app_tickets s) ∨
      r_status resp = 500 ∧ database_fails e n ∧ app_tickets s' = app_tickets s
  | None => False
  end.
Proof.
  intros Hw. unfold open_socket. rewrite exec_bind.
  pose proof (lookup_exact headers e s n Hw) as Hl. destruct (exec (lookup headers) e s n) as [[r1 s1] n1].
  destruct Hl as [(_ & _ & Htk & _) Hl]. destruct r1 as [[sess|]|]; cbn [exec mret prog_ret].
  2: { left. split; [done|]. split; [|done]. intros token sess [Hc Hlive]. by eapply Hl. }
  2: { right. right. done. }
  destruct Hl as (-> & token & Hc & Hlive). unfold session_key. rewrite Hc. cbn [fmap option_fmap option_map].
  rewrite exec_bind. unfold atom, redeem, Tickets.hash. cbn [exec]. rewrite Htk.
  set (hashed := sha256 (default [] query)).
  destruct (app_tickets s !! hashed) as [t|] eqn:Et.
  - destruct (bool_decide (t_session t = token_hash token) && _ && _) eqn:Eb; cbn [negb exec mret prog_ret].
    + bool_hyps. exists token, sess, t. by split_and!.
    + right. left. split; [done|]. split; [|done]. exists token, sess. split; [done|].
      intros t' (E' & H1' & H2' & H3'). injection E' as <-. rewrite H1', H2', !bool_decide_true in Eb by done.
      apply Z.ltb_lt in H3'. by rewrite H3' in Eb.
  - cbn [negb exec mret prog_ret]. right. left. split; [done|]. split; [|done]. exists token, sess. split; [done|].
    by intros t' (E' & _).
Qed.

(** After a logout that answers 204, the cookie opens nothing: every later
    lookup with it is refused, and no other session was touched. *)
Theorem logout_ends_session headers s :
  wp (logout headers) (λ r s',
    match r with
    | Some resp => r_status resp = 204 →
        wp (lookup headers) (λ r' _, ∀ sess, r' ≠ Ok (Some sess)) s' ∧
        ∀ token x, cookie_token headers = Some token → x ∈ tab_sessions (app_db s) →
          ses_token x ≠ token_hash token → x ∈ tab_sessions (app_db s')
    | None => cookie_token headers = None
    end) s.
Proof.
  unfold logout. destruct (cookie_token headers) as [token|] eqn:Ec; [|by apply wp_ret].
  apply wp_bind, wp_db. intros env r t n E. destruct r as [[]|e].
  2: { apply wp_bind, wp_eprintln. intros j. by apply wp_ret. }
  apply wp_ret. intros _. split.
  - apply wp_lookup. intros r t' j Hr _ sess ->.
    destruct (Hr sess eq_refl) as (token' & now & row & a & Hc & Hrow & Htk & _).
    simplify_eq. destruct (delete_session_sub _ _ _ _ _ _ _ E) as [_ Hd].
    by destruct (Hd row Hrow) as [_ Hne]; apply Hne.
  - intros token' x [= <-] Hx Hne. simpl.
    unfold delete_session, mbind, sql_bind in E.
    destruct (delete_sessions _ env (app_db s) 0%nat) as [[[c|e] t1] n1] eqn:Ed; [|done].
    injection E as <- _. apply delete_sessions_spec in Ed as (_ & now & ->).
    apply list_elem_of_filter. split; [|done]. by apply bool_decide_false.
Qed.
(** ** What a refused login tells *)

(** The account that a login names, and a login that the check refuses. *)
Definition named (s : AppState) (l : Login) : option AccountRow :=
  List.find (has_name (login_username l)) (tab_accounts (app_db s)).
Definition refused (s : AppState) (l : Login) : Prop :=
  ∀ a, named s l = Some a → argon2_verify (login_password l) (acc_hash a) = false.

Lemma exec_find_account username e s n :
  exec (db (find_account username)) e s n =
  (match tick_fault (e_sql (e n) 0%nat) with
   | Some m => Err (Failure m)
   | None => Ok (to_account <$> List.find (has_name username) (tab_accounts (app_db s)))
   end, s, S n).
Proof.
  unfold db, atom. cbn [exec]. unfold find_account, account_where, mbind, sql_bind, statement.
  destruct (tick_fault (e_sql (e n) 0%nat)); cbn; by destruct s.
Qed.

Lemma exec_ret {A} (a : A) e s n : exec (mret a) e s n = (a, s, n).
Proof. done. Qed.

Lemma exec_audit_log entry e s n :
  exec (audit_log entry) e s n =
  (tt, with_journal (log entry (e_sql (e n)) (app_journal s) (app_db s) 0%nat).1.1
         (with_db (log entry (e_sql (e n)) (app_journal s) (app_db s) 0%nat).1.2 s), S n).
Proof. unfold audit_log, atom. cbn [exec]. by destruct (log _ _ _ _ _) as [[j t] m]. Qed.

Definition refusal_entry (s : AppState) (l : Login) (ip : ip_addr) : Entry :=
  with_client_ip ip match named s l with
    | Some a => with_account (acc_username a) (Entry_failed LOGIN_FAILED (lit "wrong_password"))
    | None => Entry_failed LOGIN_FAILED (lit "no_such_account")
    end.

Lemma exec_eprintln line e s n :
  exec (eprintln line) e s n = (tt, with_journal (app_journal s ++ [line]) s, S n).
Proof. done. Qed.

(** The hash that a password is checked against: the account's, or the dummy. *)
Definition stored_for (s : AppState) (l : Login) : str :=
  match named s l with Some a => acc_hash a | None => DUMMY end.

(** The state after the check. *)
Definition checked (l : Login) (s : AppState) : AppState :=
  with_argon2 (app_argon2 s ++ [Checks (login_password l) (stored_for s l)]) s.

(** What a login does after the throttle, when the check refuses it. *)
Definition refusal (l : Login) (ip : ip_addr) (e : nat → env) (s : AppState) (n : nat) : Response * AppState * nat :=
  match tick_fault (e_sql (e n) 0%nat) with
  | Some m => (error 500 (lit "cannot check the login"),
               (exec (eprintln (login_failed_line (Failure m))) e s (S n)).1.2, S (S n))
  | None => (error 401 (lit "wrong username or password"),
             (exec (audit_log (refusal_entry s l ip)) e (checked l s) (S (S n))).1.2, S (S (S n)))
  end.

Lemma exec_refused l ip e s n (k : Account → prog Response) :
  refused s l →
  exec (account ← db (find_account (login_username l));
        match account with
        | Err e => _ ← eprintln (login_failed_line e); mret (error 500 (lit "cannot check the login"))
        | Ok account =>
            verified ← run_task
              match account with
              | Some a => verify (login_password l) (account_hash a)
              | None => verify_nobody DUMMY (login_password l)
              end;
            match (if default false verified then account else None) with
            | None =>
                let entry := match account with
                  | Some a => with_account (account_username a) (Entry_failed LOGIN_FAILED (lit "wrong_password"))
                  | None => Entry_failed LOGIN_FAILED (lit "no_such_account")
                  end in
                _ ← audit_log (with_client_ip ip entry);
                mret (error 401 (lit "wrong username or password"))
            | Some account => k account
            end
        end) e s n = refusal l ip e s n.
Proof.
  intros Hr. unfold refusal. rewrite exec_bind, exec_find_account. destruct (tick_fault _); [done|].
  rewrite exec_bind. unfold run_task, atom. cbn [exec]. unfold refusal_entry, checked, stored_for, refused, named in *.
  destruct (List.find (has_name (login_username l)) (tab_accounts (app_db s))) as [a|]; cbn [fmap option_fmap option_map].
  - change (account_hash (to_account a)) with (acc_hash a). unfold verify. rewrite (Hr a eq_refl).
    destruct (e_task (e (S n))); cbn [from_option id]; cbv iota; rewrite exec_bind, !exec_audit_log; reflexivity.
  - unfold verify_nobody, verify. cbv beta iota.
    destruct (e_task (e (S n))); cbn [from_option id]; cbv iota; rewrite exec_bind, !exec_audit_log; reflexivity.
Qed.

(** Neither login names an account. *)
Definition nobody (s : AppState) (l1 l2 : Login) : Prop := named s l1 = None ∧ named s l2 = None.

(** States that tell the two logins apart only by the row of a known name. *)
Definition alike (quiet : Prop) (s1 s2 : AppState) : Prop :=
  tab_accounts (app_db s1) = tab_accounts (app_db s2) ∧ tab_sessions (app_db s1) = tab_sessions (app_db s2) ∧
  app_tickets s1 = app_tickets s2 ∧ app_setup s1 = app_setup s2 ∧
  (quiet → app_db s1 = app_db s2 ∧ app_journal s1 = app_journal s2).

(** The runs of argon2 that a login asked for: one check of its password, or none. *)
Definition asked (ran : bool) (s : AppState) (l : Login) (s' : AppState) : Prop :=
  app_argon2 s' = app_argon2 s ++ if ran then [Checks (login_password l) (stored_for s l)] else [].

Lemma refusal_alike l1 l2 ip e s c1 c2 j1 j2 n :
  (nobody s l1 l2 → j1 = j2) →
  ∃ r t1 t2 n' ran, refusal l1 ip e (with_journal j1 (with_throttle c1 s)) n = (r, t1, n') ∧
    refusal l2 ip e (with_journal j2 (with_throttle c2 s)) n = (r, t2, n') ∧ alike (nobody s l1 l2) t1 t2 ∧
    asked ran s l1 t1 ∧ asked ran s l2 t2 ∧ (r_status r = 401 → ran = true).
Proof.
  intros Hj. unfold refusal. destruct (tick_fault _) as [m|].
  { eexists _, _, _, _, false. split; [reflexivity|]. split; [reflexivity|]. rewrite !exec_eprintln. cbn.
    unfold asked. cbn. rewrite app_nil_r. split; [|by split_and!]. split_and!; try done. intros Hq. by rewrite Hj. }
  set (u1 := with_journal j1 (with_throttle c1 s)). set (u2 := with_journal j2 (with_throttle c2 s)).
  destruct (audit_log_tables (refusal_entry u1 l1 ip) e (checked l1 u1) (S (S n))) as (A1 & S1 & _ & T1 & P1).
  destruct (audit_log_tables (refusal_entry u2 l2 ip) e (checked l2 u2) (S (S n))) as (A2 & S2 & _ & T2 & P2).
  eexists _, _, _, _, true. split; [reflexivity|]. split; [reflexivity|]. split; [|by rewrite !exec_audit_log].
  split_and!; [by rewrite A1, A2|by rewrite S1, S2|by rewrite T1, T2|by rewrite P1, P2|].
  intros Hq. destruct (Hj Hq), Hq as [N1 N2]. rewrite !exec_audit_log. unfold refusal_entry, named in *.
  subst u1 u2. cbn [app_db app_journal with_throttle with_journal with_argon2 checked] in *. by rewrite N1, N2.
Qed.

(** C5: a refused login does not tell which names exist.  Take two logins from the same
    client and the same state, for any names and passwords that the check refuses, known
    names or not, that the throttle treats alike.  They get the same answer after the
    same steps, and leave the same accounts, sessions, tickets and setup.  Both ask
    argon2 for the same work: a login that gets as far as the 401 runs exactly one check
    of its password, against the account's hash or, when no account has the name,
    against the dummy hash; other logins run none.  When no account has either name,
    they leave the same database and the same log too, warnings and errors included: a
    text that was typed into the wrong field is written nowhere. *)
Theorem login_tells_nothing peer headers l1 l2 e s n :
  let ip := Http.client_ip peer headers trusted_proxies in
  refused s l1 → refused s l2 →
  (begin (app_throttle s) (login_username l1) ip (e_instant (e n))).2 =
  (begin (app_throttle s) (login_username l2) ip (e_instant (e n))).2 →
  ∃ r s1 s2 n' ran, exec (login peer headers (Ok l1)) e s n = (r, s1, n') ∧
    exec (login peer headers (Ok l2)) e s n = (r, s2, n') ∧ alike (nobody s l1 l2) s1 s2 ∧
    asked ran s l1 s1 ∧ asked ran s l2 s2 ∧ (r_status r = 401 → ran = true).
Proof.
  intros ip Hr1 Hr2 Hb. unfold login. fold ip. rewrite !exec_bind. unfold throttled. rewrite !exec_bind.
  unfold atom. cbn [exec].
  destruct (begin (app_throttle s) (login_username l1) ip (e_instant (e n))) as [c1 r1].
  destruct (begin (app_throttle s) (login_username l2) ip (e_instant (e n))) as [c2 r2].
  cbn [snd] in Hb. subst r2. destruct r1 as [attempt|retry].
  2: { eexists _, _, _, _, false. split; [reflexivity|]. split; [reflexivity|]. unfold asked. cbn.
       rewrite app_nil_r. done. }
  destruct (wait attempt =? 0); cbn [negb exec].
  - rewrite !exec_ret. cbv beta iota. rewrite !exec_refused by done.
    exact (refusal_alike l1 l2 ip e s c1 c2 (app_journal s) (app_journal s) (S n) (λ _, eq_refl)).
  - rewrite !exec_bind, !exec_find_account. cbv beta iota zeta. rewrite !exec_bind, !exec_eprintln. cbv beta iota.
    rewrite !exec_ret. cbv beta iota. rewrite !exec_refused by done. apply refusal_alike. intros [N1 N2].
    unfold named in *. cbn [app_db with_throttle]. rewrite N1, N2. by destruct (tick_fault _).
Qed.
End auth.

(** ** Witnesses *)

#[export] Instance argon2_plain : Argon2 | 100 :=
  {| argon2_hash _ p := Ok (lit "$" ++ p); argon2_verify p h := bool_decide (h = lit "$" ++ p) |}.

#[local] Existing Instance log_text_plain.

#[export] Instance argon2_plain_laws : Argon2Laws | 100.
Proof. split. intros salt p h [= <-]. by apply bool_decide_true. Qed.

(** The small database of Db.v, whose session has the token [[7]]. *)
Definition small_app : AppState :=
  {| app_db := small; app_throttle := Counters_default; app_tickets := ∅; app_setup := None;
     app_journal := []; app_argon2 := [] |}.

Definition calm_env (n : nat) : env :=
  {| e_instant := 0; e_sql := calm; e_random := Ok [1; 2]; e_task := true; e_salt := [] |}.

Definition sid_headers : HeaderMap := [(lit "cookie", lit "a=b; __Host-lodger_sid=x")].


(** The same session with a ticket of its own. *)
Definition ticket_app : AppState :=
  with_tickets {[ [7] := {| t_session := [7]; t_origin := None; t_expires := 30 |} ]} small_app.

Lemma socket_guard_witness :
  wf (app_db ticket_app) ∧
  ∃ token sess, cookie_token sid_headers = Some token ∧ live_session (λ _, [7]) (clock calm_env 0) token small sess ∧
  (exec (open_socket (λ _, [7]) sid_headers (Some (lit "t"))) calm_env ticket_app 0%nat).1.1 = Some (Ok [7]).
Proof.
  split; [apply small_wf|].
  pose proof (socket_guard (λ _, [7]) sid_headers (Some (lit "t")) calm_env ticket_app 0 small_wf) as Hg.
  destruct (exec (open_socket _ _ _) calm_env ticket_app 0%nat) as [[r s'] n'] eqn:E.
  assert (Hr : r = Some (Ok [7])) by (replace r with (r, s', n').1.1 by done; rewrite <- E; by vm_compute).
  subst r. destruct Hg as (token & sess & t & [Hc Hl] & _). by exists token, sess.
Defined.

(** A wrong password for an account, and a password typed as a name. *)
Lemma login_tells_nothing_witness :
  ∃ r s1 s2 n',
    exec (login (λ _, [7]) [] (lit "$") (V4 1) [] (Ok {| login_username := lit "root"; login_password := lit "a" |}))
      calm_env small_app 0%nat = (r, s1, n') ∧
    exec (login (λ _, [7]) [] (lit "$") (V4 1) [] (Ok {| login_username := lit "admin"; login_password := lit "b" |}))
      calm_env small_app 0%nat = (r, s2, n') ∧ r_status r = 401 ∧
    app_argon2 s1 = [Checks (lit "a") (lit "$")] ∧ app_argon2 s2 = [Checks (lit "b") (lit "h1")].
Proof.
  destruct (login_tells_nothing (λ _, [7]) [] (lit "$") (V4 1) [] {| login_username := lit "root"; login_password := lit "a" |}
    {| login_username := lit "admin"; login_password := lit "b" |} calm_env small_app 0%nat)
    as (r & s1 & s2 & n' & ran & E1 & E2 & _ & A1 & A2 & Hran).
  - intros a Ha. vm_compute in Ha. first [discriminate Ha | injection Ha as <-; vm_compute; reflexivity].
  - intros a Ha. vm_compute in Ha. first [discriminate Ha | injection Ha as <-; vm_compute; reflexivity].
  - vm_compute. reflexivity.
  - assert (Hr : r_status r = 401) by (vm_compute in E1; injection E1 as <- _ _; reflexivity).
    rewrite (Hran Hr) in A1, A2. exists r, s1, s2, n'. split_and!; [exact E1|exact E2|exact Hr|exact A1|exact A2].
Defined.
