(* ===== verification/Setup.v ===== *)
(** * First-run setup (crates/lodger/src/setup.rs)

    The one-time token, and the claim of a new install as a program over the
    shared state, interleaved with any number of other claims. *)

From S2P Require Import Prelude Text Net Validate Password Throttle Tickets Db AuditLog Http Server.

(** An hour, in nanoseconds. *)
Definition TOKEN_LIFETIME : Z := secs (60 * 60).

Record Claim := { claim_token : str; claim_username : str; claim_password : str }.

Definition Claim_debug `{LogText} (c : Claim) : str :=
  debug_struct (lit "Claim") [(lit "username", debug_text (claim_username c))].

Section setup.
Context `{Ipnet} `{Lowercase} `{Argon2} `{LogText}.
Variable sha256 : str → list Z.
Variable trusted_proxies : list ipnet.
Variable COMMON : list str.
(** The texts of the validation errors ([Display]). *)
Variable input_error_text : InputError → str.
Variable password_error_text : PasswordError → str.

(** [SetupToken::generate]. *)
Definition generate (now : Z) (random : result str (list Z)) : result str (str * SetupToken) :=
  bytes ← map_err (λ e, lit "cannot make a setup token: " ++ e) random;
  let text := hex_encode bytes in
  Ok (text, {| setup_hash := sha256 text; setup_expires := now + TOKEN_LIFETIME |}).

(** [matches]. *)
Definition token_matches (token : SetupToken) (submitted : str) : bool :=
  bool_decide (setup_hash token = sha256 (trim submitted)).

(** [status]. *)
Definition status : prog Response :=
  atom (λ e s, (s,
    if match app_setup s with Some t => e_instant e <? setup_expires t | None => false end
    then json 200 [(lit "required", VBool true)] else Http.plain 404)).

(** Step 2 of [claim], under the lock. *)
Definition check_token (submitted : str) : prog (option Response) :=
  atom (λ e s, (s,
    match app_setup s with
    | None => Some (Http.plain 404)
    | Some token =>
        if negb (token_matches token submitted) then Some (error 403 (lit "wrong setup token"))
        else if setup_expires token <=? e_instant e
        then Some (error 403 (lit "the setup token expired. Restart Lodger to write a new one to the log"))
        else None
    end)).

(** [claim]. *)
Definition claim (peer : ip_addr) (headers : HeaderMap) (body : result Response Claim) : prog Response :=
  closed ← atom (λ _ s, (s, bool_decide (app_setup s = None)));
  if (closed : bool) then mret (Http.plain 404)
  else
    match body with
    | Err rejection => mret rejection
    | Ok claim =>
        refused ← check_token (claim_token claim);
        match refused with
        | Some response => mret response
        | None =>
            match Name_parse (lit "username") (claim_username claim) with
            | Err e => mret (error 422 (input_error_text e))
            | Ok username =>
                match Password.check COMMON (claim_password claim) with
                | Err e => mret (error 422 (password_error_text e))
                | Ok _ =>
                    hashed ← run_task (Server.hash (claim_password claim));
                    match hashed with
                    | Some (Err e) =>
                        _ ← eprintln (lit "lodger: setup: cannot hash the password: " ++ e);
                        mret (error 500 (lit "cannot hash the password"))
                    | None =>
                        _ ← eprintln (lit "lodger: setup: the hashing task failed");
                        mret (error 500 (lit "cannot hash the password"))
                    | Some (Ok hash) =>
                        let name := as_str username in
                        created ← db (create_first_account name hash);
                        match created with
                        | Ok true =>
                            _ ← atom (λ _ s, (with_setup None s, tt));
                            _ ← eprintln (lit "lodger: setup done: created the first account, " ++ name);
                            let ip := Http.client_ip peer headers trusted_proxies in
                            _ ← audit_log (with_client_ip ip (with_account name
                                  (Entry_ok (lit "setup.completed"))));
                            mret (json 201 [(lit "username", VText name)])
                        | Ok false => mret (Http.plain 404)
                        | Err e =>
                            _ ← eprintln (lit "lodger: setup: the database failed: " ++ sql_text e);
                            mret (error 500 (lit "cannot create the account"))
                        end
                    end
                end
            end
        end
    end.

(** ** Parallel claims *)

Definition accounts_of (s : AppState) : list AccountRow := tab_accounts (app_db s).

(** Programs that leave the accounts alone, with what their results satisfy. *)
Fixpoint silent {A} (P : A → Prop) (p : prog A) : Prop :=
  match p with
  | Ret a => P a
  | Atom f k => ∀ e s, accounts_of (f e s).1 = accounts_of s ∧ silent P (k (f e s).2)
  end.

(** A claim that made the first account: it ends with 201. *)
Fixpoint won (p : prog Response) : Prop :=
  match p with
  | Ret r => r_status r = 201
  | Atom f k => ∀ e s, accounts_of (f e s).1 = accounts_of s ∧ won (k (f e s).2)
  end.

(** A claim that has not: each step leaves the accounts alone, or makes the
    first one and wins; it never ends with 201 otherwise. *)
Fixpoint pending (p : prog Response) : Prop :=
  match p with
  | Ret r => r_status r ≠ 201
  | Atom f k => ∀ e s,
      accounts_of (f e s).1 = accounts_of s ∧ pending (k (f e s).2) ∨
      accounts_of s = [] ∧ (∃ a, accounts_of (f e s).1 = [a]) ∧ won (k (f e s).2)
  end.

Lemma pending_bind {A} (P : A → Prop) (p : prog A) f :
  silent P p → (∀ a, P a → pending (f a)) → pending (p ≫= f).
Proof.
  intros Hp Hf. induction p as [a|B g k IH]; [by apply Hf|]. simpl in *. intros e s.
  left. destruct (Hp e s). split; [done|]. by apply IH.
Qed.

Lemma silent_audit entry : silent (λ _, True) (audit_log entry).
Proof.
  intros e s. split; [|done]. unfold accounts_of.
  by destruct (audit_log_tables entry (λ _, e) s 0%nat) as [Ha _]; simpl in Ha;
    destruct (log entry (e_sql e) (app_journal s) (app_db s) 0) as [[j t] n].
Qed.

Lemma claim_pending peer headers body :
  (∀ rejection, body = Err rejection → r_status rejection ≠ 201) →
  pending (claim peer headers body).
Proof.
  intros Hrej. unfold claim.
  apply (pending_bind (λ _, True)); [by intros e s|]. intros [|] _; [done|].
  destruct body as [c|rejection]; [|by apply Hrej].
  apply (pending_bind (λ o, ∀ r, o = Some r → r_status r ≠ 201)).
  { intros e s. split; [done|]. simpl. intros r. repeat case_match; by intros [= <-]. }
  intros [response|] Hr; [by apply Hr|].
  destruct (Name_parse _ _) as [name|]; [|done]. destruct (Password.check _ _); [|done].
  apply (pending_bind (λ _, True)); [by intros e s|]. intros [[h|]|] _; [|by intros ? ?; left..].
  intros e s. simpl.
  destruct (create_first_account (as_str name) h (e_sql e) (app_db s) O) as [[r d] n] eqn:E.
  pose proof (create_first_account_spec _ _ _ _ _ _ _ _ E) as Hs. unfold accounts_of.
  cbn [fst snd app_db with_db]. destruct r as [[|]|].
  - right. destruct Hs as (Hnil & (a & Ha & _) & _). split_and!; [done|by exists a|].
    intros e1 s1. split; [done|]. intros e2 s2. split; [done|]. intros e3 s3.
    split; [apply (silent_audit _ e3 s3)|done].
  - left. by destruct Hs as [-> _].
  - left. split; [by rewrite Hs|]. intros e1 s1. by left.
Qed.

(** The invariant of a pool of claims. *)
Definition claims_inv (c : AppState * list (prog Response)) : Prop :=
  accounts_of c.1 = [] ∧ Forall pending c.2 ∨
  ∃ a i p, accounts_of c.1 = [a] ∧ c.2 !! i = Some p ∧ won p ∧
    ∀ j q, j ≠ i → c.2 !! j = Some q → pending q.

Lemma claims_step c c' : claims_inv c → pool_step c c' → claims_inv c'.
Proof.
  intros Hi Hs. destruct Hs as [s ps i B f k e s' b Hp Hf].
  destruct Hi as [[Hnil Hall]|(a & w & p & Ha & Hw & Hwon & Hrest)]; cbn [fst snd] in *.
  - pose proof (Forall_lookup_1 _ _ _ _ Hall Hp) as Hpend. simpl in Hpend.
    specialize (Hpend e s). rewrite Hf in Hpend. cbn [fst snd] in Hpend.
    destruct Hpend as [[Hacc Hk]|(_ & [a Ha] & Hwon)].
    + left. split; [cbn [fst]; congruence|]. by apply Forall_insert.
    + right. exists a, i, (k b). cbn [fst snd]. split_and!; [done| |done|].
      * apply list_lookup_insert_eq. by eapply lookup_lt_Some.
      * intros j q Hne Hj. rewrite list_lookup_insert_ne in Hj by done. by eapply Forall_lookup_1.
  - right. destruct (decide (i = w)) as [->|Hne].
    + rewrite Hp in Hw. injection Hw as <-. simpl in Hwon. specialize (Hwon e s).
      rewrite Hf in Hwon. destruct Hwon as [Hacc Hk]. cbn [fst snd] in *.
      exists a, w, (k b). split_and!; [congruence| |done|].
      * apply list_lookup_insert_eq. by eapply lookup_lt_Some.
      * intros j q Hj Hq. rewrite list_lookup_insert_ne in Hq by done. by eapply Hrest.
    + pose proof (Hrest i _ Hne Hp) as Hpend. simpl in Hpend. specialize (Hpend e s).
      rewrite Hf in Hpend. cbn [fst snd] in *.
      destruct Hpend as [[Hacc Hk]|(Hnil & _)]; [|congruence].
      exists a, w, p. split_and!; [congruence| |done|].
      * by rewrite list_lookup_insert_ne.
      * intros j q Hj Hq. destruct (decide (j = i)) as [->|Hji].
        { rewrite list_lookup_insert_eq in Hq by (by eapply lookup_lt_Some). by injection Hq as <-. }
        rewrite list_lookup_insert_ne in Hq by done. by eapply Hrest.
Qed.

(** C7: however many setup claims run in parallel and however their steps
    interleave, a new install gets at most one account; at most one claim is
    answered 201, that answer implies the account, and once every claim is
    answered the account implies that answer. *)
Theorem setup_creates_one_account claims s s' ps' :
  (∀ peer headers rejection, (peer, headers, Err rejection) ∈ claims → r_status rejection ≠ 201) →
  accounts_of s = [] →
  rtc pool_step (s, (λ '(peer, headers, body), claim peer headers body) <$> claims) (s', ps') →
  (length (accounts_of s') ≤ 1)%nat ∧
  (∀ i j r1 r2, ps' !! i = Some (Ret r1) → ps' !! j = Some (Ret r2) →
     r_status r1 = 201 → r_status r2 = 201 → i = j) ∧
  (∀ i r, ps' !! i = Some (Ret r) → r_status r = 201 → length (accounts_of s') = 1%nat) ∧
  (Forall (λ p, ∃ r, p = Ret r) ps' → accounts_of s' ≠ [] →
     ∃ i r, ps' !! i = Some (Ret r) ∧ r_status r = 201).
Proof.
  intros Hrej Hnil Hsteps.
  assert (Hi : claims_inv (s', ps')).
  { revert Hsteps. apply (rtc_ind_r claims_inv); [|by intros y z _ Hyz Hy; eapply claims_step].
    left. split; [done|]. apply Forall_fmap, Forall_forall. intros [[peer headers] body] Hin. simpl.
    apply claim_pending. intros rejection ->. by eapply Hrej. }
  destruct Hi as [[Hz Hall]|(a & w & p & Ha & Hw & Hwon & Hrest)]; cbn [fst snd] in *.
  - rewrite Hz. split_and!; [simpl; lia| | |done].
    + intros i j r1 r2 E1 _ S1 _. by pose proof (Forall_lookup_1 _ _ _ _ Hall E1).
    + intros i r E1 S1. by pose proof (Forall_lookup_1 _ _ _ _ Hall E1).
  - assert (Hw' : ∀ i r, ps' !! i = Some (Ret r) → r_status r = 201 → i = w).
    { intros i r E1 S1. destruct (decide (i = w)); [done|]. by pose proof (Hrest _ _ ltac:(done) E1). }
    rewrite Ha. split_and!; [simpl; lia| |done|].
    + intros i j r1 r2 E1 E2 S1 S2. rewrite (Hw' _ _ E1 S1), (Hw' _ _ E2 S2). done.
    + intros Hall _. destruct (Forall_lookup_1 _ _ _ _ Hall Hw) as [r ->]. by exists w, r.
Qed.
End setup.

(** ** Witness: one claim, up to its answer. *)

Definition fresh_app : AppState :=
  {| app_db := no_tables; app_throttle := Counters_default; app_tickets := ∅;
     app_setup := Some {| setup_hash := lit "abc"; setup_expires := 10 |}; app_journal := []; app_argon2 := [] |}.

Lemma setup_creates_one_account_witness :
  let c := @claim ipnet_ref ascii_lowercase
             {| argon2_hash _ p := Ok p; argon2_verify p h := bool_decide (p = h) |} log_text_plain
             id [] [] (λ _, []) (λ _, []) in
  let body := Ok {| claim_token := lit " abc"; claim_username := lit "admin";
                    claim_password := lit "a long pass phrase" |} in
  accounts_of fresh_app = [] ∧
  ∀ s' ps', rtc pool_step (fresh_app, [c (V4 1) [] body]) (s', ps') →
  (length (accounts_of s') ≤ 1)%nat.
Proof.
  intros c body. split; [reflexivity|]. intros s' ps' Hsteps.
  refine (proj1 (@setup_creates_one_account ipnet_ref ascii_lowercase
    {| argon2_hash _ p := Ok p; argon2_verify p h := bool_decide (p = h) |} log_text_plain
    id [] [] (λ _, []) (λ _, []) [(V4 1, [], body)] fresh_app s' ps' _ eq_refl Hsteps)).
  intros peer headers rejection Hin%list_elem_of_singleton. unfold body in Hin. congruence.
Defined.
