(* ===== verification/Accounts.v ===== *)
(** * Accounts (crates/lodger/src/accounts.rs)

    The account handlers as programs over the shared state, behind the session
    guard of Auth.v, and what can happen between their steps. *)

From S2P Require Import Prelude Text Net Validate Password Throttle Tickets Db AuditLog Http Server Auth.

Definition CREATE : str := lit "account.create".
Definition DELETE_ : str := lit "account.delete".
Definition CHANGE_PASSWORD : str := lit "account.change_password".

Record NewAccount := { na_username : str; na_password : str }.
Record PasswordChange := { current_password : str; new_password : str }.

Definition NewAccount_debug `{LogText} (n : NewAccount) : str :=
  debug_struct (lit "NewAccount") [(lit "username", debug_text (na_username n))].
Definition PasswordChange_debug (_ : PasswordChange) : str := debug_struct (lit "PasswordChange") [].

Definition database_failed `{LogText} (what : str) (e : SqlError) : prog Response :=
  _ ← eprintln (lit "lodger: " ++ what ++ lit ": the database failed: " ++ sql_text e);
  mret (error 500 (lit "cannot " ++ what)).

(** A row of [GET /api/accounts]: the account, and whether it is the caller's. *)
Record Listed := { listed_account : AccountInfo; listed_you : bool }.

Section accounts.
Context `{Ipnet} `{Lowercase} `{Argon2} `{LogText}.
Variable sha256 : str → list Z.
Variable trusted_proxies : list ipnet.
Variable COMMON : list str.
Variable input_error_text : InputError → str.
Variable password_error_text : PasswordError → str.

(** [hash]: the hash, or the 500 answer. *)
Definition hash_password (password : str) : prog (result Response str) :=
  r ← run_task (Server.hash password);
  match r with
  | Some (Ok hash) => mret (Ok hash)
  | Some (Err e) =>
      _ ← eprintln (lit "lodger: accounts: cannot hash the password: " ++ e);
      mret (Err (error 500 (lit "cannot hash the password")))
  | None =>
      _ ← eprintln (lit "lodger: accounts: the hashing task failed");
      mret (Err (error 500 (lit "cannot hash the password")))
  end.

Definition list_ (session : Session) : prog (result Response (list Listed)) :=
  r ← db (A := list AccountInfo) list_accounts;
  match r with
  | Ok rows => mret (Ok (fmap (M := list) (λ a,
      {| listed_you := info_id a =? session_account_id session; listed_account := a |}) rows))
  | Err e => response ← database_failed (lit "list the accounts") e; mret (Err response)
  end.

Definition create (peer : ip_addr) (headers : HeaderMap) (session : Session)
    (body : result Response NewAccount) : prog Response :=
  match body with
  | Err rejection => mret rejection
  | Ok new =>
      match Name_parse (lit "username") (na_username new) with
      | Err e => mret (error 422 (input_error_text e))
      | Ok name =>
          let username := as_str name in
          match Password.check COMMON (na_password new) with
          | Err e => mret (error 422 (password_error_text e))
          | Ok _ =>
              hashed ← hash_password (na_password new);
              match hashed with
              | Err response => mret response
              | Ok hash =>
                  let by_ entry :=
                    let ip := Http.client_ip peer headers trusted_proxies in
                    target_account username (with_client_ip ip
                      (with_account (session_username session) entry)) in
                  r ← db (create_account username hash);
                  match r with
                  | Ok (Some id) =>
                      _ ← eprintln (lit "lodger: accounts: created the account " ++ username);
                      _ ← audit_log (by_ (Entry_ok CREATE));
                      mret (json 201 [(lit "id", VNum id); (lit "username", VText username)])
                  | Ok None =>
                      _ ← audit_log (by_ (Entry_failed CREATE (lit "name_taken")));
                      mret (error 409 (lit "an account called " ++ username ++ lit " exists already"))
                  | Err e => database_failed (lit "create the account") e
                  end
              end
          end
      end
  end.

Definition delete_ (peer : ip_addr) (headers : HeaderMap) (session : Session) (id : Z) :
    prog Response :=
  let by_ entry :=
    let ip := Http.client_ip peer headers trusted_proxies in
    with_client_ip ip (with_account (session_username session) entry) in
  r ← db (delete_account id);
  match r with
  | Ok (DeletedYes name) =>
      _ ← eprintln (lit "lodger: accounts: deleted the account with id " ++ to_string id);
      _ ← audit_log (target_account name (by_ (Entry_ok DELETE_)));
      mret (Http.plain 204)
  | Ok NoSuchAccount => mret (error 404 (lit "no such account"))
  | Ok LastAccount =>
      _ ← audit_log (target_account (session_username session)
            (by_ (Entry_failed DELETE_ (lit "last_account"))));
      mret (error 409 (lit "this is the last account. Add another account before you delete this one"))
  | Err e => database_failed (lit "delete the account") e
  end.

Definition change_failed (e : SqlError) : prog (option Response) :=
  response ← database_failed (lit "change the password") e; mret (Some response).

(** The end of [change_password], from the new hash on.  [None] is the panic of
    [expect]. *)
Definition store_password (headers : HeaderMap) (account : Account) (ip : ip_addr)
    (new_password : str) : prog (option Response) :=
  hashed ← hash_password new_password;
  match hashed with
  | Err response => mret (Some response)
  | Ok hash =>
      match session_key sha256 headers with
      | None => mret None
      | Some current =>
          made ← new_session sha256 (account_id account) ip headers;
          match made with
          | Err e =>
              _ ← eprintln (lit "lodger: change the password: " ++ e);
              mret (Some (error 500 (lit "cannot change the password")))
          | Ok (token, new) =>
              let csrf_token := new_csrf_token new in
              r ← db (Db.change_password (account_id account) hash current new);
              match r with
              | Ok ended_sessions =>
                  _ ← audit_log (target_account (account_username account) (with_client_ip ip
                        (with_account (account_username account) (Entry_ok CHANGE_PASSWORD))));
                  _ ← eprintln (lit "lodger: accounts: " ++ account_username account ++
                        lit " changed the password; " ++ to_string ended_sessions ++ lit " other sessions ended");
                  mret (Some (add_header (lit "set-cookie") (set_cookie token)
                    (json 200 [(lit "ended_sessions", VNum ended_sessions);
                               (lit "csrf_token", VText csrf_token)])))
              | Err e => change_failed e
              end
          end
      end
  end.

Definition change_password (peer : ip_addr) (headers : HeaderMap) (session : Session)
    (body : result Response PasswordChange) : prog (option Response) :=
  match body with
  | Err rejection => mret (Some rejection)
  | Ok change =>
      match Password.check COMMON (new_password change) with
      | Err e => mret (Some (error 422 (password_error_text e)))
      | Ok _ =>
          found ← db (account_by_id (session_account_id session));
          match found with
          | Err e => change_failed e
          | Ok None => mret (Some (error 401 (lit "log in first")))
          | Ok (Some account) =>
              let ip := Http.client_ip peer headers trusted_proxies in
              attempt ← throttled (account_username account) ip;
              match attempt with
              | Err response => mret (Some response)
              | Ok attempt =>
                  verified ← run_task (verify (current_password change) (account_hash account));
                  if negb (default false verified) then
                    _ ← audit_log (target_account (account_username account) (with_client_ip ip
                          (with_account (account_username account)
                            (Entry_failed CHANGE_PASSWORD (lit "wrong_password")))));
                    mret (Some (error 403 (lit "the current password is wrong")))
                  else
                    _ ← throttle_succeed (account_username account) ip attempt;
                    store_password headers account ip (new_password change)
              end
          end
      end
  end.

(** ** Properties *)

Lemma account_by_id_spec id env t n r t' n' :
  account_by_id id env t n = (r, t', n') →
  t' = t ∧ ∀ a, r = Ok (Some a) → ∃ x, x ∈ tab_accounts t ∧ acc_id x = id ∧ a = to_account x.
Proof.
  unfold account_by_id, mbind, sql_bind. intros E.
  destruct (account_where (has_id id) env t n) as [[[o|e] t1] n1] eqn:Ea.
  - apply statement_Ok in Ea as (_ & _ & [= <- <-]). injection E as <- <- _. split; [done|].
    intros a Hr. destruct (List.find (has_id id) (tab_accounts t)) as [x|] eqn:Ef; simplify_eq/=.
    apply find_Some_split in Ef as (l1 & l2 & Hl & Hid%has_id_true & _). exists x. rewrite Hl.
    set_solver.
  - injection E as <- <- _. split; [|done]. by eapply statement_Err.
Qed.

Lemma wp_hash_password password (Q : result Response str → AppState → Prop) s :
  (∀ salt h s', argon2_hash salt password = Ok h → app_db s' = app_db s → Q (Ok h) s') →
  (∀ s', app_db s' = app_db s → Q (Err (error 500 (lit "cannot hash the password"))) s') →
  wp (hash_password password) Q s.
Proof.
  intros HO HE. apply wp_bind, wp_run_task. intros e. unfold Server.hash. cbn [fst snd].
  destruct (e_task e); [|apply wp_bind, wp_eprintln; intros j; by apply wp_ret, HE].
  destruct (argon2_hash (e_salt e) password) eqn:Eh; [apply wp_ret; by eapply HO|].
  apply wp_bind, wp_eprintln. intros j. by apply wp_ret, HE.
Qed.

Lemma wp_change_failed err (Q : option Response → AppState → Prop) s :
  (∀ j, Q (Some (error 500 (lit "cannot change the password"))) (with_journal j s)) →
  wp (change_failed err) Q s.
Proof. intros HQ. apply wp_bind, wp_bind, wp_eprintln. intros j. by apply wp_ret, wp_ret. Qed.

Context `{!Argon2Laws}.

(** What a password change leaves. *)
Definition change_post (change : PasswordChange) (session : Session) (s : AppState)
    (r : option Response) (s' : AppState) : Prop :=
  match r with
  | Some resp =>
      if bool_decide (r_status resp = 200) then
        ∃ a token, a ∈ tab_accounts (app_db s) ∧ acc_id a = session_account_id session ∧
          argon2_verify (current_password change) (acc_hash a) = true ∧
          (∀ b, b ∈ tab_accounts (app_db s') → acc_id b = acc_id a →
             argon2_verify (new_password change) (acc_hash b) = true) ∧
          r_headers resp = [(lit "set-cookie", set_cookie token)] ∧
          ∀ x, x ∈ tab_sessions (app_db s') → ses_account x = acc_id a →
            ses_token x = token_hash sha256 token
      else tab_accounts (app_db s') = tab_accounts (app_db s) ∧
           tab_sessions (app_db s') = tab_sessions (app_db s)
  | None => True
  end.

Lemma store_password_post change session headers s s1 a ip :
  app_db s1 = app_db s → a ∈ tab_accounts (app_db s) → acc_id a = session_account_id session →
  argon2_verify (current_password change) (acc_hash a) = true →
  wp (store_password headers (to_account a) ip (new_password change)) (change_post change session s) s1.
Proof.
  intros Hdb Ha Hid Hv. unfold store_password. apply wp_bind, wp_hash_password.
  2: { intros s2 Hs2. apply wp_ret. unfold change_post. cbn. by rewrite Hs2, Hdb. }
  intros salt h s2 Hh Hs2. rewrite <- Hs2 in Hdb. clear Hs2. destruct (session_key sha256 headers) as [current|]; [|by apply wp_ret].
  apply wp_bind, wp_new_session.
  { intros e. apply wp_bind, wp_eprintln. intros j. apply wp_ret. unfold change_post. cbn. by rewrite Hdb. }
  intros token new Ht Hnid. apply wp_bind, wp_db. intros env r t n E. rewrite Hdb in E.
  destruct r as [ended|e].
  - destruct (change_password_spec _ _ _ _ _ _ _ _ _ _ E) as (_ & Hhash & row & Hr1 & Hr2 & Hiff).
    apply wp_bind, wp_audit. intros s' Hsa Hss _ _ _. apply wp_bind, wp_eprintln. intros j. apply wp_ret.
    unfold change_post. rewrite bool_decide_true by done. exists a, token. cbn [app_db with_db with_journal] in *.
    rewrite Hsa, Hss. split_and!; try done.
    + intros b Hb Hbid. rewrite (Hhash b Hb Hbid). by eapply verify_hash.
    + intros x [(_ & Hne & _)| ->]%Hiff Hx; [done|]. by rewrite Hr1, Ht.
  - apply transaction_Err in E as ->. apply wp_change_failed. intros j. unfold change_post. cbn. done.
Qed.

(** Run alone, the password change needs the current password: it answers
    200 only when the current password verifies against the caller's account,
    and then the new password verifies, and every session of the account is gone
    but the new one of the cookie.  Any other answer changes neither an account
    nor a session. *)
Theorem change_password_correct peer headers session change s :
  wp (change_password peer headers session (Ok change)) (change_post change session s) s.
Proof.
  unfold change_password.
  assert (Hfail : ∀ resp s', r_status resp ≠ 200 →
    tab_accounts (app_db s') = tab_accounts (app_db s) →
    tab_sessions (app_db s') = tab_sessions (app_db s) → change_post change session s (Some resp) s').
  { intros resp s' Hne ??. unfold change_post. by rewrite bool_decide_false. }
  destruct (Password.check _ _) as [[]|]; [|by apply wp_ret, Hfail].
  apply wp_bind, wp_db. intros env r t n E. destruct (account_by_id_spec _ _ _ _ _ _ _ E) as [-> Hf].
  destruct r as [[account|]|]; [|by apply wp_ret, Hfail|by apply wp_change_failed; intros j; apply Hfail].
  destruct (Hf account eq_refl) as (a & Ha & Hid & ->).
  apply wp_bind, wp_throttled. intros r c j Hr. destruct r as [attempt|resp].
  2: { apply wp_ret, Hfail; [|done..]. by rewrite (Hr resp eq_refl). }
  apply wp_bind, wp_run_task. intros e.
  match goal with |- context [negb ?v] => destruct v eqn:Ev end; cbn [negb].
  - apply wp_bind, wp_atom. intros e'. apply store_password_post; try done.
    by destruct (e_task e).
  - apply wp_bind, wp_audit. intros s' Hsa Hss _ _ _. by apply wp_ret, Hfail.
Qed.
End accounts.

(** ** What can happen between the steps *)

(** "admin" has id 1, "bob" has id 2 and the session with token [[8]]. *)
Definition two_accounts : AppState :=
  {| app_db := run_ops [OpCreateFirst (lit "admin") (lit "$admin");
                        OpCreate (lit "bob") (lit "$bob");
                        OpCreateSession {| new_token_sha256 := [8]; new_account_id := 2;
                          new_csrf_token := lit "csrf"; new_client_ip := lit "127.0.0.1";
                          new_user_agent := None |}] calm no_tables 0;
     app_throttle := Counters_default; app_tickets := ∅; app_setup := None; app_journal := []; app_argon2 := [] |}.

Definition as_bob : Session :=
  {| session_account_id := 2; session_username := lit "bob"; session_csrf_token := lit "csrf" |}.
Definition as_admin : Session :=
  {| session_account_id := 1; session_username := lit "admin"; session_csrf_token := lit "csrf" |}.

Definition bob_changes : prog (option Response) :=
  @change_password ipnet_ref ascii_lowercase argon2_plain log_text_plain (λ _, [8]) [] [] (λ _, [])
    (V4 1) sid_headers as_bob
    (Ok {| current_password := lit "bob"; new_password := lit "a new password of bob" |}).
Definition admin_deletes_bob : prog (option Response) :=
  r ← @delete_ ipnet_ref log_text_plain [] (V4 2) [] as_admin 2; mret (Some r).
Definition admin_creates_carol : prog (option Response) :=
  r ← @create ipnet_ref ascii_lowercase argon2_plain log_text_plain [] [] (λ _, []) (λ _, []) (V4 2) [] as_admin
    (Ok {| na_username := lit "carol"; na_password := lit "the password of carol" |});
  mret (Some r).

(** The status that program [i] ended with. *)
Definition answer (ps : list (prog (option Response))) (i : nat) : option Z :=
  match ps !! i with Some (Ret (Some r)) => Some (r_status r) | _ => None end.

Lemma answer_Some ps i n :
  answer ps i = Some n → ∃ r, ps !! i = Some (Ret (Some r)) ∧ r_status r = n.
Proof.
  unfold answer. destruct (ps !! i) as [[[r|]|]|]; try done. intros [= <-]. by exists r.
Qed.

(** While bob's new password is hashed, the admin deletes bob and adds carol. *)
Definition race : list (nat * env) :=
  (λ i, (i, calm_env 0)) <$>
    replicate 5 0%nat ++ replicate 3 1%nat ++ replicate 4 2%nat ++ replicate 5 0%nat.

(** An account id can be reused between the steps of a password change.  The
    id column is a plain row id, so a new account takes the id of the last one
    deleted.  In this interleaving bob's change, which checked bob's password,
    ends with 200 and has set the password of carol, an account that was created
    while bob's request ran. *)
Theorem password_change_reaches_reused_id :
  ∃ s' ps', rtc pool_step (two_accounts, [bob_changes; admin_deletes_bob; admin_creates_carol]) (s', ps') ∧
    (∃ resp, ps' !! 0%nat = Some (Ret (Some resp)) ∧ r_status resp = 200) ∧
    ∃ a, a ∈ tab_accounts (app_db s') ∧ acc_username a = lit "carol" ∧
      @argon2_verify argon2_plain (lit "a new password of bob") (acc_hash a) = true ∧
      @argon2_verify argon2_plain (lit "the password of carol") (acc_hash a) = false.
Proof.
  set (c := (two_accounts, [bob_changes; admin_deletes_bob; admin_creates_carol])).
  exists (run_schedule race c).1, (run_schedule race c).2.
  split; [rewrite <- surjective_pairing; apply run_schedule_steps|].
  split; [apply answer_Some; by vm_compute|].
  assert (Ha : (λ a, (acc_username a, acc_hash a)) <$> tab_accounts (app_db (run_schedule race c).1) =
    [(lit "admin", lit "$admin"); (lit "carol", lit "$a new password of bob")]) by by vm_compute.
  assert (Hin : (lit "carol", lit "$a new password of bob") ∈
    ((λ a, (acc_username a, acc_hash a)) <$> tab_accounts (app_db (run_schedule race c).1)))
    by (rewrite Ha; apply list_elem_of_further, list_elem_of_here).
  apply list_elem_of_fmap in Hin as (a & [= Hu Hh] & Hin).
  exists a. rewrite <- Hu, <- Hh. split_and!; try done; by vm_compute.
Qed.

(** ** Witness *)

Lemma change_password_correct_witness :
  wp bob_changes (@change_post argon2_plain (λ _, [8])
    {| current_password := lit "bob"; new_password := lit "a new password of bob" |} as_bob
    two_accounts) two_accounts.
Proof. by apply (change_password_correct (λ _, [8]) [] [] (λ _, [])). Defined.
