(* ===== verification/Virt.v ===== *)
(** * libvirt calls as programs
    (crates/lodger-virt/src/conn.rs and crates/lodger-virt/src/errors.rs)

    The adapter runs closures on a libvirt connection.  A closure is a program
    over libvirt calls; libvirt, the [virt] crate and the file system are outside,
    so a call can be answered in any way: [vruns p tr a] says that [p] can end
    with [a] after the calls and answers [tr].  Handles of domains, pools, volumes
    and networks are opaque numbers. *)

From S2P Require Import Prelude StatsFfi Text Net Validate Model Xml.

(** ** The calls *)

Inductive ErrorNumber :=
  InvalidArg | NoDomain | NoStoragePool | NoStorageVolume | NoNetwork | OperationInvalid |
  NoSupport | OtherError (code : Z).

#[export] Instance ErrorNumber_eq_dec : EqDecision ErrorNumber.
Proof. solve_decision. Defined.

(** [virt::error::Error]: the code, [None] when the crate does not know it, and
    the message. *)
Record verr := { verr_code : option ErrorNumber; verr_message : str }.

Record dom_info := { info_state : Z; info_memory : Z; info_nr_virt_cpu : Z }.
Record pool_info := { pinfo_state : Z; pinfo_capacity : Z; pinfo_allocation : Z; pinfo_available : Z }.
Record node_info := { node_cpus : Z; node_memory : Z }.
Record vol_info := { vinfo_kind : Z; vinfo_capacity : Z; vinfo_allocation : Z }.

Abbreviation domain := Z.
Abbreviation pool := Z.
Abbreviation vol := Z.
Abbreviation net := Z.

Inductive vcall :=
| LookupDomainByUuid (id : Uuid)
| ListAllDomains
| DomainInfo (d : domain)
| DomainUuid (d : domain)
| DomainName (d : domain)
| DomainIsActive (d : domain)
| DomainIsPersistent (d : domain)
| DomainAutostart (d : domain)
| DomainXmlDesc (d : domain) (flags : Z)
| DomainCreate (d : domain)
| DomainShutdown (d : domain) (flags : Z)
| DomainDestroy (d : domain)
| DomainReboot (d : domain) (flags : Z)
| DomainSuspend (d : domain)
| DomainResume (d : domain)
| DomainSetAutostart (d : domain) (on : bool)
| DomainUndefine (d : domain) (flags : Z)
| LookupPoolByUuid (id : Uuid)
| LookupPoolByName (name : str)
| ListAllPools
| PoolInfo (p : pool)
| PoolUuid (p : pool)
| PoolName (p : pool)
| PoolIsActive (p : pool)
| PoolIsPersistent (p : pool)
| PoolAutostart (p : pool)
| PoolXmlDesc (p : pool)
| PoolListVolumes (p : pool)
| PoolLookupVolByName (p : pool) (name : str)
| PoolRefresh (p : pool)
| DefinePoolXml (xml : str)
| PoolBuild (p : pool)
| PoolSetAutostart (p : pool) (on : bool)
| PoolCreate (p : pool)
| PoolDestroy (p : pool)
| PoolDelete (p : pool)
| PoolUndefine (p : pool)
| LookupVolByPath (path : str)
| VolPath (v : vol)
| VolName (v : vol)
| VolKey (v : vol)
| VolInfo (v : vol)
| VolXmlDesc (v : vol)
| VolCreateXml (p : pool) (xml : str)
| VolDelete (v : vol)
| LookupNetworkByUuid (id : Uuid)
| ListAllNetworks
| NetUuid (n : net)
| NetName (n : net)
| NetIsActive (n : net)
| NetIsPersistent (n : net)
| NetAutostart (n : net)
| NetBridgeName (n : net)
| NetXmlDesc (n : net)
| DefineNetworkXml (xml : str)
| NetSetAutostart (n : net) (on : bool)
| NetCreate (n : net)
| NetDestroy (n : net)
| NetUndefine (n : net)
(** [std::fs::canonicalize], [None] when it fails. *)
| Canonicalize (path : str)
(** The calls on a connection itself: [start_event_loop], [Connect::open],
    [set_keep_alive], the registration of the event callbacks, the facts of the
    host, the statistics of all running domains, a socket pair, and the console. *)
| StartEventLoop
| ConnectOpen (uri : str)
| SetKeepAlive (conn interval count : Z)
| RegisterEvents (conn : Z)
| NodeInfo
| LibVersion
| Hostname
| AllDomainStats (groups flags : Z)
| SocketPair
| DomainOpenGraphics (d : domain) (idx flags : Z).

(** The type of the answer of a call. *)
Definition resp (c : vcall) : Type :=
  match c with
  | LookupDomainByUuid _ => result verr domain
  | ListAllDomains => result verr (list domain)
  | DomainInfo _ => result verr dom_info
  | DomainUuid _ | PoolUuid _ | NetUuid _ => result verr Uuid
  | DomainName _ | PoolName _ | VolName _ | NetName _ => result verr str
  | DomainIsActive _ | DomainIsPersistent _ | DomainAutostart _
  | PoolIsActive _ | PoolIsPersistent _ | PoolAutostart _
  | NetIsActive _ | NetIsPersistent _ | NetAutostart _ => result verr bool
  | DomainXmlDesc _ _ | PoolXmlDesc _ | VolXmlDesc _ | NetXmlDesc _
  | VolPath _ | VolKey _ | NetBridgeName _ => result verr str
  | LookupPoolByUuid _ | LookupPoolByName _ | DefinePoolXml _ => result verr pool
  | ListAllPools => result verr (list pool)
  | PoolInfo _ => result verr pool_info
  | PoolListVolumes _ => result verr (list vol)
  | PoolLookupVolByName _ _ | LookupVolByPath _ | VolCreateXml _ _ => result verr vol
  | VolInfo _ => result verr vol_info
  | LookupNetworkByUuid _ | DefineNetworkXml _ => result verr net
  | ListAllNetworks => result verr (list net)
  | Canonicalize _ => option str
  | StartEventLoop => result str unit
  | ConnectOpen _ => result verr Z
  | NodeInfo => result verr node_info
  | LibVersion => result verr Z
  | Hostname => result verr str
  | AllDomainStats _ _ => result verr (list Record_)
  | SocketPair => result str Z
  | _ => result verr unit
  end.

(** The calls that change nothing and whose answers the in-use scans compare. *)
Definition is_query (c : vcall) : bool :=
  match c with
  | ListAllDomains | DomainInfo _ | DomainUuid _ | DomainName _ | DomainIsActive _
  | DomainIsPersistent _ | DomainAutostart _ | DomainXmlDesc _ _
  | LookupPoolByUuid _ | LookupPoolByName _ | ListAllPools | PoolInfo _ | PoolUuid _ | PoolName _
  | PoolIsActive _ | PoolIsPersistent _ | PoolAutostart _ | PoolXmlDesc _ | PoolListVolumes _
  | PoolLookupVolByName _ _ | LookupVolByPath _ | VolPath _ | VolName _ | VolKey _ | VolInfo _
  | VolXmlDesc _ | LookupNetworkByUuid _ | ListAllNetworks | NetUuid _ | NetName _ | NetIsActive _
  | NetIsPersistent _ | NetAutostart _ | NetBridgeName _ | NetXmlDesc _ | Canonicalize _
  | NodeInfo | LibVersion | Hostname | AllDomainStats _ _ => true
  | _ => false
  end.

(** ** Programs *)

Inductive virt (A : Type) : Type :=
| VRet (a : A)
| VCall (c : vcall) (k : resp c → virt A).
Arguments VRet {A} a.
Arguments VCall {A} c k.

#[export] Instance virt_ret : MRet virt := @VRet.
#[export] Instance virt_bind : MBind virt := λ A B f,
  fix go p := match p with VRet a => f a | VCall c k => VCall c (λ r, go (k r)) end.

Definition call (c : vcall) : virt (resp c) := VCall c VRet.

(** The [?] operator: go on with the value, or end with the error. *)
Definition try {E A B} (m : virt (result E A)) (f : A → virt (result E B)) : virt (result E B) :=
  r ← m; match r with Ok a => f a | Err e => mret (Err e) end.

Notation "x ←? m ; k" := (try m (λ x, k))
  (at level 20, m at level 100, k at level 200, right associativity).

(** One call and its answer. *)
Definition ev : Type := { c : vcall & resp c }.

Abbreviation did c r := (existT c r : ev) (only parsing).

Fixpoint vruns {A} (p : virt A) (tr : list ev) (a : A) : Prop :=
  match p with
  | VRet b => tr = [] ∧ a = b
  | VCall c k => ∃ r tr', tr = existT c r :: tr' ∧ vruns (k r) tr' a
  end.

(** Against a libvirt whose answers depend only on the call and the step. *)
Fixpoint vrun {A} (p : virt A) (h : nat → ∀ c, resp c) (n : nat) : list ev * A :=
  match p with
  | VRet a => ([], a)
  | VCall c k => let '(tr, a) := vrun (k (h n c)) h (S n) in (existT c (h n c) :: tr, a)
  end.

Lemma vrun_vruns {A} (p : virt A) h n : vruns p (vrun p h n).1 (vrun p h n).2.
Proof.
  revert n. induction p as [a|c k IH]; intros n; simpl; [done|].
  specialize (IH (h n c) (S n)). destruct (vrun (k (h n c)) h (S n)) as [tr a]. simpl in *.
  by exists (h n c), tr.
Qed.

Lemma vruns_bind {A B} (p : virt A) (f : A → virt B) tr b :
  vruns (p ≫= f) tr b ↔ ∃ tr1 tr2 a, tr = tr1 ++ tr2 ∧ vruns p tr1 a ∧ vruns (f a) tr2 b.
Proof.
  revert tr. induction p as [a|c k IH]; intros tr; simpl.
  - split; [intros Hr; by exists [], tr, a|]. by intros (tr1 & tr2 & a' & -> & [-> ->] & Hr).
  - split.
    + intros (r & tr' & -> & Hr). apply IH in Hr as (tr1 & tr2 & a & -> & H1 & H2).
      exists (existT c r :: tr1), tr2, a. split_and!; [done| |done]. by exists r, tr1.
    + intros (tr1 & tr2 & a & -> & (r & tr' & -> & H1) & H2). exists r, (tr' ++ tr2).
      split; [done|]. apply IH. by exists tr', tr2, a.
Qed.

Lemma vruns_call c tr (r : resp c) : vruns (call c) tr r ↔ tr = [existT c r].
Proof. simpl. split; [by intros (? & ? & -> & -> & ->)|]. intros ->. by exists r, []. Qed.

Lemma vruns_try {E A B} (m : virt (result E A)) (f : A → virt (result E B)) tr r :
  vruns (try m f) tr r ↔
  (∃ e, r = Err e ∧ vruns m tr (Err e)) ∨
  (∃ tr1 tr2 a, tr = tr1 ++ tr2 ∧ vruns m tr1 (Ok a) ∧ vruns (f a) tr2 r).
Proof.
  unfold try. rewrite vruns_bind. split.
  - intros (tr1 & tr2 & [a|e] & -> & H1 & H2); [right; by exists tr1, tr2, a|].
    destruct H2 as [-> ->]. left. exists e. by rewrite app_nil_r.
  - intros [(e & -> & H1)|(tr1 & tr2 & a & -> & H1 & H2)].
    + exists tr, [], (Err e). by rewrite app_nil_r.
    + by exists tr1, tr2, (Ok a).
Qed.

(** ** Queries against an unchanging libvirt *)

(** The queries of a trace were answered from [w]. *)
Definition consistent (w : ∀ c, resp c) (tr : list ev) : Prop :=
  ∀ c r, existT c r ∈ tr → is_query c = true → r = w c.

(** What a program computes when every call is answered from [w]. *)
Fixpoint veval {A} (w : ∀ c, resp c) (p : virt A) : A :=
  match p with VRet a => a | VCall c k => veval w (k (w c)) end.

Fixpoint queries_only {A} (p : virt A) : Prop :=
  match p with VRet _ => True | VCall c k => is_query c = true ∧ ∀ r, queries_only (k r) end.

Lemma consistent_app w tr1 tr2 : consistent w (tr1 ++ tr2) ↔ consistent w tr1 ∧ consistent w tr2.
Proof. unfold consistent. setoid_rewrite elem_of_app. naive_solver. Qed.

Lemma vruns_veval {A} w (p : virt A) tr a :
  queries_only p → vruns p tr a → consistent w tr → a = veval w p.
Proof.
  revert tr. induction p as [b|c k IH]; intros tr Hq Hr Hc; simpl in *; [by destruct Hr|].
  destruct Hq as [Hq Hk]. destruct Hr as (r & tr' & -> & Hr).
  assert (r = w c) as -> by (apply Hc; [apply list_elem_of_here|done]).
  apply (IH _ tr'); [done..|]. intros c' r' Hin. apply Hc. by apply list_elem_of_further.
Qed.

(** A program of queries makes no other call. *)
Lemma queries_only_trace {A} (p : virt A) tr a e :
  queries_only p → vruns p tr a → e ∈ tr → is_query (projT1 e) = true.
Proof.
  revert tr. induction p as [b|c k IH]; intros tr Hq Hr He; simpl in *.
  - destruct Hr as [-> _]. by apply not_elem_of_nil in He.
  - destruct Hq as [Hq Hk]. destruct Hr as (r & tr' & -> & Hr).
    apply elem_of_cons in He as [->|He]; [done|]. by eapply IH.
Qed.

Lemma queries_bind {A B} (p : virt A) (f : A → virt B) :
  queries_only p → (∀ a, queries_only (f a)) → queries_only (p ≫= f).
Proof. induction p as [a|c k IH]; simpl; [auto|]. intros [Hc Hk] Hf. split; [done|]. eauto. Qed.

Lemma queries_try {E A B} (m : virt (result E A)) (f : A → virt (result E B)) :
  queries_only m → (∀ a, queries_only (f a)) → queries_only (try m f).
Proof. intros Hm Hf. apply queries_bind; [done|]. by intros [a|e]. Qed.

Lemma veval_bind {A B} w (p : virt A) (f : A → virt B) :
  veval w (p ≫= f) = veval w (f (veval w p)).
Proof. induction p as [a|c k IH]; simpl; [done|]. apply IH. Qed.

(** A libvirt that answers the queries in the same way at every step. *)
Lemma vrun_consistent {A} (p : virt A) h n :
  (∀ n c, is_query c = true → h n c = h 0%nat c) → consistent (h 0%nat) (vrun p h n).1.
Proof.
  intros Hh. revert n. induction p as [a|c k IH]; intros n; simpl.
  - intros c r He. by apply not_elem_of_nil in He.
  - specialize (IH (h n c) (S n)). destruct (vrun (k (h n c)) h (S n)) as [tr a]. simpl in *.
    intros c' r' [E|Hin]%elem_of_cons Hq; [|by apply IH].
    assert (HP : ∀ e : ev, e = existT c (h n c) → is_query (projT1 e) = true →
      projT2 e = h 0%nat (projT1 e)) by (intros e -> ?; by apply Hh).
    exact (HP _ E Hq).
Qed.

(** ** Symbolic execution *)

(** After the calls [pre], every call that [p] makes fulfils [G] of the calls
    before it, and [p] ends in [Q]. *)
Fixpoint vsafe {A} (G : list ev → vcall → Prop) (Q : list ev → A → Prop) (p : virt A)
    (pre : list ev) : Prop :=
  match p with
  | VRet a => Q pre a
  | VCall c k => G pre c ∧ ∀ r, vsafe G Q (k r) (pre ++ [existT c r])
  end.

Lemma vsafe_sound {A} G Q (p : virt A) pre tr a :
  vsafe G Q p pre → vruns p tr a →
  Q (pre ++ tr) a ∧ ∀ tr1 e tr2, tr = tr1 ++ e :: tr2 → G (pre ++ tr1) (projT1 e).
Proof.
  revert pre tr. induction p as [b|c k IH]; intros pre tr; simpl.
  - intros HQ [-> ->]. rewrite app_nil_r. split; [done|]. by intros [].
  - intros [HG Hk] (r & tr' & -> & Hr). destruct (IH r _ _ (Hk r) Hr) as [HQ Hall].
    rewrite <- app_assoc in HQ. split; [exact HQ|].
    intros [|x tr1] e tr2 E; injection E as <- ->; [by rewrite app_nil_r|].
    specialize (Hall tr1 e tr2 eq_refl). by rewrite <- app_assoc in Hall.
Qed.

Lemma vsafe_bind {A B} G Q (p : virt A) (f : A → virt B) pre :
  vsafe G (λ pre' a, vsafe G Q (f a) pre') p pre → vsafe G Q (p ≫= f) pre.
Proof. revert pre. induction p as [b|c k IH]; intros pre; simpl; [done|]. intros [HG Hk]. eauto. Qed.

Lemma vsafe_mono {A} G (Q Q' : list ev → A → Prop) (p : virt A) pre :
  (∀ pre' a, Q pre' a → Q' pre' a) → vsafe G Q p pre → vsafe G Q' p pre.
Proof.
  intros HQ. revert pre. induction p as [b|c k IH]; intros pre; simpl; [apply HQ|].
  intros [HG Hk]. eauto.
Qed.

Lemma vsafe_try {E A B} G Q (m : virt (result E A)) (f : A → virt (result E B)) pre :
  vsafe G (λ pre' r, match r with Ok a => vsafe G Q (f a) pre' | Err e => Q pre' (Err e) end) m pre →
  vsafe G Q (try m f) pre.
Proof.
  intros Hm. apply vsafe_bind. eapply vsafe_mono; [|exact Hm]. by intros pre' [a|e].
Qed.

Lemma vsafe_call G (c : vcall) (Q : list ev → resp c → Prop) pre :
  G pre c → (∀ r, Q (pre ++ [existT c r]) r) → vsafe G Q (call c) pre.
Proof. done. Qed.

(** A program of queries is safe when [G] allows queries; it only adds calls. *)
Lemma vsafe_queries {A} G Q (p : virt A) pre :
  queries_only p → (∀ pre c, is_query c = true → G pre c) →
  (∀ tr a, vruns p tr a → Q (pre ++ tr) a) → vsafe G Q p pre.
Proof.
  intros Hq HG. revert pre Hq. induction p as [b|c k IH]; intros pre Hq HQ; simpl in *.
  - specialize (HQ [] b). rewrite app_nil_r in HQ. by apply HQ.
  - destruct Hq as [Hc Hk]. split; [by apply HG|]. intros r. apply IH; [done|].
    intros tr a Hr. rewrite <- app_assoc. apply HQ. by exists r, tr.
Qed.

(** ** Loops *)

(** [for a in l { out.extend(f(a)) }]. *)
Fixpoint gather {A B} (f : A → virt (list B)) (l : list A) : virt (list B) :=
  match l with
  | [] => mret []
  | a :: l => bs ← f a; rest ← gather f l; mret (bs ++ rest)
  end.

(** The same with [f(a)?]. *)
Fixpoint gather_try {E A B} (f : A → virt (result E (list B))) (l : list A) : virt (result E (list B)) :=
  match l with
  | [] => mret (Ok [])
  | a :: l => bs ←? f a; rest ←? gather_try f l; mret (Ok (bs ++ rest))
  end.

Lemma gather_queries {A B} (f : A → virt (list B)) l :
  (∀ a, queries_only (f a)) → queries_only (gather f l).
Proof.
  intros Hf. induction l as [|a l IH]; [done|]. cbn [gather].
  apply queries_bind; [done|]. intros bs. by apply queries_bind.
Qed.

Lemma gather_try_queries {E A B} (f : A → virt (result E (list B))) l :
  (∀ a, queries_only (f a)) → queries_only (gather_try f l).
Proof.
  intros Hf. induction l as [|a l IH]; [done|]. cbn [gather_try].
  apply queries_try; [done|]. intros bs. by apply queries_try.
Qed.

Lemma gather_elem {A B} w (f : A → virt (list B)) l b :
  b ∈ veval w (gather f l) ↔ ∃ a, a ∈ l ∧ b ∈ veval w (f a).
Proof.
  induction l as [|a l IH]; cbn [gather]; [set_solver|].
  rewrite !veval_bind. cbn [mret virt_ret veval]. rewrite elem_of_app, IH. set_solver.
Qed.

Lemma veval_try {E A B} w (m : virt (result E A)) (f : A → virt (result E B)) b :
  veval w (try m f) = Ok b ↔ ∃ a, veval w m = Ok a ∧ veval w (f a) = Ok b.
Proof.
  unfold try. rewrite veval_bind. destruct (veval w m) as [a|e]; simpl; naive_solver.
Qed.

Lemma gather_try_elem {E A B} w (f : A → virt (result E (list B))) l bs b :
  veval w (gather_try f l) = Ok bs →
  b ∈ bs ↔ ∃ a ds, a ∈ l ∧ veval w (f a) = Ok ds ∧ b ∈ ds.
Proof.
  revert bs. induction l as [|a l IH]; intros bs; cbn [gather_try].
  - intros [= <-]. set_solver.
  - intros (ds & Hd & (rest & Hr & [= <-])%veval_try)%veval_try. rewrite elem_of_app, (IH _ Hr). split.
    + intros [Hb|(x & es & Hx & He & Hb)]; [exists a, ds|exists x, es]; rewrite elem_of_cons; auto.
    + intros (x & es & [->|Hx]%elem_of_cons & He & Hb); [left; congruence|right; by exists x, es].
Qed.

(** ** The configurations of a domain *)

Definition VIR_DOMAIN_XML_INACTIVE : Z := 2.

(** [Result::unwrap_or]. *)
Definition unwrap_or {E A} (d : A) (r : result E A) : A := match r with Ok a => a | Err _ => d end.

(** The saved document and, of a running domain, the live one; what cannot be
    read is left out.  The in-use scans of volumes, pools and networks share this
    code. *)
Definition domain_xmls (d : domain) : virt (list str) :=
  saved ← call (DomainXmlDesc d VIR_DOMAIN_XML_INACTIVE);
  let xmls := match saved with Ok saved => [saved] | Err _ => [] end in
  active ← call (DomainIsActive d);
  if (unwrap_or false active : bool) then
    live ← call (DomainXmlDesc d 0);
    mret (match live with Ok live => xmls ++ [live] | Err _ => xmls end)
  else mret xmls.

Lemma domain_xmls_queries d : queries_only (domain_xmls d).
Proof.
  split; [done|]. intros saved. split; [done|]. by intros [[]|].
Qed.

Lemma elem_of_domain_xmls w d xml :
  xml ∈ veval w (domain_xmls d) ↔
  w (DomainXmlDesc d VIR_DOMAIN_XML_INACTIVE) = Ok xml ∨
  w (DomainIsActive d) = Ok true ∧ w (DomainXmlDesc d 0) = Ok xml.
Proof.
  unfold domain_xmls. simpl.
  destruct (w (DomainXmlDesc d VIR_DOMAIN_XML_INACTIVE)) as [saved|],
    (w (DomainIsActive d)) as [[]|]; simpl; try set_solver;
    destruct (w (DomainXmlDesc d 0)) as [live|]; simpl; set_solver.
Qed.

(** The loop body of the user scans of pools and networks: the name of the domain
    if [test] holds of one of its documents. *)
Definition user_with (test : str → bool) (d : domain) : virt (list str) :=
  name ← call (DomainName d);
  match name with
  | Err _ => mret []
  | Ok name => xmls ← domain_xmls d; mret (if existsb test xmls then [name] else [])
  end.

Lemma user_with_queries test d : queries_only (user_with test d).
Proof.
  apply queries_bind; [done|]. intros [name|]; [|done].
  by apply queries_bind; [apply domain_xmls_queries|].
Qed.

(** Domain [d] is called [vm] and one of its configurations is [xml]. *)
Definition vm_config (w : ∀ c, resp c) (d : domain) (vm xml : str) : Prop :=
  w (DomainName d) = Ok vm ∧
  (w (DomainXmlDesc d VIR_DOMAIN_XML_INACTIVE) = Ok xml ∨
   w (DomainIsActive d) = Ok true ∧ w (DomainXmlDesc d 0) = Ok xml).

Lemma elem_of_user_with w test d vm :
  vm ∈ veval w (user_with test d) ↔ ∃ xml, vm_config w d vm xml ∧ test xml = true.
Proof.
  unfold user_with, vm_config. rewrite veval_bind. cbn [call veval].
  destruct (w (DomainName d)) as [name|]; [|set_solver].
  rewrite veval_bind. cbn [mret virt_ret veval]. setoid_rewrite <- elem_of_domain_xmls.
  destruct (existsb test (veval w (domain_xmls d))) eqn:E.
  - apply existsb_exists in E as (xml & Hx%list_elem_of_In & Ht). rewrite list_elem_of_singleton.
    split; [intros ->; by exists xml|]. by intros (? & [[= ->] _] & _).
  - split; [by intros ?%not_elem_of_nil|]. intros (xml & [_ Hx%list_elem_of_In] & Ht). exfalso.
    assert (Hex : existsb test (veval w (domain_xmls d)) = true) by (apply existsb_exists; eauto).
    congruence.
Qed.

(** ** conn.rs: errors *)

Section errors.
Context `{Ipnet}.

Inductive Error :=
| EInput (e : InputError)
| ELibvirt (e : verr)
| EEventLoop (message : str)
| ETask
| EIo (message : str)
| EWrongState (reason : str)
| EInUse (names : list str)
| EXml (e : XmlError).

Definition is_not_found (e : Error) : bool :=
  match e with
  | ELibvirt e =>
      match verr_code e with
      | Some (NoDomain | NoNetwork | NoStoragePool | NoStorageVolume) => true
      | _ => false
      end
  | _ => false
  end.

Definition is_invalid_operation (e : Error) : bool :=
  match e with
  | EWrongState _ => true
  | ELibvirt e => bool_decide (verr_code e = Some OperationInvalid)
  | _ => false
  end.

(** A libvirt call whose error becomes an [Error]. *)
Definition lv {A} (m : virt (result verr A)) : virt (result Error A) :=
  r ← m; mret (map_err ELibvirt r).

Definition xml_err {A} (r : result XmlError A) : virt (result Error A) := mret (map_err EXml r).

Lemma vruns_lv {A} (m : virt (result verr A)) tr r :
  vruns (lv m) tr r ↔ ∃ r', vruns m tr r' ∧ r = map_err ELibvirt r'.
Proof.
  unfold lv. rewrite vruns_bind. split.
  - intros (tr1 & tr2 & r' & -> & H1 & [-> ->]). exists r'. by rewrite app_nil_r.
  - intros (r' & H1 & ->). exists tr, [], r'. by rewrite app_nil_r.
Qed.

Lemma queries_lv {A} (m : virt (result verr A)) : queries_only m → queries_only (lv m).
Proof. intros Hm. by apply queries_bind. Qed.

Lemma veval_lv {A} w (m : virt (result verr A)) a :
  veval w (lv m) = Ok a ↔ veval w m = Ok a.
Proof.
  unfold lv. rewrite veval_bind. destruct (veval w m); simpl; naive_solver.
Qed.

Lemma veval_xml_err {A} w (r : result XmlError A) a : veval w (xml_err r) = Ok a ↔ r = Ok a.
Proof. destruct r; simpl; naive_solver. Qed.
End errors.

(** ** errors.rs *)

Record Explanation := { cause : str; fix_ : str; commands : list str }.
Record Known := { parts : list str; explanation : Explanation }.

Definition KNOWN : list Known :=
  [{| parts := [lit "QEMU command 'getfd'"; lit "No file descriptor supplied"];
      explanation := {|
        cause := lit "AppArmor on this host blocks /dev/vhost-net, so QEMU cannot get the network device for the new NIC.";
        fix_ := lit "Add the rule `/dev/vhost-net rw,` to /etc/apparmor.d/local/abstractions/libvirt-qemu, then stop and start the VM, because a VM gets the rule at its next start.";
        commands := [lit "sudo mkdir -p /etc/apparmor.d/local/abstractions";
                     lit "printf '\n/dev/vhost-net rw,\n' | sudo tee -a /etc/apparmor.d/local/abstractions/libvirt-qemu"] |} |};
   {| parts := [lit "deletion of active external snapshot that is not a leaf snapshot"];
      explanation := {|
        cause := lit "libvirt cannot delete the current external snapshot while it has a child snapshot, for example right after a revert to it.";
        fix_ := lit "Delete its child snapshots first, or revert to another snapshot, then delete this one.";
        commands := [] |} |}].

Definition explain (message : str) : option Explanation :=
  explanation <$>
    List.find (λ known, forallb (λ part, contains_str part message) (parts known)) KNOWN.

(** A host with one domain, shut off, for the examples: it accepts every call. *)

Definition stopped_domain (n : nat) (c : vcall) : resp c :=
  match c with
  | LookupDomainByUuid _ => Ok 1
  | DomainInfo _ => Ok {| info_state := 5; info_memory := 0; info_nr_virt_cpu := 1 |}
  | DomainIsActive _ => Ok false
  | DomainCreate _ => Ok tt
  | ListAllDomains => Ok []
  | DomainUuid _ | PoolUuid _ | NetUuid _ => Ok 0
  | DomainName _ | PoolName _ | VolName _ | NetName _ => Ok []
  | DomainIsPersistent _ | DomainAutostart _ | PoolIsActive _ | PoolIsPersistent _
  | PoolAutostart _ | NetIsActive _ | NetIsPersistent _ | NetAutostart _ => Ok true
  | DomainXmlDesc _ _ | PoolXmlDesc _ | VolXmlDesc _ | NetXmlDesc _
  | VolPath _ | VolKey _ | NetBridgeName _ => Ok []
  | LookupPoolByUuid _ | LookupPoolByName _ | DefinePoolXml _ => Ok 2
  | ListAllPools => Ok []
  | PoolInfo _ => Ok {| pinfo_state := 2; pinfo_capacity := 0; pinfo_allocation := 0; pinfo_available := 0 |}
  | PoolListVolumes _ => Ok []
  | PoolLookupVolByName _ _ | LookupVolByPath _ | VolCreateXml _ _ => Ok 3
  | VolInfo _ => Ok {| vinfo_kind := 0; vinfo_capacity := 0; vinfo_allocation := 0 |}
  | LookupNetworkByUuid _ | DefineNetworkXml _ => Ok 4
  | ListAllNetworks => Ok []
  | Canonicalize p => Some p
  | StartEventLoop => Ok tt
  | ConnectOpen _ => Ok 5
  | NodeInfo => Ok {| node_cpus := 4; node_memory := 0 |}
  | LibVersion => Ok 11003000
  | Hostname => Ok []
  | AllDomainStats _ _ => Ok []
  | SocketPair => Ok 6
  | SetKeepAlive _ _ _ | RegisterEvents _ | DomainOpenGraphics _ _ _
  | DomainShutdown _ _ | DomainDestroy _ | DomainReboot _ _ | DomainSuspend _ | DomainResume _
  | DomainSetAutostart _ _ | DomainUndefine _ _ | PoolRefresh _ | PoolBuild _
  | PoolSetAutostart _ _ | PoolCreate _ | PoolDestroy _ | PoolDelete _ | PoolUndefine _
  | VolDelete _ | NetSetAutostart _ _ | NetCreate _ | NetDestroy _ | NetUndefine _ => Ok tt
  end.

