(* ===== verification/VirtPower.v ===== *)
(** * Power actions and autostart (crates/lodger-virt/src/power.rs) *)

From S2P Require Import Prelude Text Net Validate Model Xml Virt.

Inductive Power := Start | Shutdown | ForceOff | Reboot | Pause | Resume.

#[export] Instance Power_eq_dec : EqDecision Power.
Proof. solve_decision. Defined.

Definition Power_parse (name : str) : option Power :=
  if bool_decide (name = lit "start") then Some Start
  else if bool_decide (name = lit "shutdown") then Some Shutdown
  else if bool_decide (name = lit "force-off") then Some ForceOff
  else if bool_decide (name = lit "reboot") then Some Reboot
  else if bool_decide (name = lit "pause") then Some Pause
  else if bool_decide (name = lit "resume") then Some Resume
  else None.

Definition Power_name (p : Power) : str :=
  match p with
  | Start => lit "start"
  | Shutdown => lit "shutdown"
  | ForceOff => lit "force-off"
  | Reboot => lit "reboot"
  | Pause => lit "pause"
  | Resume => lit "resume"
  end.

(** [refusal]: the arms of the [match] in order. *)
Definition refusal (p : Power) (state : VmState) (active : bool) : option str :=
  match p with
  | Start => if active then Some (lit "the VM is running already") else None
  | Shutdown | ForceOff => if negb active then Some (lit "the VM is not running") else None
  | Reboot | Pause =>
      if bool_decide (state = Paused) then Some (lit "the VM is paused")
      else if bool_decide (state ≠ Running) then Some (lit "the VM is not running") else None
  | Resume => if bool_decide (state ≠ Paused) then Some (lit "the VM is not paused") else None
  end.

(** libvirt's flags: VIR_DOMAIN_SHUTDOWN_ACPI_POWER_BTN and
    VIR_DOMAIN_REBOOT_ACPI_POWER_BTN. *)
Definition ACPI_POWER_BTN : Z := 1.

Definition with_acpi (f : Z → virt (result verr unit)) (acpi : Z) : virt (result verr unit) :=
  r ← f acpi;
  match r with
  | Err e => if bool_decide (verr_code e = Some InvalidArg) then f 0 else mret (Err e)
  | Ok _ => mret r
  end.

Inductive DomainChange :=
| Lifecycle (event detail : Z)
| ChangeReboot
| DeviceAdded
| DeviceRemoved
| Metadata
| ChangeAutostart.

Inductive Event :=
| EvDomain (id : Uuid) (change : DomainChange)
| EvNetwork (id : Uuid) (event : Z)
| EvPool (id : Uuid) (event : Z)
| EvClosed (reason : Z).

Section power.
Context `{Ipnet}.

(** The libvirt call of an action. *)
Definition act (action : Power) (d : domain) : virt (result verr unit) :=
  match action with
  | Start => call (DomainCreate d)
  | Shutdown => with_acpi (λ flags, call (DomainShutdown d flags)) ACPI_POWER_BTN
  | ForceOff => call (DomainDestroy d)
  | Reboot => with_acpi (λ flags, call (DomainReboot d flags)) ACPI_POWER_BTN
  | Pause => call (DomainSuspend d)
  | Resume => call (DomainResume d)
  end.

Definition power (id : Uuid) (action : Power) : virt (result Error unit) :=
  d ←? lv (call (LookupDomainByUuid id));
  info ←? lv (call (DomainInfo d));
  let state := VmState_from_code (info_state info) in
  active ←? lv (call (DomainIsActive d));
  match refusal action state active with
  | Some reason => mret (Err (EWrongState reason))
  | None => lv (act action d)
  end.

(** The events that an operation sends to the hub when it succeeds. *)
Definition then_send (m : virt (result Error unit)) (event : Event) :
    virt (result Error unit * list Event) :=
  r ← m; mret (r, match r with Ok _ => [event] | Err _ => [] end).

(** [set_autostart], with the event that it sends to the hub. *)
Definition set_autostart (id : Uuid) (on : bool) : virt (result Error unit * list Event) :=
  then_send (d ←? lv (call (LookupDomainByUuid id)); lv (call (DomainSetAutostart d on)))
    (EvDomain id ChangeAutostart).

(** ** Properties *)

(** When an action fits, by libvirt's code of the state (1 is running, 3 is paused) and
    whether the domain is active. *)
Inductive fits : Power → Z → bool → Prop :=
| start_stopped code : fits Start code false
| shutdown_active code : fits Shutdown code true
| force_off_active code : fits ForceOff code true
| reboot_running active : fits Reboot 1 active
| pause_running active : fits Pause 1 active
| resume_paused active : fits Resume 3 active.

(** What is said when it does not fit. *)
Inductive refused : Power → Z → bool → str → Prop :=
| start_active code : refused Start code true (lit "the VM is running already")
| shutdown_stopped code : refused Shutdown code false (lit "the VM is not running")
| force_off_stopped code : refused ForceOff code false (lit "the VM is not running")
| reboot_paused active : refused Reboot 3 active (lit "the VM is paused")
| reboot_stopped code active : code ≠ 1 → code ≠ 3 → refused Reboot code active (lit "the VM is not running")
| pause_paused active : refused Pause 3 active (lit "the VM is paused")
| pause_stopped code active : code ≠ 1 → code ≠ 3 → refused Pause code active (lit "the VM is not running")
| resume_other code active : code ≠ 3 → refused Resume code active (lit "the VM is not paused").

(** The calls of an action on a domain, and its result: one call, and for the actions
    that the guest takes part in a second one without the ACPI flag when libvirt does not
    take the flag. *)
Inductive acted (d : domain) : Power → list ev → result Error unit → Prop :=
| acted_start x : acted d Start [existT (DomainCreate d) x] (map_err ELibvirt x)
| acted_force_off x : acted d ForceOff [existT (DomainDestroy d) x] (map_err ELibvirt x)
| acted_pause x : acted d Pause [existT (DomainSuspend d) x] (map_err ELibvirt x)
| acted_resume x : acted d Resume [existT (DomainResume d) x] (map_err ELibvirt x)
| acted_shutdown x : (∀ e, x = Err e → verr_code e ≠ Some InvalidArg) →
    acted d Shutdown [existT (DomainShutdown d 1) x] (map_err ELibvirt x)
| acted_shutdown_again e x : verr_code e = Some InvalidArg →
    acted d Shutdown [existT (DomainShutdown d 1) (Err e); existT (DomainShutdown d 0) x] (map_err ELibvirt x)
| acted_reboot x : (∀ e, x = Err e → verr_code e ≠ Some InvalidArg) →
    acted d Reboot [existT (DomainReboot d 1) x] (map_err ELibvirt x)
| acted_reboot_again e x : verr_code e = Some InvalidArg →
    acted d Reboot [existT (DomainReboot d 1) (Err e); existT (DomainReboot d 0) x] (map_err ELibvirt x).

Lemma state_codes code :
  (VmState_from_code code = Running ↔ code = 1) ∧ (VmState_from_code code = Paused ↔ code = 3).
Proof. unfold VmState_from_code. repeat case_match; (split; split; congruence || lia). Qed.

(** The code's test is the table. *)
Lemma refusal_table action code active :
  match refusal action (VmState_from_code code) active with
  | None => fits action code active
  | Some reason => refused action code active reason
  end.
Proof.
  destruct (state_codes code) as [H1 H3].
  destruct action; [by destruct active; constructor..| | |]; cbn [refusal].
  - case_bool_decide as Hp; [rewrite (proj1 H3 Hp); apply reboot_paused|].
    case_bool_decide as Hr; [apply reboot_stopped; by rewrite <- ?H1, <- ?H3|].
    rewrite (proj1 H1 Hr). apply reboot_running.
  - case_bool_decide as Hp; [rewrite (proj1 H3 Hp); apply pause_paused|].
    case_bool_decide as Hr; [apply pause_stopped; by rewrite <- ?H1, <- ?H3|].
    rewrite (proj1 H1 Hr). apply pause_running.
  - case_bool_decide as Hp; [apply resume_other; by rewrite <- H3|].
    rewrite (proj1 H3 Hp). apply resume_paused.
Qed.

Lemma act_acted action d tr x :
  vruns (act action d) tr x → acted d action tr (map_err ELibvirt x).
Proof.
  destruct action; cbn [act]; try (intros ->%vruns_call; constructor).
  - unfold with_acpi, ACPI_POWER_BTN. intros (t1 & t2 & r1 & -> & ->%vruns_call & Hr)%vruns_bind.
    destruct r1 as [[]|e].
    + destruct Hr as [-> ->]. by apply acted_shutdown.
    + case_bool_decide as He; [apply vruns_call in Hr as ->; by apply acted_shutdown_again|].
      destruct Hr as [-> ->]. apply acted_shutdown. by intros e' [= <-].
  - unfold with_acpi, ACPI_POWER_BTN. intros (t1 & t2 & r1 & -> & ->%vruns_call & Hr)%vruns_bind.
    destruct r1 as [[]|e].
    + destruct Hr as [-> ->]. by apply acted_reboot.
    + case_bool_decide as He; [apply vruns_call in Hr as ->; by apply acted_reboot_again|].
      destruct Hr as [-> ->]. apply acted_reboot. by intros e' [= <-].
Qed.

(** The three questions of an action: a failed one ends it with its error. *)
Inductive unanswered (id : Uuid) : list ev → verr → Prop :=
| no_lookup e : unanswered id [existT (LookupDomainByUuid id) (Err e)] e
| no_info d e : unanswered id [existT (LookupDomainByUuid id) (Ok d); existT (DomainInfo d) (Err e)] e
| no_activity d info e :
    unanswered id [existT (LookupDomainByUuid id) (Ok d); existT (DomainInfo d) (Ok info);
                   existT (DomainIsActive d) (Err e)] e.

(** C29: a power action touches only the named VM, and only in a state that fits.
    Whatever libvirt answers, the action asks for the domain that the id names, its state
    and its activity; a question that fails ends it with libvirt's error.  A start needs
    an inactive domain, a shutdown or force-off an active one, a reboot or pause a running
    one and a resume a paused one: then the action makes exactly its own call on that
    domain, once more without the ACPI flag if libvirt does not take the flag, and
    answers as libvirt does.  Otherwise it says what is in the way and calls nothing. *)
Theorem power_only_when_it_fits id action tr r :
  vruns (power id action) tr r →
  (∃ e, unanswered id tr e ∧ r = Err (ELibvirt e)) ∨
  ∃ d info active tr',
    tr = [existT (LookupDomainByUuid id) (Ok d); existT (DomainInfo d) (Ok info);
          existT (DomainIsActive d) (Ok active)] ++ tr' ∧
    (fits action (info_state info) active ∧ acted d action tr' r ∨
     ∃ reason, refused action (info_state info) active reason ∧ tr' = [] ∧ r = Err (EWrongState reason)).
Proof.
  intros Hr. unfold power in Hr.
  apply vruns_try in Hr as [(e & -> & ([|e'] & ->%vruns_call & [= ->])%vruns_lv)
    |(t1 & t2 & d & -> & ([d'|] & ->%vruns_call & [= <-])%vruns_lv & Hr)].
  { left. exists e'. split; [constructor|done]. }
  apply vruns_try in Hr as [(e & -> & ([|e'] & ->%vruns_call & [= ->])%vruns_lv)
    |(t3 & t4 & info & -> & ([i'|] & ->%vruns_call & [= <-])%vruns_lv & Hr)].
  { left. exists e'. split; [constructor|done]. }
  apply vruns_try in Hr as [(e & -> & ([|e'] & ->%vruns_call & [= ->])%vruns_lv)
    |(t5 & t6 & active & -> & ([a'|] & ->%vruns_call & [= <-])%vruns_lv & Hr)].
  { left. exists e'. split; [constructor|done]. }
  right. exists d, info, active, t6. split; [done|].
  pose proof (refusal_table action (info_state info) active) as Ht.
  destruct (refusal _ _ _) as [reason|].
  - right. destruct Hr as [-> ->]. by exists reason.
  - left. split; [done|]. apply vruns_lv in Hr as (x & Hx & ->). by apply act_acted.
Qed.
End power.

(** [parse] undoes [name]: every action has its own path. *)
Lemma Power_parse_name p : Power_parse (Power_name p) = Some p.
Proof. by destruct p. Qed.

(** ** Witness: a start of a stopped domain. *)

Lemma power_only_when_it_fits_witness :
  ∃ d info active tr',
    (vrun (@power ipnet_ref 7 Start) stopped_domain 0).1 =
      [existT (LookupDomainByUuid 7) (Ok d); existT (DomainInfo d) (Ok info); existT (DomainIsActive d) (Ok active)] ++ tr' ∧
    fits Start (info_state info) active ∧
    acted d Start tr' (vrun (@power ipnet_ref 7 Start) stopped_domain 0).2.
Proof.
  destruct (@power_only_when_it_fits ipnet_ref 7 Start
    (vrun (@power ipnet_ref 7 Start) stopped_domain 0).1
    (vrun (@power ipnet_ref 7 Start) stopped_domain 0).2 (vrun_vruns _ _ _))
    as [(e & _ & He)|(d & info & active & tr' & Ht & [[Hf Ha]|(reason & _ & _ & He)])]; [done| |done].
  by exists d, info, active, tr'.
Defined.
