(* ===== verification/VirtDelete.v ===== *)
(** * Deleting a VM (crates/lodger-virt/src/delete.rs)

    The delete of a domain with, on request, the volumes that only it uses. *)

From S2P Require Import Prelude Text Net Validate Model Xml Virt.

(** libvirt's flags. *)
Definition VIR_DOMAIN_UNDEFINE_MANAGED_SAVE : Z := 1.
Definition VIR_DOMAIN_UNDEFINE_SNAPSHOTS_METADATA : Z := 2.
Definition VIR_DOMAIN_UNDEFINE_NVRAM : Z := 4.
Definition VIR_DOMAIN_UNDEFINE_CHECKPOINTS_METADATA : Z := 16.

Inductive SkipReason :=
| UsedBy (name : str)
| Shared
| NotInPool
| Failed (message : str).

Record Skipped := { skipped_path : str; skipped_reason : SkipReason }.
Record Removal := { removed : list str; skipped : list Skipped }.
Definition Removal_default : Removal := {| removed := []; skipped := [] |}.

Record Target := { target_path : str; target_key : str; target_shared : bool }.

Definition add_removed (path : str) (r : Removal) : Removal :=
  {| removed := removed r ++ [path]; skipped := skipped r |}.
Definition add_skipped (path : str) (reason : SkipReason) (r : Removal) : Removal :=
  {| removed := removed r;
     skipped := skipped r ++ [{| skipped_path := path; skipped_reason := reason |}] |}.

(** [path_of]. *)
Definition path_of (source : DiskSource) : virt (option str) :=
  match source with
  | SrcFile path | SrcBlock path =>
      found ← (v ←? call (LookupVolByPath path); call (VolPath v));
      mret (Some match found with Ok p => p | Err _ => path end)
  | SrcVolume pool volume =>
      found ← (p ←? call (LookupPoolByName pool);
               v ←? call (PoolLookupVolByName p volume);
               call (VolPath v));
      mret (ok found)
  end.

(** [canonical]. *)
Definition canonical (path : str) : virt str :=
  r ← call (Canonicalize path); mret (default path r).

(** [undefine]. *)
Definition undefine (d : domain) : virt (result verr unit) :=
  let all := Z.lor (Z.lor VIR_DOMAIN_UNDEFINE_NVRAM VIR_DOMAIN_UNDEFINE_MANAGED_SAVE)
                   (Z.lor VIR_DOMAIN_UNDEFINE_SNAPSHOTS_METADATA VIR_DOMAIN_UNDEFINE_CHECKPOINTS_METADATA) in
  r ← call (DomainUndefine d all);
  match r with
  | Err e =>
      if bool_decide (verr_code e = Some InvalidArg)
      then call (DomainUndefine d
                   (Z.lor VIR_DOMAIN_UNDEFINE_MANAGED_SAVE VIR_DOMAIN_UNDEFINE_SNAPSHOTS_METADATA))
      else mret (Err e)
  | Ok u => mret (Ok u)
  end.

(** [resolve]. *)
Fixpoint resolve (disks : list Disk) (targets : list Target) (report : Removal) :
    virt (list Target * Removal) :=
  match disks with
  | [] => mret (targets, report)
  | disk :: disks =>
      path ← path_of (disk_source disk);
      match path with
      | Some path =>
          key ← canonical path;
          resolve disks (targets ++ [{| target_path := path; target_key := key;
                                        target_shared := disk_shared disk |}]) report
      | None =>
          resolve disks targets
            match disk_source disk with
            | SrcVolume pool volume => add_skipped (pool ++ lit "/" ++ volume) NotInPool report
            | _ => report
            end
      end
  end.

(** [disks_config]. *)
Definition disks_config (d : domain) (id : Uuid) : virt (result verr (option (str * list str))) :=
  u ←? call (DomainUuid d);
  if u =? id then mret (Ok None)
  else
    saved ←? call (DomainXmlDesc d VIR_DOMAIN_XML_INACTIVE);
    active ←? call (DomainIsActive d);
    xmls ←? (if (active : bool) then (live ←? call (DomainXmlDesc d 0); mret (Ok [saved; live]))
             else mret (Ok [saved]));
    name ←? call (DomainName d);
    mret (Ok (Some (name, xmls))).

Section delete.
Context `{Ipnet} `{XmlTree}.

(** The inner loops of [paths_of_other_domains]. *)
Fixpoint add_disks (name : str) (disks : list Disk) (users : gmap str str) : virt (gmap str str) :=
  match disks with
  | [] => mret users
  | disk :: disks =>
      path ← path_of (disk_source disk);
      match path with
      | Some path =>
          key ← canonical path;
          add_disks name disks (match users !! key with Some _ => users | None => <[key := name]> users end)
      | None => add_disks name disks users
      end
  end.

Fixpoint add_xmls (name : str) (xmls : list str) (users : gmap str str) :
    virt (result Error (gmap str str)) :=
  match xmls with
  | [] => mret (Ok users)
  | xml :: xmls =>
      disks ←? xml_err (domain_disks xml);
      users ← add_disks name disks users;
      add_xmls name xmls users
  end.

(** [paths_of_other_domains]. *)
Fixpoint paths_of_other_domains (domains : list domain) (id : Uuid) (users : gmap str str) :
    virt (result Error (gmap str str)) :=
  match domains with
  | [] => mret (Ok users)
  | d :: domains =>
      found ← disks_config d id;
      match found with
      | Ok (Some (name, xmls)) =>
          users ←? add_xmls name xmls users;
          paths_of_other_domains domains id users
      | Ok None => paths_of_other_domains domains id users
      | Err e =>
          if bool_decide (verr_code e = Some NoDomain) then paths_of_other_domains domains id users
          else mret (Err (ELibvirt e))
      end
  end.

(** The last loop of [delete_on]. *)
Fixpoint delete_targets (users : gmap str str) (targets : list Target) (report : Removal) :
    virt Removal :=
  match targets with
  | [] => mret report
  | t :: targets =>
      reason ← (if target_shared t then mret (Some Shared)
                else match users !! target_key t with
                     | Some user => mret (Some (UsedBy user))
                     | None =>
                         found ← call (LookupVolByPath (target_path t));
                         match found with
                         | Ok volume =>
                             r ← call (VolDelete volume);
                             mret match r with Ok _ => None | Err e => Some (Failed (verr_message e)) end
                         | Err e =>
                             if bool_decide (verr_code e = Some NoStorageVolume)
                             then mret (Some NotInPool) else mret (Some (Failed (verr_message e)))
                         end
                     end);
      delete_targets users targets
        match reason with
        | None => add_removed (target_path t) report
        | Some reason => add_skipped (target_path t) reason report
        end
  end.

(** The part of [delete_on] that picks the disks. *)
Definition pick (d : domain) (remove_volumes : bool) : virt (result Error (list Target * Removal)) :=
  if remove_volumes then
    xml ←? lv (call (DomainXmlDesc d VIR_DOMAIN_XML_INACTIVE));
    disks ←? xml_err (domain_disks xml);
    r ← resolve disks [] Removal_default;
    mret (Ok r)
  else mret (Ok ([], Removal_default)).

(** The part of [delete_on] that finds the users of the disks. *)
Definition scan (id : Uuid) (targets : list Target) : virt (result Error (gmap str str)) :=
  match targets with
  | [] => mret (Ok ∅)
  | _ => ds ←? lv (call ListAllDomains); paths_of_other_domains ds id ∅
  end.

(** [delete_on], with the empty [before_undefine] of [Virt::delete]. *)
Definition delete_on (id : Uuid) (remove_volumes : bool) : virt (result Error Removal) :=
  d ←? lv (call (LookupDomainByUuid id));
  active ←? lv (call (DomainIsActive d));
  if (active : bool) then mret (Err (EWrongState (lit "shut the VM down first")))
  else
    found ←? pick d remove_volumes;
    let '(targets, report) := (found : list Target * Removal) in
    users ←? scan id targets;
    _ ←? lv (undefine d);
    again ← call (LookupDomainByUuid id);
    match again with
    | Ok _ => mret (Err (EWrongState (lit "the VM started during the delete: libvirt removed its definition, but it runs until it stops, and every disk stays")))
    | Err e =>
        if bool_decide (verr_code e = Some NoDomain) then
          report ← delete_targets users targets report;
          mret (Ok report)
        else mret (Err (ELibvirt e))
    end.

(** ** The scans make queries only *)

Lemma path_of_queries src : queries_only (path_of src).
Proof. destruct src; simpl; (split; [done|]); intros [|]; simpl; try done;
  (split; [done|]); intros [|]; simpl; by try done. Qed.

Lemma canonical_queries path : queries_only (canonical path).
Proof. by split. Qed.

Lemma disks_config_queries d id : queries_only (disks_config d id).
Proof.
  apply queries_try; [done|]. intros u. destruct (u =? id); [done|].
  apply queries_try; [done|]. intros saved. apply queries_try; [done|]. intros active.
  apply queries_try; [|intros xmls; by apply queries_try].
  destruct active; [|done]. by apply queries_try.
Qed.

Lemma add_disks_queries name disks users : queries_only (add_disks name disks users).
Proof.
  revert users. induction disks as [|disk disks IH]; intros users; [done|]. cbn [add_disks].
  apply queries_bind; [apply path_of_queries|]. intros [path|]; [|apply IH].
  apply queries_bind; [apply canonical_queries|]. intros key. apply IH.
Qed.

Lemma add_xmls_queries name xmls users : queries_only (add_xmls name xmls users).
Proof.
  revert users. induction xmls as [|xml xmls IH]; intros users; [done|]. cbn [add_xmls].
  apply queries_try; [done|]. intros disks.
  apply queries_bind; [apply add_disks_queries|]. intros users'. apply IH.
Qed.

Lemma paths_queries domains id users : queries_only (paths_of_other_domains domains id users).
Proof.
  revert users. induction domains as [|d domains IH]; intros users; [done|]. cbn [paths_of_other_domains].
  apply queries_bind; [apply disks_config_queries|]. intros [[[name xmls]|]|e]; [|apply IH|].
  - apply queries_try; [apply add_xmls_queries|]. intros. apply IH.
  - case_bool_decide; [apply IH|done].
Qed.

Lemma resolve_queries disks ts report : queries_only (resolve disks ts report).
Proof.
  revert ts report. induction disks as [|disk disks IH]; intros ts report; [done|]. cbn [resolve].
  apply queries_bind; [apply path_of_queries|]. intros [path|]; [|apply IH].
  apply queries_bind; [apply canonical_queries|]. intros key. apply IH.
Qed.

(** ** What the scans find *)

(** The file of a disk with every link resolved, as libvirt and the file system
    [w] see it. *)
Definition key_of (w : ∀ c, resp c) (src : DiskSource) : option str :=
  (λ path, veval w (canonical path)) <$> veval w (path_of src).

Lemma add_disks_dom w name disks users :
  dom users ⊆ dom (veval w (add_disks name disks users)) ∧
  ∀ disk key, disk ∈ disks → key_of w (disk_source disk) = Some key →
    key ∈ dom (veval w (add_disks name disks users)).
Proof.
  revert users. induction disks as [|disk disks IH]; intros users; cbn [add_disks]; [set_solver|].
  rewrite veval_bind. unfold key_of. destruct (veval w (path_of (disk_source disk))) as [path|] eqn:Ep.
  - rewrite veval_bind. set (key := veval w (canonical path)).
    match goal with |- context [add_disks name disks ?u] => set (users' := u) end.
    assert (Hsub : dom users ⊆ dom users' ∧ key ∈ dom users').
    { unfold users'. destruct (users !! key) as [v|] eqn:El; [split; [done|by apply elem_of_dom_2 in El]|].
      rewrite dom_insert_L. set_solver. }
    destruct (IH users') as [H1 H2]. split; [set_solver|].
    intros d k [->|Hd]%elem_of_cons Hk; [|by eapply H2].
    rewrite Ep in Hk. simpl in Hk. simplify_eq. set_solver.
  - destruct (IH users) as [H1 H2]. split; [done|].
    intros d k [->|Hd]%elem_of_cons Hk; [by rewrite Ep in Hk|by eapply H2].
Qed.

(** A data disk of one of the documents has this key. *)
Definition xmls_use (w : ∀ c, resp c) (xmls : list str) (key : str) : Prop :=
  ∃ xml disks disk, xml ∈ xmls ∧ domain_disks xml = Ok disks ∧ disk ∈ disks ∧
    key_of w (disk_source disk) = Some key.

Lemma add_xmls_dom w name xmls users users' :
  veval w (add_xmls name xmls users) = Ok users' →
  dom users ⊆ dom users' ∧ ∀ key, xmls_use w xmls key → key ∈ dom users'.
Proof.
  revert users. induction xmls as [|xml xmls IH]; intros users E; cbn [add_xmls] in E.
  - injection E as <-. split; [done|]. intros key (x & ? & ? & Hx & _). by apply not_elem_of_nil in Hx.
  - unfold try in E. rewrite veval_bind in E. cbn [xml_err mret virt_ret veval] in E.
    destruct (domain_disks xml) as [disks|e] eqn:Ed; cbn [map_err] in E; [|done].
    rewrite veval_bind in E. destruct (add_disks_dom w name disks users) as [H1 H2].
    destruct (IH _ E) as [H3 H4]. split; [set_solver|].
    intros key (x & ds & disk & [->|Hx]%elem_of_cons & Hds & Hin & Hk).
    + rewrite Hds in Ed. simplify_eq. apply H3. by eapply H2.
    + apply H4. by exists x, ds, disk.
Qed.

Lemma paths_dom w domains id users users' :
  veval w (paths_of_other_domains domains id users) = Ok users' →
  dom users ⊆ dom users' ∧
  ∀ d name xmls key, d ∈ domains → veval w (disks_config d id) = Ok (Some (name, xmls)) →
    xmls_use w xmls key → key ∈ dom users'.
Proof.
  revert users. induction domains as [|d domains IH]; intros users E; cbn [paths_of_other_domains] in E.
  - injection E as <-. split; [done|]. intros d ? ? ? Hd. by apply not_elem_of_nil in Hd.
  - rewrite veval_bind in E. destruct (veval w (disks_config d id)) as [[[name xmls]|]|e] eqn:Ec.
    + unfold try in E. rewrite veval_bind in E.
      destruct (veval w (add_xmls name xmls users)) as [users1|e] eqn:Ex; [|done].
      destruct (add_xmls_dom _ _ _ _ _ Ex) as [H1 H2]. destruct (IH _ E) as [H3 H4].
      split; [set_solver|]. intros d' n xs key [->|Hd]%elem_of_cons Hc Hu; [|by eapply H4].
      rewrite Ec in Hc. simplify_eq. apply H3. by apply H2.
    + destruct (IH _ E) as [H3 H4]. split; [done|].
      intros d' n xs key [->|Hd]%elem_of_cons Hc Hu; [by rewrite Ec in Hc|by eapply H4].
    + case_bool_decide; [|done]. destruct (IH _ E) as [H3 H4]. split; [done|].
      intros d' n xs key [->|Hd]%elem_of_cons Hc Hu; [by rewrite Ec in Hc|by eapply H4].
Qed.

Lemma resolve_targets w disks ts report t :
  t ∈ (veval w (resolve disks ts report)).1 →
  t ∈ ts ∨ ∃ disk, disk ∈ disks ∧ target_shared t = disk_shared disk ∧
    veval w (path_of (disk_source disk)) = Some (target_path t) ∧
    target_key t = veval w (canonical (target_path t)).
Proof.
  revert ts report. induction disks as [|disk disks IH]; intros ts report; cbn [resolve]; [simpl; auto|].
  rewrite veval_bind. destruct (veval w (path_of (disk_source disk))) as [path|] eqn:Ep.
  - rewrite veval_bind. intros [Hin|(d & Hd & Ht)]%IH.
    + apply elem_of_app in Hin as [Hin| ->%list_elem_of_singleton]; [by left|right].
      exists disk. split; [apply list_elem_of_here|]. done.
    + right. exists d. split; [by apply list_elem_of_further|done].
  - intros [Hin|(d & Hd & Ht)]%IH; [by left|right].
    exists d. split; [by apply list_elem_of_further|done].
Qed.

(** ** The deletions *)

(** The only calls of the last loop: it looks a volume up by the path of an
    unshared target that nobody uses, and deletes it. *)
Lemma delete_targets_trace users targets report tr r :
  vruns (delete_targets users targets report) tr r →
  ∀ tr1 e tr2 v, tr = tr1 ++ e :: tr2 → projT1 e = VolDelete v →
  ∃ t, t ∈ targets ∧ target_shared t = false ∧ users !! target_key t = None ∧
    existT (LookupVolByPath (target_path t)) (Ok v) ∈ tr1.
Proof.
  revert report tr. induction targets as [|t targets IH]; intros report tr Hr tr1 e tr2 v Htr He.
  - destruct Hr as [-> _]. by destruct tr1.
  - cbn [delete_targets] in Hr. apply vruns_bind in Hr as (ta & tb & reason & -> & Ha & Hb).
    assert (Hlater : ∀ ta, (∀ e, e ∈ ta → ∀ v, projT1 e ≠ VolDelete v) → ta ++ tb = tr1 ++ e :: tr2 →
      ∃ t0, t0 ∈ t :: targets ∧ target_shared t0 = false ∧ users !! target_key t0 = None ∧
        existT (LookupVolByPath (target_path t0)) (Ok v) ∈ tr1).
    { clear Ha Htr ta. intros ta Hno Htr. apply app_eq_inv in Htr as [(k & -> & Hk)|(k & -> & Hk)].
      - destruct k as [|x k]; [simpl in Hk; subst tb|injection Hk as <- ->].
        + destruct (IH _ _ Hb [] e tr2 v eq_refl He) as (t0 & H1 & H2 & H3 & H4).
          by apply not_elem_of_nil in H4.
        + exfalso. eapply (Hno e); [|exact He]. set_solver.
      - destruct (IH _ _ Hb k e tr2 v Hk He) as (t0 & H1 & H2 & H3 & H4).
        exists t0. split_and!; [set_solver|done|done|set_solver]. }
    destruct (target_shared t) eqn:Es; [destruct Ha as [-> _]; apply (Hlater []); [set_solver|done]|].
    destruct (users !! target_key t) as [user|] eqn:Eu;
      [destruct Ha as [-> _]; apply (Hlater []); [set_solver|done]|].
    apply vruns_bind in Ha as (tc & td & found & -> & ->%vruns_call & Hd).
    destruct found as [volume|e0].
    + apply vruns_bind in Hd as (tf & tg & rd & -> & ->%vruns_call & [-> _]).
      rewrite app_nil_r, <- app_assoc in Htr. simpl in Htr.
      destruct tr1 as [|x1 tr1]; injection Htr as <- Htr; [done|].
      destruct tr1 as [|x2 tr1]; injection Htr as <- Htr.
      * simpl in He. injection He as <-. exists t. split_and!; [set_solver|done|done|set_solver].
      * destruct (IH _ _ Hb tr1 e tr2 v Htr He) as (t0 & H1 & H2 & H3 & H4).
        exists t0. split_and!; [set_solver|done|done|set_solver].
    + assert (td = []) as -> by (case_bool_decide; by destruct Hd).
      eapply Hlater; [|exact Htr]. rewrite app_nil_r. by intros x ->%list_elem_of_singleton.
Qed.

Lemma undefine_trace d tr r :
  vruns (undefine d) tr r →
  (∀ e, e ∈ tr → ∃ flags, projT1 e = DomainUndefine d flags) ∧
  (r = Ok tt → ∃ tr0 flags, tr = tr0 ++ [existT (DomainUndefine d flags) (Ok tt)]).
Proof.
  intros Hr. apply vruns_bind in Hr as (t1 & t2 & r1 & -> & ->%vruns_call & H2).
  destruct r1 as [[]|e].
  - destruct H2 as [-> ->]. rewrite app_nil_r. split.
    + intros x ->%list_elem_of_singleton. by eexists.
    + intros _. by exists [], (Z.lor (Z.lor VIR_DOMAIN_UNDEFINE_NVRAM VIR_DOMAIN_UNDEFINE_MANAGED_SAVE)
        (Z.lor VIR_DOMAIN_UNDEFINE_SNAPSHOTS_METADATA VIR_DOMAIN_UNDEFINE_CHECKPOINTS_METADATA)).
  - case_bool_decide.
    + apply vruns_call in H2 as ->. split.
      * intros x [->%list_elem_of_singleton| ->%list_elem_of_singleton]%elem_of_app; by eexists.
      * intros ->. by eexists [_], _.
    + destruct H2 as [-> ->]. rewrite app_nil_r. split; [|done].
      intros x ->%list_elem_of_singleton. by eexists.
Qed.

Definition no_delete (tr : list ev) : Prop := ∀ e v, e ∈ tr → projT1 e ≠ VolDelete v.

Lemma no_delete_app tr1 tr2 : no_delete tr1 → no_delete tr2 → no_delete (tr1 ++ tr2).
Proof. intros H1 H2 e v [?|?]%elem_of_app; eauto. Qed.

Lemma no_delete_nil : no_delete [].
Proof. intros e v He. by apply not_elem_of_nil in He. Qed.

Lemma queries_no_delete {A} (p : virt A) tr a : queries_only p → vruns p tr a → no_delete tr.
Proof.
  intros Hq Hr e v He Hv. pose proof (queries_only_trace _ _ _ _ Hq Hr He) as Hc. by rewrite Hv in Hc.
Qed.

Lemma delete_after_prefix pre tl tr1 e tr2 v :
  no_delete pre → pre ++ tl = tr1 ++ e :: tr2 → projT1 e = VolDelete v →
  ∃ k, tr1 = pre ++ k ∧ tl = k ++ e :: tr2.
Proof.
  intros Hno [(k & -> & Hk)|(k & -> & Hk)]%app_eq_inv He; [|by exists k].
  destruct k as [|x k]; [simpl in Hk; subst tl; exists []; by rewrite !app_nil_r|].
  injection Hk as <- _. exfalso. eapply (Hno e v); [set_solver|done].
Qed.

Lemma pick_queries d rm : queries_only (pick d rm).
Proof.
  destruct rm; [|done]. apply queries_try; [by apply queries_lv|]. intros xml.
  apply queries_try; [done|]. intros disks. apply queries_bind; [apply resolve_queries|done].
Qed.

Lemma scan_queries id targets : queries_only (scan id targets).
Proof.
  destruct targets; [done|]. apply queries_try; [by apply queries_lv|]. intros ds. apply paths_queries.
Qed.

Lemma pick_target w d rm targets report t :
  veval w (pick d rm) = Ok (targets, report) → t ∈ targets →
  rm = true ∧ ∃ xml disks disk, w (DomainXmlDesc d VIR_DOMAIN_XML_INACTIVE) = Ok xml ∧
    domain_disks xml = Ok disks ∧ disk ∈ disks ∧ target_shared t = disk_shared disk ∧
    veval w (path_of (disk_source disk)) = Some (target_path t) ∧
    target_key t = veval w (canonical (target_path t)).
Proof.
  intros E Ht. destruct rm; [|injection E as <- _; by apply not_elem_of_nil in Ht]. split; [done|].
  unfold pick, try, lv in E. rewrite !veval_bind in E. cbn [call veval] in E.
  destruct (w (DomainXmlDesc d VIR_DOMAIN_XML_INACTIVE)) as [xml|e] eqn:Ex; [|done].
  cbn [mret virt_ret veval map_err] in E. rewrite veval_bind in E.
  cbn [xml_err mret virt_ret veval] in E.
  destruct (domain_disks xml) as [disks|e] eqn:Ed; [|done]. cbn [map_err] in E.
  rewrite veval_bind in E. injection E as E.
  assert (Hin : t ∈ (veval w (resolve disks [] Removal_default)).1) by (by rewrite E).
  apply resolve_targets in Hin as [Hin|(disk & Hd & Hrest)]; [by apply not_elem_of_nil in Hin|].
  by exists xml, disks, disk.
Qed.

Lemma scan_users w id targets users t :
  veval w (scan id targets) = Ok users → t ∈ targets →
  ∃ ds, w ListAllDomains = Ok ds ∧
  ∀ d name xmls key, d ∈ ds → veval w (disks_config d id) = Ok (Some (name, xmls)) →
    xmls_use w xmls key → key ∈ dom users.
Proof.
  intros E Ht. destruct targets as [|t0 targets]; [by apply not_elem_of_nil in Ht|].
  unfold scan, try, lv in E. rewrite !veval_bind in E. cbn [call veval] in E.
  destruct (w ListAllDomains) as [ds|e]; [|done]. exists ds. split; [done|].
  by apply (paths_dom _ _ _ _ _ E).
Qed.

(** A run of [delete_on] deletes no volume, or it goes through every step. *)
Lemma delete_on_shape id rm tr r :
  vruns (delete_on id rm) tr r →
  no_delete tr ∨
  ∃ d targets report users tp ts tu flags gone tl report',
    tr = [existT (LookupDomainByUuid id) (Ok d)] ++ [existT (DomainIsActive d) (Ok false)] ++
         tp ++ ts ++ (tu ++ [existT (DomainUndefine d flags) (Ok tt)]) ++
         [existT (LookupDomainByUuid id) (Err gone)] ++ tl ∧
    vruns (pick d rm) tp (Ok (targets, report)) ∧ vruns (scan id targets) ts (Ok users) ∧
    no_delete tu ∧ verr_code gone = Some NoDomain ∧
    vruns (delete_targets users targets report) tl report' ∧ r = Ok report'.
Proof.
  assert (H1 : ∀ c (x : resp c), (∀ v, c ≠ VolDelete v) → no_delete [existT c x]).
  { intros c x Hc y v ->%list_elem_of_singleton. apply Hc. }
  intros Hr. unfold delete_on in Hr.
  apply vruns_try in Hr as [(x & -> & Hr)|(ta & tb & d & -> & Ha & Hr)].
  { apply vruns_lv in Hr as (r' & ->%vruns_call & _). left. by apply H1. }
  apply vruns_lv in Ha as ([d'|] & ->%vruns_call & [= <-]).
  apply vruns_try in Hr as [(x & -> & Hr)|(tc & td & active & -> & Hac & Hr)].
  { apply vruns_lv in Hr as (r' & ->%vruns_call & _). left. by apply no_delete_app; apply H1. }
  apply vruns_lv in Hac as ([a'|] & ->%vruns_call & [= <-]).
  destruct active.
  { destruct Hr as [-> _]. left. repeat apply no_delete_app; try by apply H1. apply no_delete_nil. }
  apply vruns_try in Hr as [(x & -> & Hr)|(tp & tq & [targets report] & -> & Hp & Hr)].
  { left. repeat apply no_delete_app; try by apply H1.
    eapply queries_no_delete; [apply pick_queries|exact Hr]. }
  pose proof (queries_no_delete _ _ _ (pick_queries d rm) Hp) as Hnp.
  apply vruns_try in Hr as [(x & -> & Hr)|(ts & tt' & users & -> & Hs & Hr)].
  { left. repeat apply no_delete_app; try done; try by apply H1.
    eapply queries_no_delete; [apply scan_queries|exact Hr]. }
  pose proof (queries_no_delete _ _ _ (scan_queries id targets) Hs) as Hns.
  apply vruns_try in Hr as [(x & -> & Hr)|(tu & tv & [] & -> & Hu & Hr)].
  { apply vruns_lv in Hr as (r' & Hr & _). apply undefine_trace in Hr as [Hr _].
    left. repeat apply no_delete_app; try done; try by apply H1.
    intros y v' [flags Hy]%Hr. by rewrite Hy. }
  apply vruns_lv in Hu as ([[]|] & Hu & [=]). apply undefine_trace in Hu as [Hu1 Hu2].
  destruct (Hu2 eq_refl) as (tu0 & flags & ->).
  assert (Hnu : no_delete (tu0 ++ [existT (DomainUndefine d flags) (Ok tt)])).
  { intros y v' [fl Hy]%Hu1. by rewrite Hy. }
  apply vruns_bind in Hr as (tg & tl & again & -> & ->%vruns_call & Hr).
  destruct again as [d2|gone]; [|case_bool_decide as Hgone].
  1,3: destruct Hr as [-> _]; left; rewrite app_nil_r;
    repeat (apply no_delete_app; [try done; by apply H1|]); by apply H1.
  apply vruns_bind in Hr as (tl' & tn & report' & -> & Hl & [-> ->]).
  right. exists d, targets, report, users, tp, ts, tu0, flags, gone, tl', report'.
  split_and!; try done; [by rewrite app_nil_r|].
  intros y v' Hy. apply (Hnu y v'). set_solver.
Qed.

(** C2: deleting a VM never deletes a volume that another VM uses.  Whatever
    libvirt answers, a volume is deleted only after the domain's definition was
    removed and libvirt then said that the domain is gone, and not at all when
    the delete fails or was asked to keep the volumes.  And when libvirt's
    answers to queries do not change during the delete, every deleted volume is
    the file of a data disk of the shut-off domain that is neither read-only nor
    shareable, and no data disk in the saved or live configuration of any other
    domain resolves to that file. *)
Theorem delete_keeps_used_volumes w id rm tr r tr1 e tr2 v :
  vruns (delete_on id rm) tr r → consistent w tr →
  tr = tr1 ++ e :: tr2 → projT1 e = VolDelete v →
  rm = true ∧ is_ok r = true ∧
  ∃ d, existT (LookupDomainByUuid id) (Ok d) ∈ tr1 ∧ w (DomainIsActive d) = Ok false ∧
  (∃ a b c flags gone, verr_code gone = Some NoDomain ∧
     tr1 = a ++ existT (DomainUndefine d flags) (Ok tt) :: b ++
           existT (LookupDomainByUuid id) (Err gone) :: c) ∧
  ∃ xml disks disk path, w (DomainXmlDesc d VIR_DOMAIN_XML_INACTIVE) = Ok xml ∧
    domain_disks xml = Ok disks ∧ disk ∈ disks ∧ disk_shared disk = false ∧
    veval w (path_of (disk_source disk)) = Some path ∧ w (LookupVolByPath path) = Ok v ∧
    ∃ ds, w ListAllDomains = Ok ds ∧
    ∀ d' name xmls, d' ∈ ds → veval w (disks_config d' id) = Ok (Some (name, xmls)) →
      ¬ xmls_use w xmls (veval w (canonical path)).
Proof.
  intros Hr Hc Htr He.
  destruct (delete_on_shape _ _ _ _ Hr) as
    [Hno|(d & targets & report & users & tp & ts & tu & flags & gone & tl & report' &
          E & Hp & Hs & Hnu & Hgone & Hl & ->)].
  { exfalso. eapply (Hno e v); [rewrite Htr; set_solver|done]. }
  pose proof (queries_no_delete _ _ _ (pick_queries d rm) Hp) as Hnp.
  pose proof (queries_no_delete _ _ _ (scan_queries id targets) Hs) as Hns.
  rewrite E, !consistent_app in Hc. destruct Hc as (_ & Hc0 & Hcp & Hcs & _ & _ & Hcl).
  rewrite Htr, !app_assoc in E. symmetry in E.
  apply (delete_after_prefix _ _ _ _ _ v) in E as (k & -> & Hk); [|clear -Hnp Hns Hnu|done].
  2: { intros y v'. rewrite !elem_of_app, !list_elem_of_singleton.
       intros [[[[[[->| ->]|Hy]|Hy]|Hy]| ->]| ->]; try done; by eauto. }
  destruct (delete_targets_trace _ _ _ _ _ Hl _ _ _ _ Hk He) as (t & Ht & Hts & Htu & Hlook).
  assert (Hpe : veval w (pick d rm) = Ok (targets, report)).
  { symmetry. eapply vruns_veval; [apply pick_queries|done|done]. }
  assert (Hse : veval w (scan id targets) = Ok users).
  { symmetry. eapply vruns_veval; [apply scan_queries|done|done]. }
  destruct (pick_target _ _ _ _ _ _ Hpe Ht) as (-> & xml & disks & disk & Hx & Hd & Hin & Hsh & Hpath & Hkey).
  destruct (scan_users _ _ _ _ _ Hse Ht) as (ds & Hds & Huse).
  split_and!; [done..|]. exists d. split_and!.
  - set_solver.
  - symmetry. apply (Hc0 (DomainIsActive d)); [set_solver|done].
  - exists ([existT (LookupDomainByUuid id) (Ok d)] ++ [existT (DomainIsActive d) (Ok false)] ++
      tp ++ ts ++ tu), [], k, flags, gone. split; [done|]. by rewrite <- !app_assoc.
  - exists xml, disks, disk, (target_path t). split_and!; try done; [congruence| |].
    + symmetry. apply (Hcl (LookupVolByPath (target_path t))); [|done].
      rewrite Hk. set_solver.
    + exists ds. split; [done|]. intros d' name xmls Hd' Hcfg Hxu.
      rewrite <- Hkey in Hxu. pose proof (Huse _ _ _ _ Hd' Hcfg Hxu) as Hdom.
      apply elem_of_dom in Hdom as [u Hu]. congruence.
Qed.
End delete.

(** ** Witness: a VM with one disk beside another VM with its own disk. *)

Definition disk_of (path : str) : XMLNode :=
  NodeElement (MkElement (lit "disk") [(lit "type", lit "file"); (lit "device", lit "disk")]
    [NodeElement (MkElement (lit "source") [(lit "file", path)] [])]).
Definition vm_with (path : str) : Element :=
  MkElement (lit "domain") [] [NodeElement (MkElement (lit "devices") [] [disk_of path])].

Definition two_vms_xml : XmlTree :=
  xml_ref [(lit "one", vm_with (lit "/a.img")); (lit "two", vm_with (lit "/b.img"))].

Definition two_vms (n : nat) (c : vcall) : resp c :=
  match c with
  | LookupDomainByUuid _ =>
      match n with
      | O => Ok 1
      | _ => Err {| verr_code := Some NoDomain; verr_message := lit "gone" |}
      end
  | ListAllDomains => Ok [1; 2]
  | DomainUuid d => Ok (d + 6)
  | DomainXmlDesc d _ => Ok (if d =? 1 then lit "one" else lit "two")
  | VolPath v => Ok (if v =? 3 then lit "/a.img" else lit "/b.img")
  | LookupVolByPath path => Ok (if bool_decide (path = lit "/a.img") then 3 else 4)
  | c => stopped_domain n c
  end.

Lemma two_vms_steady n c : is_query c = true → two_vms n c = two_vms 0%nat c.
Proof. by destruct c. Qed.

Lemma delete_keeps_used_volumes_witness :
  let run := vrun (@delete_on ipnet_ref two_vms_xml 7 true) two_vms 0%nat in
  is_ok run.2 = true ∧ existT (VolDelete 3) (Ok tt) ∈ run.1 ∧
  ∃ d, two_vms 0%nat (DomainIsActive d) = Ok false.
Proof.
  intros run.
  assert (Htr : run.1 = take 18 run.1 ++ existT (VolDelete 3) (Ok tt) :: []) by reflexivity.
  destruct (@delete_keeps_used_volumes ipnet_ref two_vms_xml (two_vms 0%nat) 7 true run.1 run.2
    (take 18 run.1) (existT (VolDelete 3) (Ok tt)) [] 3 (vrun_vruns _ _ _)
    (vrun_consistent _ _ _ two_vms_steady) Htr eq_refl) as (_ & Hok & d & _ & Hd & _).
  split; [exact Hok|]. split; [rewrite Htr; set_solver|]. exists d. exact Hd.
Defined.

(** VM two has the file of VM one in its CD-ROM drive. *)
Definition cdrom_of (path : str) : XMLNode :=
  NodeElement (MkElement (lit "disk") [(lit "type", lit "file"); (lit "device", lit "cdrom")]
    [NodeElement (MkElement (lit "source") [(lit "file", path)] [])]).
Definition cdrom_xml : XmlTree :=
  xml_ref [(lit "one", vm_with (lit "/a.img"));
           (lit "two", MkElement (lit "domain") [] [NodeElement (MkElement (lit "devices") []
                         [cdrom_of (lit "/a.img")])])].

(** The delete of a VM counts only the data disks of the other VMs: a volume that
    is in the CD-ROM drive of another VM is deleted, although it is one of the
    disk sources that [domain_disk_sources] reports as in use. *)
Example delete_ignores_cdrom_users :
  @domain_disk_sources cdrom_xml (lit "two") = Ok [SrcFile (lit "/a.img")] ∧
  List.In (VolDelete 3) (map (@projT1 _ _)
    (vrun (@delete_on ipnet_ref cdrom_xml 7 true) two_vms 0%nat).1).
Proof. split; [reflexivity|]. vm_compute. tauto. Qed.
