(* ===== verification/VirtVolume.v ===== *)
(** * Storage volumes (crates/lodger-virt/src/volume.rs)

    The volumes of a running pool: the list with its users, the create, and the
    delete that refuses a volume in use. *)

From S2P Require Import Prelude Text Net Validate Model Xml XmlVolume Virt VirtPower VirtDelete.

Definition POOL_VOLUMES : Z := -2.

(** One user of a file: the key of the file, with every link resolved, and the
    name of the VM or the overlay volume that uses it. *)
Record UseOf := { use_key : str; use_by : str }.

(** [pool_changed]. *)
Definition pool_changed (id : Uuid) : Event := EvPool id POOL_VOLUMES.

Definition volume_name_le (a b : Volume) : Prop := str_le (volume_name a) (volume_name b).

#[export] Instance volume_name_le_dec : RelDecision volume_name_le.
Proof. intros a b. unfold volume_name_le. apply _. Defined.

Definition sort_by_name (volumes : list Volume) : list Volume := merge_sort volume_name_le volumes.

(** The closure [users] of [describe]: the names in a [BTreeSet]. *)
Definition users_in (key : str) (uses : list UseOf) : list str :=
  btree_set (use_by <$> filter (λ u, use_key u = key) uses).

Section volume.
Context `{Ipnet} `{XmlTree}.

Definition running_pool (id : Uuid) : virt (result Error pool) :=
  p ←? lv (call (LookupPoolByUuid id));
  active ←? lv (call (PoolIsActive p));
  if negb (active : bool) then mret (Err (EWrongState (lit "the pool is not running")))
  else mret (Ok p).

(** The loop body of [read_volumes]. *)
Definition read_volume (v : vol) : virt (result Error (list (vol * VolumeXml))) :=
  doc ←? lv (call (VolXmlDesc v));
  x ←? xml_err (VolumeXml_parse doc);
  mret (Ok [(v, x)]).

Definition read_volumes (p : pool) : virt (result Error (list (vol * VolumeXml))) :=
  vs ←? lv (call (PoolListVolumes p));
  gather_try read_volume vs.

(** The closure of [overlays_of]. *)
Definition overlay_of (entry : vol * VolumeXml) : virt (list UseOf) :=
  match backing_path entry.2 with
  | None => mret []
  | Some path =>
      key ← canonical path;
      name ← call (VolName entry.1);
      mret match name with Ok name => [{| use_key := key; use_by := name |}] | Err _ => [] end
  end.

Definition overlays_of (volumes : list (vol * VolumeXml)) : virt (list UseOf) :=
  gather overlay_of volumes.

(** The innermost loop body of [disks_of_all_domains]. *)
Definition use_of (vm : str) (source : DiskSource) : virt (list UseOf) :=
  path ← path_of source;
  match path with
  | Some path => key ← canonical path; mret [{| use_key := key; use_by := vm |}]
  | None => mret []
  end.

(** The sources of a document, none when it cannot be read. *)
Definition sources_of (xml : str) : list DiskSource :=
  match domain_disk_sources xml with Ok sources => sources | Err _ => [] end.

(** The outer loop body of [disks_of_all_domains]. *)
Definition disks_of_domain (d : domain) : virt (list UseOf) :=
  vm ← call (DomainName d);
  match vm with
  | Err _ => mret []
  | Ok vm => xmls ← domain_xmls d; gather (λ xml, gather (use_of vm) (sources_of xml)) xmls
  end.

Definition disks_of_all_domains : virt (result Error (list UseOf)) :=
  ds ←? lv (call ListAllDomains);
  out ← gather disks_of_domain ds;
  mret (Ok out).

Definition describe (v : vol) (x : VolumeXml) (disks overlays : list UseOf) :
    virt (result Error Volume) :=
  info ←? lv (call (VolInfo v));
  path ←? lv (call (VolPath v));
  key ← canonical path;
  name ←? lv (call (VolName v));
  vkey ←? lv (call (VolKey v));
  mret (Ok {| volume_name := name; volume_key := vkey; volume_path := path;
              volume_kind := VolumeKind_from_code (vinfo_kind info);
              volume_format := VolumeXml_format x;
              volume_capacity_bytes := vinfo_capacity info;
              volume_allocation_bytes := vinfo_allocation info;
              volume_used_by := users_in key disks;
              volume_backing_for := users_in key overlays |}).

Definition volumes_on (id : Uuid) : virt (result Error (list Volume)) :=
  p ←? running_pool id;
  _ ←? lv (call (PoolRefresh p));
  disks ←? disks_of_all_domains;
  volumes ←? read_volumes p;
  overlays ← overlays_of volumes;
  out ←? gather_try (λ '(v, x), f ←? describe v x disks overlays; mret (Ok [f])) volumes;
  mret (Ok (sort_by_name out)).

(** The first part of [delete_on]: the volume and everything that uses it. *)
Definition volume_users (id : Uuid) (name : str) : virt (result Error (vol * list str)) :=
  p ←? running_pool id;
  v ←? lv (call (PoolLookupVolByName p name));
  doc ←? lv (call (VolXmlDesc v));
  x ←? xml_err (VolumeXml_parse doc);
  volumes ←? read_volumes p;
  overlays ← overlays_of volumes;
  disks ←? disks_of_all_domains;
  facts ←? describe v x disks overlays;
  mret (Ok (v, volume_used_by facts ++ ((λ o, lit "volume " ++ o) <$> volume_backing_for facts))).

(** [delete_on] of volume.rs. *)
Definition volume_delete_on (id : Uuid) (name : str) : virt (result Error unit) :=
  found ←? volume_users id name;
  let '(v, users) := (found : vol * list str) in
  match users with
  | [] => _ ←? lv (call (VolDelete v)); mret (Ok tt)
  | _ => mret (Err (EInUse users))
  end.

(** [volume_names]. *)
Definition volume_names (id : Uuid) : virt (result Error (list str)) :=
  p ←? running_pool id;
  _ ←? lv (call (PoolRefresh p));
  vs ←? lv (call (PoolListVolumes p));
  gather_try (λ v, name ←? lv (call (VolName v)); mret (Ok [name])) vs.

Definition create_volume (id : Uuid) (xml : str) : virt (result Error unit * list Event) :=
  then_send (p ←? running_pool id; _ ←? lv (call (VolCreateXml p xml)); mret (Ok tt)) (pool_changed id).

Definition delete_volume (id : Uuid) (name : str) : virt (result Error unit * list Event) :=
  then_send (volume_delete_on id name) (pool_changed id).

(** ** Lemmas *)

Lemma running_pool_queries id : queries_only (running_pool id).
Proof.
  apply queries_try; [by apply queries_lv|]. intros p.
  apply queries_try; [by apply queries_lv|]. by intros [].
Qed.

Lemma read_volumes_queries p : queries_only (read_volumes p).
Proof.
  apply queries_try; [by apply queries_lv|]. intros vs. apply gather_try_queries. intros v.
  apply queries_try; [by apply queries_lv|]. intros doc. by apply queries_try.
Qed.

Lemma overlays_of_queries volumes : queries_only (overlays_of volumes).
Proof.
  apply gather_queries. intros [v x]. unfold overlay_of. cbn [fst snd]. destruct (backing_path x); [|done].
  apply queries_bind; [apply canonical_queries|]. intros key. by apply queries_bind.
Qed.

Lemma disks_of_all_domains_queries : queries_only disks_of_all_domains.
Proof.
  apply queries_try; [by apply queries_lv|]. intros ds. apply queries_bind; [|done].
  apply gather_queries. intros d. apply queries_bind; [done|]. intros [vm|]; [|done].
  apply queries_bind; [apply domain_xmls_queries|]. intros xmls.
  apply gather_queries. intros xml. apply gather_queries. intros src.
  apply queries_bind; [apply path_of_queries|]. intros [path|]; [|done].
  by apply queries_bind; [apply canonical_queries|].
Qed.

Lemma describe_queries v x disks overlays : queries_only (describe v x disks overlays).
Proof.
  apply queries_try; [by apply queries_lv|]. intros info.
  apply queries_try; [by apply queries_lv|]. intros path.
  apply queries_bind; [apply canonical_queries|]. intros key.
  apply queries_try; [by apply queries_lv|]. intros name.
  by apply queries_try; [apply queries_lv|].
Qed.

Lemma volume_users_queries id name : queries_only (volume_users id name).
Proof.
  apply queries_try; [apply running_pool_queries|]. intros p.
  apply queries_try; [by apply queries_lv|]. intros v.
  apply queries_try; [by apply queries_lv|]. intros doc.
  apply queries_try; [done|]. intros x.
  apply queries_try; [apply read_volumes_queries|]. intros volumes.
  apply queries_bind; [apply overlays_of_queries|]. intros overlays.
  apply queries_try; [apply disks_of_all_domains_queries|]. intros disks.
  by apply queries_try; [apply describe_queries|].
Qed.

(** ** Who uses a file *)

(** VM [vm] has a disk device of any kind, in its saved or its live
    configuration, whose file is [key]. *)
Definition vm_uses (w : ∀ c, resp c) (key vm : str) : Prop :=
  ∃ ds d xml sources src, w ListAllDomains = Ok ds ∧ d ∈ ds ∧ w (DomainName d) = Ok vm ∧
    (w (DomainXmlDesc d VIR_DOMAIN_XML_INACTIVE) = Ok xml ∨
     w (DomainIsActive d) = Ok true ∧ w (DomainXmlDesc d 0) = Ok xml) ∧
    domain_disk_sources xml = Ok sources ∧ src ∈ sources ∧ key_of w src = Some key.

(** Volume [name] of pool [p] is an overlay on the file [key]. *)
Definition overlay_uses (w : ∀ c, resp c) (p : pool) (key name : str) : Prop :=
  ∃ vs v doc x path, w (PoolListVolumes p) = Ok vs ∧ v ∈ vs ∧ w (VolXmlDesc v) = Ok doc ∧
    VolumeXml_parse doc = Ok x ∧ backing_path x = Some path ∧
    veval w (canonical path) = key ∧ w (VolName v) = Ok name.

Lemma elem_of_use_of w vm src u :
  u ∈ veval w (use_of vm src) ↔ use_by u = vm ∧ key_of w src = Some (use_key u).
Proof.
  unfold use_of, key_of. rewrite veval_bind. destruct (veval w (path_of src)) as [path|].
  - rewrite veval_bind. cbn [mret virt_ret veval fmap option_fmap option_map].
    rewrite list_elem_of_singleton. destruct u; simpl. naive_solver.
  - cbn [mret virt_ret veval fmap option_fmap option_map]. set_solver.
Qed.

Lemma elem_of_sources xml src :
  src ∈ sources_of xml ↔ ∃ sources, domain_disk_sources xml = Ok sources ∧ src ∈ sources.
Proof. unfold sources_of. destruct (domain_disk_sources xml); set_solver. Qed.

Lemma disks_of_all_domains_users w disks key vm :
  veval w disks_of_all_domains = Ok disks → vm ∈ users_in key disks ↔ vm_uses w key vm.
Proof.
  intros (ds & Hds%veval_lv & E)%veval_try. rewrite veval_bind in E. injection E as <-.
  cbn [call veval] in Hds. unfold users_in, vm_uses.
  rewrite elem_of_btree_set, list_elem_of_fmap. setoid_rewrite list_elem_of_filter.
  setoid_rewrite gather_elem. split.
  - intros (u & -> & Hk & d & Hd & Hu). unfold disks_of_domain in Hu. rewrite veval_bind in Hu.
    cbn [call veval] in Hu. destruct (w (DomainName d)) as [vm|] eqn:En; [|by apply not_elem_of_nil in Hu].
    rewrite veval_bind, gather_elem in Hu. destruct Hu as (xml & Hx%elem_of_domain_xmls & Hu).
    apply gather_elem in Hu as (src & (sources & Hs & Hsrc)%elem_of_sources & [Hb Hkey]%elem_of_use_of).
    exists ds, d, xml, sources, src. split_and!; congruence || done.
  - intros (ds' & d & xml & sources & src & Hds' & Hd & Hn & Hx & Hs & Hsrc & Hkey).
    exists {| use_key := key; use_by := vm |}. split_and!; [done..|].
    exists d. split; [congruence|]. unfold disks_of_domain. rewrite veval_bind. cbn [call veval].
    rewrite Hn, veval_bind, gather_elem. exists xml. split; [by apply elem_of_domain_xmls|].
    rewrite gather_elem. exists src. rewrite elem_of_sources, elem_of_use_of. eauto.
Qed.

Lemma read_volumes_elem w p volumes v x :
  veval w (read_volumes p) = Ok volumes →
  (v, x) ∈ volumes ↔ ∃ vs doc, w (PoolListVolumes p) = Ok vs ∧ v ∈ vs ∧
    w (VolXmlDesc v) = Ok doc ∧ VolumeXml_parse doc = Ok x.
Proof.
  intros (vs & Hvs%veval_lv & E)%veval_try. cbn [call veval] in Hvs.
  rewrite (gather_try_elem _ _ _ _ _ E). unfold read_volume. split.
  - intros (v' & l & Hv & (doc & Hdoc%veval_lv & (x' & Hx%veval_xml_err & [= <-])%veval_try)%veval_try & Hin).
    apply list_elem_of_singleton in Hin. injection Hin as <- <-. by exists vs, doc.
  - intros (vs' & doc & Hvs' & Hv & Hdoc & Hx). exists v, [(v, x)].
    split_and!; [congruence| |by apply list_elem_of_singleton].
    rewrite veval_try. exists doc. split; [by apply veval_lv|]. rewrite veval_try.
    exists x. by rewrite veval_xml_err.
Qed.

Lemma overlays_of_users w p volumes key name :
  veval w (read_volumes p) = Ok volumes →
  name ∈ users_in key (veval w (overlays_of volumes)) ↔ overlay_uses w p key name.
Proof.
  intros Hr. unfold users_in, overlay_uses, overlays_of.
  rewrite elem_of_btree_set, list_elem_of_fmap. setoid_rewrite list_elem_of_filter.
  setoid_rewrite gather_elem. split.
  - intros (u & -> & Hk & [v x] & Hin & Hu). unfold overlay_of in Hu. cbn [fst snd] in Hu.
    apply (read_volumes_elem _ _ _ _ _ Hr) in Hin as (vs & doc & Hvs & Hv & Hd & Hx).
    destruct (backing_path x) as [path|] eqn:Eb; [|by apply not_elem_of_nil in Hu].
    rewrite !veval_bind in Hu. cbn [call mret virt_ret veval] in Hu.
    destruct (w (VolName v)) as [name|] eqn:En; [|by apply not_elem_of_nil in Hu].
    apply list_elem_of_singleton in Hu as ->. by exists vs, v, doc, x, path.
  - intros (vs & v & doc & x & path & Hvs & Hv & Hd & Hx & Eb & Hk & En).
    exists {| use_key := key; use_by := name |}. split_and!; [done..|].
    exists (v, x). split; [apply (read_volumes_elem _ _ _ _ _ Hr); by exists vs, doc|].
    unfold overlay_of. cbn [fst snd]. rewrite Eb, !veval_bind, Hk. cbn [call mret virt_ret veval].
    rewrite En. by apply list_elem_of_singleton.
Qed.

(** Volume [v] is volume [name] of the running pool [p], and its file is [key]. *)
Definition volume_at (w : ∀ c, resp c) (id : Uuid) (name : str) (p : pool) (v : vol) (key : str) : Prop :=
  w (LookupPoolByUuid id) = Ok p ∧ w (PoolIsActive p) = Ok true ∧
  w (PoolLookupVolByName p name) = Ok v ∧
  ∃ path, w (VolPath v) = Ok path ∧ veval w (canonical path) = key.

(** Everything that uses the file, as the refusal names it. *)
Definition file_user (w : ∀ c, resp c) (p : pool) (key user : str) : Prop :=
  vm_uses w key user ∨ ∃ o, overlay_uses w p key o ∧ user = lit "volume " ++ o.

Lemma volume_users_spec w id name v users :
  veval w (volume_users id name) = Ok (v, users) →
  ∃ p key, volume_at w id name p v key ∧ ∀ u, u ∈ users ↔ file_user w p key u.
Proof.
  intros (p & Hp & E)%veval_try. apply veval_try in E as (v' & Hv%veval_lv & E).
  apply veval_try in E as (doc & _ & E). apply veval_try in E as (x & _ & E).
  apply veval_try in E as (volumes & Hvols & E). rewrite veval_bind in E.
  apply veval_try in E as (disks & Hdisks & E).
  apply veval_try in E as (facts & Hf & E). injection E as -> <-.
  apply veval_try in Hp as (p' & Hp'%veval_lv & (a & Ha%veval_lv & Hp)%veval_try).
  destruct a; [|done]. injection Hp as ->.
  apply veval_try in Hf as (info & _ & (path & Hpath%veval_lv & Hf)%veval_try).
  rewrite veval_bind in Hf. apply veval_try in Hf as (n & _ & (k & _ & [= <-])%veval_try).
  exists p, (veval w (canonical path)). split; [by split_and!; [..|exists path]|]. cbn [volume_used_by volume_backing_for].
  intros u. rewrite elem_of_app, (disks_of_all_domains_users _ _ _ _ Hdisks), list_elem_of_fmap.
  setoid_rewrite (overlays_of_users _ _ _ _ _ Hvols). unfold file_user. naive_solver.
Qed.

(** The steps before the decision never answer [InUse]. *)
Definition no_in_use {A} (m : virt (result Error A)) : Prop :=
  ∀ tr users, ¬ vruns m tr (Err (EInUse users)).

Lemma no_in_use_try {A B} (m : virt (result Error A)) (f : A → virt (result Error B)) :
  no_in_use m → (∀ a, no_in_use (f a)) → no_in_use (try m f).
Proof.
  intros Hm Hf tr users [(e & [= <-] & Hr)|(t1 & t2 & a & -> & _ & Hr)]%vruns_try;
    [by eapply Hm|by eapply Hf].
Qed.

Lemma no_in_use_bind {A B} (m : virt A) (f : A → virt (result Error B)) :
  (∀ a, no_in_use (f a)) → no_in_use (m ≫= f).
Proof. intros Hf tr users (t1 & t2 & a & -> & _ & Hr)%vruns_bind. by eapply Hf. Qed.

Lemma no_in_use_lv {A} (m : virt (result verr A)) : no_in_use (lv m).
Proof. by intros tr users ([|] & _ & [=])%vruns_lv. Qed.

Lemma no_in_use_ok {A} (a : A) : no_in_use (mret (Ok a)).
Proof. by intros tr users [_ [=]]. Qed.

Lemma no_in_use_xml {A} (r : result XmlError A) : no_in_use (xml_err r).
Proof. intros tr users [_ Hr]. by destruct r. Qed.

Lemma no_in_use_gather {A B} (f : A → virt (result Error (list B))) l :
  (∀ a, no_in_use (f a)) → no_in_use (gather_try f l).
Proof.
  intros Hf. induction l as [|a l IH]; [apply no_in_use_ok|]. cbn [gather_try].
  apply no_in_use_try; [done|]. intros bs. apply no_in_use_try; [done|]. intros. apply no_in_use_ok.
Qed.

Lemma volume_users_error id name : no_in_use (volume_users id name).
Proof.
  assert (Hp : no_in_use (running_pool id)).
  { apply no_in_use_try; [apply no_in_use_lv|]. intros p. apply no_in_use_try; [apply no_in_use_lv|].
    intros [|]; [apply no_in_use_ok|]. by intros tr users [_ [=]]. }
  unfold volume_users, read_volumes, read_volume, disks_of_all_domains, describe.
  repeat first [done | apply no_in_use_lv | apply no_in_use_xml | apply no_in_use_ok
    | apply no_in_use_gather; intros | apply no_in_use_try; [|intros ?] | apply no_in_use_bind; intros ?].
Qed.

(** C23: a volume is not deleted under a user that Lodger can see, and the refusal names
    these users.  A user is a VM whose name and configuration libvirt returns and whose
    document can be read, with a disk device of any kind, saved or live, whose path
    resolves to the volume's file; or an overlay on it in the same pool whose name
    libvirt returns.  When libvirt's answers to queries do not change during the delete,
    the only volume that is deleted is the named one, and only if it has no such user;
    then the pool event is sent.  A refusal lists all of them, each VM by name and each
    overlay as [volume <name>], and nothing else, and deletes nothing.  A VM that libvirt
    does not describe is no obstacle (see [unreadable_vm_loses_volume]), and neither is an
    overlay in another pool. *)
Theorem volume_delete_guarded w id name tr r events :
  vruns (delete_volume id name) tr (r, events) → consistent w tr →
  (∀ e v, e ∈ tr → projT1 e = VolDelete v →
    ∃ p key, volume_at w id name p v key ∧ ∀ u, ¬ file_user w p key u) ∧
  (∀ users, r = Err (EInUse users) →
    users ≠ [] ∧ no_delete tr ∧
    ∃ p v key, volume_at w id name p v key ∧ ∀ u, u ∈ users ↔ file_user w p key u) ∧
  (r = Ok tt ↔ events = [pool_changed id]) ∧
  (r = Ok tt → ∃ tr0 v, tr = tr0 ++ [existT (VolDelete v) (Ok tt)]).
Proof.
  intros Hr Hc. unfold delete_volume, then_send in Hr.
  apply vruns_bind in Hr as (t1 & t2 & r' & -> & Hr & [-> [= -> ->]]). rewrite app_nil_r in *.
  assert (Hev : r' = Ok tt ↔ match r' with Ok _ => [pool_changed id] | Err _ => [] end = [pool_changed id])
    by (by destruct r' as [[]|]).
  unfold volume_delete_on in Hr.
  apply vruns_try in Hr as [(e & -> & Hr)|(ta & tb & [v users] & -> & Ha & Hr)].
  { pose proof (queries_no_delete _ _ _ (volume_users_queries id name) Hr) as Hno.
    split_and!; [|intros users [= ->]|done|done].
    - intros e0 v0 He Hv. exfalso. by eapply Hno.
    - exfalso. revert Hr. apply volume_users_error. }
  pose proof (queries_no_delete _ _ _ (volume_users_queries id name) Ha) as Hno.
  apply consistent_app in Hc as [Hca _].
  pose proof (vruns_veval _ _ _ _ (volume_users_queries id name) Ha Hca) as Hu. symmetry in Hu.
  apply volume_users_spec in Hu as (p & key & Hat & Hus).
  destruct users as [|u0 users].
  - assert (Hnone : ∀ u, ¬ file_user w p key u) by (intros u Hf%Hus; by apply not_elem_of_nil in Hf).
    assert (Hend : ∃ d, tb = [existT (VolDelete v) d] ∧ r' = map_err ELibvirt d).
    { apply vruns_try in Hr as [(e & -> & (d & ->%vruns_call & Hd)%vruns_lv)|
        (t3 & t4 & [] & -> & (d & ->%vruns_call & Hd)%vruns_lv & [-> ->])].
      - exists d. split; [done|]. by destruct d.
      - exists d. rewrite app_nil_r. split; [done|]. by destruct d as [[]|]. }
    destruct Hend as (d & -> & ->). split_and!; [| |done|].
    + intros e0 v0 [He| ->%list_elem_of_singleton]%elem_of_app Hv; [exfalso; by eapply Hno|].
      injection Hv as <-. by exists p, key.
    + intros us E. by destruct d.
    + intros E. exists ta, v. by destruct d as [[]|].
  - destruct Hr as [-> ->]. rewrite app_nil_r. split_and!; [| |done|done].
    + intros e0 v0 He Hv. exfalso. by eapply Hno.
    + intros us [= <-]. split_and!; [done..|]. by exists p, v, key.
Qed.
End volume.

(** ** Witness and counterexamples *)

Definition volume_docs : XmlTree :=
  xml_ref [(lit "one", vm_with (lit "/a.img")); (lit "two", vm_with (lit "/b.img"));
           (lit "vol", MkElement (lit "volume") [] [])].

Definition volume_host (n : nat) (c : vcall) : resp c :=
  match c with
  | DomainName d => Ok (if d =? 1 then lit "web" else lit "db")
  | VolXmlDesc _ => Ok (lit "vol")
  | c => two_vms n c
  end.

Lemma volume_host_steady n c : is_query c = true → volume_host n c = volume_host 0%nat c.
Proof. by destruct c. Qed.

Lemma volume_delete_guarded_witness :
  let run := vrun (@delete_volume ipnet_ref volume_docs 5 (lit "a.img")) volume_host 0%nat in
  run.2 = (Err (EInUse [lit "web"]), []) ∧ no_delete run.1.
Proof.
  intros run. assert (E : run.2 = (Err (EInUse [lit "web"]), [])) by reflexivity.
  split; [exact E|].
  pose proof (@volume_delete_guarded ipnet_ref volume_docs (volume_host 0%nat) 5 (lit "a.img") run.1
    (Err (EInUse [lit "web"])) [] (vrun_vruns _ _ _) (vrun_consistent _ _ _ volume_host_steady)) as Hg.
  exact (proj1 (proj2 (proj1 (proj2 Hg) _ eq_refl))).
Defined.

(** The same host, but libvirt fails to answer for the document of VM [web] with
    an error other than [NoDomain]. *)
Definition silent_host (n : nat) (c : vcall) : resp c :=
  match c with
  | DomainXmlDesc d flags =>
      if d =? 1 then Err {| verr_code := Some (OtherError 38); verr_message := lit "timed out" |}
      else volume_host n (DomainXmlDesc d flags)
  | c => volume_host n c
  end.

(** A VM whose configuration libvirt fails to return counts as a VM without
    disks: the volume of VM [web], which the delete refuses when the
    configuration is readable, is deleted.  The VM is still there. *)
Example unreadable_vm_loses_volume :
  (vrun (@delete_volume ipnet_ref volume_docs 5 (lit "a.img")) volume_host 0%nat).2 =
    (Err (EInUse [lit "web"]), []) ∧
  (vrun (@delete_volume ipnet_ref volume_docs 5 (lit "a.img")) silent_host 0%nat).2 =
    (Ok tt, [pool_changed 5]) ∧
  List.In (VolDelete 3) (map (@projT1 _ _)
    (vrun (@delete_volume ipnet_ref volume_docs 5 (lit "a.img")) silent_host 0%nat).1).
Proof. split_and!; [reflexivity..|]. vm_compute. tauto. Qed.
