(* ===== verification/VirtPool.v ===== *)
(** * Storage pools (crates/lodger-virt/src/pool.rs) *)

From S2P Require Import Prelude Text Net Validate Model Xml XmlPool Virt VirtPower VirtDelete.

Definition POOL_AUTOSTART : Z := -1.

(** The name and the document of one pool, for [xmls_of]. *)
Definition pool_name_and_xml (p : pool) : virt (result verr (str * str)) :=
  name ←? call (PoolName p);
  xml ←? call (PoolXmlDesc p);
  mret (Ok (name, xml)).

Definition pool_xmls_of (pools : list pool) : virt (result verr (list (str * str))) :=
  gather_try (λ p,
    found ← pool_name_and_xml p;
    mret match found with
         | Ok found => Ok [found]
         | Err e => if bool_decide (verr_code e = Some NoStoragePool) then Ok [] else Err e
         end) pools.

(** The delete loop of [remove_pool_on]. *)
Fixpoint delete_all (vs : list vol) : virt (result verr unit) :=
  match vs with
  | [] => mret (Ok tt)
  | v :: vs => _ ←? call (VolDelete v); delete_all vs
  end.

(** The part of [remove_pool_on] under [if delete_files]. *)
Definition delete_pool_files (p : pool) : virt (result verr unit) :=
  was_active ←? call (PoolIsActive p);
  _ ←? (if negb (was_active : bool) then call (PoolCreate p) else mret (Ok tt));
  deleted ← (_ ←? call (PoolRefresh p); vs ←? call (PoolListVolumes p); delete_all vs);
  match deleted with
  | Err e =>
      if negb (was_active : bool) then _ ← call (PoolDestroy p); mret (Err e)
      else mret (Err e)
  | Ok _ => mret (Ok tt)
  end.

(** [remove_pool_on], with the volume delete of [remove_pool] and its empty
    [before_stop]. *)
Definition remove_pool_on (id : Uuid) (delete_files remove_empty_folder : bool) :
    virt (result verr unit) :=
  p ←? call (LookupPoolByUuid id);
  _ ←? (if delete_files then delete_pool_files p else mret (Ok tt));
  persistent ←? call (PoolIsPersistent p);
  active ←? call (PoolIsActive p);
  _ ←? (if (active : bool) then call (PoolDestroy p) else mret (Ok tt));
  if (persistent : bool) then
    _ ←? (if delete_files then call (PoolDelete p)
          else if remove_empty_folder then _ ← call (PoolDelete p); mret (Ok tt)
          else mret (Ok tt));
    call (PoolUndefine p)
  else mret (Ok tt).

(** The failure arm of [create_pool_on]. *)
Definition undo_create_pool (p : pool) : virt unit :=
  active ← call (PoolIsActive p);
  _ ← (if (unwrap_or false active : bool) then _ ← call (PoolDestroy p); mret tt else mret tt);
  _ ← call (PoolUndefine p);
  mret tt.

(** [create_pool_on], with the empty [before_start] of [create_pool]. *)
Definition create_pool_on (xml : str) (autostart : bool) : virt (result verr Uuid) :=
  p ←? call (DefinePoolXml xml);
  started ← (_ ←? call (PoolBuild p);
             _ ←? call (PoolSetAutostart p autostart);
             call (PoolCreate p));
  match started with
  | Ok _ => call (PoolUuid p)
  | Err e =>
      _ ← undo_create_pool p;
      mret (Err e)
  end.

Section pool.
Context `{Ipnet} `{XmlTree}.

Definition pool_xmls : virt (result Error (list (str * str))) :=
  lv (pools ←? call ListAllPools; pool_xmls_of pools).

Definition pool_xml (id : Uuid) : virt (result Error str) :=
  lv (p ←? call (LookupPoolByUuid id); call (PoolXmlDesc p)).

Definition create_pool (xml : str) (autostart : bool) : virt (result Error Uuid) :=
  lv (create_pool_on xml autostart).

Definition set_pool_active (id : Uuid) (active : bool) : virt (result Error unit) :=
  p ←? lv (call (LookupPoolByUuid id));
  now ←? lv (call (PoolIsActive p));
  match active, (now : bool) with
  | true, true => mret (Err (EWrongState (lit "the pool is running already")))
  | false, false => mret (Err (EWrongState (lit "the pool is not running")))
  | true, false => lv (call (PoolCreate p))
  | false, true => lv (call (PoolDestroy p))
  end.

Definition set_pool_autostart (id : Uuid) (on : bool) : virt (result Error unit * list Event) :=
  then_send (lv (p ←? call (LookupPoolByUuid id); call (PoolSetAutostart p on)))
    (EvPool id POOL_AUTOSTART).

Definition remove_pool (id : Uuid) (delete_files remove_empty_folder : bool) :
    virt (result Error unit) :=
  lv (remove_pool_on id delete_files remove_empty_folder).

(** The innermost closure of [users_of]. *)
Definition disk_in_pool (pool_name : str) (folder : option str) (disk : Disk) : bool :=
  match disk_source disk with
  | SrcVolume pool _ => bool_decide (pool = pool_name)
  | SrcFile path | SrcBlock path =>
      match folder with Some f => starts_with f path | None => false end
  end.

(** [domain_disks(xml).unwrap_or_default()]. *)
Definition disks_or_none (xml : str) : list Disk :=
  match domain_disks xml with Ok disks => disks | Err _ => [] end.

(** [target_path] with one [/] at its end. *)
Definition pool_folder (x : PoolXml) : option str :=
  (λ p, trim_end_with (λ c, c =? 47) p ++ lit "/") <$> PoolXml_target_path x.

(** The closure [uses] of [users_of] on one document. *)
Definition xml_in_pool (pool_name : str) (folder : option str) (xml : str) : bool :=
  existsb (disk_in_pool pool_name folder) (disks_or_none xml).

Definition pool_users_of (p : pool) : virt (result Error (list str)) :=
  pool_name ←? lv (call (PoolName p));
  doc ←? lv (call (PoolXmlDesc p));
  x ←? xml_err (PoolXml_parse doc);
  ds ←? lv (call ListAllDomains);
  users ← gather (user_with (xml_in_pool pool_name (pool_folder x))) ds;
  mret (Ok (btree_set users)).

Definition pool_users (id : Uuid) : virt (result Error (list str)) :=
  p ←? lv (call (LookupPoolByUuid id)); pool_users_of p.
End pool.

(** ** Properties *)

Lemma undo_create_pool_trace p tr u :
  vruns (undo_create_pool p) tr u →
  ∃ active stop gone, tr = [did (PoolIsActive p) active] ++ stop ++ [did (PoolUndefine p) gone] ∧
    (if (unwrap_or false active : bool) then ∃ s, stop = [did (PoolDestroy p) s] else stop = []).
Proof.
  intros (t1 & t2 & active & -> & ->%vruns_call & Hr)%vruns_bind.
  apply vruns_bind in Hr as (t3 & t4 & [] & -> & H3 & (t5 & t6 & gone & -> & ->%vruns_call & [-> _])%vruns_bind).
  exists active, t3, gone. rewrite app_nil_r. split; [done|].
  destruct (unwrap_or false active); [|by destruct H3].
  apply vruns_bind in H3 as (t7 & t8 & s & -> & ->%vruns_call & [-> _]). by exists s.
Qed.

(** C28: what a create of a pool does to libvirt, on every branch.  Whatever libvirt
    answers, it never deletes a folder or a volume.  It succeeds only after the define,
    the build, the autostart and the start all succeeded, in this order.  When the build,
    the autostart or the start fails, the answer is that first error, and the pool is
    stopped if libvirt says that it runs, and its undefine is the last call, whose own
    failure is ignored.  When the define fails there is nothing to undo; and when only the
    last question, the UUID of the new pool, fails, the answer is that error and the pool
    stays, defined and running (see [failed_create_stays]). *)
Theorem create_pool_all_or_nothing xml autostart tr r :
  vruns (create_pool_on xml autostart) tr r →
  Forall (λ e, match projT1 e with PoolDelete _ | VolDelete _ => False | _ => True end) tr ∧
  match r with
  | Ok id => ∃ p, tr = [did (DefinePoolXml xml) (Ok p); did (PoolBuild p) (Ok tt);
      did (PoolSetAutostart p autostart) (Ok tt); did (PoolCreate p) (Ok tt); did (PoolUuid p) (Ok id)]
  | Err e =>
      tr = [did (DefinePoolXml xml) (Err e)] ∨
      ∃ p, tr = [did (DefinePoolXml xml) (Ok p); did (PoolBuild p) (Ok tt);
        did (PoolSetAutostart p autostart) (Ok tt); did (PoolCreate p) (Ok tt); did (PoolUuid p) (Err e)] ∨
      ∃ tried active stop gone,
        tr = [did (DefinePoolXml xml) (Ok p)] ++ tried ++ [did (PoolIsActive p) active] ++ stop ++
             [did (PoolUndefine p) gone] ∧
        (tried = [did (PoolBuild p) (Err e)] ∨
         tried = [did (PoolBuild p) (Ok tt); did (PoolSetAutostart p autostart) (Err e)] ∨
         tried = [did (PoolBuild p) (Ok tt); did (PoolSetAutostart p autostart) (Ok tt);
                  did (PoolCreate p) (Err e)]) ∧
        (if (unwrap_or false active : bool) then ∃ s, stop = [did (PoolDestroy p) s] else stop = [])
  end.
Proof.
  intros Hr. match goal with |- _ ∧ ?G => assert (Hshape : G) end.
  { apply vruns_try in Hr as [(e & -> & ->%vruns_call)|(t1 & t2 & p & -> & ->%vruns_call & Hr)]; [by left|].
    apply vruns_bind in Hr as (t3 & t4 & started & -> & Hs & Hr).
    destruct started as [[]|e].
    - apply vruns_call in Hr as ->.
      apply vruns_try in Hs as [(? & ? & _)|(t5 & t6 & [] & -> & ->%vruns_call & Hs)]; [done|].
      apply vruns_try in Hs as [(? & ? & _)|(t7 & t8 & [] & -> & ->%vruns_call & ->%vruns_call)]; [done|].
      destruct r as [id|e]; [by exists p|right; exists p; by left].
    - apply vruns_bind in Hr as (t5 & t6 & [] & -> & Hu & [-> ->]). rewrite app_nil_r.
      apply undo_create_pool_trace in Hu as (active & stop & gone & -> & Hstop).
      right. exists p. right. exists t3, active, stop, gone. split_and!; [done| |done].
      apply vruns_try in Hs as [(? & [= ->] & ->%vruns_call)|(t5 & t6 & [] & -> & ->%vruns_call & Hs)]; [by left|].
      apply vruns_try in Hs as [(? & [= ->] & ->%vruns_call)|(t7 & t8 & [] & -> & ->%vruns_call & ->%vruns_call)];
        auto. }
  split; [|exact Hshape].
  apply Forall_forall. intros x Hx. destruct r as [id|e].
  - destruct Hshape as (p & ->). set_solver.
  - destruct Hshape as [->|(p & [->|(tried & active & stop & gone & -> & Ht & Hs)])]; [set_solver..|].
    destruct (unwrap_or false active); [destruct Hs as [s ->]|subst stop];
      destruct Ht as [->|[->| ->]]; set_solver.
Qed.

(** ** Removing a pool *)

Definition deleted_all (vs : list vol) : list ev := (λ v, did (VolDelete v) (Ok tt)) <$> vs.

Lemma delete_all_trace vs tr r :
  vruns (delete_all vs) tr r →
  match r with
  | Ok _ => tr = deleted_all vs
  | Err e => ∃ vs1 v vs2, vs = vs1 ++ v :: vs2 ∧ tr = deleted_all vs1 ++ [did (VolDelete v) (Err e)]
  end.
Proof.
  revert tr. induction vs as [|v vs IH]; intros tr Hr; [by destruct Hr as [-> ->]|].
  cbn [delete_all] in Hr.
  apply vruns_try in Hr as [(e & -> & ->%vruns_call)|(t1 & t2 & [] & -> & ->%vruns_call & Hr)].
  - by exists [], v, vs.
  - specialize (IH _ Hr). destruct r as [[]|e].
    + by rewrite IH.
    + destruct IH as (vs1 & v' & vs2 & -> & ->). by exists (v :: vs1), v', vs2.
Qed.

(** The file delete starts with a running pool: it ran, or was started. *)
Definition run_pool (p : pool) (was_active : bool) : list ev :=
  did (PoolIsActive p) (Ok was_active) :: (if was_active then [] else [did (PoolCreate p) (Ok tt)]).

(** The work of the delete up to its failure with [e]. *)
Definition failed_work (p : pool) (e : verr) (work : list ev) : Prop :=
  work = [did (PoolRefresh p) (Err e)] ∨
  work = [did (PoolRefresh p) (Ok tt); did (PoolListVolumes p) (Err e)] ∨
  ∃ vs1 v vs2, work = [did (PoolRefresh p) (Ok tt); did (PoolListVolumes p) (Ok (vs1 ++ v :: vs2))] ++
    deleted_all vs1 ++ [did (VolDelete v) (Err e)].

Lemma delete_pool_files_trace p tr r :
  vruns (delete_pool_files p) tr r →
  match r with
  | Ok _ => ∃ was vs,
      tr = run_pool p was ++ [did (PoolRefresh p) (Ok tt); did (PoolListVolumes p) (Ok vs)] ++ deleted_all vs
  | Err e =>
      tr = [did (PoolIsActive p) (Err e)] ∨
      tr = [did (PoolIsActive p) (Ok false); did (PoolCreate p) (Err e)] ∨
      ∃ was work stop, tr = run_pool p was ++ work ++ stop ∧ failed_work p e work ∧
        (if was : bool then stop = [] else ∃ s, stop = [did (PoolDestroy p) s])
  end.
Proof.
  intros Hr.
  apply vruns_try in Hr as [(e & -> & ->%vruns_call)|(t1 & t2 & was & Htr & ->%vruns_call & Hr)]; [by left|].
  apply vruns_try in Hr as [(e & -> & Hr)|(t3 & t4 & [] & -> & Hs & Hr)].
  { rewrite Htr. destruct was; [by destruct Hr|]. apply vruns_call in Hr as ->. right. by left. }
  assert (tr = run_pool p was ++ t4) as ->.
  { rewrite Htr. destruct was; [by destruct Hs as [-> _]|by apply vruns_call in Hs as ->]. }
  clear t3 Hs Htr.
  apply vruns_bind in Hr as (t5 & t6 & deleted & -> & Hd & Hr).
  assert (Hwork : match deleted with
    | Ok _ => ∃ vs, t5 = [did (PoolRefresh p) (Ok tt); did (PoolListVolumes p) (Ok vs)] ++ deleted_all vs
    | Err e => failed_work p e t5 end).
  { apply vruns_try in Hd as [(e & -> & ->%vruns_call)|(t7 & t8 & [] & -> & ->%vruns_call & Hd)]; [by left|].
    apply vruns_try in Hd as [(e & -> & ->%vruns_call)|(t9 & t10 & vs & -> & ->%vruns_call & Hd)];
      [right; by left|].
    apply delete_all_trace in Hd. destruct deleted as [[]|e]; [exists vs; by rewrite Hd|].
    destruct Hd as (vs1 & v & vs2 & -> & ->). right; right. by exists vs1, v, vs2. }
  destruct deleted as [[]|e].
  - destruct Hr as [-> ->]. rewrite app_nil_r. destruct Hwork as (vs & ->). by exists was, vs.
  - destruct was; simpl in Hr.
    + destruct Hr as [-> ->]. right; right. by exists true, t5, [].
    + destruct Hr as (s & t7 & -> & -> & ->). right; right. exists false, t5, [did (PoolDestroy p) s]. eauto.
Qed.

(** The calls of the file delete, a failed delete of a volume aside. *)
Definition file_call (p : pool) (x : ev) : Prop :=
  projT1 x = PoolIsActive p ∨ projT1 x = PoolCreate p ∨ projT1 x = PoolRefresh p ∨
  projT1 x = PoolListVolumes p ∨ projT1 x = PoolDestroy p ∨ ∃ v, x = did (VolDelete v) (Ok tt).

Lemma run_pool_calls p was : Forall (file_call p) (run_pool p was).
Proof.
  unfold run_pool, file_call. destruct was; repeat (apply Forall_cons; split; [simpl; auto 10|]);
    by apply Forall_nil.
Qed.

Lemma deleted_all_calls p vs : Forall (file_call p) (deleted_all vs).
Proof.
  apply Forall_forall. intros x (v & -> & _)%list_elem_of_fmap. unfold file_call. naive_solver.
Qed.

Lemma file_work_calls p vs :
  Forall (file_call p) [did (PoolRefresh p) (Ok tt); did (PoolListVolumes p) (Ok vs)].
Proof.
  unfold file_call. repeat (apply Forall_cons; split; [simpl; auto 10|]); by apply Forall_nil.
Qed.

(** What a removal that fails with [e] promises. *)
Definition remove_failed (delete_files remove_empty_folder : bool) (e : verr) (tr : list ev) : Prop :=
  (delete_files = false → no_delete tr) ∧
  (delete_files = false → remove_empty_folder = false → ∀ x p, x ∈ tr → projT1 x ≠ PoolDelete p) ∧
  (∀ p, did (PoolUndefine p) (Ok tt) ∉ tr) ∧
  (∀ v, did (VolDelete v) (Err e) ∈ tr →
    (∀ x p, x ∈ tr → projT1 x ≠ PoolDelete p) ∧
    ∀ p, did (PoolCreate p) (Ok tt) ∈ tr → ∃ tr0 s, tr = tr0 ++ [did (PoolDestroy p) s]).

(** The calls after the files are gone. *)
Definition late_call (df re : bool) (p : pool) (x : ev) : Prop :=
  projT1 x = PoolIsPersistent p ∨ projT1 x = PoolIsActive p ∨ projT1 x = PoolDestroy p ∨
  (df = true ∨ re = true) ∧ projT1 x = PoolDelete p ∨ ∃ e, x = did (PoolUndefine p) (Err e).

Ltac late_tac :=
  by repeat (apply Forall_cons; split; [unfold late_call; simpl; by eauto 10|]).

Lemma remove_fails_late id df re p files tl e :
  Forall (file_call p) files → (df = false → files = []) → Forall (late_call df re p) tl →
  remove_failed df re e ([did (LookupPoolByUuid id) (Ok p)] ++ files ++ tl).
Proof.
  intros Hf Hd Hl. rewrite Forall_forall in Hf, Hl. unfold file_call, late_call in *.
  assert (Hall : ∀ x, x ∈ [did (LookupPoolByUuid id) (Ok p)] ++ files ++ tl →
    projT1 x = LookupPoolByUuid id ∨ x ∈ files ∨ x ∈ tl).
  { intros x [->%list_elem_of_singleton|[?|?]%elem_of_app]%elem_of_app; auto. }
  split_and!.
  - intros Hdf x v Hx E. rewrite (Hd Hdf) in *. apply Hall in Hx as [?|[Hx|Hx]];
      [congruence|by apply not_elem_of_nil in Hx|].
    destruct (Hl x Hx) as [?|[?|[?|[[_ ?]|[? ->]]]]]; simpl in *; congruence.
  - intros Hdf Hre x p' Hx E. apply Hall in Hx as [?|[Hx|Hx]]; [congruence| |].
    + destruct (Hf x Hx) as [?|[?|[?|[?|[?|[? ->]]]]]]; simpl in *; congruence.
    + destruct (Hl x Hx) as [?|[?|[?|[[[?|?] ?]|[? ->]]]]]; simpl in *; congruence.
  - intros p' [?|[Hx|Hx]]%Hall; [done| |].
    + destruct (Hf _ Hx) as [?|[?|[?|[?|[?|[? ?]]]]]]; simpl in *; discriminate.
    + destruct (Hl _ Hx) as [?|[?|[?|[[_ ?]|[? E]]]]]; simpl in *; try discriminate.
      apply (f_equal (λ x : ev, match x with existT (PoolUndefine _) r => is_ok r | _ => true end)) in E.
      discriminate.
  - intros v [?|[Hx|Hx]]%Hall; [done| |].
    + destruct (Hf _ Hx) as [?|[?|[?|[?|[?|[? E]]]]]]; simpl in *; try discriminate.
      apply (f_equal (λ x : ev, match x with existT (VolDelete _) r => is_ok r | _ => true end)) in E.
      discriminate.
    + destruct (Hl _ Hx) as [?|[?|[?|[[_ ?]|[? ?]]]]]; simpl in *; discriminate.
Qed.

(** The file delete fails: no folder and no definition is touched. *)
Lemma remove_fails_early id re p tr e :
  vruns (delete_pool_files p) tr (Err e) →
  remove_failed true re e ([did (LookupPoolByUuid id) (Ok p)] ++ tr).
Proof.
  intros Hr%delete_pool_files_trace.
  assert (Hcalls : ∀ x, x ∈ tr → (∀ p', projT1 x ≠ PoolDelete p') ∧ (∀ p', projT1 x ≠ PoolUndefine p')).
  { assert (Hfile : ∀ x, file_call p x →
      (∀ p', projT1 x ≠ PoolDelete p') ∧ (∀ p', projT1 x ≠ PoolUndefine p')).
    { intros x [E|[E|[E|[E|[E|[v ->]]]]]]; try rewrite E; by split. }
    destruct Hr as [->|[->|(was & work & stop & -> & Hw & Hs)]]; [set_solver..|].
    intros x [Hx|[Hx|Hx]%elem_of_app]%elem_of_app.
    - apply Hfile. eapply Forall_forall; [apply (run_pool_calls p was)|done].
    - destruct Hw as [->|[->|(vs1 & v & vs2 & ->)]]; [set_solver..|].
      apply elem_of_app in Hx as [Hx|[Hx|Hx]%elem_of_app]; [set_solver| |set_solver].
      apply Hfile. eapply Forall_forall; [apply (deleted_all_calls p vs1)|done].
    - destruct was; [subst; by apply not_elem_of_nil in Hx|]. destruct Hs as [s ->]. set_solver. }
  split_and!; [done|done| |].
  - intros p' [?%list_elem_of_singleton|Hx]%elem_of_app; [done|].
    apply Hcalls in Hx as [_ Hn]. by apply (Hn p').
  - intros v Hv. split.
    + intros x p' [->%list_elem_of_singleton|Hx]%elem_of_app; [done|]. by apply Hcalls.
    + intros p' Hc.
      assert (Hcr : ∃ x, x ∈ tr ∧ projT1 x = PoolCreate p').
      { apply elem_of_app in Hc as [?%list_elem_of_singleton|Hc]; [done|]. by eexists. }
      destruct Hcr as (x & Hx & Ex). clear Hc Hcalls.
      destruct Hr as [->|[->|(was & work & stop & -> & Hw & Hs)]].
      * set_solver.
      * exfalso. clear Hx. apply elem_of_app in Hv as [Hv|Hv]; set_solver.
      * assert (Hnw : x ∉ work).
        { intros Hxw. destruct Hw as [->|[->|(vs1 & v1 & vs2 & ->)]]; [set_solver..|].
          apply elem_of_app in Hxw as [Hxw|[(v2 & -> & _)%list_elem_of_fmap|Hxw]%elem_of_app];
            [set_solver|done|set_solver]. }
        destruct was.
        -- subst stop. set_solver.
        -- destruct Hs as [s ->]. assert (p' = p) as -> by (unfold run_pool in Hx; set_solver).
           exists ([did (LookupPoolByUuid id) (Ok p)] ++ run_pool p false ++ work), s. by rewrite <- !app_assoc.
Qed.

(** The folder step: only a requested delete of the files can fail it. *)
Lemma remove_folder_trace p (df re : bool) tr r :
  vruns (if df then call (PoolDelete p)
         else if re then _ ← call (PoolDelete p); mret (Ok tt) else mret (Ok tt)) tr r →
  match r with
  | Ok _ => ∃ x, tr = if df then [did (PoolDelete p) (Ok tt)] else if re then [did (PoolDelete p) x] else []
  | Err e => df = true ∧ tr = [did (PoolDelete p) (Err e)]
  end.
Proof.
  destruct df; [|destruct re].
  - intros ->%vruns_call. destruct r as [[]|e]; [by exists (Ok tt)|done].
  - intros (x & t & -> & -> & ->). by exists x.
  - intros [-> ->]. by exists (Ok tt).
Qed.

(** The delete of the files fails: before the pool runs, or while it works; then a pool
    that was started for it is stopped, and one that ran before runs on. *)
Inductive files_failed (p : pool) (e : verr) : list ev → Prop :=
| no_answer : files_failed p e [did (PoolIsActive p) (Err e)]
| no_start : files_failed p e [did (PoolIsActive p) (Ok false); did (PoolCreate p) (Err e)]
| failed_running work : failed_work p e work → files_failed p e ([did (PoolIsActive p) (Ok true)] ++ work)
| failed_started work s : failed_work p e work →
    files_failed p e ([did (PoolIsActive p) (Ok false); did (PoolCreate p) (Ok tt)] ++ work ++ [did (PoolDestroy p) s]).

(** The delete of the files is done, or was not asked for. *)
Inductive files_gone (p : pool) : bool → list ev → Prop :=
| not_asked : files_gone p false []
| gone_running vs : files_gone p true
    ([did (PoolIsActive p) (Ok true); did (PoolRefresh p) (Ok tt); did (PoolListVolumes p) (Ok vs)] ++ deleted_all vs)
| gone_started vs : files_gone p true
    ([did (PoolIsActive p) (Ok false); did (PoolCreate p) (Ok tt); did (PoolRefresh p) (Ok tt);
      did (PoolListVolumes p) (Ok vs)] ++ deleted_all vs).

(** The stop of a pool that runs. *)
Definition stopped (p : pool) (active : bool) : list ev := if active then [did (PoolDestroy p) (Ok tt)] else [].

(** The folder: it must go, it may go, or it stays. *)
Inductive folder_gone (p : pool) : bool → bool → list ev → Prop :=
| folder_deleted re : folder_gone p true re [did (PoolDelete p) (Ok tt)]
| folder_tried x : folder_gone p false true [did (PoolDelete p) x]
| folder_kept : folder_gone p false false [].

(** What comes after the files fails, and nothing is undone. *)
Inductive rest_failed (p : pool) (df re : bool) (e : verr) : list ev → Prop :=
| no_persistent : rest_failed p df re e [did (PoolIsPersistent p) (Err e)]
| no_active b : rest_failed p df re e [did (PoolIsPersistent p) (Ok b); did (PoolIsActive p) (Err e)]
| no_stop b : rest_failed p df re e
    [did (PoolIsPersistent p) (Ok b); did (PoolIsActive p) (Ok true); did (PoolDestroy p) (Err e)]
| no_folder active : df = true → rest_failed p df re e
    ([did (PoolIsPersistent p) (Ok true); did (PoolIsActive p) (Ok active)] ++ stopped p active ++
     [did (PoolDelete p) (Err e)])
| no_undefine active folder : folder_gone p df re folder → rest_failed p df re e
    ([did (PoolIsPersistent p) (Ok true); did (PoolIsActive p) (Ok active)] ++ stopped p active ++ folder ++
     [did (PoolUndefine p) (Err e)]).

(** Every removal that fails with [e]. *)
Inductive removal_failed (id : Uuid) (df re : bool) (e : verr) : list ev → Prop :=
| no_pool : removal_failed id df re e [did (LookupPoolByUuid id) (Err e)]
| no_files p work : df = true → files_failed p e work →
    removal_failed id df re e ([did (LookupPoolByUuid id) (Ok p)] ++ work)
| no_rest p files rest : files_gone p df files → rest_failed p df re e rest →
    removal_failed id df re e ([did (LookupPoolByUuid id) (Ok p)] ++ files ++ rest).

(** Every removal that succeeds. *)
Inductive removed_pool (id : Uuid) (df re : bool) : list ev → Prop :=
| persistent_gone p files active folder : files_gone p df files → folder_gone p df re folder →
    removed_pool id df re ([did (LookupPoolByUuid id) (Ok p)] ++ files ++
      [did (PoolIsPersistent p) (Ok true); did (PoolIsActive p) (Ok active)] ++ stopped p active ++ folder ++
      [did (PoolUndefine p) (Ok tt)])
| transient_gone p files active : files_gone p df files →
    removed_pool id df re ([did (LookupPoolByUuid id) (Ok p)] ++ files ++
      [did (PoolIsPersistent p) (Ok false); did (PoolIsActive p) (Ok active)] ++ stopped p active).

Lemma files_trace p (df : bool) tr r :
  vruns (if df then delete_pool_files p else mret (Ok tt)) tr r →
  match r with Ok _ => files_gone p df tr | Err e => df = true ∧ files_failed p e tr end.
Proof.
  destruct df; [|intros [-> ->]; constructor]. intros Hr%delete_pool_files_trace. destruct r as [[]|e].
  - destruct Hr as ([] & vs & ->); constructor.
  - split; [done|]. destruct Hr as [->|[->|(was & work & stop & -> & Hw & Hs)]]; [constructor..|].
    destruct was; [subst; rewrite app_nil_r; by constructor|]. destruct Hs as [s ->]. by constructor.
Qed.

Lemma folder_trace p (df re : bool) tr u :
  vruns (if df then call (PoolDelete p)
         else if re then _ ← call (PoolDelete p); mret (Ok tt) else mret (Ok tt)) tr (Ok u) → folder_gone p df re tr.
Proof. intros (x & ->)%remove_folder_trace. destruct u, df, re; constructor. Qed.

(** C27: the removal of a pool keeps its order and its promises, on every branch.
    Volumes are deleted only on request and only those that the pool lists, and the
    folder only on request.  A removal that succeeds deleted every listed volume if files
    were to go, stopped the pool if it ran, deleted the folder only after that, and
    undefined a persistent pool as the last call.  A removal that fails, with libvirt's
    error at the call that failed, leaves the definition in place.  If it fails while it
    lists or deletes the files, the folder stays, and a pool that was started for it is
    stopped again; after that nothing is undone, and a pool that was started runs on when
    libvirt does not say whether it is persistent or active (see
    [failed_removal_runs_on]). *)
Theorem remove_pool_order id delete_files remove_empty_folder tr r :
  vruns (remove_pool_on id delete_files remove_empty_folder) tr r →
  match r with
  | Ok _ => removed_pool id delete_files remove_empty_folder tr
  | Err e => removal_failed id delete_files remove_empty_folder e tr ∧
             remove_failed delete_files remove_empty_folder e tr
  end.
Proof.
  intros Hr. unfold remove_pool_on in Hr.
  apply vruns_try in Hr as [(e & -> & ->%vruns_call)|(t1 & t2 & p & -> & ->%vruns_call & Hr)].
  { split; [constructor|]. split_and!; [intros _ x v|intros _ _ x p|intros p|intros v]; set_solver. }
  apply vruns_try in Hr as [(e & -> & Hf)|(files & t4 & [] & -> & Hf & Hr)].
  { split; [apply files_trace in Hf as [-> Hf]; by apply no_files|].
    destruct delete_files; [by apply remove_fails_early|by destruct Hf]. }
  assert (Hfc : Forall (file_call p) files ∧ (delete_files = false → files = [])).
  { destruct delete_files; [|by destruct Hf as [-> _]]. split; [|done].
    apply delete_pool_files_trace in Hf as (was & vs & ->).
    repeat apply Forall_app_2; [apply run_pool_calls|apply file_work_calls|apply deleted_all_calls]. }
  destruct Hfc as [Hfc Hfn]. apply files_trace in Hf.
  assert (Hlate : ∀ e tl, rest_failed p delete_files remove_empty_folder e tl →
    Forall (late_call delete_files remove_empty_folder p) tl →
    removal_failed id delete_files remove_empty_folder e ([did (LookupPoolByUuid id) (Ok p)] ++ files ++ tl) ∧
    remove_failed delete_files remove_empty_folder e ([did (LookupPoolByUuid id) (Ok p)] ++ files ++ tl)).
  { intros e tl Hrest Htl. split; [by apply no_rest|by apply remove_fails_late]. }
  apply vruns_try in Hr as [(e & -> & ->%vruns_call)|(t5 & t6 & persistent & -> & ->%vruns_call & Hr)].
  { apply Hlate; [constructor|late_tac]. }
  apply vruns_try in Hr as [(e & -> & ->%vruns_call)|(t7 & t8 & active & -> & ->%vruns_call & Hr)].
  { apply Hlate; [constructor|late_tac]. }
  apply vruns_try in Hr as [(e & -> & Hr)|(stop & t10 & [] & -> & Hs & Hr)].
  { destruct active; [|by destruct Hr]. apply vruns_call in Hr as ->. apply Hlate; [constructor|late_tac]. }
  assert (stop = stopped p active) as ->.
  { destruct active; [by apply vruns_call in Hs as ->|by destruct Hs as [-> _]]. }
  destruct persistent.
  2: { destruct Hr as [-> ->]. rewrite app_nil_r. by apply transient_gone. }
  apply vruns_try in Hr as [(e & -> & Hr)|(folder & t12 & [] & -> & Hd & Hr)].
  { apply remove_folder_trace in Hr as [-> ->]. apply Hlate; [by apply no_folder|destruct active; late_tac]. }
  apply folder_trace in Hd. apply vruns_call in Hr as ->. destruct r as [[]|e]; [by apply persistent_gone|].
  apply Hlate; [by apply no_undefine|]. destruct Hd, active; late_tac.
Qed.

(** ** The users of a pool *)

Section users.
Context `{Ipnet} `{XmlTree}.

(** The disk is in the pool: a volume of the pool by name, or a path below the
    folder of the pool. *)
Definition in_pool (name : str) (x : PoolXml) (src : DiskSource) : Prop :=
  match src with
  | SrcVolume pool _ => pool = name
  | SrcFile path | SrcBlock path =>
      ∃ target, PoolXml_target_path x = Some target ∧
        trim_end_with (λ c, c =? 47) target ++ lit "/" `prefix_of` path
  end.

Lemma xml_in_pool_true name x xml :
  xml_in_pool name (pool_folder x) xml = true ↔
  ∃ disks disk, domain_disks xml = Ok disks ∧ disk ∈ disks ∧ in_pool name x (disk_source disk).
Proof.
  assert (Hd : ∀ disk, disk_in_pool name (pool_folder x) disk = true ↔ in_pool name x (disk_source disk)).
  { intros disk. unfold disk_in_pool, in_pool, pool_folder.
    destruct (disk_source disk); [|..|by rewrite bool_decide_eq_true];
      destruct (PoolXml_target_path x); simpl; rewrite ?starts_with_true; naive_solver. }
  unfold xml_in_pool, disks_or_none. rewrite existsb_exists. setoid_rewrite Hd.
  setoid_rewrite <- list_elem_of_In. destruct (domain_disks xml) as [disks|]; [naive_solver|].
  split; [by intros (? & ?%not_elem_of_nil & _)|naive_solver].
Qed.

Lemma pool_users_queries id : queries_only (pool_users id).
Proof.
  apply queries_try; [by apply queries_lv|]. intros p.
  apply queries_try; [by apply queries_lv|]. intros name.
  apply queries_try; [by apply queries_lv|]. intros doc.
  apply queries_try; [done|]. intros x.
  apply queries_try; [by apply queries_lv|]. intros ds.
  apply queries_bind; [|done]. apply gather_queries. intros d. apply user_with_queries.
Qed.

(** The users of a pool are exactly the VMs with a disk in it.  When libvirt's
    answers do not change during the scan, the answer lists, in order and once, the
    names of the VMs with a data disk in the saved or the live configuration that
    is a volume of the pool by name or a path below the folder of the pool. *)
Theorem pool_users_exact w id tr users :
  vruns (pool_users id) tr (Ok users) → consistent w tr →
  StronglySorted str_le users ∧ NoDup users ∧
  ∃ p name doc x ds, w (LookupPoolByUuid id) = Ok p ∧ w (PoolName p) = Ok name ∧
    w (PoolXmlDesc p) = Ok doc ∧ PoolXml_parse doc = Ok x ∧ w ListAllDomains = Ok ds ∧
    ∀ vm, vm ∈ users ↔ ∃ d xml disks disk, d ∈ ds ∧ vm_config w d vm xml ∧
      domain_disks xml = Ok disks ∧ disk ∈ disks ∧ in_pool name x (disk_source disk).
Proof.
  intros Hr Hc. pose proof (vruns_veval _ _ _ _ (pool_users_queries id) Hr Hc) as E. symmetry in E.
  apply veval_try in E as (p & Hp%veval_lv & E). apply veval_try in E as (name & Hn%veval_lv & E).
  apply veval_try in E as (doc & Hdoc%veval_lv & E). apply veval_try in E as (x & Hx%veval_xml_err & E).
  apply veval_try in E as (ds & Hds%veval_lv & E). rewrite veval_bind in E. injection E as <-.
  split_and!; [apply btree_set_sorted..|]. exists p, name, doc, x, ds. split_and!; [done..|].
  intros vm. rewrite elem_of_btree_set, gather_elem. setoid_rewrite elem_of_user_with.
  setoid_rewrite xml_in_pool_true. naive_solver.
Qed.
End users.

(** ** Witnesses *)

(** A host on which the start of a pool fails. *)
Definition mount_fails (n : nat) (c : vcall) : resp c :=
  match c with
  | PoolCreate _ => Err {| verr_code := Some (OtherError 38); verr_message := lit "mount" |}
  | PoolIsActive _ => Ok false
  | c => stopped_domain n c
  end.

Lemma create_pool_all_or_nothing_witness :
  let run := vrun (create_pool_on (lit "doc") true) mount_fails 0%nat in
  is_ok run.2 = false ∧ last run.1 = Some (did (PoolUndefine 2) (Ok tt)) ∧
  Forall (λ e, match projT1 e with PoolDelete _ | VolDelete _ => False | _ => True end) run.1.
Proof.
  intros run. split; [reflexivity|]. split; [reflexivity|].
  exact (proj1 (create_pool_all_or_nothing (lit "doc") true run.1 run.2 (vrun_vruns _ _ _))).
Defined.

(** A pool with two volumes. *)
Definition full_pool (n : nat) (c : vcall) : resp c :=
  match c with
  | PoolListVolumes _ => Ok [11; 12]
  | c => stopped_domain n c
  end.

Lemma remove_pool_order_witness :
  let run := vrun (remove_pool_on 5 true false) full_pool 0%nat in
  run.2 = Ok tt ∧ removed_pool 5 true false run.1.
Proof.
  intros run. split; [reflexivity|]. exact (remove_pool_order 5 true false run.1 (Ok tt) (vrun_vruns _ _ _)).
Defined.

(** A host that does not say whether a pool is persistent. *)
Definition forgetful (n : nat) (c : vcall) : resp c :=
  match c with
  | PoolIsPersistent _ => Err {| verr_code := Some (OtherError 38); verr_message := lit "timed out" |}
  | PoolIsActive _ => Ok false
  | c => full_pool n c
  end.

(** A removal that fails there leaves a pool running that was stopped before, and empty:
    after the start nothing stops it. *)
Lemma failed_removal_runs_on :
  let run := vrun (remove_pool_on 5 true false) forgetful 0%nat in
  is_ok run.2 = false ∧
  (@projT1 _ _ <$> run.1) =
    [LookupPoolByUuid 5; PoolIsActive 2; PoolCreate 2; PoolRefresh 2; PoolListVolumes 2; VolDelete 11; VolDelete 12;
     PoolIsPersistent 2].
Proof. vm_compute. by split. Qed.

(** A host that does not give the UUID of a new pool. *)
Definition nameless (n : nat) (c : vcall) : resp c :=
  match c with
  | PoolUuid _ => Err {| verr_code := Some (OtherError 38); verr_message := lit "timed out" |}
  | c => stopped_domain n c
  end.

(** The create answers with the error, and the pool stays defined and running. *)
Lemma failed_create_stays :
  let run := vrun (create_pool_on (lit "doc") true) nameless 0%nat in
  is_ok run.2 = false ∧ last run.1 = Some (did (PoolUuid 2) (nameless 0 (PoolUuid 2))) ∧
  did (PoolCreate 2) (Ok tt) ∈ run.1 ∧ ∀ p x, did (PoolUndefine p) x ∉ run.1.
Proof.
  split_and!; [reflexivity|reflexivity|by vm_compute; repeat constructor|].
  intros p x. vm_compute. intros Hin. repeat (apply elem_of_cons in Hin as [[=]|Hin]). by apply not_elem_of_nil in Hin.
Qed.

Definition pool_docs : XmlTree :=
  xml_ref [(lit "one", vm_with (lit "/srv/vms/a.img"));
           (lit "pool", MkElement (lit "pool") [] [NodeElement (MkElement (lit "target") []
              [NodeElement (MkElement (lit "path") [] [NodeText (lit "/srv/vms")])])])].

Definition pool_host (n : nat) (c : vcall) : resp c :=
  match c with
  | ListAllDomains => Ok [1]
  | DomainName _ => Ok (lit "web")
  | DomainXmlDesc _ _ => Ok (lit "one")
  | PoolXmlDesc _ => Ok (lit "pool")
  | c => stopped_domain n c
  end.

Lemma pool_host_steady n c : is_query c = true → pool_host n c = pool_host 0%nat c.
Proof. by destruct c. Qed.

Lemma pool_users_exact_witness :
  let run := vrun (@pool_users ipnet_ref pool_docs 5) pool_host 0%nat in
  run.2 = Ok [lit "web"] ∧ NoDup [lit "web"].
Proof.
  intros run. split; [reflexivity|].
  exact (proj1 (proj2 (@pool_users_exact ipnet_ref pool_docs (pool_host 0%nat) 5 run.1 [lit "web"]
    (vrun_vruns _ _ _) (vrun_consistent _ _ _ pool_host_steady)))).
Defined.
