(* ===== verification/VirtNetwork.v ===== *)
(** * Virtual networks (crates/lodger-virt/src/network.rs) *)

From S2P Require Import Prelude Text Net Validate Model Xml Virt VirtPower.

Definition NETWORK_AUTOSTART : Z := -1.

(** One entry of the folder that [bridges_in] reads: its name, [None] when it is
    not UTF-8, and whether it has a [bridge] folder. *)
Record dir_entry := { entry_name : option str; entry_has_bridge : bool }.

(** [bridges_in], on what [read_dir] returns: [None] when it fails, and per entry
    [None] when reading it fails. *)
Definition bridges_in (entries : option (list (option dir_entry))) : list str :=
  match entries with
  | None => []
  | Some entries =>
      merge_sort str_le (omap entry_name (filter (λ e, entry_has_bridge e = true) (omap id entries)))
  end.

Definition network_name_and_xml (n : net) : virt (result verr (str * str)) :=
  name ←? call (NetName n);
  xml ←? call (NetXmlDesc n);
  mret (Ok (name, xml)).

(** [xmls_of] of network.rs. *)
Definition network_xmls_of (networks : list net) : virt (result verr (list (str * str))) :=
  gather_try (λ n,
    found ← network_name_and_xml n;
    mret match found with
         | Ok found => Ok [found]
         | Err e => if bool_decide (verr_code e = Some NoNetwork) then Ok [] else Err e
         end) networks.

(** The failure arm of [create_network_on]. *)
Definition undo_create_network (n : net) : virt unit :=
  active ← call (NetIsActive n);
  _ ← (if (unwrap_or false active : bool) then _ ← call (NetDestroy n); mret tt else mret tt);
  _ ← call (NetUndefine n);
  mret tt.

(** [create_network_on], with the empty [before_start] of [create_network]. *)
Definition create_network_on (xml : str) (autostart : bool) : virt (result verr Uuid) :=
  n ←? call (DefineNetworkXml xml);
  started ← (_ ←? call (NetSetAutostart n autostart); call (NetCreate n));
  match started with
  | Ok _ => call (NetUuid n)
  | Err e => _ ← undo_create_network n; mret (Err e)
  end.

(** The closure of [delete_network]. *)
Definition delete_network_on (id : Uuid) : virt (result verr unit) :=
  n ←? call (LookupNetworkByUuid id);
  persistent ←? call (NetIsPersistent n);
  active ←? call (NetIsActive n);
  _ ←? (if (active : bool) then call (NetDestroy n) else mret (Ok tt));
  _ ←? (if (persistent : bool) then call (NetUndefine n) else mret (Ok tt));
  mret (Ok tt).

Section network.
Context `{Ipnet} `{XmlTree}.

Definition network_xmls : virt (result Error (list (str * str))) :=
  lv (networks ←? call ListAllNetworks; network_xmls_of networks).

Definition network_xml (id : Uuid) : virt (result Error str) :=
  lv (n ←? call (LookupNetworkByUuid id); call (NetXmlDesc n)).

Definition create_network (xml : str) (autostart : bool) : virt (result Error Uuid) :=
  lv (create_network_on xml autostart).

Definition set_network_active (id : Uuid) (active : bool) : virt (result Error unit) :=
  n ←? lv (call (LookupNetworkByUuid id));
  now ←? lv (call (NetIsActive n));
  match active, (now : bool) with
  | true, true => mret (Err (EWrongState (lit "the network is running already")))
  | false, false => mret (Err (EWrongState (lit "the network is not running")))
  | true, false => lv (call (NetCreate n))
  | false, true => lv (call (NetDestroy n))
  end.

Definition set_network_autostart (id : Uuid) (on : bool) : virt (result Error unit * list Event) :=
  then_send (lv (n ←? call (LookupNetworkByUuid id); call (NetSetAutostart n on)))
    (EvNetwork id NETWORK_AUTOSTART).

Definition delete_network (id : Uuid) : virt (result Error unit) := lv (delete_network_on id).

(** The test of [users_of] on one document. *)
Definition xml_on_network (name xml : str) : bool :=
  existsb (λ n, bool_decide (n = name)) (unwrap_or [] (domain_networks xml)).

(** [users_of] of network.rs. *)
Definition network_users_of (name : str) : virt (result Error (list str)) :=
  ds ←? lv (call ListAllDomains);
  users ← gather (user_with (xml_on_network name)) ds;
  mret (Ok (btree_set users)).

Definition network_users (id : Uuid) : virt (result Error (list str)) :=
  n ←? lv (call (LookupNetworkByUuid id));
  name ←? lv (call (NetName n));
  network_users_of name.

(** ** Properties *)

Lemma undo_create_network_trace n tr u :
  vruns (undo_create_network n) tr u →
  ∃ active stop gone, tr = [did (NetIsActive n) active] ++ stop ++ [did (NetUndefine n) gone] ∧
    (if (unwrap_or false active : bool) then ∃ s, stop = [did (NetDestroy n) s] else stop = []).
Proof.
  intros (t1 & t2 & active & -> & ->%vruns_call & Hr)%vruns_bind.
  apply vruns_bind in Hr as (t3 & t4 & [] & -> & H3 & (t5 & t6 & gone & -> & ->%vruns_call & [-> _])%vruns_bind).
  exists active, t3, gone. rewrite app_nil_r. split; [done|].
  destruct (unwrap_or false active); [|by destruct H3].
  apply vruns_bind in H3 as (t7 & t8 & s & -> & ->%vruns_call & [-> _]). by exists s.
Qed.

(** A network is created completely or not at all.  The create succeeds only
    after the define, the autostart and the start succeeded, in this order.  When
    the autostart or the start fails, the answer is that error, and the network is
    stopped if it runs and then undefined, as the last call. *)
Theorem create_network_all_or_nothing xml autostart tr r :
  vruns (create_network_on xml autostart) tr r →
  match r with
  | Ok id => ∃ n, tr = [did (DefineNetworkXml xml) (Ok n); did (NetSetAutostart n autostart) (Ok tt);
      did (NetCreate n) (Ok tt); did (NetUuid n) (Ok id)]
  | Err e =>
      tr = [did (DefineNetworkXml xml) (Err e)] ∨
      ∃ n, tr = [did (DefineNetworkXml xml) (Ok n); did (NetSetAutostart n autostart) (Ok tt);
        did (NetCreate n) (Ok tt); did (NetUuid n) (Err e)] ∨
      ∃ tried active stop gone,
        tr = [did (DefineNetworkXml xml) (Ok n)] ++ tried ++ [did (NetIsActive n) active] ++ stop ++
             [did (NetUndefine n) gone] ∧
        (tried = [did (NetSetAutostart n autostart) (Err e)] ∨
         tried = [did (NetSetAutostart n autostart) (Ok tt); did (NetCreate n) (Err e)]) ∧
        (if (unwrap_or false active : bool) then ∃ s, stop = [did (NetDestroy n) s] else stop = [])
  end.
Proof.
  intros Hr.
  apply vruns_try in Hr as [(e & -> & ->%vruns_call)|(t1 & t2 & n & -> & ->%vruns_call & Hr)]; [by left|].
  apply vruns_bind in Hr as (t3 & t4 & started & -> & Hs & Hr). destruct started as [[]|e].
  - apply vruns_call in Hr as ->.
    apply vruns_try in Hs as [(? & ? & _)|(t5 & t6 & [] & -> & ->%vruns_call & ->%vruns_call)]; [done|].
    destruct r as [id|e]; [by exists n|right; exists n; by left].
  - apply vruns_bind in Hr as (t5 & t6 & [] & -> & Hu & [-> ->]). rewrite app_nil_r.
    apply undo_create_network_trace in Hu as (active & stop & gone & -> & Hstop).
    right. exists n. right. exists t3, active, stop, gone. split_and!; [done| |done].
    apply vruns_try in Hs as [(? & [= ->] & ->%vruns_call)|(t5 & t6 & [] & -> & ->%vruns_call & ->%vruns_call)];
      auto.
Qed.

(** The delete of a network stops a running one before it removes the definition of
    a persistent one, and a transient one is not undefined. *)
Lemma delete_network_order id tr :
  vruns (delete_network_on id) tr (Ok tt) →
  ∃ n persistent active, tr = [did (LookupNetworkByUuid id) (Ok n);
      did (NetIsPersistent n) (Ok persistent); did (NetIsActive n) (Ok active)] ++
    (if active : bool then [did (NetDestroy n) (Ok tt)] else []) ++
    (if persistent : bool then [did (NetUndefine n) (Ok tt)] else []).
Proof.
  intros [(? & ? & _)|(t1 & t2 & n & -> & ->%vruns_call & Hr)]%vruns_try; [done|].
  apply vruns_try in Hr as [(? & ? & _)|(t3 & t4 & persistent & -> & ->%vruns_call & Hr)]; [done|].
  apply vruns_try in Hr as [(? & ? & _)|(t5 & t6 & active & -> & ->%vruns_call & Hr)]; [done|].
  apply vruns_try in Hr as [(? & ? & _)|(t7 & t8 & [] & -> & Hs & Hr)]; [done|].
  apply vruns_try in Hr as [(? & ? & _)|(t9 & t10 & [] & -> & Hu & [-> _])]; [done|].
  exists n, persistent, active. rewrite app_nil_r.
  assert (t7 = if active then [did (NetDestroy n) (Ok tt)] else []) as ->
    by (destruct active; [by apply vruns_call in Hs as ->|by destruct Hs]).
  by destruct persistent; [apply vruns_call in Hu as ->|destruct Hu as [-> _]].
Qed.

Lemma network_users_queries id : queries_only (network_users id).
Proof.
  apply queries_try; [by apply queries_lv|]. intros n.
  apply queries_try; [by apply queries_lv|]. intros name.
  apply queries_try; [by apply queries_lv|]. intros ds.
  apply queries_bind; [|done]. apply gather_queries. intros d. apply user_with_queries.
Qed.

Lemma xml_on_network_true name xml :
  xml_on_network name xml = true ↔ ∃ names, domain_networks xml = Ok names ∧ name ∈ names.
Proof.
  unfold xml_on_network. rewrite existsb_exists. setoid_rewrite bool_decide_eq_true.
  setoid_rewrite <- list_elem_of_In. destruct (domain_networks xml) as [names|]; simpl; [naive_solver|].
  split; [by intros (? & ?%not_elem_of_nil & _)|naive_solver].
Qed.

(** The users of a network are exactly the VMs with a NIC on it.  When libvirt's
    answers do not change during the scan, the answer lists, in order and once, the
    names of the VMs whose saved or live configuration has a NIC on the network. *)
Theorem network_users_exact w id tr users :
  vruns (network_users id) tr (Ok users) → consistent w tr →
  StronglySorted str_le users ∧ NoDup users ∧
  ∃ n name ds, w (LookupNetworkByUuid id) = Ok n ∧ w (NetName n) = Ok name ∧
    w ListAllDomains = Ok ds ∧
    ∀ vm, vm ∈ users ↔ ∃ d xml names, d ∈ ds ∧ vm_config w d vm xml ∧
      domain_networks xml = Ok names ∧ name ∈ names.
Proof.
  intros Hr Hc. pose proof (vruns_veval _ _ _ _ (network_users_queries id) Hr Hc) as E. symmetry in E.
  apply veval_try in E as (n & Hp%veval_lv & E). apply veval_try in E as (name & Hn%veval_lv & E).
  apply veval_try in E as (ds & Hds%veval_lv & E). rewrite veval_bind in E. injection E as <-.
  split_and!; [apply btree_set_sorted..|]. exists n, name, ds. split_and!; [done..|].
  intros vm. rewrite elem_of_btree_set, gather_elem. setoid_rewrite elem_of_user_with.
  setoid_rewrite xml_on_network_true. naive_solver.
Qed.
End network.

(** ** Witnesses *)

Definition bridge_busy (n : nat) (c : vcall) : resp c :=
  match c with
  | NetCreate _ => Err {| verr_code := Some (OtherError 38); verr_message := lit "bridge in use" |}
  | NetIsActive _ => Ok false
  | c => stopped_domain n c
  end.

Lemma create_network_all_or_nothing_witness :
  ∃ n tried active stop gone,
    (vrun (create_network_on (lit "doc") true) bridge_busy 0%nat).1 =
      [did (DefineNetworkXml (lit "doc")) (Ok n)] ++ tried ++ [did (NetIsActive n) active] ++ stop ++
      [did (NetUndefine n) gone].
Proof.
  destruct (create_network_all_or_nothing (lit "doc") true
    (vrun (create_network_on (lit "doc") true) bridge_busy 0%nat).1 _ (vrun_vruns _ _ _))
    as [E|(n & [E|(tried & active & stop & gone & E & _)])];
    [apply (f_equal length) in E; vm_compute in E; discriminate E..|].
  by exists n, tried, active, stop, gone.
Defined.

Definition network_host (n : nat) (c : vcall) : resp c :=
  match c with
  | ListAllDomains => Ok [1]
  | DomainName _ => Ok (lit "web")
  | DomainXmlDesc _ _ => Ok (lit "doc")
  | NetName _ => Ok (lit "lan")
  | c => stopped_domain n c
  end.

Lemma network_host_steady n c : is_query c = true → network_host n c = network_host 0%nat c.
Proof. by destruct c. Qed.

Lemma network_users_exact_witness :
  let run := vrun (@network_users ipnet_ref (xml_ref [(lit "doc", sample_domain)]) 5) network_host 0%nat in
  run.2 = Ok [lit "web"] ∧ NoDup [lit "web"].
Proof.
  intros run. split; [reflexivity|].
  exact (proj1 (proj2 (@network_users_exact ipnet_ref (xml_ref [(lit "doc", sample_domain)])
    (network_host 0%nat) 5 run.1 [lit "web"]
    (vrun_vruns _ _ _) (vrun_consistent _ _ _ network_host_steady)))).
Defined.
