(* ===== verification/Inventory.v ===== *)
(** * The in-memory inventory (crates/lodger-virt/src/cache.rs)

    Every VM, pool and network that libvirt knows, the full load and the refresh
    of the one object that an event names. *)

From S2P Require Import Prelude Text Net Validate Model Xml Virt VirtPower.

Record Inventory := {
  inv_vms : gmap Uuid Vm;
  inv_pools : gmap Uuid Pool;
  inv_networks : gmap Uuid Network
}.

Definition Inventory_default : Inventory := {| inv_vms := ∅; inv_pools := ∅; inv_networks := ∅ |}.

(** The new state of one object, [None] when it is gone. *)
Inductive Refresh :=
| RVm (id : Uuid) (vm : option Vm)
| RPool (id : Uuid) (pool : option Pool)
| RNetwork (id : Uuid) (net : option Network).

Definition put {T} (id : Uuid) (t : option T) (m : gmap Uuid T) : gmap Uuid T :=
  match t with Some t => <[id := t]> m | None => delete id m end.

Definition Inventory_apply (inv : Inventory) (refresh : Refresh) : Inventory :=
  match refresh with
  | RVm id vm =>
      {| inv_vms := put id vm (inv_vms inv); inv_pools := inv_pools inv; inv_networks := inv_networks inv |}
  | RPool id pool =>
      {| inv_vms := inv_vms inv; inv_pools := put id pool (inv_pools inv); inv_networks := inv_networks inv |}
  | RNetwork id net =>
      {| inv_vms := inv_vms inv; inv_pools := inv_pools inv; inv_networks := put id net (inv_networks inv) |}
  end.

Definition gone_is_none {T} (r : result verr T) : result verr (option T) :=
  match r with
  | Ok value => Ok (Some value)
  | Err e =>
      match verr_code e with
      | Some (NoDomain | NoStoragePool | NoNetwork) => Ok None
      | _ => Err e
      end
  end.

(** One of the three loops of [load]. *)
Fixpoint load_all {T} (of_ : Z → virt (result verr T)) (uuid : T → Uuid) (handles : list Z)
    (m : gmap Uuid T) : virt (result verr (gmap Uuid T)) :=
  match handles with
  | [] => mret (Ok m)
  | h :: handles =>
      r ← of_ h;
      found ←? mret (gone_is_none r);
      load_all of_ uuid handles match found with Some t => <[uuid t := t]> m | None => m end
  end.

Section cache.
Context `{XmlTree}.

Definition vm_of (d : domain) : virt (result verr Vm) :=
  info ←? call (DomainInfo d);
  xml ←? call (DomainXmlDesc d 0);
  let has_vnc := unwrap_or false (domain_has_vnc xml) in
  uuid ←? call (DomainUuid d);
  name ←? call (DomainName d);
  persistent ←? call (DomainIsPersistent d);
  autostart ←? call (DomainAutostart d);
  mret (Ok {| vm_uuid := uuid; vm_name := name; vm_state := VmState_from_code (info_state info);
              vm_vcpus := info_nr_virt_cpu info; vm_memory_kib := info_memory info;
              vm_persistent := persistent; vm_autostart := autostart; vm_has_vnc := has_vnc |}).

Definition pool_of (p : pool) : virt (result verr Pool) :=
  info ←? call (PoolInfo p);
  uuid ←? call (PoolUuid p);
  name ←? call (PoolName p);
  persistent ←? call (PoolIsPersistent p);
  autostart ←? call (PoolAutostart p);
  mret (Ok {| pool_uuid := uuid; pool_name := name; pool_state := PoolState_from_code (pinfo_state info);
              pool_capacity_bytes := pinfo_capacity info; pool_allocation_bytes := pinfo_allocation info;
              pool_available_bytes := pinfo_available info;
              pool_persistent := persistent; pool_autostart := autostart |}).

Definition network_of (n : net) : virt (result verr Network) :=
  uuid ←? call (NetUuid n);
  name ←? call (NetName n);
  active ←? call (NetIsActive n);
  persistent ←? call (NetIsPersistent n);
  autostart ←? call (NetAutostart n);
  bridge ← call (NetBridgeName n);
  mret (Ok {| network_uuid := uuid; network_name := name; network_active := active;
              network_persistent := persistent; network_autostart := autostart;
              network_bridge := ok bridge |}).

Definition load : virt (result verr Inventory) :=
  ds ←? call ListAllDomains;
  vms ←? load_all vm_of vm_uuid ds ∅;
  ps ←? call ListAllPools;
  pools ←? load_all pool_of pool_uuid ps ∅;
  ns ←? call ListAllNetworks;
  networks ←? load_all network_of network_uuid ns ∅;
  mret (Ok {| inv_vms := vms; inv_pools := pools; inv_networks := networks |}).

Definition refresh (event : Event) : virt (result verr (option Refresh)) :=
  match event with
  | EvDomain id _ =>
      r ← (d ←? call (LookupDomainByUuid id); vm_of d);
      vm ←? mret (gone_is_none r);
      mret (Ok (Some (RVm id vm)))
  | EvPool id _ =>
      r ← (p ←? call (LookupPoolByUuid id); pool_of p);
      pool ←? mret (gone_is_none r);
      mret (Ok (Some (RPool id pool)))
  | EvNetwork id _ =>
      r ← (n ←? call (LookupNetworkByUuid id); network_of n);
      net ←? mret (gone_is_none r);
      mret (Ok (Some (RNetwork id net)))
  | EvClosed _ => mret (Ok None)
  end.
End cache.

(** ** The inventory as a map from objects to their state *)

Inductive key := KVm (id : Uuid) | KPool (id : Uuid) | KNetwork (id : Uuid).

#[export] Instance key_eq_dec : EqDecision key.
Proof. solve_decision. Defined.

Definition key_of_refresh (r : Refresh) : key :=
  match r with RVm id _ => KVm id | RPool id _ => KPool id | RNetwork id _ => KNetwork id end.

(** The object that an event names. *)
Definition event_key (e : Event) : option key :=
  match e with
  | EvDomain id _ => Some (KVm id)
  | EvPool id _ => Some (KPool id)
  | EvNetwork id _ => Some (KNetwork id)
  | EvClosed _ => None
  end.

Definition current (inv : Inventory) (k : key) : Refresh :=
  match k with
  | KVm id => RVm id (inv_vms inv !! id)
  | KPool id => RPool id (inv_pools inv !! id)
  | KNetwork id => RNetwork id (inv_networks inv !! id)
  end.

Lemma put_lookup {T} id (t : option T) m : put id t m !! id = t.
Proof. destruct t; simpl; [apply lookup_insert_eq|apply lookup_delete_eq]. Qed.

Lemma put_lookup_ne {T} id id' (t : option T) m : id ≠ id' → put id t m !! id' = m !! id'.
Proof. intros Hne. destruct t; simpl; [by apply lookup_insert_ne|by apply lookup_delete_ne]. Qed.

Lemma current_key inv k : key_of_refresh (current inv k) = k.
Proof. by destruct k. Qed.

Lemma apply_same inv r : current (Inventory_apply inv r) (key_of_refresh r) = r.
Proof. destruct r; simpl; by rewrite put_lookup. Qed.

Lemma apply_other inv r k :
  k ≠ key_of_refresh r → current (Inventory_apply inv r) k = current inv k.
Proof. destruct r, k; simpl; intros; try done; rewrite put_lookup_ne; congruence. Qed.

Lemma inventory_ext inv1 inv2 : (∀ k, current inv1 k = current inv2 k) → inv1 = inv2.
Proof.
  intros Hk. destruct inv1 as [v1 p1 n1], inv2 as [v2 p2 n2]. f_equal; apply map_eq; intros id.
  - specialize (Hk (KVm id)). simpl in Hk. congruence.
  - specialize (Hk (KPool id)). simpl in Hk. congruence.
  - specialize (Hk (KNetwork id)). simpl in Hk. congruence.
Qed.

(** ** The load and the refresh *)

Section agree.
Context `{XmlTree}.

Lemma load_all_sound {T} w (of_ : Z → virt (result verr T)) uuid l m m' id t :
  veval w (load_all of_ uuid l m) = Ok m' → m' !! id = Some t →
  m !! id = Some t ∨ ∃ h, h ∈ l ∧ veval w (of_ h) = Ok t ∧ uuid t = id.
Proof.
  revert m. induction l as [|h l IH]; intros m E Hl; cbn [load_all] in E; [injection E as ->; by left|].
  rewrite veval_bind in E. apply veval_try in E as (found & Hf & E).
  cbn [mret virt_ret veval] in Hf. destruct (IH _ E Hl) as [Hm|(h' & Hh & Ho & Hu)].
  - destruct (veval w (of_ h)) as [t0|e] eqn:Eo.
    + injection Hf as <-. apply lookup_insert_Some in Hm as [[<- <-]|[_ Hm]]; [|by left].
      right. exists h. split_and!; [apply list_elem_of_here|done..].
    + destruct found as [t0|]; [|by left]. exfalso. cbn [gone_is_none] in Hf.
      by destruct (verr_code e) as [[]|].
  - right. exists h'. split_and!; [by apply list_elem_of_further|done..].
Qed.

Lemma load_all_complete {T} w (of_ : Z → virt (result verr T)) uuid l m m' :
  veval w (load_all of_ uuid l m) = Ok m' →
  dom m ⊆ dom m' ∧
  (∀ h, h ∈ l → is_ok (gone_is_none (veval w (of_ h))) = true) ∧
  (∀ h t, h ∈ l → veval w (of_ h) = Ok t → uuid t ∈ dom m').
Proof.
  revert m. induction l as [|h l IH]; intros m E; cbn [load_all] in E.
  - injection E as ->. split_and!; [done|intros h|intros h t]; by intros ?%not_elem_of_nil.
  - rewrite veval_bind in E. apply veval_try in E as (found & Hf & E).
    cbn [mret virt_ret veval] in Hf. destruct (IH _ E) as (Hd & Hok & Hc). split_and!.
    + destruct found; [rewrite dom_insert_L in Hd|]; set_solver.
    + intros h' [->|Hh]%elem_of_cons; [by rewrite Hf|by apply Hok].
    + intros h' t [->|Hh]%elem_of_cons Ho; [|by eapply Hc].
      rewrite Ho in Hf. injection Hf as <-. rewrite dom_insert_L in Hd. set_solver.
Qed.

(** What libvirt promises of one kind of object: a lookup by UUID finds exactly
    the listed object with that UUID, and fails with the kind's own code. *)
Definition coherent (listed : result verr (list Z)) (lookup : Uuid → result verr Z)
    (uuid_of : Z → result verr Uuid) : Prop :=
  ∀ handles, listed = Ok handles →
    (∀ id h, lookup id = Ok h ↔ h ∈ handles ∧ uuid_of h = Ok id) ∧
    (∀ id e, lookup id = Err e →
      verr_code e = Some NoDomain ∨ verr_code e = Some NoStoragePool ∨ verr_code e = Some NoNetwork).

Lemma load_all_agrees {T} w (of_ : Z → virt (result verr T)) uuid handles m listed lookup uuid_of id :
  coherent listed lookup uuid_of → listed = Ok handles →
  (∀ h t, veval w (of_ h) = Ok t → uuid_of h = Ok (uuid t)) →
  veval w (load_all of_ uuid handles ∅) = Ok m →
  gone_is_none (match lookup id with Ok h => veval w (of_ h) | Err e => Err e end) = Ok (m !! id).
Proof.
  intros Hco Hl Hu Hm. destruct (Hco handles Hl) as [Hlook Hgone].
  destruct (load_all_complete _ _ _ _ _ _ Hm) as (_ & Hok & Hdom).
  destruct (lookup id) as [h|e] eqn:El.
  - destruct (proj1 (Hlook id h) El) as [Hh Huh]. specialize (Hok h Hh).
    assert (Hsame : ∀ t, m !! id = Some t → veval w (of_ h) = Ok t).
    { intros t Ht. destruct (load_all_sound _ _ _ _ _ _ _ _ Hm Ht) as [?|(h' & Hh' & Ho & Hid)]; [done|].
      pose proof (Hu _ _ Ho) as Hu'. rewrite Hid in Hu'.
      assert (lookup id = Ok h') by (by apply Hlook). congruence. }
    destruct (veval w (of_ h)) as [t|e] eqn:Eo; cbn [gone_is_none] in *.
    + pose proof (Hu _ _ Eo) as Hu'. rewrite Huh in Hu'. injection Hu' as Hid.
      pose proof (Hdom h t Hh Eo) as Hin. rewrite <- Hid in Hin.
      apply elem_of_dom in Hin as [t' Ht']. pose proof (Hsame _ Ht') as E. injection E as ->. by rewrite Ht'.
    + destruct (m !! id) as [t|] eqn:Et; [by specialize (Hsame t eq_refl)|].
      by destruct (verr_code e) as [[]|].
  - assert (m !! id = None) as ->.
    { destruct (m !! id) as [t|] eqn:Et; [|done]. exfalso.
      destruct (load_all_sound _ _ _ _ _ _ _ _ Hm Et) as [?|(h' & Hh' & Ho & Hid)]; [done|].
      pose proof (Hu _ _ Ho) as Hu'. rewrite Hid in Hu'.
      assert (lookup id = Ok h') by (by apply Hlook). congruence. }
    cbn [gone_is_none]. by destruct (Hgone _ _ El) as [->|[->| ->]].
Qed.

Lemma vm_of_uuid w d vm : veval w (vm_of d) = Ok vm → w (DomainUuid d) = Ok (vm_uuid vm).
Proof.
  intros (info & _ & E)%veval_try. apply veval_try in E as (xml & _ & E). cbv zeta in E.
  apply veval_try in E as (uuid & Hu & E). apply veval_try in E as (name & _ & E).
  apply veval_try in E as (p & _ & E). by apply veval_try in E as (a & _ & [= <-]).
Qed.

Lemma pool_of_uuid w p pl : veval w (pool_of p) = Ok pl → w (PoolUuid p) = Ok (pool_uuid pl).
Proof.
  intros (info & _ & E)%veval_try. apply veval_try in E as (uuid & Hu & E).
  apply veval_try in E as (name & _ & E). apply veval_try in E as (pe & _ & E).
  by apply veval_try in E as (a & _ & [= <-]).
Qed.

Lemma network_of_uuid w n net : veval w (network_of n) = Ok net → w (NetUuid n) = Ok (network_uuid net).
Proof.
  intros (uuid & Hu & E)%veval_try. apply veval_try in E as (name & _ & E).
  apply veval_try in E as (a & _ & E). apply veval_try in E as (p & _ & E).
  apply veval_try in E as (au & _ & E). rewrite veval_bind in E. by injection E as <-.
Qed.

(** A host whose lists and lookups fit together. *)
Definition host_coherent (w : ∀ c, resp c) : Prop :=
  coherent (w ListAllDomains) (λ id, w (LookupDomainByUuid id)) (λ d, w (DomainUuid d)) ∧
  coherent (w ListAllPools) (λ id, w (LookupPoolByUuid id)) (λ p, w (PoolUuid p)) ∧
  coherent (w ListAllNetworks) (λ id, w (LookupNetworkByUuid id)) (λ n, w (NetUuid n)).

(** A refresh and a full load see the same host.  On a libvirt that does not
    change and whose lookups fit its lists, the refresh of any object that an event
    names, present or gone, reads exactly what the full load holds of it, and never
    fails when the load succeeds. *)
Theorem load_refresh_agree w inv event k :
  host_coherent w → veval w load = Ok inv → event_key event = Some k →
  veval w (refresh event) = Ok (Some (current inv k)).
Proof.
  intros (Hd & Hp & Hn) E He. unfold load in E.
  apply veval_try in E as (ds & Hds & E). apply veval_try in E as (vms & Hvms & E).
  apply veval_try in E as (ps & Hps & E). apply veval_try in E as (pools & Hpools & E).
  apply veval_try in E as (ns & Hns & E). apply veval_try in E as (nets & Hnets & [= <-]).
  cbn [call veval] in Hds, Hps, Hns.
  assert (Hlk : ∀ {T} (m : virt (result verr Z)) (f : Z → virt (result verr T)),
    veval w (try m f) = match veval w m with Ok h => veval w (f h) | Err e => Err e end).
  { intros T m f. unfold try. rewrite veval_bind. by destruct (veval w m). }
  destruct event as [id ch|id ev|id ev|reason]; simpl in He; [..|done]; injection He as <-;
    unfold refresh; rewrite veval_bind; cbn [mret virt_ret]; unfold try at 1; rewrite veval_bind; cbn [veval].
  - rewrite Hlk. cbn [call veval].
    by rewrite (load_all_agrees w vm_of vm_uuid ds vms _ _ _ id Hd Hds (vm_of_uuid w) Hvms).
  - rewrite Hlk. cbn [call veval].
    by rewrite (load_all_agrees w network_of network_uuid ns nets _ _ _ id Hn Hns (network_of_uuid w) Hnets).
  - rewrite Hlk. cbn [call veval].
    by rewrite (load_all_agrees w pool_of pool_uuid ps pools _ _ _ id Hp Hps (pool_of_uuid w) Hpools).
Qed.
End agree.

(** ** Witness: a host with one domain *)

Definition one_vm (n : nat) (c : vcall) : resp c :=
  match c with
  | ListAllDomains => Ok [1]
  | DomainUuid _ => Ok 7
  | LookupDomainByUuid id =>
      if id =? 7 then Ok 1 else Err {| verr_code := Some NoDomain; verr_message := [] |}
  | LookupPoolByUuid _ => Err {| verr_code := Some NoStoragePool; verr_message := [] |}
  | LookupNetworkByUuid _ => Err {| verr_code := Some NoNetwork; verr_message := [] |}
  | c => stopped_domain n c
  end.

Lemma one_vm_coherent : host_coherent (one_vm 0%nat).
Proof.
  split_and!.
  - intros handles [= <-]. split; simpl.
    + intros id h. rewrite list_elem_of_singleton. destruct (Z.eqb_spec id 7); naive_solver.
    + intros id e. destruct (Z.eqb_spec id 7); [done|]. intros [= <-]. auto.
  - intros handles [= <-]. split; simpl; [|by intros id e [= <-]; auto]. set_solver.
  - intros handles [= <-]. split; simpl; [|by intros id e [= <-]; auto]. set_solver.
Qed.

Lemma load_refresh_agree_witness :
  ∃ inv, veval (one_vm 0%nat) (@load (xml_ref [])) = Ok inv ∧
  veval (one_vm 0%nat) (@refresh (xml_ref []) (EvDomain 7 Metadata)) = Ok (Some (current inv (KVm 7))) ∧
  veval (one_vm 0%nat) (@refresh (xml_ref []) (EvPool 9 1)) = Ok (Some (current inv (KPool 9))).
Proof.
  eexists. split; [reflexivity|]. split.
  - exact (@load_refresh_agree (xml_ref []) (one_vm 0%nat) _ (EvDomain 7 Metadata) (KVm 7)
      one_vm_coherent eq_refl eq_refl).
  - exact (@load_refresh_agree (xml_ref []) (one_vm 0%nat) _ (EvPool 9 1) (KPool 9)
      one_vm_coherent eq_refl eq_refl).
Defined.
