(* ===== verification/Supervisor.v ===== *)
(** * The supervisor (crates/lodger-virt/src/supervisor.rs)

    The background task that keeps the inventory current, as a transition system:
    the shared state of the task, the place where the task waits, and its
    surroundings, which are the state of the host, the events that libvirt has not
    delivered yet and the bounded queue of the subscription to the hub.

    A read takes time.  A load or a refresh sees the host as it is for the objects
    that do not change while it runs; for an object that does change, it may store
    anything.

    libvirt has no event for some changes (the autostart of an object, the volumes of
    a pool).  The model keeps the objects that changed in silence since the task last
    began to read them; Lodger's own event after such a change makes it read again. *)

From stdpp Require Import relations.
From S2P Require Import Prelude Text Net Validate Model Xml Virt VirtPower Inventory.

Definition HUB_CAPACITY : nat := 1024.

Inductive ConnState :=
| Connecting
| Connected
| Disconnected (error : str).

(** [close_reason]. *)
Definition close_reason (code : Z) : str :=
  let why := match code with
             | 0 => lit "an error"
             | 1 => lit "the end of the stream"
             | 2 => lit "a keepalive timeout"
             | 3 => lit "a request from the client"
             | _ => lit "an unknown reason"
             end in
  lit "libvirt closed the connection because of " ++ why.

(** [Shared]: [virt] holds a connection or not, and the events that were passed on
    are kept in order. *)
Record Shared := {
  sh_inventory : Inventory;
  sh_virt : bool;
  sh_state : ConnState;
  sh_events : list Event;
  sh_reloads : Z
}.

(** [start_with]. *)
Definition Shared_new : Shared :=
  {| sh_inventory := Inventory_default; sh_virt := false; sh_state := Connecting;
     sh_events := []; sh_reloads := 0 |}.

(** Where the task waits: in [Virt::open], in the load of [reload] (the first one
    of the session or a later one), in [rx.recv()], in the refresh of an event, or
    in the sleep before the next attempt.  A read carries what changed since it
    started. *)
Inductive Phase :=
| Opening
| Loading (first : bool) (changed : list key)
| Idle
| Reading (event : Event) (changed : bool)
| Waiting.

Record Sys := {
  shared : Shared;
  phase : Phase;
  queue : list Event;
  lagged : bool;
  wire : list Event;
  truth : Inventory;
  (** what changed without an event since the task last began to read it *)
  silent : list key
}.

(** ** The task *)

(** [supervise] after a session: the receiver and the connections are dropped. *)
Definition end_session (error : str) (s : Sys) : Sys :=
  {| shared := {| sh_inventory := sh_inventory (shared s); sh_virt := false;
                  sh_state := Disconnected error; sh_events := sh_events (shared s);
                  sh_reloads := sh_reloads (shared s) |};
     phase := Waiting; queue := []; lagged := false; wire := []; truth := truth s; silent := silent s |}.

(** The end of the sleep. *)
Definition retry (s : Sys) : Sys :=
  {| shared := {| sh_inventory := sh_inventory (shared s); sh_virt := sh_virt (shared s);
                  sh_state := Connecting; sh_events := sh_events (shared s);
                  sh_reloads := sh_reloads (shared s) |};
     phase := Opening; queue := queue s; lagged := lagged s; wire := wire s; truth := truth s;
     silent := silent s |}.

(** [Virt::open] and [subscribe]: a new hub, and a load. *)
Definition open_done (s : Sys) : Sys :=
  {| shared := shared s; phase := Loading true []; queue := []; lagged := false; wire := [];
     truth := truth s; silent := [] |}.

(** [reload], and after the first one of a session the connection is shown. *)
Definition load_done (first : bool) (inv : Inventory) (s : Sys) : Sys :=
  {| shared := {| sh_inventory := inv;
                  sh_virt := if first then true else sh_virt (shared s);
                  sh_state := if first then Connected else sh_state (shared s);
                  sh_events := sh_events (shared s);
                  sh_reloads := sh_reloads (shared s) + 1 |};
     phase := Idle; queue := queue s; lagged := lagged s; wire := wire s; truth := truth s;
     silent := silent s |}.

(** [rx.recv()] returns an event: the task begins to read the object that it names. *)
Definition receive (event : Event) (rest : list Event) (s : Sys) : Sys :=
  {| shared := shared s; phase := Reading event false; queue := rest; lagged := lagged s;
     wire := wire s; truth := truth s; silent := filter (λ k, event_key event ≠ Some k) (silent s) |}.

(** [rx.recv()] returns [Lagged]: the rest of the queue stays. *)
Definition receive_lagged (s : Sys) : Sys :=
  {| shared := shared s; phase := Loading false []; queue := queue s; lagged := false;
     wire := wire s; truth := truth s; silent := [] |}.

(** The refresh is stored, then the event is passed on. *)
Definition refresh_done (event : Event) (r : Refresh) (s : Sys) : Sys :=
  {| shared := {| sh_inventory := Inventory_apply (sh_inventory (shared s)) r;
                  sh_virt := sh_virt (shared s); sh_state := sh_state (shared s);
                  sh_events := sh_events (shared s) ++ [event];
                  sh_reloads := sh_reloads (shared s) |};
     phase := Idle; queue := queue s; lagged := lagged s; wire := wire s; truth := truth s;
     silent := silent s |}.

(** ** The surroundings *)

(** [hub.send]: a full queue loses its oldest event. *)
Definition hub_send (event : Event) (s : Sys) : Sys :=
  if bool_decide (length (queue s) < HUB_CAPACITY)%nat
  then {| shared := shared s; phase := phase s; queue := queue s ++ [event]; lagged := lagged s;
          wire := wire s; truth := truth s; silent := silent s |}
  else {| shared := shared s; phase := phase s; queue := tail (queue s) ++ [event]; lagged := true;
          wire := wire s; truth := truth s; silent := silent s |}.

(** libvirt delivers the oldest event that it has sent, and the callback passes it to
    the hub. *)
Definition deliver (event : Event) (rest : list Event) (s : Sys) : Sys :=
  hub_send event
    {| shared := shared s; phase := phase s; queue := queue s; lagged := lagged s; wire := rest;
       truth := truth s; silent := silent s |}.

(** The callbacks are registered during a session. *)
Definition subscribed (p : Phase) : bool :=
  match p with Opening | Waiting => false | _ => true end.

(** A read in progress overlaps the change of an object. *)
Definition touch (k : key) (p : Phase) : Phase :=
  match p with
  | Loading first changed => Loading first (k :: changed)
  | Reading event changed => Reading event (changed || bool_decide (event_key event = Some k))
  | p => p
  end.

(** An object of the host changes, and libvirt sends an event that names it. *)
Definition host_change (r : Refresh) (event : Event) (s : Sys) : Sys :=
  {| shared := shared s; phase := touch (key_of_refresh r) (phase s); queue := queue s;
     lagged := lagged s; wire := if subscribed (phase s) then wire s ++ [event] else wire s;
     truth := Inventory_apply (truth s) r; silent := silent s |}.

(** An object of the host changes, and libvirt has no event for the change. *)
Definition silent_change (r : Refresh) (s : Sys) : Sys :=
  {| shared := shared s; phase := touch (key_of_refresh r) (phase s); queue := queue s;
     lagged := lagged s; wire := wire s; truth := Inventory_apply (truth s) r;
     silent := key_of_refresh r :: silent s |}.

(** libvirt sends an event for an object that did not change. *)
Definition host_event (event : Event) (s : Sys) : Sys :=
  {| shared := shared s; phase := phase s; queue := queue s; lagged := lagged s;
     wire := if subscribed (phase s) then wire s ++ [event] else wire s; truth := truth s;
     silent := silent s |}.

(** Lodger sends its own event to the hub of the session, after a change for which
    libvirt has none. *)
Definition own_event (event : Event) (s : Sys) : Sys :=
  if subscribed (phase s) then hub_send event s else s.

Definition host_close (reason : Z) (s : Sys) : Sys :=
  {| shared := shared s; phase := phase s; queue := queue s; lagged := lagged s;
     wire := if subscribed (phase s) then wire s ++ [EvClosed reason] else wire s; truth := truth s;
     silent := silent s |}.

(** ** Steps *)

(** The host, and the requests of the users that change it. *)
Inductive host_step : Sys → Sys → Prop :=
| step_change r event s :
    event_key event = Some (key_of_refresh r) → host_step s (host_change r event s)
| step_silent r s : host_step s (silent_change r s)
| step_host_event event k s : event_key event = Some k → host_step s (host_event event s)
| step_own_event event k s : event_key event = Some k → host_step s (own_event event s)
| step_close reason s : host_step s (host_close reason s).

(** The task and the hub at work. *)
Inductive work_step : Sys → Sys → Prop :=
| step_deliver event rest s : wire s = event :: rest → work_step s (deliver event rest s)
| step_open s : phase s = Opening → work_step s (open_done s)
| step_load first changed inv s :
    phase s = Loading first changed →
    (∀ k, k ∉ changed → current inv k = current (truth s) k) →
    work_step s (load_done first inv s)
| step_receive event rest k s :
    phase s = Idle → lagged s = false → queue s = event :: rest → event_key event = Some k →
    work_step s (receive event rest s)
| step_receive_closed reason rest s :
    phase s = Idle → lagged s = false → queue s = EvClosed reason :: rest →
    work_step s (end_session (close_reason reason) s)
| step_receive_lagged s :
    phase s = Idle → lagged s = true → work_step s (receive_lagged s)
| step_refresh event changed r s :
    phase s = Reading event changed → event_key event = Some (key_of_refresh r) →
    (changed = false → r = current (truth s) (key_of_refresh r)) →
    work_step s (refresh_done event r s)
| step_retry s : phase s = Waiting → work_step s (retry s).

(** A call fails, or the hub closes. *)
Inductive fail_step : Sys → Sys → Prop :=
| step_open_fails error s : phase s = Opening → fail_step s (end_session error s)
| step_load_fails first changed error s :
    phase s = Loading first changed → fail_step s (end_session error s)
| step_refresh_fails event changed error s :
    phase s = Reading event changed → fail_step s (end_session error s)
| step_hub_closes s : phase s = Idle → fail_step s (end_session (lit "the event hub closed") s).

Definition step (s s' : Sys) : Prop := host_step s s' ∨ work_step s s' ∨ fail_step s s'.

(** [start]: the task runs on a host in any state. *)
Definition start (host : Inventory) : Sys :=
  {| shared := Shared_new; phase := Opening; queue := []; lagged := false; wire := []; truth := host;
     silent := [] |}.

Definition reachable (s : Sys) : Prop := ∃ host, rtc step (start host) s.

(** ** The invariant *)

(** An event that names the object will still be received, or everything will be
    loaded again. *)
Definition covered (s : Sys) (k : key) : Prop :=
  lagged s = true ∨ ∃ event, event ∈ wire s ++ queue s ∧ event_key event = Some k.

Definition fresh (s : Sys) (k : key) : Prop :=
  current (sh_inventory (shared s)) k = current (truth s) k.

(** The object will be read again, or it changed and libvirt said nothing. *)
Definition excused (s : Sys) (k : key) : Prop := covered s k ∨ k ∈ silent s.

Definition phase_ok (s : Sys) : Prop :=
  match phase s with
  | Opening | Waiting => True
  | Loading first changed => ∀ k, k ∈ changed → excused s k
  | Idle => ∀ k, fresh s k ∨ excused s k
  | Reading event changed =>
      ∃ k0, event_key event = Some k0 ∧ (changed = true → excused s k0) ∧
        ∀ k, k ≠ k0 → fresh s k ∨ excused s k
  end.

(** The connection is shown, as the state and as the handle, exactly from the first
    load of a session to its end. *)
Definition shown_ok (s : Sys) : Prop :=
  match phase s with
  | Idle | Reading _ _ | Loading false _ => sh_virt (shared s) = true ∧ sh_state (shared s) = Connected
  | Opening | Loading true _ => sh_virt (shared s) = false ∧ sh_state (shared s) = Connecting
  | Waiting => sh_virt (shared s) = false ∧ ∃ error, sh_state (shared s) = Disconnected error
  end.

Definition sys_ok (s : Sys) : Prop := phase_ok s ∧ shown_ok s.

Lemma covered_mono s s' k :
  (lagged s = true → lagged s' = true) →
  (∀ event, event ∈ wire s ++ queue s → event ∈ wire s' ++ queue s' ∨ lagged s' = true) →
  covered s k → covered s' k.
Proof.
  intros Hl He [?|(event & Hin & Hk)]; [left; auto|].
  destruct (He _ Hin); [right; eauto|by left].
Qed.

(** A step that keeps the phase, the shared state and the host keeps the invariant
    when no object loses its excuse. *)
Lemma sys_ok_mono s s' :
  phase s' = phase s → shared s' = shared s → truth s' = truth s →
  (∀ k, excused s k → excused s' k) → sys_ok s → sys_ok s'.
Proof.
  intros Ep Es Et Hm [Hp Hs]. unfold sys_ok, phase_ok, shown_ok, fresh in *. rewrite Ep, Es, Et. split; [|done].
  destruct (phase s); naive_solver.
Qed.

Lemma hub_send_excused event s k : excused s k → excused (hub_send event s) k.
Proof.
  unfold hub_send. intros [Hc|Hs]; [|right; by case_bool_decide].
  left. case_bool_decide; [|by left]. revert Hc. apply covered_mono; simpl; [done|set_solver].
Qed.

Lemma hub_send_ok event s : sys_ok s → sys_ok (hub_send event s).
Proof.
  apply sys_ok_mono; [unfold hub_send; by case_bool_decide..|]. intros k. apply hub_send_excused.
Qed.

Lemma deliver_ok event rest s : wire s = event :: rest → sys_ok s → sys_ok (deliver event rest s).
Proof.
  intros Hw. unfold deliver, hub_send.
  case_bool_decide; (apply sys_ok_mono; [done..|]); intros k [Hc|Hs]; try (by right); left; simpl in *; [|by left].
  revert Hc. apply covered_mono; [done|]. simpl. rewrite Hw. set_solver.
Qed.

(** The objects after a change: the one that changed has an excuse. *)
Lemma changed_ok r s s' :
  phase s' = touch (key_of_refresh r) (phase s) → shared s' = shared s → truth s' = Inventory_apply (truth s) r →
  (∀ k, subscribed (phase s) = true → excused s k ∨ k = key_of_refresh r → excused s' k) →
  sys_ok s → sys_ok s'.
Proof.
  intros Ep Es Et Hm [Hp Hs].
  assert (Hk : ∀ k, subscribed (phase s) = true → fresh s k ∨ excused s k → fresh s' k ∨ excused s' k).
  { intros k Hsub [Hf|Hc]; [|right; auto]. destruct (decide (k = key_of_refresh r)); [right; auto|].
    left. unfold fresh in *. rewrite Es, Et. by rewrite apply_other. }
  unfold sys_ok, shown_ok, phase_ok in *. rewrite Ep, Es. split; [|by destruct (phase s)].
  destruct (phase s) as [|first changed| |e c|]; simpl; [done|..|done].
  - intros k [->|Hin]%elem_of_cons; auto.
  - intros k. by apply Hk.
  - destruct Hp as (k0 & Hk0 & Hc & Hall). exists k0. split_and!; [done| |].
    + intros [Hct|Hkt%bool_decide_eq_true]%orb_true_iff; apply Hm; auto. right. congruence.
    + intros k Hne. apply Hk; auto.
Qed.

Lemma host_step_ok s s' : host_step s s' → sys_ok s → sys_ok s'.
Proof.
  intros [r event s0 He|r s0|event k s0 He|event k s0 He|reason s0].
  - apply (changed_ok r); [done..|]. intros k Hs. unfold host_change, excused. rewrite Hs. simpl.
    intros [[Hc|Hin]| ->]; [left|by right|].
    + revert Hc. apply covered_mono; simpl; [done|set_solver].
    + left. right. exists event. simpl. split; [set_solver|done].
  - apply (changed_ok r); [done..|]. intros k _ [[Hc|Hin]| ->]; [left|right; by right|right; left].
    revert Hc. apply covered_mono; simpl; [done|auto].
  - apply sys_ok_mono; [done..|]. intros k' [Hc|?]; [left|by right].
    revert Hc. apply covered_mono; simpl; [done|]. destruct (subscribed (phase s0)); set_solver.
  - unfold own_event. destruct (subscribed (phase s0)); [apply hub_send_ok|done].
  - apply sys_ok_mono; [done..|]. intros k' [Hc|?]; [left|by right].
    revert Hc. apply covered_mono; simpl; [done|]. destruct (subscribed (phase s0)); set_solver.
Qed.

Lemma fail_step_ok s s' : fail_step s s' → sys_ok s'.
Proof. intros []; (split; [done|]); unfold shown_ok; simpl; eauto. Qed.

Lemma work_step_ok s s' : work_step s s' → sys_ok s → sys_ok s'.
Proof.
  intros [event rest s0 Hw|s0 Ep|first changed inv s0 Ep Hinv|event rest k s0 Ep Hl Hq Hk
    |reason rest s0 Ep Hl Hq|s0 Ep Hl|event changed r s0 Ep He Hr|s0 Ep]; [by apply deliver_ok|..]; intros [Hp Hs].
  - split; [by intros k ?%not_elem_of_nil|]. unfold shown_ok in *. by rewrite Ep in Hs.
  - unfold sys_ok, phase_ok, shown_ok in *. rewrite Ep in *. simpl. split; [|by destruct first].
    intros k. destruct (decide (k ∈ changed)) as [Hin|Hin]; [right; by apply Hp|left; by apply Hinv].
  - unfold sys_ok, phase_ok, shown_ok in *. rewrite Ep in *. simpl. split; [|done].
    exists k. split_and!; [done..|]. intros k' Hne. destruct (Hp k') as [Hf|[[Hlag|(ev & Hin & Hek)]|Hsi]];
      [by left|congruence|right; left|right; right].
    + right. exists ev. split; [|done]. simpl.
      rewrite Hq in Hin. apply elem_of_app in Hin as [?|[->|?]%elem_of_cons]; [set_solver|congruence|set_solver].
    + apply list_elem_of_filter. split; [congruence|done].
  - split; [done|]. unfold shown_ok. simpl. eauto.
  - unfold sys_ok, phase_ok, shown_ok in *. rewrite Ep in *. simpl. split; [|done].
    by intros k ?%not_elem_of_nil.
  - unfold sys_ok, phase_ok, shown_ok in *. rewrite Ep in *. simpl. split; [|done].
    destruct Hp as (k0 & Hk0 & Hc & Hall). assert (k0 = key_of_refresh r) as -> by congruence.
    intros k. destruct (decide (k = key_of_refresh r)) as [->|Hne].
    + destruct changed; [right; by apply Hc|left]. unfold fresh. simpl. rewrite apply_same. auto.
    + destruct (Hall k Hne) as [Hf|Hcv]; [left|by right]. unfold fresh in *. simpl. by rewrite apply_other.
  - unfold sys_ok, phase_ok, shown_ok in *. rewrite Ep in *. simpl. naive_solver.
Qed.

Lemma reachable_ok s : reachable s → sys_ok s.
Proof.
  intros [host Hr]. assert (Hstart : sys_ok (start host)) by done. revert Hstart.
  induction Hr as [|s1 s2 s3 Hs _ IH]; [done|]. intros Hok. apply IH.
  destruct Hs as [Hs|[Hs|Hs]]; [by eapply host_step_ok|by eapply work_step_ok|by eapply fail_step_ok].
Qed.

(** ** The work ends *)

Definition phase_weight (p : Phase) : nat :=
  match p with Idle => 0 | Reading _ _ => 1 | Loading _ _ => 2 | Opening => 3 | Waiting => 4 end.

(** A bound on the work that is left. *)
Definition work_left (s : Sys) : nat :=
  10 * length (wire s) + 6 * length (queue s) + (if lagged s then 3 else 0) + phase_weight (phase s).

Lemma work_decreases s s' : work_step s s' → truth s' = truth s ∧ (work_left s' < work_left s)%nat.
Proof.
  intros [event rest s0 Hw|s0 Ep|first changed inv s0 Ep Hinv|event rest k s0 Ep Hl Hq Hk
    |reason rest s0 Ep Hl Hq|s0 Ep Hl|event changed r s0 Ep He Hr|s0 Ep]; unfold work_left.
  - unfold deliver, hub_send. rewrite Hw. case_bool_decide; (split; [done|]); simpl in *; rewrite length_app; simpl.
    + lia.
    + destruct (queue s0); simpl; destruct (lagged s0); lia.
  - split; [done|]. rewrite Ep. simpl. lia.
  - split; [done|]. rewrite Ep. simpl. lia.
  - split; [done|]. rewrite Ep, Hq. simpl. lia.
  - split; [done|]. rewrite Ep, Hq. simpl. lia.
  - split; [done|]. rewrite Ep, Hl. simpl. lia.
  - split; [done|]. rewrite Ep. simpl. lia.
  - split; [done|]. rewrite Ep. simpl. lia.
Qed.

(** The task never gets stuck: work is left, or everything was received. *)
Lemma work_or_quiet s :
  sys_ok s → red work_step s ∨ (phase s = Idle ∧ wire s = [] ∧ queue s = [] ∧ lagged s = false).
Proof.
  intros [Hp _]. destruct (wire s) as [|event rest] eqn:Hw; [|left; by eexists; eapply step_deliver].
  unfold phase_ok in Hp. destruct (phase s) as [|first changed| |event changed|] eqn:Ep.
  - left. eexists. by apply step_open.
  - left. eexists. by eapply (step_load _ _ (truth s)).
  - destruct (lagged s) eqn:El; [left; eexists; by apply step_receive_lagged|].
    destruct (queue s) as [|event rest] eqn:Eq; [by right|]. left.
    destruct (event_key event) as [k|] eqn:Ek; [eexists; by eapply step_receive|].
    destruct event; try done. eexists. by eapply step_receive_closed.
  - left. destruct Hp as (k0 & Hk0 & _). eexists.
    eapply (step_refresh _ _ (current (truth s) k0)); [done|by rewrite current_key|by rewrite current_key].
  - left. eexists. by apply step_retry.
Qed.

(** A stretch in which the host is quiet: [n] steps of work and [f] failures. *)
Inductive quiet_run : nat → nat → Sys → Sys → Prop :=
| quiet_refl s : quiet_run 0 0 s s
| quiet_work n f s1 s2 s3 : work_step s1 s2 → quiet_run n f s2 s3 → quiet_run (S n) f s1 s3
| quiet_fail n f s1 s2 s3 : fail_step s1 s2 → quiet_run n f s2 s3 → quiet_run n (S f) s1 s3.

(** A failure throws the rest of the work away, and the task starts over. *)
Lemma fail_restarts s s' :
  fail_step s s' → truth s' = truth s ∧ silent s' = silent s ∧ work_left s' = 4%nat.
Proof. by intros []. Qed.

Lemma work_silent s s' k : work_step s s' → k ∈ silent s' → k ∈ silent s.
Proof.
  intros []; try done; cbn [silent end_session open_done load_done receive receive_lagged refresh_done retry];
    try (by intros ?%not_elem_of_nil).
  - unfold deliver, hub_send. by case_bool_decide.
  - by intros [_ Hin]%list_elem_of_filter.
Qed.

Lemma quiet_run_bounded n f s s' : quiet_run n f s s' → (n + work_left s' ≤ work_left s + 4 * f)%nat.
Proof.
  induction 1 as [s|n f s1 s2 s3 Hs _ IH|n f s1 s2 s3 Hs _ IH]; [lia|..].
  - apply work_decreases in Hs as [_ Hs]. lia.
  - apply fail_restarts in Hs as (_ & _ & Hs). lia.
Qed.

Lemma quiet_run_ok n f s s' :
  quiet_run n f s s' → sys_ok s → sys_ok s' ∧ truth s' = truth s ∧ ∀ k, k ∈ silent s' → k ∈ silent s.
Proof.
  induction 1 as [s|n f s1 s2 s3 Hs _ IH|n f s1 s2 s3 Hs _ IH]; [done|..]; intros Hok.
  - destruct IH as (H1 & H2 & H3); [by eapply work_step_ok|]. split_and!; [done| |].
    + apply work_decreases in Hs as [Hs _]. congruence.
    + intros k Hk. eapply work_silent; [done|auto].
  - destruct IH as (H1 & H2 & H3); [by eapply fail_step_ok|]. split_and!; [done| |].
    + apply fail_restarts in Hs as [Hs _]. congruence.
    + apply fail_restarts in Hs as (_ & <- & _). done.
Qed.


(** C17: when the host is quiet, the supervisor catches up.  From every reachable state,
    whatever happened before and whichever calls fail meanwhile, the work of the task and
    of the hub ends within a bound that grows by four steps for each failure; while no
    work is possible the task is connected, and then the inventory is what is on the host
    for every object, apart from those that changed without an event before the host
    became quiet and that no load or event has made the supervisor read since.  With no
    such change the inventory is exactly what is on the host. *)
Theorem supervisor_catches_up s :
  reachable s →
  (∀ n f s', quiet_run n f s s' → (n ≤ work_left s + 4 * f)%nat) ∧
  ∀ n f s', quiet_run n f s s' → nf work_step s' →
    sh_state (shared s') = Connected ∧
    (∀ k, current (sh_inventory (shared s')) k = current (truth s) k ∨ k ∈ silent s' ∧ k ∈ silent s) ∧
    (silent s = [] → sh_inventory (shared s') = truth s).
Proof.
  intros Hok%reachable_ok. split; [intros n f s' Hn%quiet_run_bounded; lia|].
  intros n f s' Hs Hnf. destruct (quiet_run_ok _ _ _ _ Hs Hok) as (Hok' & Ht & Hsi).
  destruct (work_or_quiet _ Hok') as [Hred|(Ep & Hw & Hq & Hl)]; [done|].
  destruct Hok' as [Hp Hsh]. unfold phase_ok, shown_ok, fresh in *. rewrite Ep, Ht in *.
  assert (Hall : ∀ k, current (sh_inventory (shared s')) k = current (truth s) k ∨ k ∈ silent s' ∧ k ∈ silent s).
  { intros k. destruct (Hp k) as [Hf|[[Hlag|(ev & Hin & _)]|Hk]]; [by left|congruence| |right; auto].
    rewrite Hw, Hq in Hin. by apply not_elem_of_nil in Hin. }
  split_and!; [by destruct Hsh|exact Hall|]. intros Hnil. apply inventory_ext. intros k.
  destruct (Hall k) as [?|[_ Hk]]; [done|]. rewrite Hnil in Hk. by apply not_elem_of_nil in Hk.
Qed.

(** ** Witnesses *)

Lemma start_reachable : reachable (start Inventory_default).
Proof. by exists Inventory_default. Qed.

(** A start on an empty host whose first attempt to connect fails. *)
Lemma supervisor_catches_up_witness :
  let s := start Inventory_default in
  let s' := load_done true Inventory_default (open_done (retry (end_session (lit "no libvirt") s))) in
  quiet_run 3 1 s s' ∧ nf work_step s' ∧ sh_inventory (shared s') = Inventory_default.
Proof.
  intros s s'. assert (Hs : quiet_run 3 1 s s').
  { eapply quiet_fail; [by apply (step_open_fails (lit "no libvirt"))|]. eapply quiet_work; [by apply step_retry|].
    eapply quiet_work; [by apply step_open|].
    eapply quiet_work; [by eapply (step_load true [] Inventory_default)|]. apply quiet_refl. }
  assert (Hnf : nf work_step s') by (intros [s'' Hst]; by inversion Hst).
  split; [exact Hs|]. split; [exact Hnf|].
  destruct (proj2 (supervisor_catches_up s start_reachable) 3%nat 1%nat s' Hs Hnf) as (_ & _ & He).
  exact (He eq_refl).
Defined.

(** A host with one network, whose autostart changes in silence while the supervisor
    waits. *)
Definition lan (autostart : bool) : Network :=
  {| network_uuid := 7; network_name := lit "lan"; network_active := true; network_persistent := true;
     network_autostart := autostart; network_bridge := None |}.
Definition lan_host (autostart : bool) : Inventory :=
  Inventory_apply Inventory_default (RNetwork 7 (Some (lan autostart))).

Definition watching : Sys := load_done true (lan_host true) (open_done (start (lan_host true))).
Definition unseen : Sys := silent_change (RNetwork 7 (Some (lan false))) watching.

Lemma unseen_reachable : reachable unseen.
Proof.
  exists (lan_host true). eapply rtc_l; [right; left; by apply step_open|].
  eapply rtc_l; [right; left; by eapply (step_load true [] (lan_host true))|].
  eapply rtc_l; [left; apply step_silent|]. apply rtc_refl.
Qed.

(** No work is left, and the supervisor keeps showing the old network. *)
Lemma unseen_stays : nf work_step unseen ∧ sh_inventory (shared unseen) ≠ truth unseen.
Proof. split; [intros [s Hs]; by inversion Hs|]. intros E. apply (f_equal (λ i, inv_networks i !! 7)) in E. done. Qed.

(** Lodger's own event, which it sends after a change that it made itself, brings the
    inventory up to date. *)
Lemma own_event_catches_up event :
  event_key event = Some (KNetwork 7) →
  ∃ s, rtc work_step (own_event event unseen) s ∧ sh_inventory (shared s) = truth unseen.
Proof.
  intros He. exists (refresh_done event (RNetwork 7 (Some (lan false))) (receive event [] (own_event event unseen))).
  split; [|by vm_compute]. eapply rtc_l; [by apply (step_receive event [] (KNetwork 7))|].
  eapply rtc_l; [|apply rtc_refl]. by eapply step_refresh.
Qed.

