(* ===== verification/VirtConn.v ===== *)
(** * The connection and the texts of errors
    (crates/lodger-virt/src/conn.rs, stats/mod.rs and console.rs, and the error
    texts of crates/lodger-core)

    Opening the two connections, the facts of the host, the counters of the
    running domains, the VNC socket, and the [Display] texts of the errors. *)

From S2P Require Import Prelude StatsFfi Text Net Validate Model Xml Virt.

(** Texts that follow the Unicode tables or come from other crates: the [{:?}]
    forms of a text and of a character, the text of a libvirt error and of a
    blocking task that failed, and a UUID. *)
Class Fmt := {
  debug_str : str → str;
  debug_char : Z → str;
  verr_to_string : verr → str;
  join_error_to_string : str;
  uuid_to_string : Uuid → str
}.

Section display.
Context `{Ipnet} `{Fmt}.

Definition InputError_to_string (e : InputError) : str :=
  match e with
  | Nul field => field ++ lit " contains a NUL byte"
  | Empty field => field ++ lit " is empty"
  | TooLong field len max =>
      field ++ lit " has " ++ to_string len ++ lit " characters, but the limit is " ++ to_string max
  | BadFirstChar field ch => field ++ lit " must start with a letter or a digit, not " ++ debug_char ch
  | BadChar field ch =>
      field ++ lit " contains " ++ debug_char ch ++ lit ". Use only letters, digits, '.', '_', and '-'"
  | SubnetSyntax field => field ++ lit " is not an IPv4 subnet such as 192.168.150.0/24"
  | SubnetHostBits field network => field ++ lit " has host bits set. Use " ++ net_to_string network
  | SubnetNotPrivate field => field ++ lit " is not in 10.0.0.0/8, 172.16.0.0/12, or 192.168.0.0/16"
  | SubnetTooSmall field max =>
      field ++ lit " is too small. The prefix must be /" ++ to_string max ++ lit " or shorter"
  | SubnetOverlap field other_name other_subnet =>
      field ++ lit " overlaps " ++ net_to_string other_subnet ++ lit ", which network " ++
      debug_str other_name ++ lit " uses"
  | PathNotAbsolute field => field ++ lit " must be an absolute path that starts with /"
  | PathDotSegment field => field ++ lit " must not contain . or .. as a folder name"
  | PathControl field => field ++ lit " must not contain a control character"
  | SystemPath field path =>
      field ++ lit " " ++ path ++
      lit " is a system folder or is inside one. Use a folder of its own, such as /var/lib/libvirt/images"
  | HostSyntax field => field ++ lit " is not a host name or an IP address"
  | PathInUse field other_name => field ++ lit " is the folder of pool " ++ debug_str other_name ++ lit " already"
  | NfsExportInUse other_name => lit "pool " ++ debug_str other_name ++ lit " mounts this NFS export already"
  | InterfaceName field => field ++ lit " must be 1 to 15 letters, digits, '.', '_', or '-'"
  | NoSuchBridge name =>
      lit "there is no bridge " ++ debug_str name ++
      lit " on this host. A host bridge must exist first: create it on the host, for example with NetworkManager or systemd-networkd, then pick it here"
  | SizeOutOfRange field min max =>
      field ++ lit " must be between " ++ to_string min ++ lit " and " ++ to_string max ++ lit " bytes"
  | VolumeNameInUse pool name =>
      lit "pool " ++ debug_str pool ++ lit " has a volume " ++ debug_str name ++ lit " already"
  end.

Definition XmlError_to_string (e : XmlError) : str :=
  match e with
  | Doctype => lit "the XML has a DOCTYPE, which Lodger never accepts"
  | Parse message => lit "the XML does not parse: " ++ message
  | Root found expected => lit "the XML root is <" ++ found ++ lit ">, not <" ++ expected ++ lit ">"
  end.

(** The [thiserror] texts of [Error]. *)
Definition Error_to_string (e : Error) : str :=
  match e with
  | EInput e => InputError_to_string e
  | ELibvirt e => lit "libvirt: " ++ verr_to_string e
  | EEventLoop message => lit "could not start the libvirt event loop: " ++ message
  | ETask => lit "the libvirt call did not finish: " ++ join_error_to_string
  | EIo message => message
  | EWrongState reason => reason
  | EInUse names => lit "in use by " ++ join (lit ", ") names
  | EXml e => XmlError_to_string e
  end.

(** [Error::explanation]. *)
Definition Error_explanation (e : Error) : option Explanation := explain (Error_to_string e).
End display.

(** ** conn.rs *)

Definition KEEPALIVE_INTERVAL : Z := 5.
Definition KEEPALIVE_COUNT : Z := 3.

Definition keep_alive (conn : Z) : virt (result verr unit) :=
  r ← call (SetKeepAlive conn KEEPALIVE_INTERVAL KEEPALIVE_COUNT);
  mret match r with
       | Err e => if bool_decide (verr_code e = Some NoSupport) then Ok tt else Err e
       | Ok _ => Ok tt
       end.

(** libvirt's version as text, from its number. *)
Definition version_text (v : Z) : str :=
  to_string (v / 1000000) ++ lit "." ++ to_string ((v / 1000) mod 1000) ++ lit "." ++
  to_string (v mod 1000).

Section conn.
Context `{Ipnet}.

(** [Virt::open], which returns the read and the job connection. *)
Definition open (uri : str) : virt (result Error (Z * Z)) :=
  match check_text (lit "libvirt URI") uri with
  | Err e => mret (Err (EInput e))
  | Ok uri =>
      started ← call StartEventLoop;
      match started with
      | Err message => mret (Err (EEventLoop message))
      | Ok _ =>
          lv (read ←? call (ConnectOpen uri);
              job ←? call (ConnectOpen uri);
              _ ←? keep_alive read;
              _ ←? keep_alive job;
              _ ←? call (RegisterEvents read);
              mret (Ok (read, job)))
      end
  end.

Definition host_info : virt (result Error HostInfo) :=
  lv (node ←? call NodeInfo;
      v ←? call LibVersion;
      name ←? call Hostname;
      mret (Ok {| hostname := name; libvirt_version := version_text v;
                  host_cpus := node_cpus node; host_memory_kib := node_memory node |})).

(** ** stats/mod.rs *)

(** VIR_DOMAIN_STATS_CPU_TOTAL, _BALLOON, _BLOCK and _INTERFACE. *)
Definition GROUPS : Z := Z.lor (Z.lor (Z.lor 2 4) 32) 16.
(** VIR_CONNECT_GET_ALL_DOMAINS_STATS_ACTIVE and _NOWAIT. *)
Definition FLAGS : Z := Z.lor 1 536870912.

Definition domain_stats : virt (result Error (list (Uuid * Counters))) :=
  lv (records ←? call (AllDomainStats GROUPS FLAGS);
      mret (Ok ((λ r, (uuid r, from_params (params r))) <$> records))).

(** ** console.rs *)

Definition VIR_DOMAIN_OPEN_GRAPHICS_SKIPAUTH : Z := 1.

(** [open_vnc]: Lodger's end of the socket pair. *)
Definition open_vnc (id : Uuid) : virt (result Error Z) :=
  pair ← call SocketPair;
  match pair with
  | Err message => mret (Err (EIo message))
  | Ok ours =>
      _ ←? lv (d ←? call (LookupDomainByUuid id);
               call (DomainOpenGraphics d 0 VIR_DOMAIN_OPEN_GRAPHICS_SKIPAUTH));
      mret (Ok ours)
  end.

(** A connection that [open] returns was opened from the checked URI after the
    event loop, keeps itself alive unless libvirt has no support for that, and
    delivers events. *)
Lemma open_ready uri tr read job :
  vruns (open uri) tr (Ok (read, job)) →
  check_text (lit "libvirt URI") uri = Ok uri ∧
  ∃ k1 k2, tr = [did StartEventLoop (Ok tt); did (ConnectOpen uri) (Ok read);
                 did (ConnectOpen uri) (Ok job);
                 did (SetKeepAlive read KEEPALIVE_INTERVAL KEEPALIVE_COUNT) k1;
                 did (SetKeepAlive job KEEPALIVE_INTERVAL KEEPALIVE_COUNT) k2;
                 did (RegisterEvents read) (Ok tt)] ∧
    ∀ k e, (k = k1 ∨ k = k2) → k = Err e → verr_code e = Some NoSupport.
Proof.
  unfold open. unfold check_text. destruct (contains_char 0 uri); [by intros [_ ?]|].
  intros (started & tr' & -> & Hr). destruct started as [[]|]; [|by destruct Hr].
  split; [done|]. apply vruns_lv in Hr as (r & Hr & E).
  destruct r as [[a b]|]; [|done]. injection E as <- <-.
  apply vruns_try in Hr as [(? & ? & _)|(t1 & t2 & r1 & -> & ->%vruns_call & Hr)]; [done|].
  apply vruns_try in Hr as [(? & ? & _)|(t3 & t4 & r2 & -> & ->%vruns_call & Hr)]; [done|].
  apply vruns_try in Hr as [(? & ? & _)|(t5 & t6 & [] & -> & Hk1 & Hr)]; [done|].
  apply vruns_try in Hr as [(? & ? & _)|(t7 & t8 & [] & -> & Hk2 & Hr)]; [done|].
  apply vruns_try in Hr as [(? & ? & _)|(t9 & t10 & [] & -> & ->%vruns_call & [-> E])]; [done|].
  injection E as -> ->.
  destruct Hk1 as (k1 & ? & -> & -> & E1), Hk2 as (k2 & ? & -> & -> & E2).
  exists k1, k2. split; [done|]. intros k e [->| ->] ->; case_bool_decide; done.
Qed.
End conn.
