(* ===== verification/EventsFfi.v ===== *)
(** * The event callbacks (crates/lodger-virt/src/events/ffi.rs and the life of the read
    connection in conn.rs)

    The registration of the callbacks, the functions that libvirt calls back, and their
    removal.  Every registration gives libvirt a pointer to a box of its own with a sender
    of the hub.  The model keeps the boxes that are allocated, the callbacks that libvirt
    holds, the pointers that it has still to free, and the references of the connection;
    a use of a box or of a connection that is gone, a second free, and a callback with the
    signature of another event have undefined behaviour and give [None].  Between any two
    calls of the program libvirt's thread can call any callback and free what was removed,
    and every call can fail.  [callbacks_safe] shows that this never has undefined
    behaviour and gives back every box but the one of a call that failed. *)

From S2P Require Import Prelude StatsFfi Text Os Net Model Virt VirtPower.

(** ** libvirt's events *)

(** The four tables of callbacks of a connection. *)
Inductive Class := Domains | Networks | StoragePools | Closing.

#[export] Instance Class_eq_dec : EqDecision Class.
Proof. solve_decision. Defined.

Definition VIR_DOMAIN_EVENT_ID_LIFECYCLE : Z := 0.
Definition VIR_DOMAIN_EVENT_ID_REBOOT : Z := 1.
Definition VIR_DOMAIN_EVENT_ID_DEVICE_REMOVED : Z := 15.
Definition VIR_DOMAIN_EVENT_ID_DEVICE_ADDED : Z := 19.
Definition VIR_DOMAIN_EVENT_ID_METADATA_CHANGE : Z := 23.
Definition VIR_NETWORK_EVENT_ID_LIFECYCLE : Z := 0.
Definition VIR_STORAGE_POOL_EVENT_ID_LIFECYCLE : Z := 0.

(** The arguments of a callback before its opaque pointer, by C signature.  Objects are
    the pointers that libvirt lends. *)
Inductive Args :=
| Generic (dom : Z)
| DomainCodes (dom event detail : Z)
| Device (dom alias : Z)
| MetadataOf (dom kind nsuri : Z)
| NetworkCodes (net event detail : Z)
| PoolCodes (pool event detail : Z)
| Reason (reason : Z).

(** The signature that libvirt documents for the events of a class, by their numbers. *)
Definition fits (class : Class) (event : Z) (args : Args) : bool :=
  match class, args with
  | Domains, DomainCodes _ _ _ => event =? 0
  | Domains, Generic _ => event =? 1
  | Domains, Device _ _ => (event =? 15) || (event =? 19)
  | Domains, MetadataOf _ _ _ => event =? 23
  | Networks, NetworkCodes _ _ _ => event =? 0
  | StoragePools, PoolCodes _ _ _ => event =? 0
  | Closing, Reason _ => true
  | _, _ => false
  end.

(** The functions that the program registers. *)
Inductive Trampoline :=
| domain_lifecycle | domain_reboot | domain_device_added | domain_device_removed | domain_metadata
| network_lifecycle | pool_lifecycle | on_close.

#[export] Instance Trampoline_eq_dec : EqDecision Trampoline.
Proof. solve_decision. Defined.

Record Callback := {
  cb_class : Class;
  cb_event : Z;
  cb_fn : Trampoline;
  cb_id : Z;
  cb_opaque : nat
}.

(** ** The world of the callbacks *)

Record World := {
  (** The boxes that are allocated, and how many were made. *)
  boxes : gset nat;
  made : nat;
  (** What libvirt calls, and what it has still to free. *)
  callbacks : list Callback;
  removed : list nat;
  (** The references of the connection. *)
  refs : nat;
  (** What was sent to the hub. *)
  hub : list Event;
  (** How many calls were made. *)
  clock : nat
}.

Definition with_boxes f w :=
  {| boxes := f (boxes w); made := made w; callbacks := callbacks w; removed := removed w;
     refs := refs w; hub := hub w; clock := clock w |}.
Definition with_callbacks l r w :=
  {| boxes := boxes w; made := made w; callbacks := l; removed := r;
     refs := refs w; hub := hub w; clock := clock w |}.
Definition with_refs n w :=
  {| boxes := boxes w; made := made w; callbacks := callbacks w; removed := removed w;
     refs := n; hub := hub w; clock := clock w |}.
Definition with_hub l w :=
  {| boxes := boxes w; made := made w; callbacks := callbacks w; removed := removed w;
     refs := refs w; hub := l; clock := clock w |}.
Definition tick w :=
  {| boxes := boxes w; made := made w; callbacks := callbacks w; removed := removed w;
     refs := refs w; hub := hub w; clock := S (clock w) |}.

Section callbacks.
(** [virDomainGetUUIDString] and its siblings: the result and the bytes of the buffer;
    and [Uuid::parse_str]. *)
Variables virDomainGetUUIDString virNetworkGetUUIDString virStoragePoolGetUUIDString : Z → Z * list Z.
Variable parse_str : str → option Uuid.

(** [parse_uuid]. *)
Definition parse_uuid (ret : Z) (buf : list Z) : option Uuid :=
  if ret <? 0 then None else text ← until_nul buf ≫= from_utf8; parse_str text.

Definition domain_uuid (dom : Z) : option Uuid :=
  let '(ret, buf) := virDomainGetUUIDString dom in parse_uuid ret buf.

(** [deliver]: the box is read only when there is an event. *)
Definition deliver (opaque : nat) (event : option Event) (w : World) : option World :=
  match event with
  | Some event => if bool_decide (opaque ∈ boxes w) then Some (with_hub (hub w ++ [event]) w) else None
  | None => Some w
  end.

Definition domain_event (opaque : nat) (dom : Z) (change : DomainChange) : World → option World :=
  deliver opaque (id ← domain_uuid dom; Some (EvDomain id change)).

(** A call of a registered function with the arguments of libvirt. *)
Definition call_back (fn : Trampoline) (args : Args) (opaque : nat) : World → option World :=
  match fn, args with
  | domain_lifecycle, DomainCodes dom event detail => domain_event opaque dom (Lifecycle event detail)
  | domain_reboot, Generic dom => domain_event opaque dom ChangeReboot
  | domain_device_added, Device dom _ => domain_event opaque dom DeviceAdded
  | domain_device_removed, Device dom _ => domain_event opaque dom DeviceRemoved
  | domain_metadata, MetadataOf dom _ _ => domain_event opaque dom Metadata
  | network_lifecycle, NetworkCodes net event _ =>
      deliver opaque (let '(ret, buf) := virNetworkGetUUIDString net in
                      id ← parse_uuid ret buf; Some (EvNetwork id event))
  | pool_lifecycle, PoolCodes pool event _ =>
      deliver opaque (let '(ret, buf) := virStoragePoolGetUUIDString pool in
                      id ← parse_uuid ret buf; Some (EvPool id event))
  | on_close, Reason reason => deliver opaque (Some (EvClosed reason))
  | _, _ => λ _, None
  end.

(** [free_hub]. *)
Definition free_hub (opaque : nat) (w : World) : option World :=
  if bool_decide (opaque ∈ boxes w) then Some (with_boxes (.∖ {[opaque]}) w) else None.

(** ** libvirt's thread *)

(** It calls a callback that it holds, or frees the pointer of one that was removed,
    after the last call of it. *)
Inductive Move := Fire (i : nat) (args : Args) | Free (i : nat).

Definition move (x : Move) (w : World) : option World :=
  match x with
  | Fire i args =>
      match callbacks w !! i with
      | Some c => if fits (cb_class c) (cb_event c) args then call_back (cb_fn c) args (cb_opaque c) w else Some w
      | None => Some w
      end
  | Free i =>
      match removed w !! i with
      | Some opaque => free_hub opaque (with_callbacks (callbacks w) (delete i (removed w)) w)
      | None => Some w
      end
  end.

Fixpoint moves (l : list Move) (w : World) : option World :=
  match l with [] => Some w | x :: l => move x w ≫= moves l end.

(** The answer to a call: what the thread does before it, the result, the last error,
    the driver, and whether a register call that fails frees the pointer. *)
Record Turn := { before : list Move; ret : Z; last_error : verr; driver : result verr str; frees : bool }.

(** How libvirt behaves. *)
Variable turns : nat → Turn.

(** ** The program *)

Definition ev (A : Type) : Type := World → option (A * World).

#[local] Instance ev_ret : MRet ev := λ _ a w, Some (a, w).
#[local] Instance ev_bind : MBind ev := λ _ _ k p w,
  match p w with Some (a, w') => k a w' | None => None end.

(** A call of libvirt on the connection, which must be open. *)
Definition libvirt {A} (answer : Turn → A) (effect : Turn → World → option World) : ev A := λ w,
  let t := turns (clock w) in
  match moves (before t) (tick w) with
  | Some w => if bool_decide (refs w = O) then None else (λ w, (answer t, w)) <$> effect t w
  | None => None
  end.

(** [opaque]: a new box with a sender. *)
Definition opaque : ev nat := λ w,
  Some (made w, {| boxes := {[made w]} ∪ boxes w; made := S (made w); callbacks := callbacks w;
                   removed := removed w; refs := refs w; hub := hub w; clock := clock w |}).

(** [check]. *)
Definition check (r : Z * verr) : result verr Z := if r.1 <? 0 then Err (r.2) else Ok (r.1).

(** The [RegisterAny] functions and [virConnectRegisterCloseCallback]. *)
Definition register_any (class : Class) (event : Z) (fn : Trampoline) (opaque : nat) : ev (Z * verr) :=
  libvirt (λ t, (ret t, last_error t)) (λ t w,
    if ret t <? 0 then (if frees t then free_hub opaque w else Some w)
    else Some (with_callbacks
      (callbacks w ++ [{| cb_class := class; cb_event := event; cb_fn := fn; cb_id := ret t; cb_opaque := opaque |}])
      (removed w) w)).

(** The [DeregisterAny] functions and [virConnectUnregisterCloseCallback]: the first
    callback that the test finds. *)
Definition deregister_any (test : Callback → bool) : ev unit :=
  libvirt (λ _, tt) (λ t w,
    if ret t <? 0 then Some w
    else match list_find test (callbacks w) with
         | Some (i, c) => Some (with_callbacks (delete i (callbacks w)) (removed w ++ [cb_opaque c]) w)
         | None => Some w
         end).

(** The clone and the [Drop] of [Connect]: the last reference closes the connection, and
    libvirt removes what is still registered. *)
Definition Connect_clone : ev unit := libvirt (λ _, tt) (λ _ w, Some (with_refs (S (refs w)) w)).
Definition Connect_drop : ev unit :=
  libvirt (λ _, tt) (λ _ w,
    Some (if bool_decide (refs w = 1%nat)
          then with_callbacks [] (removed w ++ (cb_opaque <$> callbacks w)) (with_refs O w)
          else with_refs (pred (refs w)) w)).

(** [Registration]. *)
Record Registration := { domain : list Z; network : list Z; pool : list Z; close : bool }.

Definition by_id (class : Class) (id : Z) (c : Callback) : bool :=
  bool_decide (cb_class c = class) && (cb_id c =? id).

Fixpoint deregister_all (class : Class) (ids : list Z) : ev unit :=
  match ids with
  | [] => mret tt
  | id :: ids => _ ← deregister_any (by_id class id); deregister_all class ids
  end.

(** The [Drop] of [Registration], and then of its connection. *)
Definition Registration_drop (reg : Registration) : ev unit :=
  _ ← deregister_all Domains (domain reg);
  _ ← deregister_all Networks (network reg);
  _ ← deregister_all StoragePools (pool reg);
  _ ← (if close reg then deregister_any (λ c, bool_decide (cb_class c = Closing)) else mret tt);
  Connect_drop.

(** [p?] in [register]: an error drops what was registered so far. *)
Definition or_drop {A B} (reg : Registration) (p : ev (result verr A)) (k : A → ev (result verr B)) :
    ev (result verr B) :=
  r ← p;
  match r with
  | Ok a => k a
  | Err e => _ ← Registration_drop reg; mret (Err e)
  end.

Definition register_one (class : Class) (event : Z) (fn : Trampoline) : ev (result verr Z) :=
  box ← opaque;
  r ← register_any class event fn box;
  mret (check r).

Definition domain_events : list (Z * Trampoline) :=
  [(VIR_DOMAIN_EVENT_ID_LIFECYCLE, domain_lifecycle);
   (VIR_DOMAIN_EVENT_ID_REBOOT, domain_reboot);
   (VIR_DOMAIN_EVENT_ID_DEVICE_ADDED, domain_device_added);
   (VIR_DOMAIN_EVENT_ID_DEVICE_REMOVED, domain_device_removed);
   (VIR_DOMAIN_EVENT_ID_METADATA_CHANGE, domain_metadata)].

Fixpoint register_domains (events : list (Z * Trampoline)) (reg : Registration)
    (k : Registration → ev (result verr Registration)) : ev (result verr Registration) :=
  match events with
  | [] => k reg
  | (id, cb) :: events =>
      or_drop reg (register_one Domains id cb) (λ ret,
        register_domains events
          {| domain := domain reg ++ [ret]; network := network reg; pool := pool reg; close := close reg |} k)
  end.

Definition register : ev (result verr Registration) :=
  _ ← Connect_clone;
  register_domains domain_events {| domain := []; network := []; pool := []; close := false |} (λ reg,
  or_drop reg (register_one Networks VIR_NETWORK_EVENT_ID_LIFECYCLE network_lifecycle) (λ ret,
  let reg := {| domain := domain reg; network := network reg ++ [ret]; pool := pool reg; close := close reg |} in
  or_drop reg (register_one StoragePools VIR_STORAGE_POOL_EVENT_ID_LIFECYCLE pool_lifecycle) (λ ret,
  let reg := {| domain := domain reg; network := network reg; pool := pool reg ++ [ret]; close := close reg |} in
  or_drop reg (libvirt driver (λ _ w, Some w)) (λ driver_type,
  if bool_decide (driver_type = lit "TEST") then mret (Ok reg)
  else
    or_drop reg (register_one Closing 0 on_close) (λ _,
    mret (Ok {| domain := domain reg; network := network reg; pool := pool reg; close := true |})))))).

(** ** conn.rs: the read connection *)

(** The [Drop] of [Connection]: the callbacks first, while the connection is open. *)
Definition Connection_drop (events : option Registration) : ev unit :=
  _ ← (match events with Some reg => Registration_drop reg | None => mret tt end);
  Connect_drop.

(** The part of [Virt::open] that registers the callbacks on the open connection. *)
Definition open_events : ev (result verr Registration) :=
  r ← register;
  match r with
  | Ok reg => mret (Ok reg)
  | Err e => _ ← Connect_drop; mret (Err e)
  end.

(** The life of a read connection, with what libvirt's thread does meanwhile. *)
Definition session (meanwhile : list Move) : ev (result verr unit) :=
  r ← open_events;
  match r with
  | Ok reg =>
      _ ← (λ w, (λ w, (tt, w)) <$> moves meanwhile w);
      _ ← Connection_drop (Some reg);
      mret (Ok tt)
  | Err e => mret (Err e)
  end.

(** A connection that was just opened. *)
Definition opened : World :=
  {| boxes := ∅; made := 0; callbacks := []; removed := []; refs := 1; hub := []; clock := 0 |}.

(** ** Running the program *)

(** The program has no undefined behaviour from [w], and ends with [Q]. *)
Definition runs {A} (p : ev A) (w : World) (Q : A → World → Prop) : Prop :=
  ∃ a w', p w = Some (a, w') ∧ Q a w'.

Lemma runs_ret {A} (a : A) w Q : Q a w → runs (mret a) w Q.
Proof. intros H. by exists a, w. Qed.

Lemma runs_bind {A B} (p : ev A) (k : A → ev B) w Q :
  runs p w (λ a w', runs (k a) w' Q) → runs (p ≫= k) w Q.
Proof.
  intros (a & w1 & E & b & w2 & E2 & HQ). exists b, w2. split; [|done].
  unfold mbind, ev_bind. by rewrite E.
Qed.

Lemma runs_mono {A} (p : ev A) w (Q R : A → World → Prop) :
  runs p w Q → (∀ a w', Q a w' → R a w') → runs p w R.
Proof. intros (a & w1 & E & HQ) H. exists a, w1. auto. Qed.

Lemma runs_step {A B} (p : ev A) (k : A → ev B) w Q R :
  runs p w Q → (∀ a w', Q a w' → runs (k a) w' R) → runs (p ≫= k) w R.
Proof. intros Hp Hk. apply runs_bind. by eapply runs_mono. Qed.

(** ** The invariant *)

(** What is to be registered, by libvirt's numbers: of a domain the lifecycle, reboots,
    added and removed devices and metadata; networks, pools and the close. *)
Definition table : list (Class * Z * Trampoline) :=
  [(Domains, 0, domain_lifecycle); (Domains, 1, domain_reboot); (Domains, 19, domain_device_added);
   (Domains, 15, domain_device_removed); (Domains, 23, domain_metadata);
   (Networks, 0, network_lifecycle); (StoragePools, 0, pool_lifecycle); (Closing, 0, on_close)].

Definition shape (c : Callback) : Class * Z * Trampoline := (cb_class c, cb_event c, cb_fn c).

(** Every box is with exactly one owner: a callback, a pointer to free, or [loose]. *)
Definition owners (loose : list nat) (w : World) : list nat := (cb_opaque <$> callbacks w) ++ removed w ++ loose.

Record sound (loose : list nat) (w : World) : Prop := {
  sound_once : NoDup (owners loose w);
  sound_boxes : boxes w = list_to_set (owners loose w);
  sound_made : Forall (λ b, b < made w)%nat (owners loose w);
  sound_shape : Forall (λ c, shape c ∈ table) (callbacks w)
}.

(** The program holds [n] references, and libvirt these callbacks. *)
Definition at_ (loose : list nat) (n : nat) (cbs : list Callback) (w : World) : Prop :=
  sound loose w ∧ refs w = n ∧ callbacks w = cbs.

(** The UUID in libvirt's answer, if the call worked and the text is one. *)
Definition answered (answer : Z * list Z) : option Uuid :=
  if bool_decide (0 ≤ answer.1)
  then match until_nul answer.2 with
       | Some bytes => match from_utf8 bytes with Some text => parse_str text | None => None end
       | None => None
       end
  else None.

(** What an event of libvirt tells, by its class and number. *)
Definition told (class : Class) (event : Z) (args : Args) : option Event :=
  match class, args with
  | Domains, DomainCodes dom code detail =>
      (λ id, EvDomain id (Lifecycle code detail)) <$> answered (virDomainGetUUIDString dom)
  | Domains, Generic dom => (λ id, EvDomain id ChangeReboot) <$> answered (virDomainGetUUIDString dom)
  | Domains, Device dom _ =>
      id ← answered (virDomainGetUUIDString dom);
      if event =? 19 then Some (EvDomain id DeviceAdded)
      else if event =? 15 then Some (EvDomain id DeviceRemoved)
      else None
  | Domains, MetadataOf dom _ _ => (λ id, EvDomain id Metadata) <$> answered (virDomainGetUUIDString dom)
  | Networks, NetworkCodes net code _ => (λ id, EvNetwork id code) <$> answered (virNetworkGetUUIDString net)
  | StoragePools, PoolCodes pool code _ => (λ id, EvPool id code) <$> answered (virStoragePoolGetUUIDString pool)
  | Closing, Reason reason => Some (EvClosed reason)
  | _, _ => None
  end.

Definition told_by (cbs : list Callback) (x : Move) : option Event :=
  match x with
  | Fire i args =>
      c ← cbs !! i;
      if fits (cb_class c) (cb_event c) args then told (cb_class c) (cb_event c) args else None
  | Free _ => None
  end.

Lemma deliver_live opaque event w :
  opaque ∈ boxes w → deliver opaque event w = Some (with_hub (hub w ++ option_list event) w).
Proof.
  intros H. unfold deliver. destruct event; cbn [option_list]; [by rewrite bool_decide_true|].
  rewrite app_nil_r. by destruct w.
Qed.

Lemma parse_answered answer : parse_uuid answer.1 answer.2 = answered answer.
Proof.
  unfold parse_uuid, answered. destruct (Z.ltb_spec answer.1 0).
  - by rewrite bool_decide_false by lia.
  - rewrite bool_decide_true by lia. by destruct (until_nul answer.2).
Qed.

Lemma domain_answered dom : domain_uuid dom = answered (virDomainGetUUIDString dom).
Proof. unfold domain_uuid. rewrite <- parse_answered. by destruct (virDomainGetUUIDString dom). Qed.

Lemma call_back_told c args w :
  shape c ∈ table → fits (cb_class c) (cb_event c) args = true → cb_opaque c ∈ boxes w →
  call_back (cb_fn c) args (cb_opaque c) w =
  Some (with_hub (hub w ++ option_list (told (cb_class c) (cb_event c) args)) w).
Proof.
  unfold shape. destruct c as [class event fn id opaque]. cbn [cb_class cb_event cb_fn cb_opaque].
  intros Hin Hf Hb. unfold table in Hin.
  repeat (apply elem_of_cons in Hin as [[= -> -> ->]|Hin]; [
    destruct args; cbn in Hf; try discriminate Hf; cbn [call_back]; unfold domain_event;
    rewrite ?domain_answered, deliver_live by done; cbn [told];
    first [done | by destruct (answered (virDomainGetUUIDString _))
          | rewrite <- parse_answered; destruct (virNetworkGetUUIDString _) as [rc buf]; cbn; by destruct (parse_uuid rc buf)
          | rewrite <- parse_answered; destruct (virStoragePoolGetUUIDString _) as [rc buf]; cbn; by destruct (parse_uuid rc buf)]|]).
  by apply not_elem_of_nil in Hin.
Qed.

Lemma move_sound loose n cbs x w :
  at_ loose n cbs w → ∃ w', move x w = Some w' ∧ at_ loose n cbs w' ∧
    hub w' = hub w ++ option_list (told_by cbs x) ∧ clock w' = clock w.
Proof.
  intros ([Hd Hb Hm Hs] & <- & <-). destruct x as [i args|i]; cbn [move told_by].
  - destruct (callbacks w !! i) as [c|] eqn:Ec; cbn [mbind option_bind].
    2: { exists w. rewrite app_nil_r. done. }
    destruct (fits _ _ _) eqn:Ef; [|exists w; by rewrite app_nil_r].
    rewrite call_back_told; [|by eapply Forall_lookup_1 in Hs|done|].
    2: { rewrite Hb. apply elem_of_list_to_set, elem_of_app. left. apply list_elem_of_fmap.
         exists c. split; [done|]. by eapply list_elem_of_lookup_2. }
    eexists. split; [done|]. by repeat split.
  - destruct (removed w !! i) as [b|] eqn:Er; cbn [option_list]; [|exists w; by rewrite app_nil_r].
    unfold free_hub. cbn [boxes with_callbacks].
    assert (Ep : owners loose w ≡ₚ b :: (cb_opaque <$> callbacks w) ++ delete i (removed w) ++ loose).
    { unfold owners. rewrite (delete_Permutation _ _ _ Er) at 1. cbn [app]. by rewrite <- Permutation_middle. }
    rewrite bool_decide_true by (rewrite Hb, Ep; set_solver).
    eexists. split; [done|]. cbn [hub with_boxes with_callbacks clock]. rewrite app_nil_r. split_and!; [|done..].
    rewrite Ep in Hd, Hm. apply NoDup_cons in Hd as [Hnb Hd]. apply Forall_cons in Hm as [_ Hm].
    split; [|done]. split; cbn [boxes with_boxes with_callbacks callbacks removed owners made]; try done.
    rewrite Hb, Ep. cbn [list_to_set]. unfold owners. cbn [callbacks removed]. set_solver.
Qed.

Lemma moves_sound loose n cbs l w :
  at_ loose n cbs w → ∃ w', moves l w = Some w' ∧ at_ loose n cbs w' ∧
    hub w' = hub w ++ omap (told_by cbs) l ∧ clock w' = clock w.
Proof.
  revert w. induction l as [|x l IH]; intros w Hw; [exists w; cbn; by rewrite app_nil_r|].
  destruct (move_sound _ _ _ x w Hw) as (w1 & E1 & Hw1 & Hh1 & Hc1).
  destruct (IH w1 Hw1) as (w2 & E2 & Hw2 & Hh2 & Hc2). exists w2. cbn [moves]. rewrite E1. cbn [mbind option_bind].
  split_and!; [done|done| |congruence]. rewrite Hh2, Hh1, <- app_assoc. cbn [omap list_omap]. by destruct (told_by cbs x).
Qed.

Lemma runs_libvirt {A} (answer : Turn → A) effect loose n cbs w Q :
  at_ loose (S n) cbs w →
  (∀ t w', at_ loose (S n) cbs w' → ∃ w2, effect (turns t) w' = Some w2 ∧ Q (answer (turns t)) w2) →
  runs (libvirt answer effect) w Q.
Proof.
  intros Hw He. unfold runs, libvirt. assert (Ht : at_ loose (S n) cbs (tick w)).
  { destruct Hw as ([] & ? & ?). by repeat split. }
  destruct (moves_sound _ _ _ (before (turns (clock w))) _ Ht) as (w1 & -> & Hw1 & _).
  rewrite bool_decide_false by (destruct Hw1 as (_ & -> & _); lia).
  destruct (He (clock w) w1 Hw1) as (w2 & -> & HQ). by exists (answer (turns (clock w))), w2.
Qed.

(** ** The steps of the program *)

Lemma sound_perm loose loose' w :
  owners loose w ≡ₚ owners loose' w → sound loose w → sound loose' w.
Proof. intros E [Hd Hb Hm Hs]. split; [by rewrite <- E|by rewrite <- E|by rewrite <- E|done]. Qed.

Lemma runs_opaque loose n cbs w :
  at_ loose n cbs w → runs opaque w (λ b w', at_ (b :: loose) n cbs w').
Proof.
  intros ([Hd Hb Hm Hs] & <- & <-). eexists _, _. split; [done|]. cbn.
  assert (Ep : ∀ w', callbacks w' = callbacks w → removed w' = removed w →
    owners (made w :: loose) w' ≡ₚ made w :: owners loose w).
  { intros w' E1 E2. unfold owners. rewrite E1, E2. by rewrite <- !Permutation_middle. }
  split; [|done]. split; cbn [boxes made callbacks]; try rewrite (Ep _ eq_refl eq_refl).
  - apply NoDup_cons. split; [|done]. intros Hin. rewrite Forall_forall in Hm. apply Hm in Hin. lia.
  - rewrite Hb. cbn [list_to_set]. set_solver.
  - apply Forall_cons. split; [lia|]. eapply Forall_impl; [exact Hm|]. cbn. lia.
  - done.
Qed.

(** A box that was with the program alone is gone, with its owner. *)
Lemma sound_free b loose w :
  sound (b :: loose) w → ∃ w', free_hub b w = Some w' ∧ sound loose w' ∧ refs w' = refs w ∧ callbacks w' = callbacks w.
Proof.
  intros [Hd Hb Hm Hs]. assert (Ep : owners (b :: loose) w ≡ₚ b :: owners loose w).
  { unfold owners. by rewrite <- !Permutation_middle. }
  unfold free_hub. rewrite bool_decide_true by (rewrite Hb, Ep; set_solver).
  eexists. split; [done|]. split; [|done]. rewrite Ep in Hd, Hm. apply NoDup_cons in Hd as [Hn Hd].
  apply Forall_cons in Hm as [_ Hm]. split; try done. cbn [boxes with_boxes]. rewrite Hb, Ep. cbn [list_to_set].
  unfold owners in *. cbn [callbacks removed with_boxes]. set_solver.
Qed.

(** libvirt takes a box. *)
Lemma sound_register b loose w c :
  cb_opaque c = b → shape c ∈ table → sound (b :: loose) w →
  sound loose (with_callbacks (callbacks w ++ [c]) (removed w) w).
Proof.
  intros Hc Ht [Hd Hb Hm Hs].
  assert (Ep : owners loose (with_callbacks (callbacks w ++ [c]) (removed w) w) ≡ₚ owners (b :: loose) w).
  { unfold owners. cbn. rewrite fmap_app. cbn. rewrite Hc, <- !Permutation_middle. cbn. rewrite app_nil_r.
    by rewrite Permutation_middle. }
  split; cbn [boxes made callbacks with_callbacks]; rewrite ?Ep; try done.
  apply Forall_app. split; [done|]. apply Forall_cons_2; [done|apply Forall_nil_2].
Qed.

(** A callback or all of them go to what libvirt has to free. *)
Lemma sound_remove loose w cbs gone :
  callbacks w ≡ₚ gone ++ cbs → sound loose w →
  sound loose (with_callbacks cbs (removed w ++ (cb_opaque <$> gone)) w).
Proof.
  intros E [Hd Hb Hm Hs].
  assert (Ep : owners loose (with_callbacks cbs (removed w ++ (cb_opaque <$> gone)) w) ≡ₚ owners loose w).
  { unfold owners. cbn. rewrite E, fmap_app. solve_Permutation. }
  split; cbn [boxes made callbacks with_callbacks]; rewrite ?Ep; try done.
  rewrite E in Hs. by apply Forall_app in Hs as [_ Hs].
Qed.

(** What is known after a register call that may have failed: at most its own box is
    loose. *)
Definition failed (loose : list nat) (n : nat) (cbs : list Callback) (w : World) : Prop :=
  ∃ lost, (length lost ≤ 1)%nat ∧ at_ (lost ++ loose) n cbs w.

Lemma runs_register_one loose n cbs class event fn w :
  (class, event, fn) ∈ table → at_ loose (S n) cbs w →
  runs (register_one class event fn) w (λ r w',
    match r with
    | Err _ => failed loose (S n) cbs w'
    | Ok id => ∃ c, shape c = (class, event, fn) ∧ cb_id c = id ∧ at_ loose (S n) (cbs ++ [c]) w'
    end).
Proof.
  intros Ht Hw. unfold register_one. eapply runs_step; [by apply runs_opaque|]. intros b w1 Hw1. cbn in Hw1.
  apply runs_bind. eapply runs_libvirt; [exact Hw1|]. intros t w2 (Hs & Hr & Hc).
  unfold check. cbn [fst snd]. destruct (ret (turns t) <? 0).
  - destruct (frees (turns t)).
    + destruct (sound_free b loose w2 Hs) as (w3 & -> & Hs3 & Hr3 & Hc3). exists w3. split; [done|].
      apply runs_ret. exists []. split; [cbn; lia|]. split; [done|]. split; congruence.
    + exists w2. split; [done|]. apply runs_ret. exists [b]. split; [done|]. by split.
  - eexists. split; [done|]. apply runs_ret. eexists. split_and!; [| |split_and!]; cycle 2.
    + eapply sound_register; [| |exact Hs]; [done|exact Ht].
    + done.
    + cbn. by rewrite Hc.
    + done.
    + done.
Qed.

Lemma runs_deregister_any loose n cbs test w :
  at_ loose (S n) cbs w →
  runs (deregister_any test) w (λ _ w', ∃ cbs', at_ loose (S n) cbs' w').
Proof.
  intros Hw. eapply runs_libvirt; [exact Hw|]. intros t w1 (Hs & Hr & Hc).
  destruct (_ <? 0); [by eexists; split; [|exists cbs]|].
  destruct (list_find test (callbacks w1)) as [[i c]|] eqn:E; [|by eexists; split; [|exists cbs]].
  eexists. split; [done|]. exists (delete i (callbacks w1)). split; [|done].
  apply (sound_remove loose w1 (delete i (callbacks w1)) [c]); [|done].
  apply list_find_Some in E as (E & _ & _). by rewrite (delete_Permutation _ _ _ E) at 1.
Qed.

Lemma runs_deregister_all loose n cbs class ids w :
  at_ loose (S n) cbs w →
  runs (deregister_all class ids) w (λ _ w', ∃ cbs', at_ loose (S n) cbs' w').
Proof.
  revert cbs w. induction ids as [|id ids IH]; intros cbs w Hw; cbn [deregister_all].
  - apply runs_ret. by exists cbs.
  - eapply runs_step; [by eapply runs_deregister_any|]. intros _ w1 [cbs1 Hw1]. by eapply IH.
Qed.

Lemma runs_Connect_drop loose n cbs w :
  at_ loose (S n) cbs w →
  runs Connect_drop w (λ _ w', at_ loose n (match n with O => [] | S _ => cbs end) w').
Proof.
  intros Hw. eapply runs_libvirt; [exact Hw|]. intros t w1 (Hs & Hr & Hc). eexists. split; [done|].
  rewrite Hr. destruct n as [|n]; cbn.
  - split; [|done]. apply (sound_remove loose (with_refs 0 w1) [] (callbacks w1)); [by rewrite app_nil_r|].
    destruct Hs. by split.
  - split; [destruct Hs; by split|]. by split.
Qed.

Lemma runs_Registration_drop loose n cbs reg w :
  at_ loose (S (S n)) cbs w →
  runs (Registration_drop reg) w (λ _ w', ∃ cbs', at_ loose (S n) cbs' w').
Proof.
  intros Hw. unfold Registration_drop.
  do 3 (eapply runs_step; [by eapply runs_deregister_all|]; clear dependent w; intros _ w [? Hw]).
  apply (runs_step _ _ _ (λ _ w', ∃ cbs', at_ loose (S (S n)) cbs' w')).
  - destruct (close reg); [by eapply runs_deregister_any|]. apply runs_ret. by eexists.
  - intros _ w1 [? Hw1]. eapply runs_mono; [by eapply runs_Connect_drop|]. cbn. eauto.
Qed.

(** ** The registration *)

(** After a registration that failed: one reference again, and at most one loose box. *)
Definition undone (w : World) : Prop := ∃ lost cbs, (length lost ≤ 1)%nat ∧ at_ lost 1 cbs w.

(** After one that succeeded: everything of the table, but on the test driver the close
    callback. *)
Definition registered (reg : Registration) (w : World) : Prop :=
  ∃ cbs t name, at_ [] 2 cbs w ∧ driver (turns t) = Ok name ∧ close reg = negb (bool_decide (name = lit "TEST")) ∧
    shape <$> cbs = if close reg then table else take 7 table.

Lemma runs_or_drop {B} cbs reg class event fn (k : Z → ev (result verr B)) w Q :
  (class, event, fn) ∈ table → at_ [] 2 cbs w →
  (∀ id c w', shape c = (class, event, fn) → at_ [] 2 (cbs ++ [c]) w' → runs (k id) w' Q) →
  (∀ e w', undone w' → Q (Err e) w') →
  runs (or_drop reg (register_one class event fn) k) w Q.
Proof.
  intros Ht Hw Hk Hq. unfold or_drop. eapply runs_step; [by eapply runs_register_one|].
  intros [id|e] w1; [intros (c & Hc & _ & Hw1); by eapply Hk|]. intros (lost & Hl & Hw1).
  eapply runs_step; [by eapply runs_Registration_drop|]. intros _ w2 [cbs2 Hw2]. apply runs_ret, Hq.
  exists lost, cbs2. by rewrite app_nil_r in Hw2.
Qed.

Lemma runs_register_domains events reg cbs k w Q :
  Forall (λ e : Z * Trampoline, (Domains, e.1, e.2) ∈ table) events → at_ [] 2 cbs w →
  (∀ reg' cbs' w', close reg' = close reg →
    shape <$> cbs' = (shape <$> cbs) ++ ((λ e : Z * Trampoline, (Domains, e.1, e.2)) <$> events) →
    at_ [] 2 cbs' w' → runs (k reg') w' Q) →
  (∀ e w', undone w' → Q (Err e) w') →
  runs (register_domains events reg k) w Q.
Proof.
  intros He Hw Hk Hq. revert reg cbs w Hw Hk. induction He as [|[id cb] events Ht He IH]; intros reg cbs w Hw Hk.
  - eapply Hk; [done| |exact Hw]. by rewrite app_nil_r.
  - cbn [register_domains]. eapply runs_or_drop; [exact Ht|exact Hw| |exact Hq].
    intros ret c w1 Hc Hw1. eapply IH; [exact Hw1|]. intros reg' cbs' w2 Hr Hs Hw2. eapply Hk; [done| |exact Hw2].
    rewrite Hs, fmap_app. cbn. by rewrite Hc, <- app_assoc.
Qed.

Lemma runs_Connect_clone loose n cbs w :
  at_ loose (S n) cbs w → runs Connect_clone w (λ _ w', at_ loose (S (S n)) cbs w').
Proof.
  intros Hw. eapply runs_libvirt; [exact Hw|]. intros t w1 (Hs & Hr & Hc). eexists. split; [done|].
  split; [destruct Hs; by split|]. split; [cbn; congruence|done].
Qed.

#[local] Ltac in_table := apply (bool_decide_unpack _); vm_compute; exact I.

Lemma runs_register w :
  at_ [] 1 [] w →
  runs register w (λ r w', match r with Ok reg => registered reg w' | Err _ => undone w' end).
Proof.
  intros Hw. unfold register. eapply runs_step; [by eapply runs_Connect_clone|]. cbn beta. intros _ w1 Hw1.
  eapply runs_register_domains; [|exact Hw1| |done].
  { unfold domain_events. repeat (apply Forall_cons_2; [in_table|]). apply Forall_nil_2. }
  intros reg cbs w2 Hcl Hsh Hw2. cbn [app fmap list_fmap] in Hsh.
  eapply runs_or_drop; [in_table|exact Hw2| |done]. intros nid nc w3 Hnc Hw3. cbn zeta.
  eapply runs_or_drop; [in_table|exact Hw3| |done]. intros pid pc w4 Hpc Hw4. cbn zeta.
  assert (Hsh4 : shape <$> (cbs ++ [nc]) ++ [pc] = take 7 table).
  { rewrite !fmap_app, Hsh. cbn. by rewrite Hnc, Hpc. }
  unfold or_drop at 1. apply runs_bind. eapply runs_libvirt; [exact Hw4|]. intros t w5 Hw5. eexists. split; [done|].
  destruct (driver (turns t)) as [name|e] eqn:Ed.
  - case_bool_decide as En.
    + apply runs_ret. exists ((cbs ++ [nc]) ++ [pc]), t, name. split; [exact Hw5|]. split; [done|].
      cbn [close]. rewrite Hcl. cbn [close]. by rewrite bool_decide_true.
    + eapply runs_or_drop; [in_table|exact Hw5| |done]. intros cid cc w6 Hcc Hw6. apply runs_ret.
      exists (((cbs ++ [nc]) ++ [pc]) ++ [cc]), t, name. split; [exact Hw6|]. split; [done|].
      cbn [close]. rewrite bool_decide_false by done. split; [done|]. rewrite fmap_app, Hsh4. cbn. by rewrite Hcc.
  - eapply runs_step; [by eapply runs_Registration_drop|]. intros _ w6 [cbs6 Hw6]. apply runs_ret.
    exists [], cbs6. split; [cbn; lia|done].
Qed.

Lemma opened_at : at_ [] 1 [] opened.
Proof. split; [|done]. split; cbn; [apply NoDup_nil_2|done|apply Forall_nil_2|apply Forall_nil_2]. Qed.

Lemma runs_open_events :
  runs open_events opened (λ r w,
    match r with
    | Ok reg => registered reg w
    | Err _ => ∃ lost, (length lost ≤ 1)%nat ∧ at_ lost 0 [] w
    end).
Proof.
  unfold open_events. eapply runs_step; [apply runs_register, opened_at|].
  intros [reg|e] w; [intros Hr; by apply runs_ret|]. intros (lost & cbs & Hl & Hw).
  eapply runs_step; [by eapply runs_Connect_drop|]. cbn beta. intros _ w1 Hw1. apply runs_ret. by exists lost.
Qed.

Lemma runs_session meanwhile :
  runs (session meanwhile) opened (λ r w,
    ∃ lost, (length lost ≤ 1)%nat ∧ (r = Ok tt → lost = []) ∧ at_ lost 0 [] w).
Proof.
  unfold session. eapply runs_step; [apply runs_open_events|]. intros [reg|e] w.
  - intros (cbs & _ & _ & Hw & _). destruct (moves_sound _ _ _ meanwhile w Hw) as (w1 & E1 & Hw1 & _).
    apply runs_bind. exists tt, w1. rewrite E1. split; [done|]. unfold Connection_drop.
    apply runs_bind. eapply runs_step; [by eapply runs_Registration_drop|]. intros _ w2 [cbs2 Hw2].
    eapply runs_mono; [by eapply runs_Connect_drop|]. cbn beta. intros _ w3 Hw3. apply runs_ret.
    exists []. split; [cbn; lia|done].
  - intros (lost & Hl & Hw). apply runs_ret. by exists lost.
Qed.

(** libvirt frees what it has still to free. *)
Definition settled (w : World) : option World := moves (replicate (length (removed w)) (Free 0)) w.

Lemma settled_boxes loose w :
  sound loose w → callbacks w = [] → ∃ w', settled w = Some w' ∧ boxes w' = list_to_set loose.
Proof.
  unfold settled. remember (removed w) as gone eqn:E. revert w E.
  induction gone as [|b gone IH]; intros w E Hs Hc; cbn [length replicate moves].
  - exists w. split; [done|]. destruct Hs as [_ -> _ _]. unfold owners. by rewrite Hc, <- E.
  - destruct (move_sound loose (refs w) [] (Free 0) w) as (w1 & E1 & (Hs1 & _ & Hc1) & _); [by split|].
    rewrite E1. cbn [mbind option_bind]. apply IH; [|done|done].
    cbn [move] in E1. rewrite <- E in E1. cbn in E1. unfold free_hub in E1. case_bool_decide; [|done].
    by injection E1 as <-.
Qed.

(** C4: the callbacks of a connection are safe from its opening to its end, and leak
    nothing.  Whatever calls fail, and whenever libvirt's thread calls back or frees,
    no step uses a box or the connection after it is gone, frees a box twice, or calls
    back with the arguments of another event.  At the end the connection is closed and
    libvirt holds no callback.  The boxes that are left are those that libvirt has still
    to free, each once, and at most one more: that of a register call that failed.  When
    the registration succeeded there is no such box, and none is left once libvirt has
    freed what it has to. *)
Theorem callbacks_safe meanwhile :
  ∃ r w lost, session meanwhile opened = Some (r, w) ∧
    refs w = 0%nat ∧ callbacks w = [] ∧ NoDup (removed w ++ lost) ∧ boxes w = list_to_set (removed w ++ lost) ∧
    (length lost ≤ 1)%nat ∧ (r = Ok tt → lost = []) ∧
    ∃ w', settled w = Some w' ∧ boxes w' = list_to_set lost.
Proof.
  destruct (runs_session meanwhile) as (r & w & E & lost & Hl & Ho & Hs & Hr & Hc). exists r, w, lost.
  destruct (settled_boxes lost w Hs Hc) as (w' & Hw' & Hb'). destruct Hs as [Hd Hb _ _].
  unfold owners in *. rewrite Hc in *. cbn [fmap list_fmap app] in *. split_and!; [done..|]. by exists w'.
Qed.

(** C18: the hub gets exactly libvirt's events.  After a registration that succeeded,
    libvirt holds one callback for each of the domain events 0, 1, 19, 15 and 23 (the
    lifecycle, reboots, added devices, removed devices and metadata), one for the network
    and one for the pool lifecycle, and one for the close unless it is the test driver.
    From then on, each event that libvirt tells one of them puts the event of its object
    and its codes on the hub, in order, once, and nothing else comes there; an object
    whose UUID cannot be read tells nothing. *)
Theorem events_exact reg w l :
  open_events opened = Some (Ok reg, w) →
  (∃ t name, driver (turns t) = Ok name ∧ close reg = negb (bool_decide (name = lit "TEST"))) ∧
  (λ c, (cb_class c, cb_event c)) <$> callbacks w =
    [(Domains, 0); (Domains, 1); (Domains, 19); (Domains, 15); (Domains, 23); (Networks, 0); (StoragePools, 0)] ++
    (if close reg then [(Closing, 0)] else []) ∧
  ∃ w', moves l w = Some w' ∧ hub w' = hub w ++ omap (told_by (callbacks w)) l.
Proof.
  intros E. destruct runs_open_events as (r & w1 & E1 & Hr). rewrite E in E1. injection E1 as <- <-.
  destruct Hr as (cbs & t & name & Hw & Hd & Hcl & Hsh). split; [by exists t, name|].
  assert (Hc : callbacks w = cbs) by apply Hw. split.
  - rewrite Hc. assert (Hf : (λ c, (cb_class c, cb_event c)) <$> cbs = fst <$> (shape <$> cbs))
      by (by rewrite <- list_fmap_compose). rewrite Hf, Hsh. by destruct (close reg).
  - destruct (moves_sound _ _ _ l w Hw) as (w' & El & _ & Hh & _). exists w'. by rewrite Hc.
Qed.
End callbacks.

(** ** conn.rs: the event loop of the process *)

(** What the start does, and what one turn of the thread does after its call. *)
Inductive LoopCall := ClearErrorCallback | RegisterDefaultImpl | SpawnThread.
Inductive ThreadCall := LogsError (e : verr) | Sleeps (seconds : Z).

Section event_loop.
Context `{Ipnet}.
Variables (verr_text : verr → str) (io_text : io_error → str).
(** How the n-th call in the process is answered. *)
Variables (register_impl : nat → result verr unit) (spawn : nat → result io_error unit).

(** The closure of [get_or_init]. *)
Definition init_event_loop (n : nat) : list LoopCall * result str unit :=
  match register_impl n with
  | Err e => ([ClearErrorCallback; RegisterDefaultImpl], Err (verr_text e))
  | Ok _ =>
      ([ClearErrorCallback; RegisterDefaultImpl; SpawnThread],
       map_err (λ e, lit "the OS could not start the thread: " ++ io_text e) (spawn n))
  end.

(** [start_event_loop]: [started] is the static [OnceLock]. *)
Definition start_event_loop (n : nat) (started : option (result str unit)) :
    option (result str unit) * list LoopCall * result Error unit :=
  let '(calls, r) := match started with Some r => ([], r) | None => init_event_loop n end in
  (Some r, calls, map_err EEventLoop r).

(** One turn of the thread: a failed call is logged and followed by a pause. *)
Definition loop_turn (r : result verr unit) : list ThreadCall :=
  match r with Err e => [LogsError e; Sleeps 1] | Ok _ => [] end.

(** The opens of a process, in any number. *)
Fixpoint opens (n k : nat) (started : option (result str unit)) : list LoopCall * list (result Error unit) :=
  match k with
  | O => ([], [])
  | S k =>
      let '(started, calls, r) := start_event_loop n started in
      let '(calls', rs) := opens (S n) k started in (calls ++ calls', r :: rs)
  end.

Lemma opens_started r n k : opens n k (Some r) = ([], replicate k (map_err EEventLoop r)).
Proof. revert n. induction k as [|k IH]; intros n; [done|]. cbn [opens start_event_loop]. by rewrite IH. Qed.

(** The process starts one event loop, at its first open, however many opens follow, and
    each of them gets that start's result. *)
Lemma event_loop_once k :
  opens 0 (S k) None = ((init_event_loop 0).1, replicate (S k) (map_err EEventLoop (init_event_loop 0).2)).
Proof.
  cbn [opens]. unfold start_event_loop. destruct (init_event_loop 0) as [calls r]. rewrite opens_started.
  by rewrite app_nil_r.
Qed.
End event_loop.

(** ** Witness: a reboot, and a network whose UUID cannot be read *)

Definition sample_turn (name : String.string) : Turn :=
  {| before := []; ret := 3; last_error := {| verr_code := None; verr_message := [] |};
     driver := Ok (lit name); frees := false |}.

Definition sample_uuid_string (_ : Z) : Z * list Z := (0, as_bytes (lit "6f1b") ++ [0]).

Definition sample_parse (text : str) : option Uuid := if bool_decide (text = lit "6f1b") then Some 7 else None.

Lemma events_exact_witness :
  ∃ w', (snd <$> open_events sample_uuid_string (λ _, (-1, [])) sample_uuid_string sample_parse (λ _, sample_turn "QEMU") opened)
          ≫= moves sample_uuid_string (λ _, (-1, [])) sample_uuid_string sample_parse [Fire 1 (Generic 64); Fire 5 (NetworkCodes 80 2 0)] = Some w' ∧
    hub w' = [EvDomain 7 ChangeReboot].
Proof.
  destruct (open_events sample_uuid_string (λ _, (-1, [])) sample_uuid_string sample_parse (λ _, sample_turn "QEMU") opened)
    as [[r w]|] eqn:E; [|vm_compute in E; discriminate E].
  destruct r as [reg|e]; [|vm_compute in E; discriminate E].
  destruct (events_exact _ _ _ _ _ reg w [Fire 1 (Generic 64); Fire 5 (NetworkCodes 80 2 0)] E) as (_ & _ & w' & El & Hh).
  exists w'. cbn [fmap option_fmap option_map mbind option_bind snd]. split; [exact El|]. rewrite Hh.
  vm_compute in E. injection E as _ <-. vm_compute. reflexivity.
Defined.
