(* ===== verification/Doctor.v ===== *)
(** * The host checks (crates/lodger/src/doctor.rs)

    [lodger doctor]: each check reads files below a root, or asks libvirt, and gives
    an outcome with a reason and the commands that fix it. *)

From S2P Require Import Prelude Text Os Net Validate Model Xml Http Config Tls Virt VirtPower VirtDelete VirtConn.

Definition LIBVIRT_SOCKETS : list str := [lit "run/libvirt/libvirt-sock"; lit "run/libvirt/virtqemud-sock"].
Definition PASSWD_FILE : str := lit "etc/passwd".
Definition GROUP_FILE : str := lit "etc/group".
Definition APPARMOR_ENABLED : str := lit "sys/module/apparmor/parameters/enabled".
Definition APPARMOR_ABSTRACTION : str := lit "etc/apparmor.d/abstractions/libvirt-qemu".
Definition APPARMOR_LOCAL : str := lit "etc/apparmor.d/local/abstractions/libvirt-qemu".
Definition VHOST_RULE : str := lit "/dev/vhost-net rw,".
Definition SELINUX_ENFORCE : str := lit "sys/fs/selinux/enforce".
Definition SELINUX_NFS : str := lit "sys/fs/selinux/booleans/virt_use_nfs".
Definition REVERT_VERSION : Z * Z * Z := (9, 9, 0).
(** Thirty days, in seconds. *)
Definition TLS_WARNING : Z := 30 * 24 * 60 * 60.

Inductive Outcome := Pass | Failed | Skip.
#[export] Instance Outcome_eq_dec : EqDecision Outcome.
Proof. solve_decision. Defined.

Record Check := { check_name : str; outcome_of : Outcome; reason : str; fix_ : list str }.

Definition Check_pass (name reason : str) : Check :=
  {| check_name := name; outcome_of := Pass; reason := reason; fix_ := [] |}.
Definition Check_skip (name reason : str) : Check :=
  {| check_name := name; outcome_of := Skip; reason := reason; fix_ := [] |}.
Definition Check_fail (name reason : str) (fixes : list str) : Check :=
  {| check_name := name; outcome_of := Failed; reason := reason; fix_ := fixes |}.

(** ** /etc/passwd and /etc/group *)

(** [entry]: the fields of the first line with this name. *)
Definition entry (text name : str) : option (list str) :=
  find (λ fields : list str, bool_decide (head fields = Some name)) (split 58 <$> lines text).

Definition lists_member (fields : list str) : bool :=
  match fields !! 3%nat with
  | Some members => existsb (λ m, bool_decide (m = lit "lodger")) (split 44 members)
  | None => false
  end.

(** [Account] and [service_account]. *)
Record Account := { uid : Z; gids : list Z }.

Definition account_in (users groups : str) : option Account :=
  user ← entry users (lit "lodger");
  primary ← user !! 3%nat ≫= parse_unsigned U32_MAX;
  uid ← user !! 2%nat ≫= parse_unsigned U32_MAX;
  let listed := omap (λ line, let fields := split 58 line in
                              if lists_member fields then fields !! 2%nat ≫= parse_unsigned U32_MAX else None)
                  (lines groups) in
  Some {| uid := uid; gids := primary :: listed |}.

Section root.
Variable root : str.

Definition read_below (file : str) : os (result io_error str) := read_to_string (join_path root file).
Definition read_or_empty (file : str) : os str := r ← read_below file; mret (or_empty r).

Definition service_account : os (option Account) :=
  users ← read_or_empty PASSWD_FILE;
  groups ← read_or_empty GROUP_FILE;
  mret (account_in users groups).

(** ** The checks of files *)

(** The first path that exists. *)
Fixpoint first_existing (paths : list str) : os (option str) :=
  match paths with
  | [] => mret None
  | p :: rest =>
      there ← exists_ (join_path root p);
      if (there : bool) then mret (Some p) else first_existing rest
  end.

Definition socket : os Check :=
  let NAME := lit "libvirt socket" in
  found ← first_existing LIBVIRT_SOCKETS;
  mret match found with
       | Some found => Check_pass NAME (lit "/" ++ found ++ lit " exists")
       | None => Check_fail NAME (lit "there is no libvirt socket in /run/libvirt, so libvirt does not run")
           [lit "sudo systemctl enable --now libvirtd.socket  # or virtqemud.socket with the modular daemons"]
       end.

(** The decision of [group], from the two files. *)
Definition group_check (users groups : str) : Check :=
  let NAME := lit "libvirt group" in
  match entry groups (lit "libvirt") with
  | None => Check_fail NAME (lit "the libvirt group does not exist. The libvirt daemon package creates it") []
  | Some libvirt =>
      match entry users (lit "lodger") with
      | None => Check_fail NAME
          (lit "the lodger user does not exist, so the service cannot run. `lodger install` creates it")
          [lit "sudo lodger install"]
      | Some lodger =>
          if bool_decide (lodger !! 3%nat = libvirt !! 2%nat) || lists_member libvirt
          then Check_pass NAME (lit "the lodger user is a member of the libvirt group")
          else Check_fail NAME
            (lit "the lodger user is not a member of the libvirt group, so it cannot reach libvirt")
            [lit "sudo usermod -aG libvirt lodger"; lit "sudo systemctl restart lodger"]
      end
  end.

Definition group : os Check :=
  users ← read_or_empty PASSWD_FILE;
  groups ← read_or_empty GROUP_FILE;
  mret (group_check users groups).

(** [has_vhost_rule]. *)
Definition has_vhost_rule (text : str) : bool :=
  existsb (λ line,
    match strip_suffix (lit ",") (trim (default [] (head (split 35 line)))) with
    | None => false
    | Some rule =>
        match words rule with
        | path :: perms :: _ =>
            bool_decide (path = lit "/dev/vhost-net") && contains_char 114 perms && contains_char 119 perms
        | _ => false
        end
    end) (lines text).

Definition apparmor : os Check :=
  let NAME := lit "AppArmor vhost rule" in
  enabled ← read_or_empty APPARMOR_ENABLED;
  if negb (bool_decide (trim enabled = lit "Y")) then mret (Check_skip NAME (lit "AppArmor is not active"))
  else
    abstraction ← read_below APPARMOR_ABSTRACTION;
    match abstraction with
    | Err _ => mret (Check_skip NAME (lit "libvirt uses no AppArmor abstraction on this host"))
    | Ok abstraction =>
        local ← read_or_empty APPARMOR_LOCAL;
        if has_vhost_rule abstraction || has_vhost_rule local
        then mret (Check_pass NAME (lit "AppArmor lets QEMU open /dev/vhost-net, so NIC hot-plug works"))
        else mret (Check_fail NAME
          (lit "AppArmor blocks /dev/vhost-net, so a NIC hot-plug fails. Add the rule `" ++ VHOST_RULE ++
           lit "` to /" ++ APPARMOR_LOCAL ++ lit "; a VM gets it at its next start")
          [lit "sudo mkdir -p /etc/apparmor.d/local/abstractions";
           lit "printf '\n/dev/vhost-net rw,\n' | sudo tee -a /etc/apparmor.d/local/abstractions/libvirt-qemu"])
    end.

Definition selinux : os Check :=
  let NAME := lit "SELinux virt_use_nfs" in
  enforce ← read_below SELINUX_ENFORCE;
  match enforce with
  | Err _ => mret (Check_skip NAME (lit "SELinux is not active"))
  | Ok enforce =>
      if bool_decide (trim enforce = lit "0")
      then mret (Check_pass NAME (lit "SELinux is permissive, so it blocks no NFS disk"))
      else
        value ← read_below SELINUX_NFS;
        mret match value with
             | Err _ => Check_skip NAME (lit "the SELinux policy has no virt_use_nfs boolean")
             | Ok value =>
                 if bool_decide (head (words value) = Some (lit "1"))
                 then Check_pass NAME (lit "virt_use_nfs is on, so VMs can use disks on NFS")
                 else Check_fail NAME
                   (lit "virt_use_nfs is off, so VMs cannot use disks on NFS. Ignore this if no storage pool is on NFS")
                   [lit "sudo setsebool -P virt_use_nfs 1"]
             end
  end.

(** [host_checks]. *)
Definition host_checks : os (list Check) :=
  a ← socket; b ← group; c ← apparmor; d ← selinux; mret [a; b; c; d].

(** ** Whether the service can read a file *)

(** The class that counts: the owner's bits for the owner, even when the group's
    would allow. *)
Definition allows (account : Account) (meta : node) (owner group other : Z) : bool :=
  let '(mode, u, g) := match meta with File _ m u g | Folder m u g => (m, u, g) end in
  let bit := if u =? uid account then owner else if bool_decide (g ∈ gids account) then group else other in
  negb (Z.land mode bit =? 0).

(** [HIDDEN_BY_UNIT] and [hidden_by_unit]. *)
Definition HIDDEN_BY_UNIT : list str :=
  [lit "home"; lit "root"; lit "run/user"; lit "tmp"; lit "var/tmp"].
Definition hidden_by_unit (path : str) : option str :=
  find (λ tree, path_starts_with path tree) (join_path root <$> HIDDEN_BY_UNIT).

(** The folders of [unreadable] whose search bit counts. *)
Definition folders (path target : str) : list str :=
  filter (λ d, d ≠ []) (tail (ancestors path) ++ tail (ancestors target)).

Fixpoint closed_folder (account : Account) (path : str) (dirs : list str) : os (option str) :=
  match dirs with
  | [] => mret None
  | dir :: rest =>
      meta ← metadata dir;
      match meta with
      | Ok meta =>
          if allows account meta 64 8 1 then closed_folder account path rest
          else mret (Some (lit "the lodger user cannot open the folder " ++ dir ++ lit ", so it cannot read " ++ path))
      | Err e => mret (Some (cannot_read dir e))
      end
  end.

Definition hidden_reason (seen tree : str) : str :=
  seen ++ lit " is below " ++ tree ++ lit ", which the service cannot see (ProtectHome=yes and PrivateTmp=yes in its unit)".

(** [unreadable]. *)
Definition unreadable (path : str) (account : Account) : os (option str) :=
  target ← canonicalize path;
  match target with
  | Err e => mret (Some (cannot_read path e))
  | Ok target =>
      written ← absolute path;
      let written := match written with Ok w => w | Err _ => path end in
      match hidden_by_unit written, hidden_by_unit target with
      | Some tree, _ => mret (Some (hidden_reason written tree))
      | None, Some tree => mret (Some (hidden_reason target tree))
      | None, None =>
          closed ← closed_folder account path (folders path target);
          match closed with
          | Some why => mret (Some why)
          | None =>
              meta ← metadata target;
              mret match meta with
                   | Ok meta => if allows account meta 256 32 4 then None
                                else Some (lit "the lodger user cannot read " ++ path)
                   | Err e => Some (cannot_read path e)
                   end
          end
      end
  end.

(** ** The TLS pair *)

Section tls_check.
Context `{TlsLib}.

Definition TLS_NAME : str := lit "TLS certificate".
Definition FIX : str := lit "replace the certificate and key named by tls_cert and tls_key in /etc/lodger/config.toml, then run: sudo systemctl restart lodger".
Definition READ_FIX : str := lit "copy the pair to /etc/lodger/tls/, give the key to the lodger user (sudo chown lodger: key.pem, sudo chmod 0600 key.pem), set tls_cert and tls_key to the copies, then run: sudo systemctl restart lodger".
Definition NEW_PAIR : str := lit "or make a new self-signed pair (the browser then shows a new fingerprint). If tls_cert and tls_key name your own certificate, first remove them and move that pair away, then run: sudo lodger install --self-signed <ip-or-name>".

(** The end of the validity against the clock; times are seconds. *)
Definition validity_check (cert : str) (end_ now : Z) : Check :=
  if end_ <=? now
  then Check_fail TLS_NAME (cert ++ lit " expired on " ++ date_text end_) [FIX; NEW_PAIR]
  else if end_ <=? now + TLS_WARNING
  then Check_fail TLS_NAME (cert ++ lit " expires on " ++ date_text end_ ++ lit ", in less than 30 days") [FIX; NEW_PAIR]
  else Check_pass TLS_NAME (cert ++ lit " is valid until " ++ date_text end_).

(** The first file of the pair that the service cannot read. *)
Definition unreadable_pair (files : TlsFiles) : os (option str) :=
  account ← service_account;
  match account with
  | None => mret None
  | Some account =>
      first ← unreadable (cert files) account;
      match first with
      | Some why => mret (Some why)
      | None => unreadable (key files) account
      end
  end.

(** [tls_certificate]. *)
Definition tls_certificate (tls : option TlsFiles) (now : Z) : os Check :=
  match tls with
  | None => mret (Check_skip TLS_NAME (lit "TLS is off: the configuration sets no tls_cert and tls_key"))
  | Some files =>
      config ← server_config files;
      match config with
      | Err e => mret (Check_fail TLS_NAME e [FIX; NEW_PAIR])
      | Ok _ =>
          why ← unreadable_pair files;
          match why with
          | Some why => mret (Check_fail TLS_NAME why [READ_FIX])
          | None =>
              end_ ← Tls.not_after (cert files);
              mret match end_ with
                   | Err e => Check_fail TLS_NAME e [FIX; NEW_PAIR]
                   | Ok end_ => validity_check (cert files) end_ now
                   end
          end
      end
  end.
End tls_check.
End root.

(** ** libvirt *)

Section libvirt.
Context `{Ipnet} `{Fmt}.

(** [parse_version]. *)
Definition parse_version (text : str) : option (Z * Z * Z) :=
  match parse_unsigned U32_MAX <$> split 46 text with
  | [Some a; Some b; Some c] => Some (a, b, c)
  | _ => None
  end.

(** The order of tuples. *)
Definition version_ge (v w : Z * Z * Z) : bool :=
  let '(a, b, c) := v in let '(x, y, z) := w in
  (x <? a) || (a =? x) && ((y <? b) || (b =? y) && (z <=? c)).

Definition revert (version : str) : Check :=
  let NAME := lit "snapshot revert" in
  let '(a, b, c) := REVERT_VERSION in
  match parse_version version with
  | Some v =>
      if version_ge v REVERT_VERSION
      then Check_pass NAME (lit "libvirt " ++ version ++ lit " reverts external snapshots")
      else Check_fail NAME
        (lit "libvirt " ++ version ++ lit " cannot revert external snapshots, so Lodger disables Revert. It needs libvirt " ++
         to_string a ++ lit "." ++ to_string b ++ lit "." ++ to_string c ++ lit " or newer") []
  | None => Check_fail NAME (lit "cannot read the libvirt version " ++ debug_str version) []
  end.

(** [libvirt_checks]. *)
Definition libvirt_checks (uri : str) : virt (list Check) :=
  let NAME := lit "libvirt connection" in
  opened ← VirtConn.open uri;
  info ← match opened with Ok _ => host_info | Err e => mret (Err e) end;
  mret match info with
       | Ok info => [Check_pass NAME (uri ++ lit " answers with libvirt " ++ libvirt_version info);
                     revert (libvirt_version info)]
       | Err e => [Check_fail NAME (lit "cannot connect to " ++ uri ++ lit ": " ++ Error_to_string e)
                     [lit "sudo lodger doctor  # root, or a member of the libvirt group, can connect"];
                   Check_skip (lit "snapshot revert") (lit "the libvirt version needs a connection")]
       end.
End libvirt.

(** ** The report *)

Definition label (o : Outcome) : str :=
  match o with Pass => lit "PASS" | Failed => lit "FAIL" | Skip => lit "SKIP" end.

Definition report (checks : list Check) : str :=
  checks ≫= λ c,
    label (outcome_of c) ++ lit "  " ++ check_name c ++ lit ": " ++ reason c ++ [10] ++
    (fix_ c ≫= λ f, lit "      fix: " ++ f ++ [10]).

Definition count (o : Outcome) (checks : list Check) : Z :=
  Z.of_nat (length (filter (λ c, outcome_of c = o) checks)).

Definition summary (checks : list Check) : str :=
  to_string (count Pass checks) ++ lit " passed, " ++ to_string (count Failed checks) ++ lit " failed, " ++
  to_string (count Skip checks) ++ lit " skipped".

Section run.
Context `{Ipnet} `{TlsLib}.
Variable toml_from_str : str → result str ConfigFile.
Variable parse_uri : str → option Uri.
Variable debug_fmt : str → str.

(** [run]: what it prints and how it ends.  [libvirt] is how [libvirt_checks] ends
    for a URI, or why there is no runtime to run it. *)
Definition run (overrides : Overrides) (now : Z) (libvirt : str → result str (list Check)) :
    os (str * result str str) :=
  config ← load toml_from_str parse_uri debug_fmt overrides None;
  match config with
  | Err e => mret ([], Err e)
  | Ok config =>
      files ← host_checks [47];
      pair ← tls_certificate [47] (tls config) now;
      mret match libvirt (Config.uri config) with
           | Err e => ([], Err (lit "cannot start the async runtime: " ++ e))
           | Ok connected =>
               let checks := files ++ [pair] ++ connected in
               (report checks,
                if bool_decide (count Failed checks = 0) then Ok (summary checks) else Err (summary checks))
           end
  end.
End run.

(** ** Doctor only looks *)

Lemma read_below_looks root file : looks (read_below root file).
Proof. apply looks_look. Qed.
Lemma read_or_empty_looks root file : looks (read_or_empty root file).
Proof. apply looks_bind; [apply looks_look|done]. Qed.
#[export] Hint Resolve read_below_looks read_or_empty_looks : looks.

Lemma first_existing_looks root paths : looks (first_existing root paths).
Proof. induction paths as [|p paths IH]; [done|]. cbn [first_existing]. looks. Qed.
#[export] Hint Resolve first_existing_looks : looks.

Lemma host_checks_looks root : looks (host_checks root).
Proof. unfold host_checks, socket, group, apparmor, selinux. looks. Qed.

Lemma closed_folder_looks account path dirs : looks (closed_folder account path dirs).
Proof. induction dirs as [|d dirs IH]; [done|]. cbn [closed_folder]. unfold metadata. looks. Qed.
#[export] Hint Resolve host_checks_looks closed_folder_looks : looks.

Lemma unreadable_looks root path account : looks (unreadable root path account).
Proof. unfold unreadable, canonicalize, absolute, metadata. looks. Qed.
#[export] Hint Resolve unreadable_looks : looks.

Lemma tls_certificate_looks `{TlsLib} root tls now : looks (tls_certificate root tls now).
Proof. unfold tls_certificate, unreadable_pair, service_account. looks. Qed.
#[export] Hint Resolve tls_certificate_looks : looks.

Lemma count_zero checks : count Failed checks = 0 ↔ Forall (λ c, outcome_of c ≠ Failed) checks.
Proof.
  unfold count. rewrite Forall_forall. split.
  - intros Hc c Hin Hf.
    assert (Hx : c ∈ filter (λ c, outcome_of c = Failed) checks) by by apply list_elem_of_filter.
    destruct (filter _ checks); [by apply not_elem_of_nil in Hx|cbn in Hc; lia].
  - intros Hall. destruct (filter _ checks) as [|c rest] eqn:E; [done|]. exfalso.
    assert (Hc : c ∈ filter (λ c, outcome_of c = Failed) checks) by (rewrite E; left).
    apply list_elem_of_filter in Hc as [? Hc]. by apply (Hall c).
Qed.

(** Doctor changes nothing.  Whatever the settings, the files and libvirt are, a
    run of [lodger doctor] leaves every file as it was and starts no program; when
    the settings cannot be read it prints no check; and otherwise it ends with success
    exactly when no check failed. *)
Theorem doctor_only_looks `{Ipnet} `{TlsLib} toml uri debug overrides now libvirt e w n :
  let '(printed, ended, w', _) := os_exec (run toml uri debug overrides now libvirt) e w n in
  w' = w ∧
  (printed = [] ∧ is_ok ended = false ∨
   ∃ checks, printed = report checks ∧ ended = (if bool_decide (count Failed checks = 0) then Ok (summary checks) else Err (summary checks)) ∧
     (is_ok ended = true ↔ Forall (λ c, outcome_of c ≠ Failed) checks)).
Proof.
  assert (Hl : looks (run toml uri debug overrides now libvirt)) by (unfold run; looks).
  pose proof (looks_exec _ e w n Hl) as Hw.
  assert (Hq : wpc (λ _, True) (λ _, True) (run toml uri debug overrides now libvirt)
    (λ a _, a.1 = [] ∧ is_ok a.2 = false ∨ ∃ checks, a.1 = report checks ∧
       a.2 = if bool_decide (count Failed checks = 0) then Ok (summary checks) else Err (summary checks)) w).
  { unfold run. apply wpc_bind, wpc_looks; [auto with looks|done|]. intros [config|err]; [|by apply wpc_ret; [|left]].
    apply wpc_bind, wpc_looks; [auto with looks|done|]. intros files.
    apply wpc_bind, wpc_looks; [auto with looks|done|]. intros pair.
    apply wpc_ret; [done|]. destruct (libvirt _) as [connected|err]; [right|by left]. by eexists. }
  apply (wpc_exec _ _ _ _ w e n (λ _, I)) in Hq.
  destruct (os_exec _ _ _ _) as [[[printed ended] w'] n']. cbn in *. split; [done|].
  destruct Hq as [?|(checks & -> & ->)]; [by left|right]. exists checks. split_and!; [done..|].
  rewrite <- count_zero. by case_bool_decide.
Qed.

(** ** What the service may read *)

(** The permission bit of a node that the kernel asks for: 0 to search a folder, 2 to
    read a file, in the class of the account. *)
Definition grants (account : Account) (meta : node) (bit : Z) : Prop :=
  let '(mode, u, g) := match meta with File _ m u g | Folder m u g => (m, u, g) end in
  Z.testbit mode ((if u =? uid account then 6 else if bool_decide (g ∈ gids account) then 3 else 0) + bit) = true.

Lemma land_pow2 m k : 0 ≤ k → (Z.land m (2 ^ k) =? 0) = negb (Z.testbit m k).
Proof.
  intros Hk. destruct (Z.testbit m k) eqn:Em; cbn [negb].
  - apply Z.eqb_neq. intros E. apply (f_equal (λ x, Z.testbit x k)) in E.
    rewrite Z.land_spec, Em, Z.pow2_bits_true, Z.bits_0 in E by done. done.
  - apply Z.eqb_eq. apply Z.bits_inj'. intros j Hj. rewrite Z.land_spec, Z.pow2_bits_eqb, Z.bits_0 by done.
    destruct (Z.eqb_spec k j) as [->|]; [by rewrite Em|apply andb_false_r].
Qed.

Lemma allows_grants account meta bit :
  0 ≤ bit →
  allows account meta (2 ^ (6 + bit)) (2 ^ (3 + bit)) (2 ^ (0 + bit)) = true ↔ grants account meta bit.
Proof.
  intros Hb. unfold allows, grants.
  destruct (match meta with File _ m u g | Folder m u g => (m, u, g) end) as [[mode u] g].
  destruct (u =? uid account); [|case_bool_decide]; rewrite land_pow2, negb_involutive by lia; done.
Qed.

(** A part of a path that names something. *)
Definition real (part : str) : Prop := part ≠ [] ∧ part ≠ lit ".".

(** [dir] is one of the folders on the way to [path], as the path is written: the parts
    before a [/], up to a part that names a folder (or the first one, the root or [.]),
    as long as a name follows. *)
Definition folder_of (path dir : str) : Prop :=
  ∃ up rest, split 47 path = up ++ rest ∧ Exists real rest ∧ dir ≠ [] ∧
    dir = (if decide (up = [[]]) then [47] else join [47] up) ∧
    (length up = 1%nat ∨ ∃ name, last up = Some name ∧ real name).

Lemma clean_end_unreal parts : ∃ junk, parts = junk ++ clean_end parts ∧ Forall (λ p, ¬ real p) junk.
Proof.
  induction parts as [|p parts IH]; [by exists []|]. destruct parts as [|q rest]; [by exists []|].
  cbn [clean_end]. destruct (_ || _) eqn:E; [|by exists []].
  destruct IH as (junk & Ej & Hj). exists (p :: junk). split; [by rewrite Ej at 1|].
  apply Forall_cons_2; [|done]. unfold real. apply orb_true_iff in E as [->%bool_decide_eq_true| ->%bool_decide_eq_true]; naive_solver.
Qed.

Lemma clean_end_real parts p q rest : clean_end parts = p :: q :: rest → real p.
Proof.
  induction parts as [|x parts IH]; [done|]. destruct parts as [|y parts]; [done|]. cbn [clean_end] in *.
  destruct (bool_decide (x = [])) eqn:Ex; [exact IH|]. cbn [orb].
  destruct (bool_decide (x = lit ".")) eqn:Ey; [exact IH|]. intros [= <- _ _].
  by apply bool_decide_eq_false in Ex, Ey.
Qed.

Lemma join_nil ps : ps ≠ [] → join [47] ps = [] → ps = [[]].
Proof.
  destruct ps as [|p ps]; [done|]. intros _. destruct ps as [|q ps]; [change (join [47] [p]) with p; by intros ->|].
  rewrite (join_cons 47 p (q :: ps)) by done. by destruct p.
Qed.

(** The parts of a path with a parent: those of the parent, then one name among parts
    without meaning. *)
Lemma parent_parts s :
  match parent s with
  | None | Some [] => ∀ dir, ¬ folder_of s dir
  | Some up => ∃ parts junk1 name junk2, split 47 s = parts ++ junk1 ++ name :: junk2 ∧
      Forall (λ p, ¬ real p) (junk1 ++ junk2) ∧ real name ∧
      (length parts = 1%nat ∨ ∃ name, last parts = Some name ∧ real name) ∧
      up = (if decide (parts = [[]]) then [47] else join [47] parts)
  end.
Proof.
  unfold parent. destruct (clean_end_unreal (reverse (split 47 s))) as (k & Ek & Hk).
  pose proof (clean_end_real (reverse (split 47 s))) as Hreal.
  destruct (clean_end (reverse (split 47 s))) as [|p [|q rest]] eqn:Ec.
  - destruct (reverse (split 47 s)) as [|x l] eqn:Er; [|by apply clean_end_not_nil in Ec].
    apply (f_equal reverse) in Er. rewrite reverse_involutive in Er. by apply split_not_nil in Er.
  - assert (Hs : split 47 s = p :: reverse k).
    { apply (f_equal reverse) in Ek. by rewrite reverse_involutive, reverse_app in Ek. }
    assert (Hno : ∀ dir, ¬ folder_of s dir).
    { intros dir (up & rest & E & Hex & Hne & -> & _). destruct up as [|u up]; [done|].
      rewrite Hs in E. injection E as -> E. apply Forall_reverse in Hk. rewrite E in Hk.
      apply Forall_app in Hk as [_ Hk]. apply Exists_exists in Hex as (x & Hx & Hr).
      rewrite Forall_forall in Hk. by apply (Hk x). }
    by case_bool_decide.
  - specialize (Hreal p q rest eq_refl). destruct (clean_end_unreal (q :: rest)) as (k2 & Ek2 & Hk2).
    assert (HP : length (reverse (clean_end (q :: rest))) = 1%nat ∨
      ∃ name, last (reverse (clean_end (q :: rest))) = Some name ∧ real name).
    { pose proof (clean_end_real (q :: rest)) as Hr. destruct (clean_end (q :: rest)) as [|x [|y l]] eqn:E2;
        [by apply clean_end_not_nil in E2|by left|right]. exists x. split; [|by eapply Hr].
      by rewrite reverse_cons, last_snoc. }
    assert (Hs : split 47 s = reverse (clean_end (q :: rest)) ++ reverse k2 ++ p :: reverse k).
    { apply (f_equal reverse) in Ek. rewrite reverse_involutive, reverse_app, reverse_cons, Ek2, reverse_app in Ek.
      by rewrite Ek, <- !app_assoc. }
    set (P := reverse (clean_end (q :: rest))) in *. clearbody P.
    assert (HPn : P ≠ []) by (intros ->; by destruct HP as [|(? & [=] & _)]).
    assert (Hup : (if bool_decide (join [47] P = []) && rooted s then [47] else join [47] P) =
      (if decide (P = [[]]) then [47] else join [47] P)).
    { destruct (decide (P = [[]])) as [->|HPe].
      - rewrite bool_decide_true by done. cbn [andb]. rewrite <- (join_split 47 s), Hs.
        cbn [app]. rewrite join_cons by (by destruct (reverse k2)). done.
      - rewrite bool_decide_false by (intros ?; by apply HPe, join_nil). done. }
    cbv zeta. rewrite Hup.
    assert (Hne : (if decide (P = [[]]) then [47] else join [47] P) ≠ []).
    { destruct (decide (P = [[]])) as [|HPe]; [done|]. intros ?. by apply HPe, join_nil. }
    destruct (if decide (P = [[]]) then [47] else join [47] P) as [|c up] eqn:Eup; [done|].
    exists P, (reverse k2), p, (reverse k). rewrite Eup. split_and!; try done.
    apply Forall_app_2; by apply Forall_reverse.
Qed.

(** The folders on the way to a path are the parent and those on the way to it. *)
Lemma folder_of_parent s dir :
  folder_of s dir ↔ ∃ up, parent s = Some up ∧ up ≠ [] ∧ (dir = up ∨ folder_of up dir).
Proof.
  pose proof (parent_parts s) as Hp. destruct (parent s) as [[|c up]|].
  1, 3: split; [intros Hf; by apply Hp in Hf|by intros (? & [= <-] & ? & _)].
  destruct Hp as (P & k2 & p & k & Hs & Hjunk & Hreal & HP & Hup). apply Forall_app in Hjunk as [Hk2 Hk].
  set (u := c :: up) in *. assert (Hune : u ≠ []) by done. clearbody u.
  assert (HPn : P ≠ []) by (intros ->; by destruct HP as [|(? & [=] & _)]).
  assert (Hnot : ∀ l, Forall (λ p, ¬ real p) l → ¬ Exists real l).
  { intros l Hl (x & Hx & Hr)%Exists_exists. rewrite Forall_forall in Hl. by apply (Hl x). }
  assert (Hu : split 47 u = if decide (P = [[]]) then [[]; []] else P).
  { rewrite Hup. destruct (decide (P = [[]])); [done|]. apply split_join; [done|].
    pose proof (split_parts 47 s) as Hsp. rewrite Hs in Hsp. by apply Forall_app in Hsp as [? _]. }
  transitivity (dir = u ∨ folder_of u dir); [|split; [intros Hd; by exists u|by intros (? & [= <-] & _ & Hd)]]. split.
  - intros (up' & rest & E & Hex & Hne & Hd & Hl). rewrite Hs in E.
    assert (Hupn : up' ≠ []) by (intros ->; by destruct Hl as [|(? & [=] & _)]).
    apply app_eq_inv in E as [(mid & -> & E)|(mid & -> & E)].
    + (* the folder is the parent or above it *)
      destruct mid as [|x mid]; [left; by rewrite app_nil_r in *; subst|]. right.
      exists up', (x :: mid). assert (HPe : up' ++ x :: mid ≠ [[]]) by (destruct up' as [|? [|]]; done).
      rewrite Hu, decide_False by done. split_and!; [done| |done..].
      destruct HP as [HP|(nm & HP & Hnm)].
      { rewrite length_app in HP. destruct up'; [done|]. cbn in HP. lia. }
      rewrite last_app_cons in HP. apply Exists_exists. exists nm. split; [by apply last_Some_elem_of|done].
    + (* it would end in what has no meaning *)
      destruct mid as [|x mid]; [left; by rewrite app_nil_r in *; subst|]. exfalso.
      destruct Hl as [Hl|(nm & Hl & Hnm)].
      { rewrite length_app in Hl. destruct P; [done|]. cbn in Hl. lia. }
      rewrite last_app_cons in Hl. symmetry in E. apply app_eq_inv in E as [(m2 & Ea & Eb)|(m2 & Ea & Eb)].
      * destruct m2 as [|y m2].
        -- rewrite app_nil_r in Ea. rewrite Ea in Hl. rewrite Forall_forall in Hk2.
           by apply (Hk2 nm); [apply last_Some_elem_of|].
        -- injection Eb as <- Eb. revert Hex. apply Hnot. rewrite Eb in Hk. by apply Forall_app in Hk as [_ ?].
      * rewrite Ea in Hk2. apply Forall_app in Hk2 as [Hk2 _]. rewrite Forall_forall in Hk2.
        by apply (Hk2 nm); [apply last_Some_elem_of|].
  - intros [->|(up' & rest & E & Hex & Hne & Hd & Hl)].
    + exists P, (k2 ++ p :: k). split_and!; [done| |done..]. apply Exists_app. right. by left.
    + rewrite Hu in E. destruct (decide (P = [[]])) as [->|HPe].
      { exfalso. revert Hex. apply Hnot. assert (Hun : Forall (λ p, ¬ real p) [[]; []]).
        { apply Forall_cons_2; [by intros []|]. by apply Forall_singleton; intros []. }
        rewrite E in Hun. by apply Forall_app in Hun as [_ ?]. }
      exists up', (rest ++ k2 ++ p :: k). split_and!; [by rewrite app_assoc, <- E|apply Exists_app; by left|done..].
Qed.

Lemma elem_of_folders s dir : dir ∈ filter (λ d, d ≠ []) (tail (ancestors s)) ↔ folder_of s dir.
Proof.
  unfold ancestors.
  assert (Hn : ∀ n s, (length s ≤ n)%nat → dir ∈ filter (λ d, d ≠ []) (tail (ancestors_fuel n s)) ↔ folder_of s dir); [|by apply Hn].
  clear s. induction n as [|n IH]; intros s Hl.
  - assert (s = []) as -> by (by apply nil_length_inv; lia). rewrite folder_of_parent. cbn. set_solver.
  - cbn [ancestors_fuel tail]. rewrite folder_of_parent. destruct (parent s) as [up|] eqn:Ep.
    2: { split; [intros Hx; by apply elem_of_nil in Hx|by intros (? & [=] & _)]. }
    pose proof (parent_shorter s up Ep).
    assert (Hcons : ∀ m, ancestors_fuel m up = up :: tail (ancestors_fuel m up)) by by destruct m.
    rewrite Hcons. rewrite filter_cons. destruct (decide (up ≠ [])) as [Hne|Hne].
    + rewrite elem_of_cons, IH by lia. split; [intros Hd; by exists up|by intros (? & [= <-] & _ & Hd)].
    + assert (up = []) as -> by (destruct up; [done|]; by destruct Hne).
      split; [|by intros (? & [= <-] & ? & _)]. intros Hx. exfalso. apply (IH []) in Hx; [|cbn; lia].
      apply folder_of_parent in Hx as (? & E & _). cbn in E. done.
Qed.

Section readable.
Variable root : str.

(** The folders that the unit of the service hides: ProtectHome=yes and PrivateTmp=yes. *)
Definition hidden_folders : list str := [lit "home"; lit "root"; lit "run/user"; lit "tmp"; lit "var/tmp"].

(** The service can open a file: the path leads to a file, neither the path as written
    nor the file behind its links is below a hidden folder, the account may search every
    folder on the way of both, and it may read the file. *)
Definition service_can_read (account : Account) (e : os_env) (f : gmap str node) (path : str) : Prop :=
  ∃ target, Os.canonical e path = Ok target ∧
    (∀ seen, seen ∈ [match absolute_from (cwd e) path with Ok w => w | Err _ => path end; target] →
       ∀ tree, tree ∈ hidden_folders → path_starts_with seen (join_path root tree) = false) ∧
    (∀ dir, folder_of path dir ∨ folder_of target dir → ∃ meta, f !! dir = Some meta ∧ grants account meta 0) ∧
    ∃ meta, f !! target = Some meta ∧ grants account meta 2.

Lemma hidden_None seen :
  hidden_by_unit root seen = None ↔ ∀ tree, tree ∈ hidden_folders → path_starts_with seen (join_path root tree) = false.
Proof.
  change hidden_folders with HIDDEN_BY_UNIT. unfold hidden_by_unit. rewrite find_None_Forall, Forall_forall. split.
  - intros Ha tree Ht. apply Ha. apply list_elem_of_fmap. by exists tree.
  - intros Ha x Hx. apply list_elem_of_fmap in Hx as (tree & -> & Ht). by apply Ha.
Qed.

Lemma closed_folder_None e w account path dirs :
  fault e = None →
  peek e w (closed_folder account path dirs) = None ↔
  ∀ dir, dir ∈ dirs → ∃ meta, fs w !! dir = Some meta ∧ grants account meta 0.
Proof.
  intros He. induction dirs as [|d dirs IH]; cbn [closed_folder]; [split; [intros _ dir Hd; by apply not_elem_of_nil in Hd|done]|].
  rewrite peek_bind. unfold metadata. rewrite peek_look. unfold or_fault. rewrite He.
  destruct (fs w !! d) as [meta|] eqn:Em; cbn [ok_or].
  - destruct (allows account meta 64 8 1) eqn:Ea.
    + apply (allows_grants account meta 0) in Ea; [|done]. rewrite IH. set_solver.
    + split; [done|]. intros Hall. destruct (Hall d ltac:(left)) as (meta' & Em' & Hg). simplify_eq.
      apply (allows_grants account meta 0) in Hg; [|done]. change (allows account meta 64 8 1 = true) in Hg. congruence.
  - split; [done|]. intros Hall. destruct (Hall d ltac:(left)) as (meta' & ? & _). congruence.
Qed.

(** C32: doctor's answer about a TLS file is exact.  In a system whose calls do not fail
    by themselves, [unreadable] finds nothing against a path exactly when the account of
    the service can open it: neither the path as written nor the file at the end of its
    links is below /home, /root, /run/user, /tmp or /var/tmp, the account may search every
    folder on the way of both, and it may read the file, by the owner's, the group's or
    the other bits.  (Folders that only a link in between leads through, and access
    control lists, are not looked at.) *)
Theorem unreadable_exact account e w path n :
  fault e = None →
  (os_exec (unreadable root path account) (λ _, e) w n).1.1 = None ↔
  service_can_read account e (fs w) path.
Proof.
  intros He. rewrite looks_peek by apply unreadable_looks. cbn [fst].
  unfold unreadable, service_can_read. rewrite peek_bind. unfold canonicalize. rewrite peek_look.
  unfold or_fault. rewrite He. destruct (Os.canonical e path) as [target|err].
  2: { split; [done|]. by intros (? & ? & _). }
  rewrite peek_bind. unfold absolute. rewrite peek_look.
  set (written := match absolute_from (cwd e) path with Ok w => w | Err _ => path end).
  assert (Hh : ∀ t, (∀ seen, seen ∈ [written; t] → ∀ tree, tree ∈ hidden_folders →
      path_starts_with seen (join_path root tree) = false) ↔
    hidden_by_unit root written = None ∧ hidden_by_unit root t = None).
  { intros t. rewrite !hidden_None. clear. set_solver. }
  setoid_rewrite Hh. clear Hh.
  destruct (hidden_by_unit root written) as [tree|].
  { split; [done|]. by intros (? & _ & [[=] _] & _). }
  destruct (hidden_by_unit root target) as [tree|] eqn:Et.
  { split; [done|]. intros (? & [= <-] & [_ ?] & _). congruence. }
  rewrite peek_bind. pose proof (closed_folder_None e w account path (folders path target) He) as Hc.
  assert (Hin : ∀ dir, dir ∈ folders path target ↔ folder_of path dir ∨ folder_of target dir).
  { intros dir. unfold folders. rewrite filter_app, elem_of_app. by rewrite !elem_of_folders. }
  setoid_rewrite Hin in Hc. clear Hin.
  destruct (peek e w (closed_folder account path (folders path target))) as [why|].
  { split; [done|]. intros (? & [= <-] & _ & Hd & _). by apply Hc in Hd. }
  rewrite peek_bind. unfold metadata. rewrite peek_look. unfold or_fault. rewrite He.
  destruct (fs w !! target) as [meta|] eqn:Em; cbn [ok_or].
  2: { split; [done|]. intros (? & [= <-] & _ & _ & ? & ? & _). congruence. }
  change (allows account meta 256 32 4) with (allows account meta (2 ^ (6 + 2)) (2 ^ (3 + 2)) (2 ^ (0 + 2))).
  destruct (allows account meta _ _ _) eqn:Ea.
  - apply allows_grants in Ea; [|done]. split; [|done]. intros _. exists target. split_and!; [done..|by apply Hc|].
    by exists meta.
  - split; [done|]. intros (? & [= <-] & _ & _ & ? & ? & Hg). simplify_eq.
    apply allows_grants in Hg; [|done]. congruence.
Qed.
End readable.

(** ** The version of libvirt *)

Lemma number_no_dot n : 0 ≤ n → 46 ∉ to_string n.
Proof.
  intros Hn. destruct (to_string_spec n Hn) as (Hd & _). intros Hin.
  rewrite Forall_forall in Hd. specialize (Hd _ Hin). unfold is_digit in Hd. lia.
Qed.

Lemma parse_version_text v :
  0 ≤ v < 2 ^ 32 → parse_version (version_text v) = Some (v / 1000000, (v / 1000) mod 1000, v mod 1000).
Proof.
  intros Hv. pose proof (Z.div_pos v 1000000 ltac:(lia) ltac:(lia)).
  pose proof (Z.mod_pos_bound (v / 1000) 1000 ltac:(lia)). pose proof (Z.mod_pos_bound v 1000 ltac:(lia)).
  assert (v / 1000000 < 2 ^ 32) by (apply Z.div_lt_upper_bound; lia).
  unfold parse_version.
  change (version_text v) with (to_string (v / 1000000) ++ 46 :: (to_string ((v / 1000) mod 1000) ++ 46 :: to_string (v mod 1000))).
  rewrite !(split_app_sep 46), split_no_sep by (apply number_no_dot; lia).
  cbn [fmap list_fmap]. by rewrite !parse_to_string by (unfold U32_MAX; lia).
Qed.

(** The gate for snapshots works on every version that libvirt can report.  The
    text that the adapter makes of libvirt's version number reads back as its three
    parts, and the check passes exactly from 9.9.0 on. *)
Theorem revert_gate `{Fmt} v :
  0 ≤ v < 2 ^ 32 →
  parse_version (version_text v) = Some (v / 1000000, (v / 1000) mod 1000, v mod 1000) ∧
  (outcome_of (revert (version_text v)) = Pass ↔ 9009000 ≤ v).
Proof.
  intros Hv. pose proof (parse_version_text v Hv) as Hp. split; [done|].
  unfold revert, REVERT_VERSION. rewrite Hp. unfold version_ge.
  pose proof (Z.div_mod v 1000 ltac:(lia)). pose proof (Z.div_mod (v / 1000) 1000 ltac:(lia)).
  assert (v / 1000000 = v / 1000 / 1000) as -> by by rewrite Z.div_div by lia.
  pose proof (Z.mod_pos_bound (v / 1000) 1000 ltac:(lia)). pose proof (Z.mod_pos_bound v 1000 ltac:(lia)).
  destruct (Z.ltb_spec 9 (v / 1000 / 1000)), (Z.eqb_spec (v / 1000 / 1000) 9), (Z.ltb_spec 9 ((v / 1000) mod 1000)),
    (Z.eqb_spec ((v / 1000) mod 1000) 9), (Z.leb_spec 0 (v mod 1000)); cbn;
    (split; [intros [=]|intros ?]; first [done|lia]).
Qed.

(** ** Witnesses *)

Definition lodger_account : Account := {| uid := 999; gids := [999; 107] |}.
Definition pem_path : str := lit "/tls/key.pem".
(** A key of the service in a folder of root. *)
Definition pem_world : World :=
  {| fs := list_to_map [(lit "/", Folder 493 0 0); (lit "/tls", Folder 493 0 0); (pem_path, File [1] 384 999 999)];
     ran := [] |}.

Lemma unreadable_exact_witness : service_can_read (lit "/") lodger_account calm_os (fs pem_world) pem_path.
Proof. apply (unreadable_exact (lit "/") lodger_account calm_os pem_world pem_path O); [reflexivity|]. vm_compute. reflexivity. Defined.

Definition doctor_fmt : Fmt :=
  {| debug_str := id; debug_char := λ c, [c]; verr_to_string := λ _, []; join_error_to_string := [];
     uuid_to_string := to_string |}.

Lemma revert_gate_witness :
  parse_version (version_text 9008999) = Some (9, 8, 999) ∧
  (outcome_of (@revert doctor_fmt (version_text 9008999)) = Pass ↔ 9009000 ≤ 9008999).
Proof. apply (@revert_gate doctor_fmt 9008999). lia. Defined.
