(* ===== verification/Install.v ===== *)
(** * The installer (crates/lodger/src/install.rs)

    [lodger install] and [lodger uninstall] as programs of system calls below a root.
    The texts of dist/ are arguments, and so are the TOML editor and the TLS
    libraries. *)

From S2P Require Import Prelude Text Os Net Http Config Tls Admin.

Definition BIN : str := lit "usr/local/bin/lodger".
Definition CONFIG_DIR : str := lit "etc/lodger".
Definition CONFIG_FILE : str := lit "etc/lodger/config.toml".
Definition TLS_CERT : str := lit "etc/lodger/tls/cert.pem".
Definition TLS_KEY : str := lit "etc/lodger/tls/key.pem".
Definition UNIT_FILE : str := lit "etc/systemd/system/lodger.service".
Definition SYSUSERS_FILE : str := lit "etc/sysusers.d/lodger.conf".
Definition STATE_DIR : str := lit "var/lib/lodger".
Definition GROUP_FILE : str := lit "etc/group".
Definition PASSWD_FILE : str := lit "etc/passwd".
Definition SYSTEMD_RUNNING : str := lit "run/systemd/system".
Definition LIBVIRT_SOCKETS : list str := [lit "run/libvirt/libvirt-sock"; lit "run/libvirt/virtqemud-sock"].
Definition SERVICE : str := lit "lodger.service".
(** Thirty seconds, in nanoseconds. *)
Definition START_TIMEOUT : Z := 30 * 1000000000.

(** ** Files *)

(** One folder of [create_dirs]: another process may make it first. *)
Definition make_dir (dir : str) : os (result io_error unit) :=
  made ← create_dir dir;
  match made with
  | Err e => mret (match io_kind e with KAlreadyExists => Ok tt | _ => Err e end)
  | Ok _ => set_folder_mode dir 493
  end.

(** [create_dirs], where [n] bounds the depth. *)
Fixpoint create_dirs_fuel (n : nat) (dir : str) : os (result io_error unit) :=
  there ← is_dir dir;
  if (there : bool) then mret (Ok tt)
  else
    and_then
      (match parent dir, n with
       | Some up, S n => create_dirs_fuel n up
       | _, _ => mret (Ok tt)
       end)
      (λ _, make_dir dir).
Definition create_dirs (dir : str) : os (result io_error unit) := create_dirs_fuel (length dir) dir.

(** The folder, the name and the temporary file of a target; every target has them. *)
Definition dir_of (path : str) : str := default [] (parent path).
Definition temp_of (path : str) : str :=
  join_path (dir_of path) (lit "." ++ default [] (file_name path) ++ lit ".new").

(** [write_as]: the modes 0644, 0755 and 0600 are 420, 493 and 384. *)
Definition write_as (path : str) (bytes : list Z) (mode : Z) (owner : option (Z * Z)) : os (result str unit) :=
  made ← create_dirs (dir_of path);
  match made with
  | Err e => mret (Err (lit "cannot create " ++ dir_of path ++ lit ": " ++ io_text e))
  | Ok _ =>
      let temp := temp_of path in
      written ←
        and_then (open_truncated temp mode) (λ _,
        and_then (match owner with Some (uid, gid) => fchown temp uid gid | None => mret (Ok tt) end) (λ _,
        and_then (write_all temp bytes) (λ _,
        and_then (set_file_mode temp mode) (λ _,
        and_then (sync_all temp) (λ _,
        rename temp path)))));
      match written with
      | Ok _ => mret (Ok tt)
      | Err e =>
          _ ← unlink temp;
          mret (Err (lit "cannot write " ++ path ++ lit ": " ++ io_text e))
      end
  end.

Definition write (path : str) (bytes : list Z) (mode : Z) : os (result str unit) := write_as path bytes mode None.

(** [copy_binary]. *)
Definition copy_binary (exe dest : str) : os (result str unit) :=
  bytes ← read exe;
  match bytes with
  | Err e => mret (Err (cannot_read exe e))
  | Ok bytes => write dest bytes 493
  end.

Definition cannot_remove (path : str) (e : io_error) : str := lit "cannot remove " ++ path ++ lit ": " ++ io_text e.
Definition unless_missing (path : str) (r : result io_error unit) : result str unit :=
  match r with
  | Err e => match io_kind e with KNotFound => Ok tt | _ => Err (cannot_remove path e) end
  | Ok _ => Ok tt
  end.
Definition remove_file (path : str) : os (result str unit) := r ← unlink path; mret (unless_missing path r).
Definition remove_dir (path : str) : os (result str unit) := r ← remove_dir_all path; mret (unless_missing path r).

(** [System::run] and [System::accepts]. *)
Definition run (program : str) (args : list str) : os (result str unit) :=
  r ← run_program program args;
  mret match r with
       | Err e => Err (lit "cannot run " ++ program ++ lit ": " ++ io_text e)
       | Ok (true, _) => Ok tt
       | Ok (false, status) => Err (program ++ lit " " ++ join [32] args ++ lit " failed: " ++ status)
       end.

(** ** /etc/passwd and /etc/group *)

(** [has_entry]. *)
Definition has_entry (text name : str) : bool :=
  existsb (λ line, bool_decide (head (split 58 line) = Some name)) (lines text).

(** [user_ids]. *)
Definition user_ids (passwd name : str) : option (Z * Z) :=
  line ← find (λ line, bool_decide (head (split 58 line) = Some name)) (lines passwd);
  let fields := drop 2 (split 58 line) in
  uid ← fields !! 0%nat ≫= parse_unsigned U32_MAX;
  gid ← fields !! 1%nat ≫= parse_unsigned U32_MAX;
  Some (uid, gid).

(** ** The commands *)

(** [self_signed_files]: the pair as the configuration names it. *)
Definition self_signed_files : TlsFiles :=
  {| cert := join_path [47] TLS_CERT; key := join_path [47] TLS_KEY |}.

(** [Certificate] and [Installed]. *)
Record Certificate := { cert_name : str; cert_fingerprint : str; cert_not_after : str }.
Record Installed := { installed_listen : SocketAddr; installed_tls : bool; installed_cert : option Certificate }.

Definition nothing_changed (problems : list str) : str :=
  lit "cannot install, and nothing changed:" ++ [10] ++ lit "- " ++ join ([10] ++ lit "- ") problems.

(** [Installed::message]. *)
Definition Installed_message (i : Installed) : str :=
  let listen := SocketAddr_to_string (installed_listen i) in
  lit "Lodger runs at " ++ (if installed_tls i then lit "https" else lit "http") ++ lit "://" ++ listen ++
  lit ". Read the setup token with: sudo journalctl -u lodger" ++
  match installed_cert i with
  | None => []
  | Some c =>
      [10] ++ lit "Made a self-signed certificate for " ++ cert_name c ++ lit ", valid until " ++ cert_not_after c ++
      lit "." ++ [10] ++ lit "SHA-256 fingerprint: " ++ cert_fingerprint c ++ [10] ++
      lit "Your browser warns about this certificate. Accept it only if the browser shows the same fingerprint." ++
      (if is_loopback (addr_ip (installed_listen i)) then
         let example := match parse_ip (cert_name c) with
                        | Some ip => SocketAddr_to_string {| addr_ip := ip; addr_port := addr_port (installed_listen i) |}
                        | None => lit "<this host's LAN address>:" ++ to_string (addr_port (installed_listen i))
                        end in
         [10] ++ lit "Lodger still listens only on " ++ listen ++ lit ". To serve the LAN, set listen = " ++ [34] ++
         example ++ [34] ++ lit " in /etc/lodger/config.toml, then run: sudo systemctl restart lodger"
       else [])
  end.

Section install.
Context `{Ipnet} `{TlsLib}.
Variable root : str.
(** The files of dist/. *)
Variables UNIT SYSUSERS CONFIG : str.
Variable toml_from_str : str → result str ConfigFile.
(** [toml_edit]: the text with [tls_cert] and [tls_key] set. *)
Variable toml_set_pair : TlsFiles → str → result str str.
Variable parse_uri : str → option Uri.
Variable debug_fmt : str → str.
Variable sha256_bytes : list Z → list Z.

(** [Host::path]. *)
Definition path (relative : str) : str := join_path root relative.

Definition load_installed : os (result str Config) :=
  load toml_from_str parse_uri debug_fmt (with_config (path CONFIG_FILE)) None.

(** [foreign_pair]. *)
Definition MOVE_AWAY : str := lit "To use a self-signed pair instead, move it away first.".
Definition foreign_pair : os (option str) :=
  bytes ← read (path TLS_CERT);
  match bytes with
  | Ok pem =>
      if made_by_lodger pem then
        there ← exists_ (path TLS_KEY);
        if (there : bool) then
          usable ← server_config {| cert := path TLS_CERT; key := path TLS_KEY |};
          mret (if is_ok usable then None
                else Some (lit "/" ++ TLS_KEY ++ lit " does not belong to the self-signed certificate in /" ++
                           TLS_CERT ++ lit ". " ++ MOVE_AWAY))
        else mret None
      else mret (Some (lit "/" ++ TLS_CERT ++ lit " holds a certificate that Lodger did not make. " ++ MOVE_AWAY))
  | Err e =>
      match io_kind e with
      | KNotFound =>
          there ← exists_ (path TLS_KEY);
          mret (if (there : bool) then Some (lit "/" ++ TLS_KEY ++ lit " exists without a certificate. " ++ MOVE_AWAY)
                else None)
      | _ => mret (Some (lit "cannot read /" ++ TLS_CERT ++ lit ": " ++ io_text e))
      end
  end.

Fixpoint any_exists (paths : list str) : os bool :=
  match paths with
  | [] => mret false
  | p :: rest => there ← exists_ (path p); if (there : bool) then mret true else any_exists rest
  end.

(** The part of [check] that reads the configuration: the address, and the problems. *)
Definition check_config (self_signed : option str) : os (option SocketAddr * list str) :=
  there ← exists_ (path CONFIG_FILE);
  if negb there then mret (parse_socket_v4 DEFAULT_LISTEN, [])
  else
    loaded ← load_installed;
    mret match loaded with
         | Err e => (None, [lit "the existing configuration is not valid: " ++ e])
         | Ok config =>
             (Some (listen config),
              (match self_signed, check_plain_http config with
               | None, Err e => [e ++ lit "."]
               | _, _ => []
               end) ++
              match self_signed, tls config with
              | Some _, Some files =>
                  if bool_decide (files = self_signed_files) then []
                  else [lit "the configuration already names the TLS certificate " ++ cert files ++
                        lit ". To replace it with a self-signed one, remove tls_cert and tls_key from /etc/lodger/config.toml first."]
              | _, _ => []
              end)
         end.

(** [check]. *)
Definition check (self_signed : option str) : os (result str SocketAddr) :=
  let bad_name :=
    match self_signed with
    | Some name => if valid_name name then []
                   else [debug_fmt name ++ lit " is not an IP address or a host name, so it cannot go into a certificate."]
    | None => []
    end in
  foreign ← match self_signed with Some _ => foreign_pair | None => mret None end;
  systemd ← is_dir (path SYSTEMD_RUNNING);
  sockets ← any_exists LIBVIRT_SOCKETS;
  groups ← read_to_string (path GROUP_FILE);
  '(listen, config_problems) ← check_config self_signed;
  taken ← match listen with
          | Some listen =>
              unit ← exists_ (path UNIT_FILE);
              if (unit : bool) then mret false else connects
          | None => mret false
          end;
  let problems :=
    bad_name ++ option_list foreign ++
    (if (systemd : bool) then [] else [lit "systemd does not run on this host. Lodger installs only as a systemd service."]) ++
    (if (sockets : bool) then []
     else [lit "there is no libvirt socket in /run/libvirt. Install libvirt, then start its socket: sudo systemctl enable --now libvirtd.socket, or virtqemud.socket on a host with the modular daemons"]) ++
    (if has_entry (or_empty groups) (lit "libvirt") then []
     else [lit "the libvirt group does not exist. Install the libvirt daemon package, which creates it."]) ++
    config_problems ++
    match listen, taken with
    | Some listen, true =>
        [lit "another program listens on " ++ SocketAddr_to_string listen ++
         lit ". Stop it, or write another `listen` address in /etc/lodger/config.toml."]
    | _, _ => []
    end in
  mret match listen, problems with
       | Some listen, [] => Ok listen
       | _, _ => Err (nothing_changed problems)
       end.

(** [set_tls_paths]. *)
Definition set_tls_paths (file : str) : os (result str unit) :=
  text ← read_to_string file;
  match (text ← map_err (cannot_read file) text;
         map_err (λ e, lit "cannot read " ++ file ++ lit ": " ++ e) (toml_set_pair self_signed_files text) : result str str) with
  | Err e => mret (Err e)
  | Ok doc => write file (as_bytes doc) 420
  end.

(** [write_self_signed]. *)
Definition write_self_signed (name : str) (now : Z) : os (result str Certificate) :=
  match self_signed sha256_bytes name now with
  | Err e => mret (Err e)
  | Ok made =>
      users ← read_to_string (path PASSWD_FILE);
      match user_ids (or_empty users) (lit "lodger") with
      | None => mret (Err (lit "the lodger user does not exist after systemd-sysusers, so the TLS key has no owner"))
      | Some owner =>
          and_then (write_as (path TLS_KEY) (as_bytes (key_pem made)) 384 (Some owner)) (λ _,
          and_then (write (path TLS_CERT) (as_bytes (cert_pem made)) 420) (λ _,
          and_then (set_tls_paths (path CONFIG_FILE)) (λ _,
          mret (Ok {| cert_name := name; cert_fingerprint := fingerprint made;
                      cert_not_after := date_text (pair_not_after made) |}))))
      end
  end.

(** The template of a first install. *)
Definition write_template : os (result str unit) :=
  there ← exists_ (path CONFIG_FILE);
  if negb there then write (path CONFIG_FILE) (as_bytes CONFIG) 420 else mret (Ok tt).

(** [install]. *)
Definition install (exe : str) (self_signed : option str) (now : Z) : os (result str Installed) :=
  and_then (check self_signed) (λ listen,
  and_then (copy_binary exe (path BIN)) (λ _,
  and_then (write (path SYSUSERS_FILE) (as_bytes SYSUSERS) 420) (λ _,
  and_then (run (lit "systemd-sysusers") [path SYSUSERS_FILE]) (λ _,
  and_then write_template (λ _,
  and_then (match self_signed with
            | Some name => and_then (write_self_signed name now) (λ c, mret (Ok (Some c)))
            | None => mret (Ok None)
            end : os (result str (option Certificate))) (λ certificate,
  and_then (write (path UNIT_FILE) (as_bytes UNIT) 420) (λ _,
  and_then (run (lit "systemctl") [lit "daemon-reload"]) (λ _,
  and_then (run (lit "systemctl") [lit "enable"; SERVICE]) (λ _,
  and_then (run (lit "systemctl") [lit "restart"; SERVICE]) (λ _,
  and_then load_installed (λ config,
  mret (Ok {| installed_listen := listen; installed_tls := bool_decide (is_Some (tls config));
              installed_cert := certificate |})))))))))))).

(** [uninstall]. *)
Definition KEPT : str := lit "Lodger is uninstalled. /etc/lodger, /var/lib/lodger, and the lodger user stay. To remove them too, run: sudo lodger uninstall --purge".
Definition PURGED : str := lit "Lodger and its data are removed. libvirt keeps every VM, pool, and network.".

Definition remove_unit : os (result str unit) :=
  there ← exists_ (path UNIT_FILE);
  if (there : bool) then
    and_then (run (lit "systemctl") [lit "disable"; lit "--now"; SERVICE]) (λ _,
    and_then (remove_file (path UNIT_FILE)) (λ _,
    run (lit "systemctl") [lit "daemon-reload"]))
  else mret (Ok tt).

Definition purge_data : os (result str unit) :=
  and_then (remove_dir (path CONFIG_DIR)) (λ _,
  and_then (remove_dir (path STATE_DIR)) (λ _,
  and_then (remove_file (path SYSUSERS_FILE)) (λ _,
  users ← read_to_string (path PASSWD_FILE);
  if has_entry (or_empty users) (lit "lodger") then run (lit "userdel") [lit "lodger"] else mret (Ok tt)))).

Definition uninstall (purge : bool) : os (result str str) :=
  and_then remove_unit (λ _,
  and_then (remove_file (path BIN)) (λ _,
  if negb purge then mret (Ok KEPT)
  else and_then purge_data (λ _, mret (Ok PURGED)))).
End install.

(** ** Waiting for the service *)

(** [wait_listening], with its sleep of 200 ms between two rounds; [None] is a loop that has not ended after [n] rounds. *)
Fixpoint wait_rounds (n : nat) (addr : SocketAddr) (timeout deadline : Z) : os (option (result str unit)) :=
  up ← connects;
  if (up : bool) then mret (Some (Ok tt))
  else
    now ← instant;
    if deadline <=? now
    then mret (Some (Err (lit "the service did not listen on " ++ SocketAddr_to_string addr ++ lit " within " ++
                          to_string (timeout / 1000000000) ++
                          lit " seconds. Read the log with: sudo journalctl -u lodger")))
    else match n with O => mret None | S n => wait_rounds n addr timeout deadline end.

Definition wait_listening (n : nat) (addr : SocketAddr) (timeout : Z) : os (option (result str unit)) :=
  now ← instant; wait_rounds n addr timeout (now + timeout).

(** [run_install] and [run_uninstall] start with this. *)
Definition as_root {A} (command : str) (p : os (result str A)) : os (result str A) :=
  status ← read_to_string (lit "/proc/self/status");
  match require_root status command with Err e => mret (Err e) | Ok _ => p end.

Section commands.
Context `{Ipnet} `{TlsLib}.
Variables UNIT SYSUSERS CONFIG : str.
Variable toml_from_str : str → result str ConfigFile.
Variable toml_set_pair : TlsFiles → str → result str str.
Variable parse_uri : str → option Uri.
Variable debug_fmt : str → str.
Variable sha256_bytes : list Z → list Z.

(** The part of [run_install] after the check for root; [exe] is [current_exe]. *)
Definition install_and_wait (n : nat) (exe : result io_error str) (self_signed : option str) (now : Z) :
    os (result str (option str)) :=
  match exe with
  | Err e => mret (Err (lit "cannot find this binary: " ++ io_text e))
  | Ok exe =>
      and_then (install [47] UNIT SYSUSERS CONFIG toml_from_str toml_set_pair parse_uri debug_fmt sha256_bytes
                  exe self_signed now) (λ made,
        waited ← wait_listening n (installed_listen made) START_TIMEOUT;
        mret match waited with
             | Some (Ok _) => Ok (Some (Installed_message made))
             | Some (Err e) => Err e
             | None => Ok None
             end)
  end.

(** [run_install] and [run_uninstall]; [None] is an install that still waits. *)
Definition run_install (n : nat) (exe : result io_error str) (self_signed : option str) (now : Z) :
    os (result str (option str)) :=
  as_root (lit "install") (install_and_wait n exe self_signed now).
Definition run_uninstall (purge : bool) : os (result str str) := as_root (lit "uninstall") (uninstall [47] purge).
End commands.

(** ** The depth of [create_dirs] is enough *)

Lemma os_exec_and_then {T A B} (p : os (result T A)) (k : A → os (result T B)) e w n :
  os_exec (and_then p k) e w n =
  let '(r, w', n') := os_exec p e w n in
  match r with Ok a => os_exec (k a) e w' n' | Err x => (Err x, w', n') end.
Proof.
  unfold and_then. rewrite os_exec_bind. destruct (os_exec p e w n) as [[[a|x] w'] n']; done.
Qed.

Lemma create_dirs_fuel_enough n m dir e w i :
  (length dir ≤ n)%nat → (length dir ≤ m)%nat →
  os_exec (create_dirs_fuel n dir) e w i = os_exec (create_dirs_fuel m dir) e w i.
Proof.
  revert m dir w i. induction n as [|n IH]; intros m dir w i Hn Hm.
  - destruct dir; [|cbn in Hn; lia]. by destruct m.
  - destruct m as [|m]; [by destruct dir; [|cbn in Hm; lia]|]. cbn [create_dirs_fuel].
    rewrite !os_exec_bind. destruct (os_exec (is_dir dir) e w i) as [[there w1] i1].
    destruct there; [done|]. rewrite !os_exec_and_then.
    destruct (parent dir) as [up|] eqn:Eu; [|done]. apply parent_shorter in Eu.
    by rewrite (IH m up) by lia.
Qed.

(** ** A write is atomic *)

Definition same_on (S : str → Prop) (f g : gmap str node) : Prop := ∀ p, S p → f !! p = g !! p.

Lemma same_on_refl S f : same_on S f f.
Proof. done. Qed.
Lemma same_on_trans S f g h : same_on S f g → same_on S g h → same_on S f h.
Proof. intros H1 H2 p Hp. rewrite H1 by done. by apply H2. Qed.
Lemma same_on_insert S p n f g : ¬ S p → same_on S f g → same_on S (<[p := n]> f) g.
Proof. intros Hp Hfg q Hq. rewrite lookup_insert_ne by congruence. by apply Hfg. Qed.
Lemma same_on_delete S p f g : ¬ S p → same_on S f g → same_on S (delete p f) g.
Proof. intros Hp Hfg q Hq. rewrite lookup_delete_ne by congruence. by apply Hfg. Qed.

Definition owner_ok (owner : option (Z * Z)) (u g : Z) : Prop :=
  match owner with Some (uid, gid) => u = uid ∧ g = gid | None => True end.

Section atomic.
Variable E : os_env → Prop.
(** The paths that matter, and what must hold of them at every point. *)
Variable S : str → Prop.
Variable J : gmap str node → Prop.
Hypothesis HJ : ∀ f g, same_on S f g → J g → J f.

#[local] Abbreviation I := (λ w : World, J (fs w)).

Lemma wpc_make_dir dir w w0 :
  ¬ S dir → J (fs w0) → same_on S (fs w) (fs w0) → wpc E I (make_dir dir) (λ _ w', same_on S (fs w') (fs w0)) w.
Proof.
  intros Hdir Hi Hs. assert (Hi' : I w) by by eapply HJ.
  apply wpc_bind, wpc_may_fail; [done|intros err; by apply wpc_ret|]. intros e _.
  destruct (fs w !! dir); [split; [done|by apply wpc_ret]|].
  destruct (match parent dir with Some up => is_dir_at (fs w) up | None => false end);
    [|split; [done|by apply wpc_ret]].
  cbn [fst snd with_fs fs].
  assert (Hs2 : same_on S (<[dir := Folder (Z.ldiff 511 (umask e)) (ids e).1 (ids e).2]> (fs w)) (fs w0))
    by by apply same_on_insert.
  split; [by eapply HJ|]. apply wpc_may_fail; [by eapply HJ|done|]. intros e2 _. cbn [fs with_fs].
  destruct (_ !! dir) as [[]|]; cbn [fst snd fs with_fs];
    (split; [eapply HJ; [|exact Hi]|]); by repeat apply same_on_insert.
Qed.

Lemma wpc_create_dirs n dir w :
  (∀ a, a ∈ ancestors_fuel n dir → ¬ S a) → I w →
  wpc E I (create_dirs_fuel n dir) (λ _ w', same_on S (fs w') (fs w)) w.
Proof.
  revert dir w. induction n as [|n IH]; intros dir w Ha Hi; cbn [create_dirs_fuel].
  all: apply wpc_bind, wpc_look; [done|]; intros e _; destruct (negb _ && _); [by apply wpc_ret|].
  all: assert (Hdir : ¬ S dir) by (apply Ha; left); apply wpc_and_then.
  - destruct (parent dir); (apply wpc_ret; [done|by apply wpc_make_dir]).
  - destruct (parent dir) as [up|] eqn:Eu; [|apply wpc_ret; [done|by apply wpc_make_dir]].
    eapply wpc_mono; [|apply IH; [|done]].
    + intros [[]|err] w1 _ Hw1; [by apply wpc_make_dir|done].
    + intros a Hin. apply Ha. cbn [ancestors_fuel]. rewrite Eu. by right.
Qed.

(** The temporary file of a write, and the rest as at its start. *)
Definition temp_is (temp : str) (w0 : World) (P : list Z → Z → Z → Z → Prop) (w : World) : Prop :=
  same_on S (fs w) (fs w0) ∧ ∃ b m u g, fs w !! temp = Some (File b m u g) ∧ P b m u g.

Lemma wpc_on_temp temp w0 P P' h w :
  ¬ S temp → J (fs w0) → temp_is temp w0 P w →
  (∀ b m u g, P b m u g → ∃ b' m' u' g', h b m u g = File b' m' u' g' ∧ P' b' m' u' g') →
  wpc E I (may_fail (λ _, on_file temp h))
    (λ r w', match r with Ok _ => temp_is temp w0 P' w' | Err _ => same_on S (fs w') (fs w0) end) w.
Proof.
  intros Ht Hi [Hs (b & m & u & g & El & Hp)] Hh. assert (Hi' : I w) by by eapply HJ.
  apply wpc_may_fail; [done|done|]. intros e _. unfold on_file. rewrite El. cbn [fst snd fs with_fs].
  destruct (Hh _ _ _ _ Hp) as (b' & m' & u' & g' & -> & Hp').
  assert (Hs2 : same_on S (<[temp := File b' m' u' g']> (fs w)) (fs w0)) by by apply same_on_insert.
  split; [by eapply HJ|]. split; [apply Hs2|]. exists b', m', u', g'. cbn [fs with_fs]. by rewrite lookup_insert_eq.
Qed.

Lemma wpc_write_temp temp bytes w0 P w :
  ¬ S temp → J (fs w0) → temp_is temp w0 (λ b m u g, b = [] ∧ P u g) w →
  wpc E I (write_all temp bytes)
    (λ r w', match r with Ok _ => temp_is temp w0 (λ b m u g, b = bytes ∧ P u g) w'
             | Err _ => same_on S (fs w') (fs w0) end) w.
Proof.
  intros Ht Hi [Hs (b & m & u & g & El & -> & Hp)]. assert (Hi' : I w) by by eapply HJ.
  apply wpc_step; [done|]. intros e _. unfold on_file. rewrite El.
  assert (Hs2 : ∀ x, same_on S (<[temp := x]> (fs w)) (fs w0)) by (intros x; by apply same_on_insert).
  destruct (fault e); cbn [fst snd fs with_fs app]; (split; [by eapply HJ|]); [done|].
  split; [apply Hs2|]. exists bytes, m, u, g. cbn [fs with_fs]. by rewrite lookup_insert_eq.
Qed.

Lemma wpc_open_temp temp mode w :
  ¬ S temp → I w →
  wpc E I (open_truncated temp mode)
    (λ r w', match r with Ok _ => temp_is temp w (λ b m u g, b = [] ∧ True) w' | Err _ => same_on S (fs w') (fs w) end) w.
Proof.
  intros Ht Hi. apply wpc_may_fail; [done|done|]. intros e _.
  assert (Hs2 : ∀ x, same_on S (<[temp := x]> (fs w)) (fs w)) by (intros x; by apply same_on_insert).
  destruct (fs w !! temp) as [[b m u g|m u g]|]; cbn [fst snd fs with_fs]; [|done|].
  - split; [by eapply HJ|]. split; [apply Hs2|]. exists [], m, u, g. cbn [fs with_fs]. by rewrite lookup_insert_eq.
  - destruct (match parent temp with Some dir => is_dir_at (fs w) dir | None => false end); [|done].
    cbn [fst snd fs with_fs]. split; [by eapply HJ|]. split; [apply Hs2|]. do 4 eexists. cbn [fs with_fs]. by rewrite lookup_insert_eq.
Qed.

Lemma wpc_rename_temp temp path bytes mode owner w0 w :
  ¬ S temp → temp ≠ path → J (fs w0) →
  (∀ u g, owner_ok owner u g → J (<[path := File bytes mode u g]> (fs w0))) →
  temp_is temp w0 (λ b m u g, (b = bytes ∧ owner_ok owner u g) ∧ m = mode) w →
  wpc E I (rename temp path)
    (λ r w', match r with
             | Ok _ => ∃ u g, owner_ok owner u g ∧ same_on S (fs w') (<[path := File bytes mode u g]> (fs w0))
             | Err _ => same_on S (fs w') (fs w0)
             end) w.
Proof.
  intros Ht Hne Hi Hnew [Hs (b & m & u & g & El & (-> & Ho) & ->)]. assert (Hi' : I w) by by eapply HJ.
  apply wpc_may_fail; [done|done|]. intros e _. rewrite El.
  assert (Hs2 : same_on S (<[path := File bytes mode u g]> (delete temp (fs w))) (<[path := File bytes mode u g]> (fs w0))).
  { intros p Hp. destruct (decide (p = path)) as [->|]; [by rewrite !lookup_insert_eq|].
    rewrite !lookup_insert_ne by done. rewrite lookup_delete_ne by congruence. by apply Hs. }
  assert (Hgo : I (with_fs (<[path := File bytes mode u g]> (delete temp (fs w))) w) ∧
    ∃ u0 g0, owner_ok owner u0 g0 ∧
      same_on S (<[path := File bytes mode u g]> (delete temp (fs w))) (<[path := File bytes mode u0 g0]> (fs w0))).
  { split; [|by eauto]. eapply HJ; [exact Hs2|by apply Hnew]. }
  by destruct (fs w !! path) as [[]|].
Qed.

(** Whatever fails, and wherever the process stops: the target is its old self or the
    whole new file with its mode and owner, and no other path that matters changes. *)
Lemma wpc_write_as path bytes mode owner w :
  (∀ a, a ∈ ancestors (dir_of path) → ¬ S a) → ¬ S (temp_of path) → temp_of path ≠ path →
  J (fs w) → (∀ u g, owner_ok owner u g → J (<[path := File bytes mode u g]> (fs w))) →
  wpc E I (write_as path bytes mode owner)
    (λ r w', match r with
             | Ok _ => ∃ u g, owner_ok owner u g ∧ same_on S (fs w') (<[path := File bytes mode u g]> (fs w))
             | Err _ => same_on S (fs w') (fs w)
             end) w.
Proof.
  intros Ha Ht Hne Hi Hnew. apply wpc_bind.
  eapply wpc_mono; [|by apply wpc_create_dirs]. intros made w1 Hi1 Hs1. destruct made as [[]|err]; [|by apply wpc_ret].
  assert (Hnew1 : ∀ u g, owner_ok owner u g → J (<[path := File bytes mode u g]> (fs w1))).
  { intros u g Ho. eapply HJ; [|by apply (Hnew u g)]. intros p Hp.
    destruct (decide (p = path)) as [->|]; [by rewrite !lookup_insert_eq|]. rewrite !lookup_insert_ne by done. by apply Hs1. }
  apply wpc_bind.
  eapply (wpc_mono _ _ _ (λ r w', match r with
     | Ok _ => ∃ u g, owner_ok owner u g ∧ same_on S (fs w') (<[path := File bytes mode u g]> (fs w1))
     | Err _ => same_on S (fs w') (fs w1) end)).
  { intros [[]|err] w2 Hi2 H2.
    - apply wpc_ret; [done|]. destruct H2 as (u & g & Ho & H2). exists u, g. split; [done|].
      intros p Hp. rewrite H2 by done. destruct (decide (p = path)) as [->|]; [by rewrite !lookup_insert_eq|].
      rewrite !lookup_insert_ne by done. by apply Hs1.
    - assert (H3 : same_on S (fs w2) (fs w)) by by eapply same_on_trans.
      apply wpc_bind, wpc_may_fail; [done|intros x; by apply wpc_ret|]. intros e _.
      destruct (fs w2 !! temp_of path) as [[]|]; cbn [fst snd fs with_fs]; (split; [|apply wpc_ret]);
        try done; try (eapply HJ; [|exact Hi]); by apply same_on_delete. }
  apply wpc_and_then. eapply wpc_mono; [|by apply wpc_open_temp]. intros [[]|err] w2 Hi2 H2; [|done].
  apply wpc_and_then.
  eapply (wpc_mono _ _ _ (λ r w', match r with
     | Ok _ => temp_is (temp_of path) w1 (λ b m u g, b = [] ∧ owner_ok owner u g) w'
     | Err _ => same_on S (fs w') (fs w1) end)).
  2: { destruct owner as [[uid gid]|]; [|by apply wpc_ret]. eapply wpc_on_temp; [done..|].
       intros b m u g [-> _]. by exists [], m, uid, gid. }
  intros [[]|err] w3 Hi3 H3; [|done]. apply wpc_and_then.
  eapply wpc_mono; [|by apply (wpc_write_temp _ _ w1 (owner_ok owner))]. intros [[]|err] w4 Hi4 H4; [|done]. apply wpc_and_then.
  eapply wpc_mono; [|eapply (wpc_on_temp _ w1 _ (λ b m u g, (b = bytes ∧ owner_ok owner u g) ∧ m = mode)); [done..|]].
  2: { intros b m u g ?. by exists b, mode, u, g. }
  intros [[]|err] w5 Hi5 H5; [|done]. apply wpc_and_then.
  apply wpc_may_fail; [done|intros x; by destruct H5|]. intros e _. split; [done|]. by apply wpc_rename_temp.
Qed.
End atomic.

(** ** Installing is safe at every point *)

(** What the installer writes on a host, and the temporary files and folders of it. *)
Definition on_host (relative : str) : str := path [47] relative.
Definition targets : list str :=
  on_host <$> [BIN; SYSUSERS_FILE; CONFIG_FILE; TLS_KEY; TLS_CERT; UNIT_FILE].
Definition scratch : list str := targets ≫= λ p, temp_of p :: ancestors (dir_of p).

(** Finds a target in the list. *)
#[local] Ltac is_target :=
  apply list_elem_of_fmap_2; repeat first [apply list_elem_of_here | apply list_elem_of_further].

Lemma targets_apart p : p ∈ targets → p ∉ scratch.
Proof.
  assert (Hb : forallb (λ p, bool_decide (p ∉ scratch)) targets = true) by by vm_compute.
  apply forallb_Forall in Hb. rewrite Forall_forall in Hb. intros Hp. specialize (Hb p Hp).
  by apply bool_decide_eq_true in Hb.
Qed.

Lemma scratch_of p : p ∈ targets → temp_of p ∈ scratch ∧ ∀ a, a ∈ ancestors (dir_of p) → a ∈ scratch.
Proof.
  intros Hp. split; [|intros a Ha]; apply list_elem_of_bind; exists p; (split; [|done]); [left|by right].
Qed.

Lemma temp_apart p : p ∈ targets → temp_of p ≠ p.
Proof. intros Hp E. apply (targets_apart p Hp). rewrite <- E at 1. by apply scratch_of. Qed.

Lemma on_host_eq relative : path [47] relative = on_host relative.
Proof. done. Qed.

Lemma on_host_notin r (l : list str) : bool_decide (on_host r ∉ on_host <$> l) = true → on_host r ∉ on_host <$> l.
Proof. apply bool_decide_eq_true. Qed.
Lemma on_host_ne a b : bool_decide (on_host a ≠ on_host b) = true → on_host a ≠ on_host b.
Proof. apply bool_decide_eq_true. Qed.
#[local] Ltac apart := first [apply on_host_ne|apply on_host_notin]; vm_compute; reflexivity.

#[local] Opaque on_host.

Section safe.
Context `{Ipnet} `{TlsLib}.
Variables UNIT SYSUSERS CONFIG : str.
Variable toml_from_str : str → result str ConfigFile.
Variable toml_set_pair : TlsFiles → str → result str str.
Variable parse_uri : str → option Uri.
Variable debug_fmt : str → str.
Variable sha256_bytes : list Z → list Z.

(** The paths that the programs of the host leave alone, at least what Lodger writes. *)
Variable leaves : str → Prop.
Hypothesis leaves_targets : ∀ p, p ∈ targets → leaves p.

(** Whether looking at a path always works. *)
Variable sees : bool.

(** A system in which every call can fail, and looking at a path too unless it [sees]. *)
Definition fair (e : os_env) : Prop :=
  (sees = true → stat_fault e = false) ∧ ∀ f p, leaves p → changed e f !! p = f !! p.

Definition matters (p : str) : Prop := leaves p ∧ p ∉ scratch.

Section run.
(** The files at the start, and the request. *)
Variables (f0 : gmap str node) (exe : str) (self_signed_name : option str) (now : Z).

(** The whole new file of a target. *)
Definition new_node (p : str) (n : node) : Prop :=
  (p = on_host BIN ∧ ∃ bytes u g, read_file f0 exe = Ok bytes ∧ n = File bytes 493 u g) ∨
  (p = on_host SYSUSERS_FILE ∧ ∃ u g, n = File (as_bytes SYSUSERS) 420 u g) ∨
  (p = on_host UNIT_FILE ∧ ∃ u g, n = File (as_bytes UNIT) 420 u g) ∨
  (∃ name made, self_signed_name = Some name ∧ self_signed sha256_bytes name now = Ok made ∧
     (p = on_host TLS_KEY ∧ (∃ users u g, user_ids users (lit "lodger") = Some (u, g) ∧
        n = File (as_bytes (key_pem made)) 384 u g) ∨
      p = on_host TLS_CERT ∧ ∃ u g, n = File (as_bytes (cert_pem made)) 420 u g)).

Definition fresh (p : str) (f : gmap str node) : Prop := ∃ n, f !! p = Some n ∧ new_node p n.

(** No configuration was there, as far as the installer could see. *)
Definition unconfigured : Prop := sees = true → f0 !! on_host CONFIG_FILE = None.

Definition template (f : gmap str node) : Prop :=
  unconfigured ∧ ∃ u g, f !! on_host CONFIG_FILE = Some (File (as_bytes CONFIG) 420 u g).

(** The operator's own text, or the template's, with the pair set in it. *)
Definition names_pair (f : gmap str node) : Prop :=
  ∃ text doc u g,
    (read_text f0 (on_host CONFIG_FILE) = Ok text ∨
     unconfigured ∧ from_utf8 (as_bytes CONFIG) = Some text) ∧
    toml_set_pair self_signed_files text = Ok doc ∧
    f !! on_host CONFIG_FILE = Some (File (as_bytes doc) 420 u g).

(** The state of an install: [done] is written, and [named] says whether the
    configuration may name the new pair. *)
Record install_state (done : list str) (named : bool) (f : gmap str node) : Prop := {
  old_or_new p : matters p → p ≠ on_host CONFIG_FILE → f !! p = f0 !! p ∨ fresh p f;
  all_done p : p ∈ done → fresh p f;
  config_whole :
    f !! on_host CONFIG_FILE = f0 !! on_host CONFIG_FILE ∨ template f ∨
    named = true ∧ is_Some self_signed_name ∧ names_pair f ∧
      fresh (on_host TLS_KEY) f ∧ fresh (on_host TLS_CERT) f
}.

#[local] Abbreviation J := (install_state [] true).
#[local] Abbreviation I := (λ w : World, J (fs w)).

Lemma matters_targets p : p ∈ targets → matters p.
Proof. intros Hp. split; [by apply leaves_targets|by apply targets_apart]. Qed.

Lemma fresh_same p f g : p ∈ targets → same_on matters f g → fresh p g → fresh p f.
Proof. intros Hp Hs (n & Hn & Hnew). exists n. by rewrite Hs by by apply matters_targets. Qed.

Lemma config_same done named f g :
  done ⊆ targets → same_on matters f g → install_state done named g → install_state done named f.
Proof.
  intros Hd Hs [Ho Hdone Hc].
  assert (Ht : ∀ p, p ∈ targets → f !! p = g !! p) by (intros p Hp; by apply Hs, matters_targets).
  assert (HC : on_host CONFIG_FILE ∈ targets) by is_target.
  split.
  - intros p Hp Hne. destruct (Ho p Hp Hne) as [E|(n & E & Hn)]; [left; by rewrite Hs|right].
    exists n. by rewrite Hs.
  - intros p Hp. eapply fresh_same; [by apply Hd|done|]. by apply Hdone.
  - unfold template, names_pair in *. rewrite (Ht _ HC). destruct Hc as [?|[?|(? & ? & ? & Hk & Hcert)]]; [auto..|].
    do 2 right. split_and!; [done..| |]; (eapply fresh_same; [|done|done]); is_target.
Qed.

Lemma state_weaken done named f : install_state done named f → J f.
Proof. intros [Ho _ Hc]. split; [done|intros p []%not_elem_of_nil|]. naive_solver. Qed.

Lemma put_fresh done named f p n :
  p ∈ targets → p ≠ on_host CONFIG_FILE → new_node p n →
  install_state done named f → install_state (p :: done) named (<[p := n]> f).
Proof.
  intros Hp HC Hn [Ho Hd Hc].
  assert (Hf : ∀ q, fresh q f → fresh q (<[p := n]> f)).
  { intros q (m & Em & Hm). destruct (decide (q = p)) as [->|]; [exists n|exists m];
      by rewrite ?lookup_insert_eq, ?lookup_insert_ne. }
  split.
  - intros q Hq Hne. destruct (decide (q = p)) as [->|]; [right; exists n; by rewrite lookup_insert_eq|].
    rewrite lookup_insert_ne by done. destruct (Ho q Hq Hne); auto.
  - intros q [->|Hq]%elem_of_cons; [exists n; by rewrite lookup_insert_eq|auto].
  - unfold template, names_pair in *. rewrite lookup_insert_ne by done. naive_solver.
Qed.

Lemma put_config done named f n :
  (∀ g, g !! on_host CONFIG_FILE = Some n → template g ∨ named = true ∧ is_Some self_signed_name ∧ names_pair g ∧
     on_host TLS_KEY ∈ done ∧ on_host TLS_CERT ∈ done) →
  on_host CONFIG_FILE ∉ done →
  install_state done named f → install_state done named (<[on_host CONFIG_FILE := n]> f).
Proof.
  intros Hn Hnd [Ho Hd Hc].
  assert (Hf : ∀ q, q ≠ on_host CONFIG_FILE → fresh q f → fresh q (<[on_host CONFIG_FILE := n]> f)).
  { intros q Hq (m & Em & Hm). exists m. by rewrite lookup_insert_ne. }
  split.
  - intros q Hq Hne. rewrite lookup_insert_ne by done. destruct (Ho q Hq Hne); auto.
  - intros q Hq. apply Hf; [congruence|auto].
  - specialize (Hn (<[on_host CONFIG_FILE := n]> f)). rewrite lookup_insert_eq in Hn.
    destruct (Hn eq_refl) as [?|(? & ? & ? & Hk & Hcert)]; [auto|]. do 2 right.
    split_and!; [done..| |]; (apply Hf; [done|auto]).
Qed.

Lemma state_J done named f g :
  done ⊆ targets → same_on matters f g → install_state done named g → J f.
Proof. intros Hd Hs Hg. eapply state_weaken, config_same; [exact Hd|exact Hs|exact Hg]. Qed.

Lemma J_same f g : same_on matters f g → J g → J f.
Proof. intros Hs Hg. eapply config_same; [|done..]. intros p []%not_elem_of_nil. Qed.

Lemma wpc_put done named p bytes mode owner w :
  p ∈ targets → p ≠ on_host CONFIG_FILE → done ⊆ targets → install_state done named (fs w) →
  (∀ u g, owner_ok owner u g → new_node p (File bytes mode u g)) →
  wpc fair I (write_as p bytes mode owner)
    (λ r w', match r with
             | Ok _ => install_state (p :: done) named (fs w') ∧ fs w' !! on_host CONFIG_FILE = fs w !! on_host CONFIG_FILE
             | Err _ => True end) w.
Proof.
  intros Hp HC Hd Hw Hn. destruct (scratch_of p Hp) as [Htemp Hdirs].
  eapply wpc_mono; [|apply (wpc_write_as fair matters J J_same)].
  - intros [[]|err] w' _ Hw'; [|done]. destruct Hw' as (u & g & Ho & Hs). split.
    + eapply config_same; [|exact Hs|]; [set_solver|]. apply put_fresh; auto.
    + rewrite Hs by (apply matters_targets; is_target). by rewrite lookup_insert_ne.
  - intros a Ha [_ Hns]. by apply Hns, Hdirs.
  - intros [_ Hns]. by apply Hns.
  - by apply temp_apart.
  - by eapply state_weaken.
  - intros u g Ho. eapply state_weaken, put_fresh; eauto.
Qed.

Lemma wpc_put_config done named bytes w :
  done ⊆ targets → on_host CONFIG_FILE ∉ done → install_state done named (fs w) →
  (∀ u g f, f !! on_host CONFIG_FILE = Some (File bytes 420 u g) →
     template f ∨ named = true ∧ is_Some self_signed_name ∧ names_pair f ∧ on_host TLS_KEY ∈ done ∧ on_host TLS_CERT ∈ done) →
  wpc fair I (write (on_host CONFIG_FILE) bytes 420)
    (λ r w', match r with
             | Ok _ => install_state done named (fs w') ∧ ∃ u g, fs w' !! on_host CONFIG_FILE = Some (File bytes 420 u g)
             | Err _ => True end) w.
Proof.
  intros Hd HC Hw Hn. assert (Hp : on_host CONFIG_FILE ∈ targets) by is_target.
  destruct (scratch_of _ Hp) as [Htemp Hdirs].
  assert (Hput : ∀ u g, install_state done named (<[on_host CONFIG_FILE := File bytes 420 u g]> (fs w))).
  { intros u g. apply put_config; [|done..]. intros f. apply Hn. }
  unfold write. eapply wpc_mono; [|apply (wpc_write_as fair matters J J_same (on_host CONFIG_FILE) bytes 420 None)].
  - intros [[]|err] w' _ Hw'; [|done]. destruct Hw' as (u & g & _ & Hs). split.
    + by eapply config_same.
    + exists u, g. rewrite Hs by by apply matters_targets. by rewrite lookup_insert_eq.
  - intros a Ha [_ Hns]. by apply Hns, Hdirs.
  - intros [_ Hns]. by apply Hns.
  - by apply temp_apart.
  - by eapply state_weaken.
  - intros u g _. by eapply state_weaken.
Qed.

Lemma wpc_ran done named program args w :
  done ⊆ targets → install_state done named (fs w) →
  wpc fair I (Install.run program args) (λ _ w', install_state done named (fs w') ∧ same_on matters (fs w') (fs w)) w.
Proof.
  intros Hd Hw. apply wpc_bind, wpc_step; [by eapply state_weaken|]. intros e [_ He]. cbn [fst snd].
  assert (Hs : same_on matters (fs {| fs := changed e (fs w); ran := (program, args) :: ran w |}) (fs w)).
  { intros p [Hp _]. by apply He. }
  split; [by eapply state_J|]. apply wpc_ret; [by eapply state_J|]. split; [by eapply config_same|done].
Qed.

Lemma wpc_template done w :
  done ⊆ targets → on_host CONFIG_FILE ∉ done → install_state done false (fs w) →
  wpc fair I (write_template [47] CONFIG)
    (λ r w', match r with Ok _ => install_state done false (fs w') ∧ is_Some (fs w' !! on_host CONFIG_FILE) | Err _ => True end) w.
Proof.
  intros Hd HC Hw. apply wpc_bind, wpc_look; [by eapply state_weaken|]. intros e [He _].
  rewrite !on_host_eq. destruct (negb (stat_fault e) && bool_decide (is_Some (fs w !! on_host CONFIG_FILE))) eqn:Ec; cbn [negb].
  - apply andb_true_iff in Ec as [_ Hc%bool_decide_eq_true]. apply wpc_ret; [by eapply state_weaken|]. by split.
  - eapply wpc_mono; [|apply (wpc_put_config done false); [done..|]].
    + intros [[]|err] w' _ Hw'; [|done]. destruct Hw' as (? & u & g & E). split; [done|]. by rewrite E.
    + intros u g f Ef. left. split; [|by eauto]. intros Hsees. rewrite He in Ec by done.
      apply bool_decide_eq_false, eq_None_not_Some in Ec.
      destruct (config_whole _ _ _ Hw) as [E|[(Hu & _)|[[=] _]]]; [congruence|by apply Hu].
Qed.

Lemma wpc_set_pair done w :
  done ⊆ targets → on_host CONFIG_FILE ∉ done → on_host TLS_KEY ∈ done → on_host TLS_CERT ∈ done →
  is_Some self_signed_name → install_state done false (fs w) →
  wpc fair I (set_tls_paths toml_set_pair (on_host CONFIG_FILE))
    (λ r w', match r with
             | Ok _ => install_state done true (fs w') ∧ names_pair (fs w')
             | Err _ => True end) w.
Proof.
  intros Hd HC Hk Hcert Hname Hw. apply wpc_bind, wpc_look; [by eapply state_weaken|]. intros e _.
  unfold or_fault. destruct (fault e); [by apply wpc_ret; [eapply state_weaken|]|].
  destruct (read_text (fs w) (on_host CONFIG_FILE)) as [text|err] eqn:Et; cbn [map_err mbind result_bind];
    [|by apply wpc_ret; [eapply state_weaken|]].
  destruct (toml_set_pair self_signed_files text) as [doc|err] eqn:Edoc; cbn [map_err];
    [|by apply wpc_ret; [eapply state_weaken|]].
  assert (Hown : read_text f0 (on_host CONFIG_FILE) = Ok text ∨
    unconfigured ∧ from_utf8 (as_bytes CONFIG) = Some text).
  { unfold read_text, read_file in *. destruct (config_whole _ _ _ Hw) as [E|[(En & u' & g' & E)|[[=] _]]].
    - left. by rewrite <- E.
    - right. split; [done|]. rewrite E in Et. cbn in Et. by apply ok_or_Ok in Et. }
  assert (Hw' : install_state done true (fs w)).
  { destruct Hw as [Ho Hdn Hc]. split; [done..|]. naive_solver. }
  assert (Hnames : ∀ u g f, f !! on_host CONFIG_FILE = Some (File (as_bytes doc) 420 u g) → names_pair f).
  { intros u g f Ef. by exists text, doc, u, g. }
  eapply wpc_mono; [|apply (wpc_put_config done true); [done..|]].
  - intros [[]|err] w' _ H'; [|done]. destruct H' as (? & u & g & E). split; [done|]. by eapply Hnames.
  - intros u g f Ef. right. split_and!; try done. by eapply Hnames.
Qed.
#[local] Abbreviation the_check := (check [47] toml_from_str parse_uri debug_fmt self_signed_name).

Lemma check_looks : looks the_check.
Proof.
  assert (Hany : ∀ paths, looks (any_exists [47] paths)).
  { intros paths. induction paths as [|p paths IH]; [done|]. cbn [any_exists]. unfold exists_. looks. }
  unfold check, foreign_pair, check_config, load_installed, exists_, is_dir, connects, read, read_to_string. looks.
Qed.

Lemma targets_sub l : l ⊆ [BIN; SYSUSERS_FILE; CONFIG_FILE; TLS_KEY; TLS_CERT; UNIT_FILE] → on_host <$> l ⊆ targets.
Proof. intros Hl p (r & -> & Hr)%list_elem_of_fmap. apply list_elem_of_fmap_2. auto. Qed.

(** The pair, when the install makes one. *)
Definition pair_done (f : gmap str node) : Prop :=
  is_Some self_signed_name → names_pair f ∧ fresh (on_host TLS_KEY) f ∧ fresh (on_host TLS_CERT) f.

Lemma wpc_self_signed name w :
  self_signed_name = Some name →
  install_state (on_host <$> [SYSUSERS_FILE; BIN]) false (fs w) →
  wpc fair I (write_self_signed [47] toml_set_pair sha256_bytes name now)
    (λ r w', match r with
             | Ok _ => install_state (on_host <$> [TLS_CERT; TLS_KEY; SYSUSERS_FILE; BIN]) true (fs w') ∧ names_pair (fs w')
             | Err _ => True end) w.
Proof.
  intros Hname Hw. unfold write_self_signed. rewrite !on_host_eq.
  destruct (self_signed sha256_bytes name now) as [made|err] eqn:Em; [|apply wpc_ret; [by eapply state_weaken|done]].
  apply wpc_bind, wpc_look; [by eapply state_weaken|]. intros e _.
  destruct (user_ids _ _) as [[uid gid]|] eqn:Eu; [|apply wpc_ret; [by eapply state_weaken|done]].
  apply wpc_and_then.
  eapply wpc_mono; [|apply (wpc_put (on_host <$> [SYSUSERS_FILE; BIN]) false); [is_target|apart| |exact Hw|]].
  3: { intros u g [-> ->]. do 3 right. exists name, made. split_and!; [done..|]. left. split; [done|]. by eexists _, _, _. }
  2: { apply targets_sub. set_solver. }
  intros [[]|err] w1 _ H1; [|done]. destruct H1 as [H1 _].
  apply wpc_and_then. unfold write.
  eapply wpc_mono; [|apply (wpc_put (on_host <$> [TLS_KEY; SYSUSERS_FILE; BIN]) false); [is_target|apart| |exact H1|]].
  3: { intros u g _. do 3 right. exists name, made. split_and!; [done..|]. right. split; [done|]. by eexists _, _. }
  2: { apply targets_sub. set_solver. }
  intros [[]|err] w2 _ H2; [|done]. destruct H2 as [H2 _].
  apply wpc_and_then.
  eapply wpc_mono; [|apply (wpc_set_pair (on_host <$> [TLS_CERT; TLS_KEY; SYSUSERS_FILE; BIN])); [..|exact H2]].
  - intros [[]|err] w3 H3 H3'; [|done]. by apply wpc_ret.
  - apply targets_sub. set_solver.
  - apart.
  - apply list_elem_of_further, list_elem_of_here.
  - apply list_elem_of_here.
  - by rewrite Hname.
Qed.
(** The certificate step: the pair when one is asked for, and nothing otherwise. *)
Lemma wpc_certificate w :
  install_state (on_host <$> [SYSUSERS_FILE; BIN]) false (fs w) →
  is_Some (fs w !! on_host CONFIG_FILE) →
  wpc fair I
    (match self_signed_name with
     | Some name => and_then (write_self_signed [47] toml_set_pair sha256_bytes name now) (λ c, mret (Ok (Some c)))
     | None => mret (Ok None)
     end : os (result str (option Certificate)))
    (λ r w', match r with
             | Ok _ => ∃ named done, (on_host <$> [SYSUSERS_FILE; BIN]) ⊆ done ∧ done ⊆ targets ∧ on_host UNIT_FILE ∉ done ∧
                 install_state done named (fs w') ∧ is_Some (fs w' !! on_host CONFIG_FILE) ∧
                 (is_Some self_signed_name → names_pair (fs w') ∧ on_host TLS_KEY ∈ done ∧ on_host TLS_CERT ∈ done)
             | Err _ => True end) w.
Proof.
  intros Hw HC. destruct self_signed_name as [name|] eqn:En.
  - apply wpc_and_then. rewrite <- En in *. eapply wpc_mono; [|apply (wpc_self_signed name); [done|exact Hw]].
    intros [c|err] w1 Hi1 H1; [|done]. destruct H1 as [H1 Hn]. apply wpc_ret; [exact Hi1|].
    exists true, (on_host <$> [TLS_CERT; TLS_KEY; SYSUSERS_FILE; BIN]).
    split_and!; [set_solver|apply targets_sub; set_solver|apart|exact H1| |].
    + destruct Hn as (? & ? & ? & ? & _ & _ & E). by rewrite E.
    + intros _. split_and!; [done|set_solver..].
  - rewrite <- En in *. apply wpc_ret; [by eapply state_weaken|]. exists false, (on_host <$> [SYSUSERS_FILE; BIN]).
    split_and!; [done|apply targets_sub; set_solver|apart|done..|]. rewrite En. by intros [? [=]].
Qed.

(** What a finished install leaves. *)
Definition in_place (f : gmap str node) : Prop :=
  (∃ named, install_state (on_host <$> [UNIT_FILE; SYSUSERS_FILE; BIN]) named f) ∧
  is_Some (f !! on_host CONFIG_FILE) ∧ pair_done f.

(** The rest of [install], from the unit on. *)
Lemma wpc_service named done listen c w :
  (on_host <$> [SYSUSERS_FILE; BIN]) ⊆ done → done ⊆ targets → on_host UNIT_FILE ∉ done →
  install_state done named (fs w) → is_Some (fs w !! on_host CONFIG_FILE) →
  (is_Some self_signed_name → names_pair (fs w) ∧ on_host TLS_KEY ∈ done ∧ on_host TLS_CERT ∈ done) →
  wpc fair I
    (and_then (write (on_host UNIT_FILE) (as_bytes UNIT) 420) (λ _,
     and_then (Install.run (lit "systemctl") [lit "daemon-reload"]) (λ _,
     and_then (Install.run (lit "systemctl") [lit "enable"; SERVICE]) (λ _,
     and_then (Install.run (lit "systemctl") [lit "restart"; SERVICE]) (λ _,
     and_then (load_installed [47] toml_from_str parse_uri debug_fmt) (λ config,
     mret (Ok {| installed_listen := listen; installed_tls := bool_decide (is_Some (tls config)); installed_cert := c |})))))))
    (λ r w', is_ok r = true → in_place (fs w')) w.
Proof.
  intros Hsub Hd Hu Hw HC Hpair.
  assert (Hd1 : on_host UNIT_FILE :: done ⊆ targets) by (assert (on_host UNIT_FILE ∈ targets) by is_target; set_solver).
  set (ready := λ w1 : World, install_state (on_host UNIT_FILE :: done) named (fs w1) ∧
    fs w1 !! on_host CONFIG_FILE = fs w !! on_host CONFIG_FILE).
  assert (Hrun : ∀ args (k : unit → os (result str Installed)) Q w1, ready w1 →
    (∀ err w2, Q (Err err) w2) → (∀ w2, ready w2 → wpc fair I (k tt) Q w2) →
    wpc fair I (and_then (Install.run (lit "systemctl") args) k) Q w1).
  { intros args k Q w1 [H1 H1C] He Hk. apply wpc_and_then. eapply wpc_mono; [|by eapply wpc_ran].
    intros [[]|err] w2 _ [H2 Hs]; [|apply He]. apply Hk. split; [done|].
    rewrite Hs by (apply matters_targets; is_target). done. }
  apply wpc_and_then. unfold write.
  eapply wpc_mono; [|apply (wpc_put done named); [is_target|apart|done|done|]].
  2: { intros u g _. do 2 right. left. split; [done|]. by eexists _, _. }
  intros [[]|err] w1 _ H1; [|done].
  apply Hrun; [exact H1|done|]. intros w2 H2. apply Hrun; [exact H2|done|]. intros w3 H3.
  apply Hrun; [exact H3|done|]. intros w4 [H4 H4C]. apply wpc_and_then, wpc_looks; [unfold load_installed; looks|by eapply state_weaken|].
  intros [config|err]; [|done]. apply wpc_ret; [by eapply state_weaken|]. intros _. unfold in_place. rewrite H4C. split_and!; [|done|].
  - exists named. destruct H4 as [Ho Hdn Hc]. split; [done| |done]. intros p Hp. apply Hdn. set_solver.
  - intros Hs. destruct (Hpair Hs) as (Hn & Hk & Hcert). split_and!.
    + unfold names_pair in *. by rewrite H4C.
    + eapply all_done; [exact H4|by right].
    + eapply all_done; [exact H4|by right].
Qed.
End run.

End safe.

(** ** Uninstalling keeps what is not Lodger's *)

Section removal.
(** The paths that the programs of the host leave alone, and the files at the start. *)
Variable leaves : str → Prop.
Variables (purge : bool) (f0 : gmap str node).

(** A system that reports a missing file only when it is missing. *)
Definition honest (e : os_env) : Prop :=
  stat_fault e = false ∧ (∀ err, fault e = Some err → io_kind err ≠ KNotFound) ∧
  ∀ f p, leaves p → changed e f !! p = f !! p.

(** What the command may remove. *)
Definition lodgers (p : str) : Prop :=
  p ∈ on_host <$> [UNIT_FILE; BIN] ∨
  purge = true ∧ (below (on_host CONFIG_DIR) p = true ∨ below (on_host STATE_DIR) p = true ∨ p = on_host SYSUSERS_FILE).

Definition kept (f : gmap str node) : Prop := ∀ p, leaves p → ¬ lodgers p → f !! p = f0 !! p.
Definition gone (l : list str) (f : gmap str node) : Prop := ∀ p, p ∈ l → leaves p → f !! p = None.

#[local] Abbreviation I := (λ w : World, kept (fs w)).

Lemma wpc_remove_file p l w :
  lodgers p → kept (fs w) → gone l (fs w) →
  wpc honest I (remove_file p)
    (λ r w', kept (fs w') ∧ match r with Ok _ => gone (p :: l) (fs w') | Err _ => True end) w.
Proof.
  intros Hp Hk Hg. apply wpc_bind, wpc_step; [done|]. intros e (_ & He & _).
  assert (Hdel : kept (delete p (fs w)) ∧ gone (p :: l) (delete p (fs w))).
  { split; [intros q Hq Hn; rewrite lookup_delete_ne by congruence; auto|].
    intros q [->|Hq]%elem_of_cons Hlv; [apply lookup_delete_eq|].
    apply lookup_delete_None. right. auto. }
  destruct (fault e) as [err|].
  - specialize (He err eq_refl). split; [done|]. apply wpc_ret; [done|]. cbn. by destruct (io_kind err).
  - destruct (fs w !! p) as [[]|] eqn:Ep; cbn [fst snd fs with_fs]; (split; [by try apply Hdel|apply wpc_ret]);
      try done; try apply Hdel. cbn. split; [done|]. intros q [->|Hq]%elem_of_cons Hlv; [done|auto].
Qed.

Lemma below_self dir : below dir dir = true.
Proof. unfold below. by rewrite bool_decide_true. Qed.

Lemma wpc_remove_dir dir l w :
  (∀ p, below dir p = true → lodgers p) → kept (fs w) → gone l (fs w) →
  wpc honest I (remove_dir dir)
    (λ r w', kept (fs w') ∧ match r with Ok _ => gone (dir :: l) (fs w') | Err _ => True end) w.
Proof.
  intros Hdir Hk Hg. apply wpc_bind, wpc_step; [done|]. intros e (_ & He & _).
  assert (Hkeep : ∀ P : str * node → Prop, ∀ `{!∀ x, Decision (P x)},
    (∀ q n, below dir q = false → P (q, n)) → kept (filter P (fs w)) ∧ gone l (filter P (fs w))).
  { intros P HP HPq. split.
    - intros q Hq Hn. rewrite <- Hk by done. destruct (fs w !! q) as [n|] eqn:Eq.
      + apply map_lookup_filter_Some. split; [done|]. apply HPq.
        destruct (below dir q) eqn:Eb; [|done]. by destruct Hn; apply Hdir.
      + apply map_lookup_filter_None. by left.
    - intros q Hq Hlv. apply map_lookup_filter_None. left. auto. }
  destruct (fault e) as [err|].
  - specialize (He err eq_refl).
    assert (Hf := Hkeep (λ x, negb (below dir x.1 && removed e x.1)) _ ltac:(intros q n Hb; cbn; by rewrite Hb)).
    destruct (fs w !! dir) as [[]|]; cbn [fst snd fs with_fs]; (split; [apply Hf|]);
      (apply wpc_ret; [apply Hf|]); (split; [apply Hf|]); cbn; by destruct (io_kind err).
  - assert (Hf := Hkeep (λ x, negb (below dir x.1)) _ ltac:(intros q n Hb; cbn; by rewrite Hb)).
    destruct (fs w !! dir) as [[]|] eqn:Ed; cbn [fst snd fs with_fs].
    + split; [done|]. by apply wpc_ret.
    + split; [apply Hf|]. apply wpc_ret; [apply Hf|]. split; [apply Hf|]. cbn.
      intros q [->|Hq]%elem_of_cons Hlv; [|by apply Hf]. apply map_lookup_filter_None. right. intros n _ Hx.
      change (Is_true (negb (below dir dir))) in Hx. by rewrite below_self in Hx.
    + split; [done|]. apply wpc_ret; [done|]. split; [done|]. cbn. intros q [->|Hq]%elem_of_cons Hlv; [done|auto].
Qed.

Lemma wpc_remove_ran program args l w :
  kept (fs w) → gone l (fs w) →
  wpc honest I (run program args) (λ _ w', kept (fs w') ∧ gone l (fs w')) w.
Proof.
  intros Hk Hg. apply wpc_bind, wpc_step; [done|]. intros e (_ & _ & He). cbn [fst snd fs].
  assert (H : kept (changed e (fs w)) ∧ gone l (changed e (fs w))).
  { split; intros p Hp Hq; [rewrite He by done|rewrite He by done]; auto. }
  split; [apply H|]. by apply wpc_ret; [apply H|].
Qed.
End removal.

Section uninstalls.
Variables (leaves : str → Prop) (purge : bool) (f0 : gmap str node).
#[local] Abbreviation K := (kept leaves purge f0).
#[local] Abbreviation I := (λ w : World, K (fs w)).

Lemma lodgers_fixed r : r ∈ [UNIT_FILE; BIN] → lodgers purge (on_host r).
Proof. intros Hr. left. by apply list_elem_of_fmap_2. Qed.

Lemma wpc_remove_unit w :
  K (fs w) →
  wpc (honest leaves) I (remove_unit [47])
    (λ r w', K (fs w') ∧ (is_ok r = true → gone leaves [on_host UNIT_FILE] (fs w'))) w.
Proof.
  intros Hk. apply wpc_bind, wpc_look; [done|]. intros e (He & _ & _). rewrite He, !on_host_eq. cbn [negb andb].
  case_bool_decide as Hu.
  - apply wpc_and_then. eapply wpc_mono; [|apply (wpc_remove_ran leaves purge f0 _ _ []); [done|]].
    2: { intros p []%not_elem_of_nil. }
    intros [[]|err] w1 Hi1 [H1 H1g]; [|by split]. apply wpc_and_then.
    eapply wpc_mono; [|apply (wpc_remove_file leaves purge f0 _ []); [apply lodgers_fixed; left|done..]].
    intros [[]|err] w2 Hi2 [H2 H2g]; [|by split].
    eapply wpc_mono; [|apply (wpc_remove_ran leaves purge f0 _ _ [on_host UNIT_FILE]); done].
    intros r w3 _ [? ?]. by split.
  - apply wpc_ret; [done|]. split; [done|]. intros _ p ->%list_elem_of_singleton _. by apply eq_None_not_Some.
Qed.

Lemma wpc_purge_data l w :
  purge = true → K (fs w) → gone leaves l (fs w) →
  wpc (honest leaves) I (purge_data [47])
    (λ r w', K (fs w') ∧
       (is_ok r = true → gone leaves (on_host SYSUSERS_FILE :: on_host STATE_DIR :: on_host CONFIG_DIR :: l) (fs w'))) w.
Proof.
  intros Hp Hk Hg. unfold purge_data. rewrite !on_host_eq. apply wpc_and_then.
  eapply wpc_mono; [|apply (wpc_remove_dir leaves purge f0 _ l); [|done..]].
  2: { intros p Hb. right. auto. }
  intros [[]|err] w1 Hi1 [H1 H1g]; [|by split]. apply wpc_and_then.
  eapply wpc_mono; [|apply (wpc_remove_dir leaves purge f0); [|done|exact H1g]].
  2: { intros p Hb. right. auto. }
  intros [[]|err] w2 Hi2 [H2 H2g]; [|by split]. apply wpc_and_then.
  eapply wpc_mono; [|apply (wpc_remove_file leaves purge f0); [right; auto|done|exact H2g]].
  intros [[]|err] w3 Hi3 [H3 H3g]; [|by split]. apply wpc_bind, wpc_look; [done|]. intros e _.
  destruct (has_entry _ _); [|by apply wpc_ret].
  eapply wpc_mono; [|apply (wpc_remove_ran leaves purge f0); [done|exact H3g]].
  intros r w4 Hi4 [H4 H4g]. by split.
Qed.
End uninstalls.

(** C31: uninstalling removes Lodger and nothing else.  Take any host whose other
    programs leave some set of paths alone, where a file is reported missing only when
    it is; any call may fail and the process may be killed at any point.  Then at every
    moment every such path is as it was, apart from the unit and the binary, and with
    [--purge] apart from what is in /etc/lodger and /var/lib/lodger and the user file:
    without [--purge] the configuration, the database and the keys are untouched.  After
    success the unit and the binary are gone, and with [--purge] the two folders and
    the user file too. *)
Theorem uninstall_safe (leaves : str → Prop) purge w :
  wpc (honest leaves) (λ w', kept leaves purge (fs w) (fs w')) (uninstall [47] purge)
    (λ r w', is_ok r = true →
       gone leaves (on_host <$> [UNIT_FILE; BIN]) (fs w') ∧
       (purge = true → gone leaves (on_host <$> [CONFIG_DIR; STATE_DIR; SYSUSERS_FILE]) (fs w'))) w.
Proof.
  unfold uninstall. apply wpc_and_then. eapply wpc_mono; [|by apply wpc_remove_unit].
  intros [[]|err] w1 Hi1 [H1 H1g]; [|done]. specialize (H1g eq_refl). apply wpc_and_then. rewrite !on_host_eq.
  eapply wpc_mono; [|apply (wpc_remove_file leaves purge (fs w) _ [on_host UNIT_FILE]); [|done..]].
  2: { apply lodgers_fixed. right. left. }
  intros [[]|err] w2 Hi2 [H2 H2g]; [|done].
  assert (Hone : gone leaves (on_host <$> [UNIT_FILE; BIN]) (fs w2)) by (intros p Hp; apply H2g; set_solver).
  destruct purge; cbn [negb]; [|by apply wpc_ret].
  apply wpc_and_then. eapply wpc_mono; [|by apply (wpc_purge_data leaves true (fs w) (on_host <$> [UNIT_FILE; BIN]))].
  intros [[]|err] w3 Hi3 [H3 H3g]; [|done]. specialize (H3g eq_refl). apply wpc_ret; [done|]. intros _.
  split; [|intros _]; intros p Hp; apply H3g; set_solver.
Qed.

(** ** The wait ends *)

Lemma wait_rounds_ends n addr timeout deadline e w i :
  (∀ j, clock (e j) + 200000000 ≤ clock (e (j + 2)%nat)) →
  deadline ≤ clock (e (S i)) + Z.of_nat n * 200000000 →
  ∃ r, (os_exec (wait_rounds n addr timeout deadline) e w i).1.1 = Some r.
Proof.
  intros Hc. revert i. induction n as [|n IH]; intros i Hd; cbn [wait_rounds]; rewrite os_exec_bind; cbn.
  all: destruct (accepts (e i)); [by eexists|]; cbn.
  all: destruct (Z.leb_spec deadline (clock (e (S i)))); [by eexists|].
  - lia.
  - apply IH. specialize (Hc (S i)). replace (S i + 2)%nat with (S (S (S i))) in Hc by lia. lia.
Qed.

(** The wait for the service ends: when a round takes at least its sleep of 200 ms,
    [wait_listening] returns after at most 151 rounds. *)
Lemma wait_listening_ends addr e w i :
  (∀ j, clock (e j) + 200000000 ≤ clock (e (j + 2)%nat)) → clock (e i) ≤ clock (e (S (S i))) →
  ∃ r, (os_exec (wait_listening 151 addr START_TIMEOUT) e w i).1.1 = Some r.
Proof.
  intros Hc Hi. unfold wait_listening. rewrite os_exec_bind. unfold instant, look, step. cbn [os_exec].
  apply wait_rounds_ends; [done|]. unfold START_TIMEOUT. lia.
Qed.

(** ** Witnesses: a first install, and removing it again *)

Definition tls_demo : TlsLib :=
  {| certificate := unit; private_key := unit; tls_config := unit;
     pem_certs := λ _, Ok [tt]; pem_key := λ _, Ok tt; pem_io_text := io_text;
     protocol_versions := Ok tt; single_cert := λ _ _, Ok tt;
     x509_from_pem := λ _, Ok (lit "CN=x,O=Lodger self-signed", 7); date_text := to_string;
     params_new := λ _, Ok tt;
     rcgen_make := λ _, Ok {| made_der := [1]; made_pem := lit "CERT"; made_key_pem := lit "KEY" |} |}.

(** A host with systemd, libvirt and the lodger user. *)
Definition demo_world : World :=
  let dir p := (lit p, Folder 493 0 0) in
  let text p s := (lit p, File (lit s) 420 0 0) in
  {| fs := list_to_map
       [dir "/"; dir "/etc"; dir "/usr"; dir "/usr/local"; dir "/usr/local/bin"; dir "/etc/systemd";
        dir "/etc/systemd/system"; dir "/run/systemd/system"; text "/run/libvirt/libvirt-sock" "";
        text "/etc/group" "libvirt:x:107:lodger"; text "/etc/passwd" "lodger:x:999:998::/var/lib/lodger:";
        text "/tmp/lodger" "ELF"];
     ran := [] |}.

Definition demo_install : os (result str Installed) :=
  @install ipnet_ref tls_demo [47] (lit "unit") (lit "users") (lit "listen") (λ _, Ok ConfigFile_default)
    (λ pair text, Ok (text ++ cert pair)) (λ _, None) id id (lit "/tmp/lodger") (Some (lit "lodger.lan")) 0.

Definition demo_run : result str Installed * World * nat := os_exec demo_install (λ _, calm_os) demo_world O.


(** The operator's configuration is in place, and looking at a path fails at step [i]. *)
Definition configured_world : World :=
  {| fs := <[lit "/etc/lodger/config.toml" := File (lit "listen = ours") 384 0 0]>
             (<[lit "/etc/lodger" := Folder 493 0 0]> (fs demo_world));
     ran := [] |}.

Definition blind_at (i j : nat) : os_env :=
  {| fault := None; stat_fault := bool_decide (i = j); short := O; removed := λ _, true; umask := 18; ids := (0, 0);
     changed := id; outcome := Ok (true, []); accepts := false; clock := 0; canonical := Ok; cwd := Ok [47] |}.

Definition plain_install : os (result str Installed) :=
  @install ipnet_ref tls_demo [47] (lit "unit") (lit "users") (lit "listen") (λ _, Ok ConfigFile_default)
    (λ pair text, Ok (text ++ cert pair)) (λ _, None) id id (lit "/tmp/lodger") None 0.

(** One failing look at the configuration file ([exists] answers false for an error
    too) and the install replaces the operator's text with the template, its mode too,
    and succeeds. *)
Lemma install_overwrites_unseen_config :
  let run i := os_exec plain_install (blind_at i) configured_world O in
  is_ok (run 24%nat).1.1 = true ∧
  fs (run 24%nat).1.2 !! on_host CONFIG_FILE = Some (File (lit "listen") 420 0 0) ∧
  fs (run 99%nat).1.2 !! on_host CONFIG_FILE = Some (File (lit "listen = ours") 384 0 0).
Proof. split_and!; vm_compute; reflexivity. Qed.

Definition demo_uninstall : result str str * World * nat :=
  os_exec (uninstall [47] false) (λ _, calm_os) demo_run.1.2 O.

Lemma uninstall_safe_witness :
  fs demo_uninstall.1.2 !! on_host BIN = None ∧ fs demo_uninstall.1.2 !! on_host TLS_KEY ≠ None.
Proof.
  split; [|vm_compute; discriminate].
  pose proof (uninstall_safe (λ _, True) false demo_run.1.2) as Hw.
  apply (wpc_exec _ _ _ _ _ (λ _, calm_os) O) in Hw; [|by intros i].
  destruct Hw as [Hg _]; [vm_compute; reflexivity|]. apply Hg; [right; left|done].
Defined.
