(* ===== verification/Start.v ===== *)
(** * The start of the process (crates/lodger/src/server.rs: [serve]; cli.rs; main.rs)

    The command line and what each command runs.  The start of the server is a program
    over the files, the database and the two output streams of the process. *)

From S2P Require Import Prelude Text Os Net Validate Password Throttle Tickets Db Http Config Tls Assets Csp AuditLog Server Admin DbFile Setup Virt VirtConn Doctor Install.

(** ** The command line *)

(** [Command]. *)
Inductive Command :=
| CServe (config : option str) (listen : option SocketAddr) (uri state_dir : option str)
| CAdmin (action : AdminAction) (config state_dir : option str)
| CDoctor (config : option str)
| CInstall (self_signed : option str)
| CUninstall (purge : bool)
| CVersion.

(** [version_line]. *)
Definition version_line (CARGO_PKG_VERSION : str) (client : result str (Z * Z * Z)) : result str str :=
  match client with
  | Err e => Err (lit "cannot read the libvirt client version: " ++ e)
  | Ok (major, minor, micro) =>
      Ok (lit "lodger " ++ CARGO_PKG_VERSION ++ lit " (libvirt client " ++ to_string major ++ lit "." ++
          to_string minor ++ lit "." ++ to_string micro ++ lit ")")
  end.

(** The settings that the flags of a command override. *)
Definition overrides_of (c : Command) : Overrides :=
  match c with
  | CServe config listen uri state_dir =>
      {| over_config := config; over_listen := listen; over_uri := uri; over_state_dir := state_dir |}
  | CAdmin _ config state_dir =>
      {| over_config := config; over_listen := None; over_uri := None; over_state_dir := state_dir |}
  | CDoctor config => {| over_config := config; over_listen := None; over_uri := None; over_state_dir := None |}
  | _ => Overrides_default
  end.

(** ** Programs of the process *)

(** How a program ends: with a value, with an error, with a panic, or not yet. *)
Inductive ended (A : Type) := Done (a : A) | Failed (e : str) | Panicked | Running.
Arguments Done {A} a.
Arguments Failed {A} e.
Arguments Panicked {A}.
Arguments Running {A}.

Section start.
Context `{Ipnet} `{LogText} `{TlsLib} `{Lowercase} `{Argon2} `{Fmt}.
Context {schema : Type}.

(** The fields of the router's state that do not change. *)
Record Served := {
  sv_state : AppState;
  sv_proxies : list ipnet;
  sv_origin : option str;
  sv_csp : str;
  sv_hsts : bool;
  sv_uri : str;
  (** the listener: TLS or plain *)
  sv_tls : option tls_config
}.

(** What the process does outside the files and the database, in order. *)
Inductive Event :=
| Stdout (line : str)
| Stderr (line : str)
(** a task of its own: the supervisor of a libvirt URI, and the daily deletion *)
| Supervises (uri : str)
| DeletesOldRows
| Bound (addr : SocketAddr)
| CatchesSignals
| Serves (served : Served).

Record Machine := {
  m_world : World;
  m_steps : nat;
  m_schema : SchemaDb (schema := schema);
  m_conn : option (Connection (schema := schema));
  (** the rows, which the migrations leave alone, and the copy of the journal *)
  m_rows : Tables;
  m_journal : list str;
  m_out : list Event
}.

(** What the system does during one run. *)
Record start_env := {
  e_os : nat → os_env;
  e_app : nat → env;
  e_open : open_faults;
  e_argon2_task : option str;
  e_runtime : option io_error;
  e_bind : option io_error;
  e_signals : option io_error;
  e_local : result io_error SocketAddr;
  e_tls_local : option io_error;
  e_served : option io_error
}.

Definition start (A : Type) : Type := Machine → ended A * Machine.

#[export] Instance start_ret : MRet start := λ A a m, (Done a, m).
#[export] Instance start_bind : MBind start := λ A B f p m,
  match p m with
  | (Done a, m') => f a m'
  | (Failed e, m') => (Failed e, m')
  | (Panicked, m') => (Panicked, m')
  | (Running, m') => (Running, m')
  end.

Definition of_result {A} (r : result str A) : start A := λ m,
  (match r with Ok a => Done a | Err e => Failed e end, m).
Definition emit (ev : Event) : start unit := λ m,
  (Done tt, {| m_world := m_world m; m_steps := m_steps m; m_schema := m_schema m; m_conn := m_conn m;
               m_rows := m_rows m; m_journal := m_journal m; m_out := m_out m ++ [ev] |}).

Variable e : start_env.

(** System calls. *)
Definition lift_os {A} (p : os A) : start A := λ m,
  let '(a, w, n) := os_exec p (e_os e) (m_world m) (m_steps m) in
  (Done a, {| m_world := w; m_steps := n; m_schema := m_schema m; m_conn := m_conn m; m_rows := m_rows m;
              m_journal := m_journal m; m_out := m_out m |}).
Definition lift {A} (p : os (result str A)) : start A := r ← lift_os p; of_result r.

(** The one blocking task of [Db::open]. *)
Variable execute_batch : str → schema → result str schema.
Variable MIGRATIONS : list str.
Definition connects_db (path : str) : start unit := λ m,
  let '(r, d) := connect execute_batch MIGRATIONS (e_open e) path (m_schema m) in
  let m' conn := {| m_world := m_world m; m_steps := m_steps m; m_schema := d; m_conn := conn;
                    m_rows := m_rows m; m_journal := m_journal m; m_out := m_out m |} in
  match r with Ok c => (Done tt, m' (Some c)) | Err err => (Failed err, m' None) end.

(** [Db::open]. *)
Definition open_db (state_dir : str) : start unit :=
  let path := join_path state_dir FILE in
  _ ← lift (prepare_files state_dir path);
  connects_db path.

(** A query that only reads, and a program of handler steps, on the open database. *)
Definition query {A} (q : sql A) : start A := λ m,
  let '(r, t, _) := q (e_sql (e_app e O)) (m_rows m) O in
  (match r with Ok a => Done a | Err err => Failed (sql_text err) end,
   {| m_world := m_world m; m_steps := m_steps m; m_schema := m_schema m; m_conn := m_conn m; m_rows := t;
      m_journal := m_journal m; m_out := m_out m |}).
Definition app_state (m : Machine) (setup : option SetupToken) : AppState :=
  {| app_db := m_rows m; app_throttle := Counters_default; app_tickets := ∅; app_setup := setup;
     app_journal := m_journal m; app_argon2 := [] |}.
Definition handler {A} (p : prog (result str A)) : start A := λ m,
  let '(r, s, _) := exec p (e_app e) (app_state m None) O in
  (match r with Ok a => Done a | Err err => Failed err end,
   {| m_world := m_world m; m_steps := m_steps m; m_schema := m_schema m; m_conn := m_conn m; m_rows := app_db s;
      m_journal := app_journal s; m_out := m_out m |}).

(** ** [serve] *)

Variable sha256 : str → list Z.
Variable sha256_bytes : list Z → list Z.
Variable base64 : list Z → str.
Variable STUB_PAGE : str.
Variable source : str → option Asset.

(** [open_setup]. *)
Definition setup_line (text : str) : str :=
  lit "lodger: setup token: " ++ text ++
  lit " (open Lodger in a browser and enter it to create the first account; it works once and for 60 minutes, and a restart writes a new one)".
Definition open_setup : start (option SetupToken) :=
  count ← query account_count;
  if 0 <? count then mret None
  else
    made ← of_result (generate sha256 (e_instant (e_app e O)) (e_random (e_app e O)));
    _ ← emit (Stderr (setup_line made.1));
    mret (Some made.2).

(** [Host::start]: the check before the supervisor's task. *)
Definition host_start (uri : str) : start unit :=
  uri ← of_result (map_err (λ err, lit "cannot use " ++ debug_str uri ++ lit ": " ++ Error_to_string (EInput err))
                     (check_text (lit "libvirt URI") uri));
  emit (Supervises uri).

(** [AppState::new]; a policy that is no header value panics. *)
Definition new_state (setup : option SetupToken) (config : Config) (tls : option tls_config) : start Served := λ m,
  match initial_csp sha256_bytes base64 STUB_PAGE source (public_url config) with
  | Some policy =>
      (Done {| sv_state := app_state m setup; sv_proxies := trusted_proxies config; sv_origin := public_url config;
               sv_csp := policy; sv_hsts := bool_decide (is_Some tls); sv_uri := Config.uri config; sv_tls := tls |}, m)
  | None => (Panicked, m)
  end.

(** [summary]. *)
Definition summary_line (config : Config) : str :=
  lit "lodger: libvirt " ++ Config.uri config ++ lit ", state directory " ++ state_dir config ++ lit ", public URL " ++
  default (lit "not set") (public_url config) ++ lit ", " ++
  to_string (Z.of_nat (length (trusted_proxies config))) ++ lit " trusted proxies, TLS " ++
  match tls config with Some files => cert files | None => lit "off" end.

Definition opt_in_warning (config : Config) : str :=
  lit "lodger: WARNING: listening on " ++ SocketAddr_to_string (listen config) ++
  lit ", which is not loopback, without TLS, because allow_plain_http is set. Set tls_cert and tls_key, or put Lodger behind a reverse proxy with TLS and listen on 127.0.0.1 instead.".
Definition proxy_warning (config : Config) : str :=
  lit "lodger: WARNING: listening on " ++ SocketAddr_to_string (listen config) ++
  lit " without TLS. Only the proxies in trusted_proxies must reach this address.".

(** The warning about plain HTTP, if one is due. *)
Definition warn (config : Config) (tls : option tls_config) : start unit :=
  if plain_http_by_opt_in config then emit (Stderr (opt_in_warning config))
  else if negb (is_loopback (addr_ip (listen config))) && negb (bool_decide (is_Some tls))
  then emit (Stderr (proxy_warning config))
  else mret tt.

Definition address_line (tls : option tls_config) (addr : SocketAddr) : str :=
  lit "lodger listening on " ++ (if bool_decide (is_Some tls) then lit "https" else lit "http") ++ lit "://" ++
  SocketAddr_to_string addr.

Definition or_io (fail : io_error → str) (o : option io_error) : start unit :=
  of_result (match o with Some err => Err (fail err) | None => Ok tt end).

(** [serve] from the database to the state of the handlers. *)
Definition prepare_server (config : Config) (tls : option tls_config) : start Served :=
  _ ← open_db (state_dir config);
  _ ← of_result (match e_argon2_task e with
                 | Some err => Err (lit "cannot prepare the password check: " ++ err)
                 | None => Ok tt
                 end);
  setup ← open_setup;
  _ ← host_start (Config.uri config);
  _ ← emit DeletesOldRows;
  new_state setup config tls.

(** [serve] from the listener on; the last step is the server itself, which ends on a
    signal. *)
Definition listen_and_serve (config : Config) (tls : option tls_config) (state : Served) : start unit :=
  let fail err := lit "cannot serve on " ++ SocketAddr_to_string (listen config) ++ lit ": " ++ io_text err in
  _ ← or_io fail (e_bind e);
  _ ← emit (Bound (listen config));
  _ ← or_io (λ err, lit "cannot install the signal handlers: " ++ io_text err) (e_signals e);
  _ ← emit CatchesSignals;
  addr ← of_result (map_err fail (e_local e));
  _ ← emit (Stdout (address_line tls addr));
  _ ← emit (Stderr (summary_line config));
  _ ← warn config tls;
  _ ← match tls with Some _ => or_io fail (e_tls_local e) | None => mret tt end;
  _ ← emit (Serves state);
  or_io fail (e_served e).

(** [serve]. *)
Definition serve (config : Config) : start unit :=
  _ ← of_result (check_plain_http config);
  tls ← match tls config with
        | Some files => c ← lift (server_config files); mret (Some c)
        | None => mret None
        end;
  state ← prepare_server config tls;
  listen_and_serve config tls state.

(** ** Reasoning about the start *)

Definition swp {A} (p : start A) (Q : ended A → Machine → Prop) (m : Machine) : Prop := Q (p m).1 (p m).2.

Lemma swp_bind {A B} (p : start A) (f : A → start B) (Q : ended B → Machine → Prop) m :
  swp p (λ r m', match r with
                 | Done a => swp (f a) Q m'
                 | Failed err => Q (Failed err) m'
                 | Panicked => Q Panicked m'
                 | Running => Q Running m'
                 end) m →
  swp (p ≫= f) Q m.
Proof. unfold swp, mbind, start_bind. destruct (p m) as [[] m']; auto. Qed.

Lemma swp_mono {A} (p : start A) (Q Q' : ended A → Machine → Prop) m :
  (∀ r m', Q r m' → Q' r m') → swp p Q m → swp p Q' m.
Proof. unfold swp. auto. Qed.

Lemma swp_of_result {A} (r : result str A) (Q : ended A → Machine → Prop) m :
  match r with Ok a => Q (Done a) m | Err err => Q (Failed err) m end → swp (of_result r) Q m.
Proof. by destruct r. Qed.

Lemma swp_lift {A} (p : os (result str A)) (Q : ended A → Machine → Prop) m :
  (∀ n, let m' := {| m_world := (os_exec p (e_os e) (m_world m) (m_steps m)).1.2; m_steps := n;
                     m_schema := m_schema m; m_conn := m_conn m; m_rows := m_rows m;
                     m_journal := m_journal m; m_out := m_out m |} in
        match (os_exec p (e_os e) (m_world m) (m_steps m)).1.1 with
        | Ok a => Q (Done a) m' | Err err => Q (Failed err) m' end) →
  swp (lift p) Q m.
Proof.
  intros HQ. apply swp_bind. unfold swp at 1, lift_os. destruct (os_exec p _ _ _) as [[r w] n].
  specialize (HQ n). cbn in *. by apply swp_of_result.
Qed.

(** The process has done [evs] since [m1], and nothing else. *)
Record since (m1 : Machine) (evs : list Event) (m2 : Machine) : Prop := {
  since_out : m_out m2 = m_out m1 ++ evs;
  since_world : m_world m2 = m_world m1;
  since_conn : m_conn m2 = m_conn m1;
  since_schema : m_schema m2 = m_schema m1;
  since_rows : m_rows m2 = m_rows m1
}.

Lemma since_refl m : since m [] m.
Proof. split; [by rewrite app_nil_r|done..]. Qed.

Lemma since_trans m1 l1 m2 l2 m3 : since m1 l1 m2 → since m2 l2 m3 → since m1 (l1 ++ l2) m3.
Proof. intros [] []. split; try congruence. rewrite app_assoc. congruence. Qed.

Lemma swp_emit ev evs m0 (Q : ended unit → Machine → Prop) m :
  since m0 evs m → (∀ m', since m0 (evs ++ [ev]) m' → Q (Done tt) m') → swp (emit ev) Q m.
Proof. intros Hs HQ. apply HQ. eapply since_trans; [exact Hs|]. by split. Qed.

(** The database is ready: private, with its settings and all migrations. *)
Definition db_ready (dir : str) (m : Machine) : Prop :=
  set_to 448 dir (m_world m) ∧
  (∃ n, fs (m_world m) !! join_path dir FILE = Some n ∧ private n) ∧
  (∃ c, m_conn m = Some c ∧ (lit "foreign_keys", PBool true) ∈ pragmas c) ∧
  user_version (m_schema m) = Z.of_nat (length MIGRATIONS).

Lemma db_ready_since dir m1 evs m2 : since m1 evs m2 → db_ready dir m1 → db_ready dir m2.
Proof. intros [_ Hw Hc Hs _]. unfold db_ready. by rewrite Hw, Hc, Hs. Qed.

Lemma swp_open_db dir m :
  swp (open_db dir) (λ r m', m_out m' = m_out m ∧ m_rows m' = m_rows m ∧ (r = Done tt → db_ready dir m')) m.
Proof.
  apply swp_bind, swp_lift. intros n.
  pose proof (database_private dir (m_world m)) as Hp.
  apply (wpc_exec _ _ _ _ _ (e_os e) (m_steps m)) in Hp; [|done].
  destruct (os_exec (prepare_files _ _) _ _ _) as [[[[]|err] w] n']; cbn [fst snd] in *; [|done].
  specialize (Hp eq_refl) as [Hd Hf]. unfold swp, connects_db. cbn [m_schema m_world].
  destruct (connect _ _ _ _ _) as [[c|err] d] eqn:E; cbn [fst snd m_out m_rows]; [|done].
  apply connect_Ok in E as (_ & Hk & _ & Hv). split_and!; [done..|]. intros _. split_and!; try done. by exists c.
Qed.

Lemma swp_open_setup m0 evs m :
  since m0 evs m →
  swp open_setup (λ r m', ∃ log, since m0 (evs ++ log) m' ∧
    match r with
    | Done None => tab_accounts (m_rows m0) ≠ [] ∧ log = []
    | Done (Some t) => tab_accounts (m_rows m0) = [] ∧ ∃ text, log = [Stderr (setup_line text)] ∧ setup_hash t = sha256 text
    | Failed _ => log = []
    | _ => False
    end) m.
Proof.
  intros Hs. destruct (Hs) as [Ho Hw Hc Hd Hr]. apply swp_bind.
  unfold swp at 1, query, account_count, select_count, statement. rewrite Hr.
  destruct (tick_fault _); cbn [fst snd]; [exists []; rewrite app_nil_r; by repeat split|].
  destruct (tab_accounts (m_rows m0)) as [|a l] eqn:Ea; cbn [length].
  - change (0 <? Z.of_nat 0) with false. apply swp_bind, swp_of_result. unfold generate.
    destruct (e_random _) as [bytes|err]; cbn [map_err mbind result_bind].
    2: { exists []. rewrite app_nil_r. by repeat split. }
    apply swp_bind. eapply (swp_emit _ evs m0); [by split|]. intros m' Hm'. eexists. split; [exact Hm'|].
    split; [done|]. by eexists.
  - replace (0 <? _) with true by (symmetry; apply Z.ltb_lt; lia). exists []. rewrite app_nil_r. by repeat split.
Qed.

(** ** What a server that serves has done *)

Definition plain_warning (config : Config) (tls : option tls_config) : list Event :=
  if plain_http_by_opt_in config then [Stderr (opt_in_warning config)]
  else if negb (is_loopback (addr_ip (listen config))) && negb (bool_decide (is_Some tls))
  then [Stderr (proxy_warning config)]
  else [].

(** The token line of an install without accounts, for the token that the server holds. *)
Definition token_log (m : Machine) (setup : option SetupToken) (log : list Event) : Prop :=
  match setup with
  | None => tab_accounts (m_rows m) ≠ [] ∧ log = []
  | Some t => tab_accounts (m_rows m) = [] ∧ ∃ text, log = [Stderr (setup_line text)] ∧ setup_hash t = sha256 text
  end.

(** The events from the state on: the listener, the address line, and the server. *)
Definition announced (config : Config) (sv : Served) (addr : SocketAddr) : list Event :=
  [Bound (listen config); CatchesSignals; Stdout (address_line (sv_tls sv) addr); Stderr (summary_line config)] ++
  plain_warning config (sv_tls sv) ++ [Serves sv].

Record serving (config : Config) (m m' : Machine) (sv : Served) : Prop := {
  serving_plain : is_loopback (addr_ip (listen config)) = true ∨ sv_tls sv ≠ None ∨
    trusted_proxies config ≠ [] ∨ allow_plain_http config = true;
  serving_tls : match tls config with
                | None => sv_tls sv = None
                | Some files => ∃ c, sv_tls sv = Some c ∧
                    (os_exec (server_config files) (e_os e) (m_world m) (m_steps m)).1.1 = Ok c
                end;
  serving_hsts : sv_hsts sv = bool_decide (is_Some (sv_tls sv));
  serving_db : db_ready (state_dir config) m';
  serving_rows : m_rows m' = m_rows m ∧ app_db (sv_state sv) = m_rows m;
  serving_fields : sv_origin sv = public_url config ∧ sv_proxies sv = trusted_proxies config ∧
    initial_csp sha256_bytes base64 STUB_PAGE source (public_url config) = Some (sv_csp sv);
  serving_events : ∃ log addr, token_log m (app_setup (sv_state sv)) log ∧
    m_out m' = m_out m ++ (log ++ [Supervises (Config.uri config); DeletesOldRows]) ++ announced config sv addr
}.

(** The process has said nothing about serving. *)
Definition silent (m m' : Machine) : Prop := ∃ evs, m_out m' = m_out m ++ evs ∧ ∀ sv, Serves sv ∉ evs.

Definition serve_post (config : Config) (m : Machine) (r : ended unit) (m' : Machine) : Prop :=
  (∃ sv, serving config m m' sv) ∨ (r ≠ Done tt ∧ silent m m').

Lemma check_plain_http_Ok config :
  check_plain_http config = Ok tt →
  is_loopback (addr_ip (listen config)) = true ∨ is_Some (tls config) ∨ trusted_proxies config ≠ [] ∨
  allow_plain_http config = true.
Proof.
  unfold check_plain_http. destruct (is_loopback _); [by left|]. case_bool_decide; [by right; left|].
  case_bool_decide; cbn [negb orb]; [|by right; right; left]. destruct (allow_plain_http config); [by do 3 right|done].
Qed.

(** Events that say nothing about serving. *)
Definition quiet (evs : list Event) : Prop := Forall (λ ev, ∀ sv, ev ≠ Serves sv) evs.
#[local] Ltac quiet := repeat (apply Forall_cons_2; [done|]); apply Forall_nil_2.

Lemma swp_or_io fail o evs m0 (Q : ended unit → Machine → Prop) m :
  since m0 evs m → (∀ err, Q (Failed err) m) → (o = None → Q (Done tt) m) → swp (or_io fail o) Q m.
Proof. intros Hs Hf Hd. apply swp_of_result. destruct o; [apply Hf|by apply Hd]. Qed.

Lemma swp_warn config tls evs m0 (Q : ended unit → Machine → Prop) m :
  since m0 evs m → (∀ m', since m0 (evs ++ plain_warning config tls) m' → Q (Done tt) m') → swp (warn config tls) Q m.
Proof.
  intros Hs HQ. unfold warn, plain_warning in *. destruct (plain_http_by_opt_in _); [by eapply swp_emit|].
  destruct (_ && _); [by eapply swp_emit|]. apply HQ. by rewrite app_nil_r.
Qed.

Lemma plain_warning_quiet config tls : quiet (plain_warning config tls).
Proof. unfold plain_warning, quiet. destruct (plain_http_by_opt_in _); [|destruct (_ && _)]; quiet. Qed.

(** From the listener on: it serves after all of the announcements, or not at all. *)
Lemma swp_listen_and_serve config sv m :
  swp (listen_and_serve config (sv_tls sv) sv)
    (λ r m', (∃ addr, since m (announced config sv addr) m') ∨ (r ≠ Done tt ∧ ∃ evs, since m evs m' ∧ quiet evs)) m.
Proof.
  assert (Hq : ∀ evs m' (r : ended unit), since m evs m' → quiet evs → r ≠ Done tt →
    (∃ addr, since m (announced config sv addr) m') ∨ (r ≠ Done tt ∧ ∃ evs, since m evs m' ∧ quiet evs)) by eauto.
  unfold listen_and_serve. pose proof (since_refl m) as H0'.
  apply swp_bind. eapply swp_or_io; [exact H0'|intros err; eapply Hq; [exact H0'|quiet|done]|intros _].
  apply swp_bind. eapply swp_emit; [exact H0'|]. intros m1 H1'. cbn [app] in H1'.
  apply swp_bind. eapply swp_or_io; [exact H1'|intros err; eapply Hq; [exact H1'|quiet|done]|intros _].
  apply swp_bind. eapply swp_emit; [exact H1'|]. intros m2 H2'. cbn [app] in H2'.
  apply swp_bind, swp_of_result. destruct (e_local e) as [addr|err]; cbn [map_err].
  2: { eapply Hq; [exact H2'|quiet|done]. }
  apply swp_bind. eapply swp_emit; [exact H2'|]. intros m3 H3'. cbn [app] in H3'.
  apply swp_bind. eapply swp_emit; [exact H3'|]. intros m4 H4'. cbn [app] in H4'.
  apply swp_bind. eapply swp_warn; [exact H4'|]. intros m5 H5'.
  assert (Hw : quiet ([Bound (listen config); CatchesSignals; Stdout (address_line (sv_tls sv) addr);
    Stderr (summary_line config)] ++ plain_warning config (sv_tls sv))).
  { apply Forall_app_2; [quiet|apply plain_warning_quiet]. }
  assert (Hend : swp (_ ← emit (Serves sv); or_io (λ err, lit "cannot serve on " ++ SocketAddr_to_string (listen config) ++ lit ": " ++ io_text err) (e_served e))
    (λ r m', (∃ addr, since m (announced config sv addr) m') ∨ (r ≠ Done tt ∧ ∃ evs, since m evs m' ∧ quiet evs)) m5).
  { apply swp_bind. eapply swp_emit; [exact H5'|]. intros m6 H6'. rewrite <- app_assoc in H6'.
    eapply swp_or_io; [exact H6'|..]; intros; left; by exists addr. }
  apply swp_bind. destruct (sv_tls sv); [|exact Hend].
  eapply swp_or_io; [exact H5'|intros err; by eapply Hq|intros _; exact Hend].
Qed.

(** The state of the handlers that [serve] makes, over a ready database. *)
Record prepared_state (config : Config) (tls : option tls_config) (m m' : Machine) (sv : Served) : Prop := {
  ps_tls : sv_tls sv = tls;
  ps_hsts : sv_hsts sv = bool_decide (is_Some tls);
  ps_db : db_ready (state_dir config) m';
  ps_rows : m_rows m' = m_rows m ∧ app_db (sv_state sv) = m_rows m;
  ps_fields : sv_origin sv = public_url config ∧ sv_proxies sv = trusted_proxies config ∧
    initial_csp sha256_bytes base64 STUB_PAGE source (public_url config) = Some (sv_csp sv);
  ps_out : ∃ log, token_log m (app_setup (sv_state sv)) log ∧
    m_out m' = m_out m ++ log ++ [Supervises (Config.uri config); DeletesOldRows]
}.

Lemma token_log_quiet m setup log : token_log m setup log → quiet log.
Proof. destruct setup as [t|]; [intros (_ & text & -> & _); quiet|intros [_ ->]; quiet]. Qed.

Lemma swp_prepare_server config tls m :
  swp (prepare_server config tls)
    (λ r m', (∃ sv, r = Done sv ∧ prepared_state config tls m m' sv) ∨
             ((∀ sv, r ≠ Done sv) ∧ ∃ evs, m_out m' = m_out m ++ evs ∧ quiet evs)) m.
Proof.
  apply swp_bind. eapply swp_mono; [|apply swp_open_db]. intros r m1 (Ho & Hr & Hdb).
  assert (Hq : ∀ evs m' (r : ended Served), since m1 evs m' → quiet evs → (∀ sv, r ≠ Done sv) →
    (∃ sv, r = Done sv ∧ prepared_state config tls m m' sv) ∨
    ((∀ sv, r ≠ Done sv) ∧ ∃ evs, m_out m' = m_out m ++ evs ∧ quiet evs)).
  { intros evs m' r' [Ho' _ _ _ _] Hevs Hr'. right. split; [done|]. exists evs. by rewrite <- Ho. }
  pose proof (since_refl m1) as H0'.
  destruct r as [[]|err| |]; [|by eapply Hq; [exact H0'|quiet|done]..]. specialize (Hdb eq_refl).
  apply swp_bind, swp_of_result. destruct (e_argon2_task e); [by eapply Hq; [exact H0'|quiet|done]|].
  apply swp_bind. eapply swp_mono; [|by apply swp_open_setup]. intros r m2 (log & Hs2 & Hlog). cbn [app] in Hs2.
  destruct r as [setup|err| |]; [|subst log; by eapply Hq; [exact Hs2|quiet|done]|done..].
  assert (Ht : token_log m setup log).
  { unfold token_log. rewrite <- Hr. destruct setup; destruct Hlog; auto. }
  pose proof (token_log_quiet _ _ _ Ht) as Htq.
  apply swp_bind. unfold host_start. apply swp_bind, swp_of_result. unfold check_text.
  destruct (contains_char 0 _); cbn [map_err]; [by eapply Hq|].
  eapply swp_emit; [exact Hs2|]. intros m3 Hs3.
  apply swp_bind. eapply swp_emit; [exact Hs3|]. intros m4 Hs4. rewrite <- app_assoc in Hs4. cbn [app] in Hs4.
  unfold swp, new_state. destruct (initial_csp _ _ _ _ _) as [policy|] eqn:Ec; cbn [fst snd].
  - left. eexists. split; [done|]. destruct (Hs4) as [Ho4 _ _ _ Hr4].
    split; cbn [sv_tls sv_hsts sv_state sv_origin sv_proxies sv_csp app_db app_setup app_state]; try done.
    + by eapply db_ready_since.
    + split; congruence.
    + exists log. split; [done|]. by rewrite Ho4, Ho.
  - eapply Hq; [exact Hs4|apply Forall_app_2; [done|quiet]|done].
Qed.

(** [serve] comes to serve as its configuration says, or says nothing about serving. *)
Lemma swp_serve config m :
  swp (serve config) (λ r m', (∃ sv, serving config m m' sv) ∨
    (r ≠ Done tt ∧ ∃ evs, m_out m' = m_out m ++ evs ∧ quiet evs)) m.
Proof.
  apply swp_bind, swp_of_result. destruct (check_plain_http config) as [[]|err] eqn:Ep.
  2: { right. split; [done|]. exists []. split; [by rewrite app_nil_r|quiet]. }
  apply check_plain_http_Ok in Ep.
  assert (Hrest : ∀ tls_ m1, m_out m1 = m_out m → m_rows m1 = m_rows m →
    match tls config with
    | None => tls_ = None
    | Some files => ∃ c, tls_ = Some c ∧ (os_exec (server_config files) (e_os e) (m_world m) (m_steps m)).1.1 = Ok c
    end →
    swp (state ← prepare_server config tls_; listen_and_serve config tls_ state)
      (λ r m', (∃ sv, serving config m m' sv) ∨
         (r ≠ Done tt ∧ ∃ evs, m_out m' = m_out m ++ evs ∧ quiet evs)) m1).
  { intros tls_ m1 Ho Hr Ht. apply swp_bind. eapply swp_mono; [|apply swp_prepare_server].
    intros r m2 [(sv & -> & [<- Hh Hd Hrows Hf (log & Hlog & Hout)])|(Hr' & evs & Ho2 & Hq)].
    - eapply swp_mono; [|apply swp_listen_and_serve].
      intros r m3 [(addr & Hs)|(Hr' & evs & Hs & Hq)].
      + left. exists sv. split; [|done..| | |done|].
        * destruct (tls config); naive_solver.
        * by eapply db_ready_since.
        * rewrite (since_rows _ _ _ Hs). split; destruct Hrows; congruence.
        * exists log, addr. split; [unfold token_log in *; by rewrite <- Hr|].
          by rewrite (since_out _ _ _ Hs), Hout, Ho, <- !app_assoc.
      + right. split; [done|]. exists ((log ++ [Supervises (Config.uri config); DeletesOldRows]) ++ evs).
        rewrite (since_out _ _ _ Hs), Hout, Ho, <- !app_assoc. split; [done|].
        apply token_log_quiet in Hlog. repeat apply Forall_app_2; [done| |done]. quiet.
    - destruct r as [sv|err| |]; [by destruct (Hr' sv)|..]; right; (split; [done|]); exists evs; by rewrite Ho2, Ho. }
  apply swp_bind. destruct (tls config) as [files|] eqn:Et.
  + apply swp_bind, swp_lift. intros n.
    destruct (os_exec (server_config files) _ _ _) as [[[c|err] w] n'] eqn:Ex; cbn [fst snd].
    * apply Hrest; [done..|]. by exists c.
    * right. split; [done|]. exists []. split; [by rewrite app_nil_r|quiet].
  + apply Hrest; done.
Qed.

(** C6: Lodger serves only as it was told to.  For every configuration, every system and
    every database: when [serve] comes to serve, a browser on the network can reach it
    only over TLS, unless a trusted proxy or the opt-in allows plain HTTP; a
    configuration with a certificate is served over TLS with exactly that pair, and HSTS
    goes with TLS; the database is private, has all migrations and enforces its foreign
    keys; the setup token exists exactly when there is no account, and its text is in
    the log; the handlers start from the rows of the database; and the log, the task of
    libvirt, the listener, the signal handlers, the address line and the warning come in
    this order, before the server.  When it does not come to serve, it ends with an
    error or a panic.  A configuration that passwords would cross
    in clear text stops the start before anything happens, and a pair that cannot be
    used stops it before the database is touched. *)
Theorem serve_as_told config m :
  ((∃ sv, serving config m (serve config m).2 sv) ∨
   ((serve config m).1 ≠ Done tt ∧ ∃ evs, m_out (serve config m).2 = m_out m ++ evs ∧ quiet evs)) ∧
  (∀ err, check_plain_http config = Err err → serve config m = (Failed err, m)) ∧
  (∀ files err, tls config = Some files →
     (os_exec (server_config files) (e_os e) (m_world m) (m_steps m)).1.1 = Err err →
     check_plain_http config = Ok tt →
     (serve config m).1 = Failed err ∧ since m [] (serve config m).2).
Proof.
  split_and!.
  - apply swp_serve.
  - intros err Ep. unfold serve, mbind, start_bind, of_result. by rewrite Ep.
  - intros files err Et Ex Ep. pose proof (looks_exec _ (e_os e) (m_world m) (m_steps m) (server_config_looks files)) as Hl.
    unfold serve, lift, lift_os, mbind, start_bind, of_result. rewrite Ep, Et.
    destruct (os_exec (server_config files) _ _ _) as [[[c|err'] w] n']; cbn in Ex, Hl |- *; [done|].
    injection Ex as ->. subst w. split; [done|]. split; try done. by rewrite app_nil_r.
Qed.
End start.

(** ** [main] *)

Section main.
Context `{Ipnet} `{LogText} `{TlsLib} `{Lowercase} `{Argon2} `{Fmt}.
Context {schema : Type}.
Variable e : start_env.
Variable execute_batch : str → schema → result str schema.
Variable MIGRATIONS : list str.
Variable sha256 : str → list Z.
Variable sha256_bytes : list Z → list Z.
Variable base64 : list Z → str.
Variable STUB_PAGE : str.
Variable source : str → option Asset.
#[local] Abbreviation start A := (start (schema := schema) A).

Variable toml_from_str : str → result str ConfigFile.
Variable toml_set_pair : TlsFiles → str → result str str.
Variable parse_uri : str → option Uri.
Variables UNIT SYSUSERS CONFIG : str.
Variable CARGO_PKG_VERSION : str.
Variable client : result str (Z * Z * Z).
(** The libvirt part of doctor, the variable of systemd, the time, and this binary. *)
Variable libvirt : str → result str (list Check).
Variable state_directory : option str.
Variable now : Z.
Variable exe : result io_error str.
(** How often an install looks for the service, and the parts of the admin commands. *)
Variable rounds : nat.
Variable COMMON : list str.
Variable password_error_text : PasswordError → str.
Variable journal : Journal.
Variable sent : env → bool.
Variable sudo : option str.
Variable read : str → result str str.

Definition print (line : str) : start unit := emit (Stdout line).
Definition runtime : start unit := or_io (λ err, lit "cannot start the async runtime: " ++ io_text err) (e_runtime e).

(** What a command does, up to its last line. *)
Definition run_command (c : Command) : start unit :=
  match c with
  | CVersion => line ← of_result (version_line CARGO_PKG_VERSION client); print line
  | CDoctor _ =>
      out ← lift_os e (Doctor.run toml_from_str parse_uri debug_str (overrides_of c) now libvirt);
      _ ← (if bool_decide (out.1 = []) then mret tt else print (out.1));
      line ← of_result (out.2); print line
  | CInstall self_signed =>
      line ← lift e (run_install UNIT SYSUSERS CONFIG toml_from_str toml_set_pair parse_uri debug_str sha256_bytes
                     rounds exe self_signed now);
      match line with Some line => print line | None => λ m, (Running, m) end
  | CUninstall purge => line ← lift e (run_uninstall purge); print line
  | CAdmin action _ _ =>
      dir ← lift e (checked_state_dir toml_from_str parse_uri debug_str (overrides_of c) state_directory);
      _ ← runtime;
      _ ← open_db e execute_batch MIGRATIONS dir;
      line ← handler e (run_action COMMON InputError_to_string password_error_text journal sent sudo read action (Ok tt));
      print line
  | CServe _ _ _ _ =>
      config ← lift e (load toml_from_str parse_uri debug_str (overrides_of c) state_directory);
      _ ← runtime;
      serve e execute_batch MIGRATIONS sha256 sha256_bytes base64 STUB_PAGE source config
  end.

(** [main]: the exit code, when the process has ended. *)
Definition main (c : Command) (m : Machine) : option Z * Machine :=
  match run_command c m with
  | (Done _, m') => (Some 0, m')
  | (Failed err, m') => (Some 1, (emit (Stderr (lit "lodger: " ++ err)) m').2)
  | (Panicked, m') => (Some 101, m')
  | (Running, m') => (None, m')
  end.

(** A step that says nothing about serving. *)
Definition hushed {A} (p : start A) : Prop := ∀ m, ∃ evs, m_out (p m).2 = m_out m ++ evs ∧ quiet evs.

Lemma hushed_same {A} (p : start A) : (∀ m, m_out (p m).2 = m_out m) → hushed p.
Proof. intros Hp m. exists []. rewrite app_nil_r. split; [done|apply Forall_nil_2]. Qed.

Lemma hushed_bind {A B} (p : start A) (f : A → start B) : hushed p → (∀ a, hushed (f a)) → hushed (p ≫= f).
Proof.
  intros Hp Hf m. destruct (Hp m) as (evs & Ho & Hq). unfold mbind, start_bind.
  destruct (p m) as [[a|err| |] m1]; cbn in *; try by exists evs.
  destruct (Hf a m1) as (evs2 & Ho2 & Hq2). exists (evs ++ evs2). rewrite Ho2, Ho, app_assoc.
  split; [done|]. by apply Forall_app_2.
Qed.

Lemma hushed_of_result {A} (r : result str A) : hushed (of_result r).
Proof. by apply hushed_same. Qed.

Lemma hushed_lift_os {A} (p : os A) : hushed (lift_os e p).
Proof. apply hushed_same. intros m. unfold lift_os. by destruct (os_exec _ _ _ _) as [[a w] n]. Qed.

Lemma hushed_lift {A} (p : os (result str A)) : hushed (lift e p).
Proof. apply hushed_bind; [apply hushed_lift_os|intros a; apply hushed_of_result]. Qed.

Lemma hushed_open_db dir : hushed (open_db e execute_batch MIGRATIONS dir).
Proof.
  apply hushed_bind; [apply hushed_lift|]. intros _. apply hushed_same. intros m. unfold connects_db.
  by destruct (connect _ _ _ _ _) as [[c|err] d].
Qed.

Lemma hushed_handler {A} (p : prog (result str A)) : hushed (handler e p).
Proof. apply hushed_same. intros m. unfold handler. by destruct (exec _ _ _ _) as [[r s] n]. Qed.

Lemma hushed_runtime : hushed runtime.
Proof. apply hushed_of_result. Qed.

Lemma hushed_print line : hushed (print line).
Proof. intros m. exists [Stdout line]. split; [done|]. apply Forall_cons_2; [done|apply Forall_nil_2]. Qed.

Lemma hushed_ret {A} (a : A) : hushed (mret a).
Proof. by apply hushed_same. Qed.

(** What a command says: nothing about serving, and its line last when it succeeds. *)
Definition says_line (p : start unit) : Prop := ∀ m,
  ∃ evs, m_out (p m).2 = m_out m ++ evs ∧ quiet evs ∧
    ((p m).1 = Done tt → ∃ line before, evs = before ++ [Stdout line]).

Lemma says_print line : says_line (print line).
Proof.
  intros m. exists [Stdout line]. split; [done|]. split; [apply Forall_cons_2; [done|apply Forall_nil_2]|].
  intros _. by exists line, [].
Qed.

Lemma says_bind {A} (p : start A) (f : A → start unit) : hushed p → (∀ a, says_line (f a)) → says_line (p ≫= f).
Proof.
  intros Hp Hf m. destruct (Hp m) as (evs & Ho & Hq). unfold mbind, start_bind.
  destruct (p m) as [[a|err| |] m1]; cbn in *; try (by exists evs).
  destruct (Hf a m1) as (evs2 & Ho2 & Hq2 & Hl). exists (evs ++ evs2). rewrite Ho2, Ho, app_assoc.
  split; [done|]. split; [by apply Forall_app_2|]. intros E. destruct (Hl E) as (line & before & ->).
  exists line, (evs ++ before). by rewrite app_assoc.
Qed.

#[local] Ltac says_all := repeat first
  [ apply says_print | apply says_bind; [first [apply hushed_lift | apply hushed_lift_os | apply hushed_of_result
    | apply hushed_runtime | apply hushed_open_db | apply hushed_handler | apply hushed_print | apply hushed_ret]|intros ?] ].

Lemma run_command_says c : (∀ a b c1 d, c ≠ CServe a b c1 d) → says_line (run_command c).
Proof.
  intros Hc. destruct c as [a b c1 d|action cfg dir|cfg|pair|purge|]; cbn [run_command].
  - by destruct (Hc a b c1 d).
  - says_all.
  - apply says_bind; [apply hushed_lift_os|]. intros [lines line]. cbn [fst snd]. case_bool_decide; says_all.
  - apply says_bind; [apply hushed_lift|]. intros [line|]; [apply says_print|].
    intros m. exists []. rewrite app_nil_r. split; [done|]. split; [apply Forall_nil_2|done].
  - says_all.
  - says_all.
Qed.

(** Requests are served only by [serve], with the settings that were loaded. *)
Definition served_as_loaded (c : Command) (m : Machine (schema := schema)) (evs : list Event) : Prop :=
  ∀ sv, Serves sv ∈ evs → ∃ a b c1 d config (m1 m2 : Machine (schema := schema)), c = CServe a b c1 d ∧
    (os_exec (load toml_from_str parse_uri debug_str (overrides_of c) state_directory) (e_os e) (m_world m) (m_steps m)).1.1 = Ok config ∧
    m_out m1 = m_out m ∧ m_rows m1 = m_rows m ∧
    serving e MIGRATIONS sha256 sha256_bytes base64 STUB_PAGE source config m1 m2 sv.

Lemma quiet_serves evs sv : quiet evs → Serves sv ∉ evs.
Proof. intros Hq Hin. unfold quiet in Hq. rewrite Forall_forall in Hq. by destruct (Hq _ Hin sv). Qed.

Lemma quiet_served c m evs : quiet evs → served_as_loaded c m evs.
Proof. intros Hq sv Hin. by destruct (quiet_serves evs sv Hq). Qed.

(** What a process that serves has said. *)
Lemma serving_said config (m m' : Machine (schema := schema)) sv :
  serving e MIGRATIONS sha256 sha256_bytes base64 STUB_PAGE source config m m' sv →
  ∃ evs, m_out m' = m_out m ++ evs ∧ ∀ sv', Serves sv' ∈ evs → sv' = sv.
Proof.
  intros [_ _ _ _ _ _ (log & addr & Hlog & Ho)]. eexists. split; [exact Ho|]. intros sv' Hin.
  apply token_log_quiet in Hlog. unfold announced in Hin.
  repeat (apply elem_of_app in Hin as [Hin|Hin]).
  - by apply (quiet_serves log sv') in Hlog.
  - repeat (apply elem_of_cons in Hin as [Hin|Hin]; [done|]). by apply not_elem_of_nil in Hin.
  - repeat (apply elem_of_cons in Hin as [Hin|Hin]; [done|]). by apply not_elem_of_nil in Hin.
  - by destruct (quiet_serves _ sv' (plain_warning_quiet config (sv_tls sv))).
  - apply list_elem_of_singleton in Hin. congruence.
Qed.

Lemma run_serve_said a b c1 d :
  ∀ m : Machine (schema := schema), swp (run_command (CServe a b c1 d)) (λ (_ : ended unit) (m' : Machine (schema := schema)), ∃ evs, m_out m' = m_out m ++ evs ∧
    served_as_loaded (CServe a b c1 d) m evs) m.
Proof.
  intros m. assert (Hnil : ∀ m' : Machine (schema := schema), m_out m' = m_out m →
    ∃ evs, m_out m' = m_out m ++ evs ∧ served_as_loaded (CServe a b c1 d) m evs).
  { intros m' Ho. exists []. rewrite app_nil_r. split; [done|]. apply quiet_served, Forall_nil_2. }
  cbn [run_command]. apply swp_bind, swp_lift. intros n.
  destruct (os_exec _ (e_os e) _ _) as [[[config|err] w] n'] eqn:Ex; cbn [fst snd]; [|by apply Hnil].
  apply swp_bind, swp_of_result. destruct (e_runtime e); [by apply Hnil|].
  eapply swp_mono; [|apply swp_serve]. intros r m' [(sv & Hsv)|(_ & evs & Ho & Hq)].
  - destruct (serving_said _ _ _ _ Hsv) as (evs & Ho & Hone). exists evs. split; [exact Ho|].
    intros sv' Hin. rewrite (Hone sv' Hin). eexists _, _, _, _, config, _, _.
    split; [reflexivity|]. split; [by rewrite Ex|]. split; [|split; [|exact Hsv]]; done.
  - exists evs. split; [exact Ho|by apply quiet_served].
Qed.

(** What the whole process does.  It says everything in order, and nothing that it
    said is lost.  When it ends with 1, the last line is its error on the standard
    error; when a command other than [serve] ends with 0, the last line is its result on
    the standard output.  It serves requests only for the command [serve], only after
    the settings were loaded, and then as those settings say. *)
Theorem main_correct c (m : Machine (schema := schema)) code m' :
  main c m = (code, m') →
  ∃ evs, m_out m' = m_out m ++ evs ∧
    (code = Some 1 → ∃ err before, evs = before ++ [Stderr (lit "lodger: " ++ err)]) ∧
    ((∀ a b c1 d, c ≠ CServe a b c1 d) → code = Some 0 → ∃ line before, evs = before ++ [Stdout line]) ∧
    served_as_loaded c m evs.
Proof.
  intros E. assert (Hran : ∃ evs, m_out (run_command c m).2 = m_out m ++ evs ∧
    ((∀ a b c1 d, c ≠ CServe a b c1 d) → (run_command c m).1 = Done tt → ∃ line before, evs = before ++ [Stdout line]) ∧
    served_as_loaded c m evs).
  { assert (Hsay : (∀ a b c1 d, c ≠ CServe a b c1 d) ∨ ∃ a b c1 d, c = CServe a b c1 d) by (destruct c; naive_solver).
    destruct Hsay as [Hc|(a & b & c1 & d & ->)].
    - destruct (run_command_says c Hc m) as (evs & Ho & Hq & Hl). exists evs.
      split; [exact Ho|]. split; [by intros _|by apply quiet_served].
    - destruct (run_serve_said a b c1 d m) as (evs & Ho & Hs). exists evs. split; [exact Ho|]. split; [|exact Hs].
      intros Hc. by destruct (Hc a b c1 d). }
  destruct Hran as (evs & Ho & Hl & Hs). unfold main in E.
  destruct (run_command c m) as [[[]|err| |] m1]; cbn [fst snd] in *; injection E as <- <-.
  - exists evs. split_and!; [exact Ho|done|auto|exact Hs].
  - exists (evs ++ [Stderr (lit "lodger: " ++ err)]). split_and!; [by rewrite app_assoc, <- Ho|by eexists _, _|done|].
    intros sv [Hin|Hin%list_elem_of_singleton]%elem_of_app; [by apply Hs|done].
  - exists evs. by split_and!.
  - exists evs. by split_and!.
Qed.
End main.

(** ** Witness: the first start with a certificate *)

Definition start_world : World :=
  {| fs := list_to_map [(lit "/", Folder 493 0 0); (lit "/var", Folder 493 0 0); (lit "/var/lib", Folder 493 0 0);
       (lit "/tls", Folder 493 0 0); (lit "/tls/cert.pem", File [1] 420 0 0); (lit "/tls/key.pem", File [2] 384 999 999)];
     ran := [] |}.


Definition start_machine : @Machine ipnet_ref tls_demo unit :=
  {| m_world := start_world; m_steps := O; m_schema := {| db_schema := tt; user_version := 0 |}; m_conn := None;
     m_rows := no_tables; m_journal := []; m_out := [] |}.

Definition all_addresses : SocketAddr := {| addr_ip := V4 0; addr_port := 8460 |}.

Definition calm_start : start_env :=
  {| e_os := λ _, calm_os;
     e_app := λ _, {| e_instant := 0; e_sql := calm; e_random := Ok [171]; e_task := true; e_salt := [] |};
     e_open := {| f_open := None; f_pragma := λ _, None; f_migrate := Build_migrate_faults None None None None; f_join := None |};
     e_argon2_task := None; e_runtime := None; e_bind := None; e_signals := None; e_local := Ok all_addresses;
     e_tls_local := None; e_served := None |}.

Definition told : @Config ipnet_ref :=
  {| listen := all_addresses; uri := DEFAULT_URI; state_dir := DEFAULT_STATE_DIR; public_url := Some (lit "https://vm.lan");
     trusted_proxies := []; tls := Some {| cert := lit "/tls/cert.pem"; key := lit "/tls/key.pem" |};
     allow_plain_http := false |}.

Definition first_start :=
  @serve ipnet_ref log_text_plain tls_demo doctor_fmt unit calm_start (λ _ _, Ok tt) [lit "CREATE TABLE accounts"] id id demo_base64 []
    (λ _, None) told start_machine.

Lemma serve_as_told_witness :
  (∃ sv, @serving ipnet_ref tls_demo unit calm_start [lit "CREATE TABLE accounts"] id id demo_base64 [] (λ _, None) told
           start_machine first_start.2 sv ∧ app_setup (sv_state sv) ≠ None) ∧
  match m_out first_start.2 with Stderr line :: _ => bool_decide (line = setup_line (lit "ab")) | _ => false end = true.
Proof.
  split; [|vm_compute; reflexivity].
  destruct (@serve_as_told ipnet_ref log_text_plain tls_demo doctor_fmt unit calm_start (λ _ _, Ok tt) [lit "CREATE TABLE accounts"] id id
    demo_base64 [] (λ _, None) told start_machine) as [[(sv & Hsv)|[Hne _]] _].
  - exists sv. split; [exact Hsv|]. intros E. destruct (serving_events _ _ _ _ _ _ _ _ _ _ _ Hsv) as (log & addr & Hlog & _).
    rewrite E in Hlog. destruct Hlog as [Hn _]. apply Hn. reflexivity.
  - destruct Hne. vm_compute. reflexivity.
Defined.

(** ** Witness: the version *)

Definition show_version : option Z * Machine :=
  @main ipnet_ref log_text_plain tls_demo ascii_lowercase argon2_demo doctor_fmt unit calm_start (λ _ _, Ok tt) [] id id demo_base64
    [] (λ _, None) (λ _, Err []) (λ _ _, Err []) (λ _, None) [] [] [] (lit "1.2.3") (Ok (11, 0, 2)) (λ _, Ok []) None 0
    (Ok (lit "/usr/bin/lodger")) 151 [] (λ _, []) AuditLog.Stderr (λ _, true) None (λ _, Err []) CVersion start_machine.

Lemma main_correct_witness :
  ∃ evs line before, m_out show_version.2 = m_out start_machine ++ evs ∧ evs = before ++ [Stdout line].
Proof.
  destruct (@main_correct ipnet_ref log_text_plain tls_demo ascii_lowercase argon2_demo doctor_fmt unit calm_start (λ _ _, Ok tt) [] id id demo_base64
    [] (λ _, None) (λ _, Err []) (λ _ _, Err []) (λ _, None) [] [] [] (lit "1.2.3") (Ok (11, 0, 2)) (λ _, Ok []) None 0
    (Ok (lit "/usr/bin/lodger")) 151 [] (λ _, []) AuditLog.Stderr (λ _, true) None (λ _, Err []) CVersion start_machine
    (Some 0) show_version.2) as (evs & Ho & _ & Hl & _).
  - reflexivity.
  - destruct (Hl ltac:(done) eq_refl) as (line & before & E). exists evs, line, before. split; [exact Ho|exact E].
Defined.
