(* ===== verification/Web.v ===== *)
(** * Handlers that reach libvirt
    (crates/lodger/src/server.rs: [AppState] with its host; crates/lodger/src/actions.rs)

    A handler of the API works on Lodger's own state, reads the shared inventory,
    and runs closures on a libvirt connection.  [web] is a program of such steps;
    [wruns p tr a] says that [p] can end with [a] after the observable steps [tr].
    Before every step the shared state is arbitrary, because other requests and the
    supervisor run in between, and libvirt may give any answer. *)

From S2P Require Import Prelude Text Net Validate Model Xml Throttle Tickets Db AuditLog Http Server Virt VirtPower VirtConn Inventory Supervisor.

Section web.
Context `{Ipnet} `{LogText}.

Inductive web (A : Type) : Type :=
| WRet (a : A)
(** A step on Lodger's own state, or an audit row. *)
| WAtom (B : Type) (f : env → AppState → AppState * B) (k : B → web A)
| WAudit (entry : Entry) (k : web A)
(** A line on the standard error. *)
| WPrint (line : str) (k : web A)
(** A read of what the supervisor keeps. *)
| WHost (k : Shared → web A)
(** An operation of the adapter: a closure on a blocking thread, then its events. *)
| WTask (B : Type) (p : virt (result Error B * list Event)) (k : result Error B → web A)
(** The bridges of the host, from the file system. *)
| WBridges (k : list str → web A).
#[global] Arguments WRet {A} a.
#[global] Arguments WAtom {A B} f k.
#[global] Arguments WAudit {A} entry k.
#[global] Arguments WPrint {A} line k.
#[global] Arguments WHost {A} k.
#[global] Arguments WTask {A B} p k.
#[global] Arguments WBridges {A} k.

#[export] Instance web_ret : MRet web := @WRet.
#[export] Instance web_bind : MBind web := λ A B f,
  fix go p := match p with
              | WRet a => f a
              | WAtom g k => WAtom g (λ b, go (k b))
              | WAudit entry k => WAudit entry (go k)
              | WPrint line k => WPrint line (go k)
              | WHost k => WHost (λ h, go (k h))
              | WTask q k => WTask q (λ r, go (k r))
              | WBridges k => WBridges (λ l, go (k l))
              end.

#[export] Instance web_fmap : FMap web := λ A B f p, p ≫= λ a, mret (f a).

(** A program on Lodger's own state. *)
Fixpoint lift {A} (p : prog A) : web A :=
  match p with Ret a => WRet a | Atom f k => WAtom f (λ b, lift (k b)) end.

(** [audit::log]. *)
Definition audit (entry : Entry) : web unit := WAudit entry (WRet tt).

(** [eprintln!]. *)
Definition print (line : str) : web unit := WPrint line (WRet tt).

(** [state.host.inventory()], [state.host.state()] and
    [state.host.virt().is_some()]. *)
Definition inventory : web Inventory := WHost (λ h, WRet (sh_inventory h)).
Definition conn_state : web ConnState := WHost (λ h, WRet (sh_state h)).
Definition has_virt : web bool := WHost (λ h, WRet (sh_virt h)).

(** An operation of the adapter that sends events when it succeeds, and one that
    sends none. *)
Definition task_ev {B} (p : virt (result Error B * list Event)) : web (result Error B) := WTask p WRet.
Definition task {B} (p : virt (result Error B)) : web (result Error B) :=
  task_ev (r ← p; mret (r, [])).

Definition host_bridges : web (list str) := WBridges WRet.

(** ** Runs *)

(** What can be seen of a step: the state it worked on, the audit row, the line
    on the standard error, the libvirt calls with their answers and whether the operation succeeded. *)
Inductive wev :=
| OAtom (e : env) (s : AppState)
| OAudit (entry : Entry)
| OPrint (line : str)
| OHost (h : Shared)
| OTask (calls : list ev) (succeeded : bool) (sent : list Event)
| OBridges (l : list str).

(** The closure runs to its end, or the blocking task dies on the way. *)
Definition task_runs {B} (p : virt (result Error B * list Event)) (calls : list ev)
    (out : result Error B * list Event) : Prop :=
  vruns p calls out ∨ out = (Err ETask, []) ∧ ∃ more out', vruns p (calls ++ more) out'.

Fixpoint wruns {A} (p : web A) (tr : list wev) (a : A) : Prop :=
  match p with
  | WRet b => tr = [] ∧ a = b
  | WAtom f k => ∃ e s tr', tr = OAtom e s :: tr' ∧ wruns (k (f e s).2) tr' a
  | WAudit entry k => ∃ tr', tr = OAudit entry :: tr' ∧ wruns k tr' a
  | WPrint line k => ∃ tr', tr = OPrint line :: tr' ∧ wruns k tr' a
  | WHost k => ∃ h tr', tr = OHost h :: tr' ∧ wruns (k h) tr' a
  | WTask q k => ∃ calls out tr', task_runs q calls out ∧
      tr = OTask calls (is_ok out.1) out.2 :: tr' ∧ wruns (k out.1) tr' a
  | WBridges k => ∃ l tr', tr = OBridges l :: tr' ∧ wruns (k l) tr' a
  end.

Lemma wruns_ret {A} (a : A) tr b : wruns (mret a) tr b ↔ tr = [] ∧ b = a.
Proof. done. Qed.

(** Sequencing under one observable step. *)
Lemma bind_cons {A} x (Q : list wev → Prop) (R : list wev → A → Prop) (S : A → list wev → Prop) tr :
  (∀ tr', Q tr' ↔ ∃ tr1 tr2 a, tr' = tr1 ++ tr2 ∧ R tr1 a ∧ S a tr2) →
  (∃ tr', tr = x :: tr' ∧ Q tr') ↔
  ∃ tr1 tr2 a, tr = tr1 ++ tr2 ∧ (∃ tr', tr1 = x :: tr' ∧ R tr' a) ∧ S a tr2.
Proof.
  intros HQ. split.
  - intros (tr' & -> & (tr1 & tr2 & a & -> & Hr & Hs)%HQ). exists (x :: tr1), tr2, a. naive_solver.
  - intros (tr1 & tr2 & a & -> & (tr' & -> & Hr) & Hs). exists (tr' ++ tr2). split; [done|]. apply HQ. naive_solver.
Qed.

Lemma wruns_bind {A B} (p : web A) (f : A → web B) tr b :
  wruns (p ≫= f) tr b ↔ ∃ tr1 tr2 a, tr = tr1 ++ tr2 ∧ wruns p tr1 a ∧ wruns (f a) tr2 b.
Proof.
  revert tr.
  induction p as [a|C g k IH|entry k IH|line k IH|k IH|C q k IH|k IH]; intros tr; cbn [mbind web_bind wruns].
  - split; [intros Hr; by exists [], tr, a|]. by intros (tr1 & tr2 & a' & -> & [-> ->] & Hr).
  - setoid_rewrite (λ e s, bind_cons (OAtom e s) _ _ _ tr (IH (g e s).2)). naive_solver.
  - apply bind_cons, IH.
  - apply bind_cons, IH.
  - setoid_rewrite (λ h, bind_cons (OHost h) _ _ _ tr (IH h)). naive_solver.
  - split.
    + intros (calls & out & tr' & Ht & Hr).
      destruct (proj1 (bind_cons _ _ _ _ tr (IH out.1)) (ex_intro _ tr' Hr))
        as (tr1 & tr2 & a & -> & (t & -> & Hp) & Hf).
      eexists _, tr2, a. split; [done|]. split; [|done]. by exists calls, out, t.
    + intros (tr1 & tr2 & a & -> & (calls & out & tr' & Ht & Hr) & Hs). exists calls, out.
      destruct (proj2 (bind_cons (OTask calls (is_ok out.1) out.2) _ _ _ (tr1 ++ tr2) (IH out.1)))
        as (tr0 & Hb); [|by exists tr0].
      exists tr1, tr2, a. split; [done|]. split; [by exists tr'|done].
  - setoid_rewrite (λ l, bind_cons (OBridges l) _ _ _ tr (IH l)). naive_solver.
Qed.

Lemma wruns_fmap {A B} (f : A → B) (p : web A) tr b :
  wruns (f <$> p) tr b ↔ ∃ a, wruns p tr a ∧ b = f a.
Proof.
  unfold fmap, web_fmap. rewrite wruns_bind. split.
  - intros (t1 & t2 & a & -> & Hp & [-> ->]). rewrite app_nil_r. by exists a.
  - intros (a & Hp & ->). exists tr, [], a. by rewrite app_nil_r.
Qed.

(** A program on Lodger's own state makes only steps on that state. *)
Lemma wruns_lift {A} (p : prog A) tr a :
  wruns (lift p) tr a → Forall (λ e, match e with OAtom _ _ => True | _ => False end) tr.
Proof.
  revert tr. induction p as [b|B f k IH]; intros tr; simpl; [by intros [-> _]|].
  intros (e & s & tr' & -> & Hr). constructor; [done|]. by eapply IH.
Qed.

(** The reads of what the supervisor keeps. *)
Lemma wruns_inventory {A} (f : Inventory → web A) tr a :
  wruns (inventory ≫= f) tr a ↔ ∃ h tr', tr = OHost h :: tr' ∧ wruns (f (sh_inventory h)) tr' a.
Proof. done. Qed.
Lemma wruns_has_virt {A} (f : bool → web A) tr a :
  wruns (has_virt ≫= f) tr a ↔ ∃ h tr', tr = OHost h :: tr' ∧ wruns (f (sh_virt h)) tr' a.
Proof. done. Qed.
Lemma wruns_conn_state {A} (f : ConnState → web A) tr a :
  wruns (conn_state ≫= f) tr a ↔ ∃ h tr', tr = OHost h :: tr' ∧ wruns (f (sh_state h)) tr' a.
Proof. done. Qed.
Lemma wruns_bridges {A} (f : list str → web A) tr a :
  wruns (host_bridges ≫= f) tr a ↔ ∃ l tr', tr = OBridges l :: tr' ∧ wruns (f l) tr' a.
Proof. done. Qed.

Lemma wruns_print {A} line (f : unit → web A) tr a :
  wruns (print line ≫= f) tr a ↔ ∃ tr', tr = OPrint line :: tr' ∧ wruns (f tt) tr' a.
Proof. done. Qed.

Lemma wruns_audit entry tr u : wruns (audit entry) tr u ↔ tr = [OAudit entry].
Proof. destruct u. split; [by intros (? & -> & -> & _)|]. intros ->. by exists []. Qed.

(** The calls of an operation are those of a run of it. *)
Lemma wruns_task {B} (p : virt (result Error B)) tr r :
  wruns (task p) tr r → ∃ calls, tr = [OTask calls (is_ok r) []] ∧
    (vruns p calls r ∨ r = Err ETask ∧ ∃ more r', vruns p (calls ++ more) r').
Proof.
  intros (calls & [r0 evs] & tr' & Ht & -> & -> & ->). exists calls.
  destruct Ht as [Hv|([= -> ->] & more & out' & Hv)].
  - apply vruns_bind in Hv as (t1 & t2 & r1 & -> & Hv & -> & [= -> ->]).
    rewrite app_nil_r. auto.
  - apply vruns_bind in Hv as (t1 & t2 & r1 & E & Hv & -> & _). rewrite app_nil_r in E. subst t1.
    split; [done|]. right. split; [done|]. by exists more, r1.
Qed.

Lemma wruns_task_ev {B} (p : virt (result Error B * list Event)) tr r :
  wruns (task_ev p) tr r → ∃ calls sent, tr = [OTask calls (is_ok r) sent] ∧ task_runs p calls (r, sent).
Proof. intros (calls & [r0 evs] & tr' & Ht & -> & -> & ->). by exists calls, evs. Qed.

(** A run on given states of the world: the environment of every step, the
    inventory, libvirt's answers and the bridges. *)
Fixpoint wexec {A} (p : web A) (e : nat → env) (s : AppState) (h : Shared)
    (v : nat → ∀ c, resp c) (bridges : list str) (n : nat) : list wev * A * AppState :=
  match p with
  | WRet a => ([], a, s)
  | WAtom f k =>
      let '(s', b) := f (e n) s in
      let '(tr, a, s2) := wexec (k b) e s' h v bridges (S n) in (OAtom (e n) s :: tr, a, s2)
  | WAudit entry k =>
      let '(j, t, _) := log entry (e_sql (e n)) (app_journal s) (app_db s) O in
      let '(tr, a, s2) := wexec k e (with_journal j (with_db t s)) h v bridges (S n) in
      (OAudit entry :: tr, a, s2)
  | WPrint line k =>
      let '(tr, a, s2) := wexec k e (with_journal (app_journal s ++ [line]) s) h v bridges (S n) in
      (OPrint line :: tr, a, s2)
  | WHost k =>
      let '(tr, a, s2) := wexec (k h) e s h v bridges (S n) in (OHost h :: tr, a, s2)
  | WTask q k =>
      let '(calls, out) := vrun q v O in
      let '(tr, a, s2) := wexec (k out.1) e s h v bridges (S n) in
      (OTask calls (is_ok out.1) out.2 :: tr, a, s2)
  | WBridges k =>
      let '(tr, a, s2) := wexec (k bridges) e s h v bridges (S n) in (OBridges bridges :: tr, a, s2)
  end.

Lemma wexec_wruns {A} (p : web A) e s h v bridges n :
  wruns p (wexec p e s h v bridges n).1.1 (wexec p e s h v bridges n).1.2.
Proof.
  revert s n. induction p as [a|C g k IH|entry k IH|line k IH|k IH|C q k IH|k IH]; intros s n; cbn [wexec wruns].
  - done.
  - destruct (g (e n) s) as [s' b] eqn:E. specialize (IH b s' (S n)).
    destruct (wexec (k b) e s' h v bridges (S n)) as [[tr a] s2]. cbn [fst snd] in *.
    exists (e n), s, tr. by rewrite E.
  - destruct (log _ _ _ _ _) as [[j t] m]. specialize (IH (with_journal j (with_db t s)) (S n)).
    destruct (wexec k e _ h v bridges (S n)) as [[tr a] s2]. by exists tr.
  - specialize (IH (with_journal (app_journal s ++ [line]) s) (S n)).
    destruct (wexec k e _ h v bridges (S n)) as [[tr a] s2]. by exists tr.
  - specialize (IH h s (S n)). destruct (wexec (k h) e s h v bridges (S n)) as [[tr a] s2]. by exists h, tr.
  - pose proof (vrun_vruns q v 0) as Hv. destruct (vrun q v 0) as [calls out]. cbn [fst snd] in Hv.
    specialize (IH out.1 s (S n)). destruct (wexec (k out.1) e s h v bridges (S n)) as [[tr a] s2].
    exists calls, out, tr. split_and!; [by left|done..].
  - specialize (IH bridges s (S n)).
    destruct (wexec (k bridges) e s h v bridges (S n)) as [[tr a] s2]. by exists bridges, tr.
Qed.

(** ** The audit trail of a run *)

(** The calls that change something on the host.  A refresh of a pool only reads
    its folder again, and opening a console changes no object of libvirt. *)
Definition mutates (c : vcall) : bool :=
  match c with
  | DomainCreate _ | DomainShutdown _ _ | DomainDestroy _ | DomainReboot _ _ | DomainSuspend _
  | DomainResume _ | DomainSetAutostart _ _ | DomainUndefine _ _
  | DefinePoolXml _ | PoolBuild _ | PoolSetAutostart _ _ | PoolCreate _ | PoolDestroy _
  | PoolDelete _ | PoolUndefine _ | VolCreateXml _ _ | VolDelete _
  | DefineNetworkXml _ | NetSetAutostart _ _ | NetCreate _ | NetDestroy _ | NetUndefine _ => true
  | _ => false
  end.

Definition changes (calls : list ev) : bool := existsb (λ e, mutates (projT1 e)) calls.

(** Lines on the standard error. *)
Definition only_prints (tr : list wev) : Prop :=
  Forall (λ e, match e with OPrint _ => True | _ => False end) tr.

(** [tr] is a trace in which every operation that changes something is followed at
    once by an audit row that fits it, and every audit row follows the operation
    that it reports.  Only for a failed operation, its error may be printed in
    between. *)
Inductive audited_trace (P : bool → Entry → Prop) : list wev → Prop :=
| at_nil : audited_trace P []
| at_atom e s tr : audited_trace P tr → audited_trace P (OAtom e s :: tr)
| at_print line tr : audited_trace P tr → audited_trace P (OPrint line :: tr)
| at_host h tr : audited_trace P tr → audited_trace P (OHost h :: tr)
| at_bridges l tr : audited_trace P tr → audited_trace P (OBridges l :: tr)
| at_read calls succeeded sent tr :
    changes calls = false → audited_trace P tr → audited_trace P (OTask calls succeeded sent :: tr)
| at_task calls succeeded sent prints entry tr :
    only_prints prints → (succeeded = true → prints = []) → P succeeded entry → audited_trace P tr →
    audited_trace P (OTask calls succeeded sent :: prints ++ OAudit entry :: tr).

(** The common cases: the row comes at once, or after the error of a failure. *)
Lemma at_row (P : bool → Entry → Prop) calls succeeded sent entry tr :
  P succeeded entry → audited_trace P tr → audited_trace P (OTask calls succeeded sent :: OAudit entry :: tr).
Proof. intros Hp Ht. apply (at_task _ _ _ _ []); [by constructor|done..]. Qed.

Lemma at_failed (P : bool → Entry → Prop) calls sent prints entry tr :
  only_prints prints → P false entry → audited_trace P tr →
  audited_trace P (OTask calls false sent :: prints ++ OAudit entry :: tr).
Proof. intros Ho Hp Ht. by apply at_task. Qed.

Lemma audited_app P tr1 tr2 :
  audited_trace P tr1 → audited_trace P tr2 → audited_trace P (tr1 ++ tr2).
Proof.
  intros Ha Hb. induction Ha; simpl; [done|..|by rewrite <- app_assoc; apply at_task]; constructor; auto.
Qed.

(** An operation that comes after printed lines and a row comes after that row. *)
Lemma task_after_row prints entry tr tr1 calls succeeded sent tr2 :
  only_prints prints → prints ++ OAudit entry :: tr = tr1 ++ OTask calls succeeded sent :: tr2 →
  ∃ tr0, tr = tr0 ++ OTask calls succeeded sent :: tr2.
Proof.
  intros Ho. revert tr1. induction Ho as [|e prints He Ho IH]; intros [|x tr1] E; simplify_eq/=;
    [by exists tr1|done|by eapply IH].
Qed.

(** In such a trace, what changes the host is on record. *)
Lemma audited_on_record P tr tr1 calls succeeded sent tr2 :
  audited_trace P tr → tr = tr1 ++ OTask calls succeeded sent :: tr2 → changes calls = true →
  ∃ prints entry tr3, tr2 = prints ++ OAudit entry :: tr3 ∧ only_prints prints ∧
    (succeeded = true → prints = []) ∧ P succeeded entry.
Proof.
  intros Ha. revert tr1.
  induction Ha as [|e s tr Ha IH|line tr Ha IH|h tr Ha IH|l tr Ha IH|c b s tr Hc Ha IH
                  |c b s prints entry tr Ho Hb HP Ha IH]; intros [|x tr1] E Hch; try done.
  1-4: injection E as _ E; by eapply IH.
  - injection E as ? _ _ _. congruence.
  - injection E as _ E. by eapply IH.
  - injection E as -> -> -> <-. by exists prints, entry, tr.
  - injection E as _ E. destruct (task_after_row _ _ _ _ _ _ _ _ Ho E) as (tr0 & ->). by eapply IH.
Qed.

(** Programs that change nothing. *)
Fixpoint harmless {A} (p : virt A) : Prop :=
  match p with VRet _ => True | VCall c k => mutates c = false ∧ ∀ r, harmless (k r) end.

Lemma harmless_queries {A} (p : virt A) : queries_only p → harmless p.
Proof.
  induction p as [a|c k IH]; simpl; [done|]. intros [Hc Hk]. split; [by destruct c|]. auto.
Qed.

Lemma harmless_bind {A B} (p : virt A) (f : A → virt B) :
  harmless p → (∀ a, harmless (f a)) → harmless (p ≫= f).
Proof. induction p as [a|c k IH]; simpl; [auto|]. intros [Hc Hk] Hf. split; [done|]. eauto. Qed.

Lemma harmless_try {E A B} (m : virt (result E A)) (f : A → virt (result E B)) :
  harmless m → (∀ a, harmless (f a)) → harmless (try m f).
Proof. intros Hm Hf. apply harmless_bind; [done|]. by intros [a|e]. Qed.

Lemma harmless_changes {A} (p : virt A) calls more a :
  harmless p → vruns p (calls ++ more) a → changes calls = false.
Proof.
  revert calls. induction p as [b|c k IH]; intros calls Hh Hv; simpl in *.
  - destruct Hv as [E _]. by destruct calls.
  - destruct Hh as [Hc Hk]. destruct Hv as (r & tr' & E & Hv). destruct calls as [|e calls]; [done|].
    injection E as -> <-. unfold changes. cbn [existsb projT1]. rewrite Hc. by eapply IH.
Qed.

Lemma task_harmless {B} (p : virt (result Error B)) tr r :
  harmless p → wruns (task p) tr r → ∃ calls, tr = [OTask calls (is_ok r) []] ∧ changes calls = false.
Proof.
  intros Hh (calls & -> & Hv)%wruns_task. exists calls. split; [done|].
  destruct Hv as [Hv|(_ & more & r' & Hv)]; [|by eapply harmless_changes].
  apply (harmless_changes p calls [] r); [done|]. by rewrite app_nil_r.
Qed.
End web.

(** Opens a read at the head of a run: [h] is what it saw. *)
Ltac read_host Hr h tr :=
  (apply wruns_inventory in Hr || apply wruns_has_virt in Hr || apply wruns_conn_state in Hr);
  destruct Hr as (h & tr & -> & Hr); cbn beta in Hr.

(** A branch that answers without any operation. *)
Ltac rejected Hr := destruct Hr as [-> ->]; left; split; [by repeat constructor|cbn; tauto].
Ltac answered Hr := destruct Hr as [-> _]; constructor.
