(* ===== verification/Actions.v ===== *)
(** * The VM handlers (crates/lodger/src/actions.rs)

    Power actions, delete and autostart of a VM as programs over the inventory, the
    adapter and the audit log, and the helpers that the pool, volume and network
    handlers share.  [serde_json] is a parameter: [from_slice] parses a body or
    returns the text of the error. *)

From S2P Require Import Prelude Text Net Validate Model Xml Throttle Tickets Db AuditLog Http Server Virt VirtPower VirtDelete VirtConn Inventory Supervisor Web.

(** [serde_json::from_slice] at a type. *)
Class Deserialize (T : Type) := from_slice : list Z → result str T.

Definition LIFECYCLE : str := lit "vm.lifecycle".
Definition EDITED : str := lit "vm.edited".

(** The bodies.  [confirm] is the name that the user typed. *)
Record Confirm := { c_confirm : option str }.
Record DeleteRequest := { dr_confirm : option str; remove_volumes : bool }.
Record Settings := { set_autostart_to : bool }.

Definition Confirm_default : Confirm := {| c_confirm := None |}.
Definition DeleteRequest_default : DeleteRequest := {| dr_confirm := None; remove_volumes := false |}.

(** A field that [skip_serializing_if] drops when it is [None]. *)
Definition some_field (name : str) (v : option str) : list (str * value) :=
  match v with Some v => [(name, VText v)] | None => [] end.

(** [Removal::from] and its JSON. *)
Definition Skipped_json (s : Skipped) : value :=
  let '(reason, vm, message) := match skipped_reason s with
    | UsedBy vm => (lit "used_by", Some vm, None)
    | VirtDelete.Shared => (lit "shared", None, None)
    | NotInPool => (lit "not_in_pool", None, None)
    | Failed message => (lit "failed", None, Some message)
    end in
  VObject ([(lit "path", VText (skipped_path s)); (lit "reason", VText reason)] ++
           some_field (lit "vm") vm ++ some_field (lit "message") message).

Definition Removal_json (r : Removal) : value :=
  VObject [(lit "removed", VList (VText <$> removed r)); (lit "skipped", VList (Skipped_json <$> skipped r))].

Definition body_or_default {T} `{Deserialize T} (default : T) (body : list Z) : result str T :=
  match body with
  | [] => Ok default
  | _ => map_err (λ e, lit "bad JSON body: " ++ e) (from_slice body)
  end.

(** [entry.detail.action = action]. *)
Definition with_action (action : option str) (e : Entry) : Entry :=
  {| event := event e; account := account e; AuditLog.client_ip := AuditLog.client_ip e;
     target_kind := target_kind e; target := target e; result_ := result_ e;
     detail := {| via := via (detail e); sudo_user := sudo_user (detail e); action := action;
                  reason := reason (detail e) |} |}.

Definition no_libvirt : Response := error 503 (lit "Lodger is not connected to libvirt").
Definition bad_json (e : str) : Response := error 400 (lit "bad JSON body: " ++ e).

(** [explained]: a known error carries its cause, its fix and the commands. *)
Definition explained (code : Z) (message : str) (explanation : option Explanation) : Response :=
  json code ([(lit "error", VText message)] ++
    match explanation with
    | Some known => [(lit "cause", VText (cause known)); (lit "fix", VText (fix_ known));
                     (lit "commands", VList (VText <$> commands known))]
    | None => []
    end).

(** What a pool or network call answers and audits when there is no such object. *)
Record NotFound := { nf_reason : str; nf_message : str }.

(** Who makes a request: the TCP peer and the headers, and the session. *)
Record Caller := { peer : ip_addr; req_headers : HeaderMap; who : Session }.

Section actions.
Context `{Ipnet} `{LogText} `{Fmt}.

Definition error_answer (code : Z) (e : Error) : Response :=
  explained code (Error_to_string e) (Error_explanation e).

(** [failure]. *)
Definition failure (row : str → Entry) (action vm : str) (e : Error) : web Response :=
  '(reason, code) ←
    (if is_not_found e then mret (lit "no_such_vm", 404)
     else if is_invalid_operation e then mret (lit "wrong_state", 409)
     else
       _ ← print (lit "lodger: " ++ action ++ lit " " ++ vm ++ lit ": " ++ Error_to_string e);
       mret (lit "libvirt_error", 502));
  _ ← audit (row reason);
  mret (if bool_decide (reason = lit "no_such_vm") then error code (lit "no such VM")
        else error_answer code e).

(** [audited]: one libvirt call and its audit row; the error is the answer. *)
Definition audited (not_found : NotFound) (row : Entry → Entry) (event : str) (action : option str)
    (call : web (result Error unit)) : web (result Response unit) :=
  r ← call;
  match r with
  | Ok _ =>
      _ ← audit (row (with_action action (Entry_ok event)));
      mret (Ok tt)
  | Err e =>
      '(reason, code) ←
        (if is_not_found e then mret (nf_reason not_found, 404)
         else if (match e with EInUse _ => true | _ => false end) then mret (lit "in_use", 409)
         else if is_invalid_operation e then mret (lit "wrong_state", 409)
         else
           _ ← print (lit "lodger: " ++ event ++ lit ": " ++ Error_to_string e);
           mret (lit "libvirt_error", 502));
      _ ← audit (row (with_action action (Entry_failed event reason)));
      mret (Err (if bool_decide (reason = nf_reason not_found) then error code (nf_message not_found)
                 else error_answer code e))
  end.

Context `{XmlTree} `{!Deserialize Confirm} `{!Deserialize DeleteRequest} `{!Deserialize Settings}.
Variable trusted_proxies : list ipnet.

Definition ip_of (c : Caller) : ip_addr := Http.client_ip (peer c) (req_headers c) trusted_proxies.

(** The closure [by] of the handlers. *)
Definition by_vm (c : Caller) (vm : Vm) (action : str) (entry : Entry) : Entry :=
  with_action (Some action)
    (target_vm (vm_name vm) (with_client_ip (ip_of c) (with_account (session_username (who c)) entry))).

(** [POST /api/vms/{id}/actions/{action}]. *)
Definition run (c : Caller) (id : Uuid) (action : str) (body : list Z) : web Response :=
  match Power_parse action with
  | None => mret (error 404 (lit "no such action"))
  | Some action =>
      match body_or_default Confirm_default body with
      | Err message => mret (error 400 message)
      | Ok confirm =>
          inv ← inventory;
          match inv_vms inv !! id with
          | None => mret (error 404 (lit "no such VM"))
          | Some vm =>
              if bool_decide (action = ForceOff) && negb (bool_decide (c_confirm confirm = Some (vm_name vm)))
              then mret (error 422 (lit "type the VM's name to force it off"))
              else
                virt ← has_virt;
                if negb virt then mret no_libvirt
                else
                  r ← task (power id action);
                  match r with
                  | Ok _ =>
                      _ ← audit (by_vm c vm (Power_name action) (Entry_ok LIFECYCLE));
                      mret (plain 204)
                  | Err e =>
                      failure (λ reason, by_vm c vm (Power_name action) (Entry_failed LIFECYCLE reason))
                        (Power_name action) (vm_name vm) e
                  end
          end
      end
  end.

(** [DELETE /api/vms/{id}]. *)
Definition delete_vm (c : Caller) (id : Uuid) (body : list Z) : web Response :=
  match body_or_default DeleteRequest_default body with
  | Err message => mret (error 400 message)
  | Ok request =>
      inv ← inventory;
      match inv_vms inv !! id with
      | None => mret (error 404 (lit "no such VM"))
      | Some vm =>
          if negb (bool_decide (dr_confirm request = Some (vm_name vm)))
          then mret (error 422 (lit "type the VM's name to delete it"))
          else
            virt ← has_virt;
            if negb virt then mret no_libvirt
            else
              r ← task (delete_on id (remove_volumes request));
              match r with
              | Ok report =>
                  _ ← audit (by_vm c vm (lit "delete") (Entry_ok LIFECYCLE));
                  mret (json_value 200 (Removal_json report))
              | Err e =>
                  failure (λ reason, by_vm c vm (lit "delete") (Entry_failed LIFECYCLE reason))
                    (lit "delete") (vm_name vm) e
              end
      end
  end.

(** [PATCH /api/vms/{id}]. *)
Definition update (c : Caller) (id : Uuid) (body : list Z) : web Response :=
  match from_slice body with
  | Err e => mret (error 400 (lit "bad JSON body: " ++ e))
  | Ok settings =>
      inv ← inventory;
      match inv_vms inv !! id with
      | None => mret (error 404 (lit "no such VM"))
      | Some vm =>
          virt ← has_virt;
          if negb virt then mret no_libvirt
          else
            let action := if set_autostart_to settings then lit "autostart-on" else lit "autostart-off" in
            r ← task_ev (set_autostart id (set_autostart_to settings));
            match r with
            | Ok _ =>
                _ ← audit (by_vm c vm action (Entry_ok EDITED));
                mret (plain 204)
            | Err e =>
                failure (λ reason, by_vm c vm action (Entry_failed EDITED reason)) action (vm_name vm) e
            end
      end
  end.

(** ** Lemmas on the shared helpers *)

(** A run that only read: no operation on the host and no audit row. *)
Definition only_read (tr : list wev) : Prop :=
  Forall (λ e, match e with OHost _ | OBridges _ => True | _ => False end) tr.

(** The row that reports an operation of a caller: who, from where, on what, and
    whether it worked, with a reason when it did not. *)
Definition reports (c : Caller) (succeeded : bool) (entry : Entry) : Prop :=
  account entry = Some (session_username (who c)) ∧
  AuditLog.client_ip entry = Some (ip_of c) ∧
  target entry ≠ None ∧
  result_ entry = (if succeeded then lit "ok" else lit "failed") ∧
  (succeeded = false → reason (detail entry) ≠ None).

(** The audit reason and the status of a failed operation on a VM, and what is
    printed: only the failures that no user can cause. *)
Definition failure_code (e : Error) : str * Z :=
  if is_not_found e then (lit "no_such_vm", 404)
  else if is_invalid_operation e then (lit "wrong_state", 409)
  else (lit "libvirt_error", 502).

Definition failure_prints (action vm : str) (e : Error) : list wev :=
  if is_not_found e || is_invalid_operation e then []
  else [OPrint (lit "lodger: " ++ action ++ lit " " ++ vm ++ lit ": " ++ Error_to_string e)].

Definition vm_prints {B} (action vm : str) (res : result Error B) : list wev :=
  match res with Ok _ => [] | Err e => failure_prints action vm e end.

(** The same for the operations on pools, volumes and networks. *)
Definition audited_code (not_found : NotFound) (e : Error) : str * Z :=
  if is_not_found e then (nf_reason not_found, 404)
  else if (match e with EInUse _ => true | _ => false end) then (lit "in_use", 409)
  else if is_invalid_operation e then (lit "wrong_state", 409)
  else (lit "libvirt_error", 502).

Lemma failure_runs row action vm e tr r :
  wruns (failure row action vm e) tr r →
  tr = failure_prints action vm e ++ [OAudit (row (failure_code e).1)] ∧ r_status r = (failure_code e).2.
Proof.
  unfold failure, failure_prints, failure_code.
  destruct (is_not_found e); [|destruct (is_invalid_operation e)]; cbn [orb].
  - intros (t1 & -> & -> & ->). by case_bool_decide.
  - intros (t1 & -> & -> & ->). by case_bool_decide.
  - intros (t0 & -> & t1 & -> & -> & ->). by case_bool_decide.
Qed.

Lemma failure_only_prints action vm e : only_prints (failure_prints action vm e).
Proof. unfold failure_prints. destruct (_ || _); by repeat constructor. Qed.

Lemma vm_prints_no_task {B} action vm (res : result Error B) calls succeeded sent :
  OTask calls succeeded sent ∉ vm_prints action vm res.
Proof. destruct res as [b|e]; [apply not_elem_of_nil|]. simpl. unfold failure_prints. destruct (_ || _); set_solver. Qed.

(** The trace of [audited]: that of its operation, then one row for its result, with
    the error printed before it when it is not one that a user can cause. *)
Lemma audited_runs nf row ev act call tr r :
  wruns (audited nf row ev act call) tr r →
  ∃ tr1 res prints, wruns call tr1 res ∧ is_ok r = is_ok res ∧
    only_prints prints ∧ (is_ok res = true → prints = []) ∧
    tr = tr1 ++ prints ++ [OAudit (row (with_action act
           match res with Ok _ => Entry_ok ev | Err e => Entry_failed ev (audited_code nf e).1 end))] ∧
    ∀ e resp, res = Err e → r = Err resp → r_status resp = (audited_code nf e).2.
Proof.
  intros (tr1 & tr2 & res & -> & Hc & Hr)%wruns_bind. exists tr1, res. destruct res as [u|e].
  - destruct Hr as (t & -> & -> & ->). exists []. split_and!; [done|done|by constructor|done..].
  - assert (Hs : ∃ prints, only_prints prints ∧
      tr2 = prints ++ [OAudit (row (with_action act (Entry_failed ev (audited_code nf e).1)))] ∧
      r = Err (if bool_decide ((audited_code nf e).1 = nf_reason nf) then error (audited_code nf e).2 (nf_message nf)
               else error_answer (audited_code nf e).2 e)).
    { unfold audited_code. destruct (is_not_found e); [|destruct (match e with EInUse _ => true | _ => false end);
        [|destruct (is_invalid_operation e)]].
      1-3: destruct Hr as (t & -> & -> & ->); exists []; split_and!; [by constructor|done..].
      destruct Hr as (t0 & -> & t & -> & -> & ->). 
      exists [OPrint (lit "lodger: " ++ ev ++ lit ": " ++ Error_to_string e)]. by split_and!; [repeat constructor|..]. }
    destruct Hs as (prints & Ho & -> & ->). exists prints. split_and!; [done..|].
    intros e' resp [= <-] [= <-]. by case_bool_decide.
Qed.

Lemma reports_vm c vm act ev (res : result Error unit) (row_err : str) :
  reports c (is_ok res) (by_vm c vm act
    match res with Ok _ => Entry_ok ev | Err _ => Entry_failed ev row_err end).
Proof. by destruct res. Qed.

Lemma at_reads P tr : only_read tr → audited_trace P tr.
Proof. induction 1 as [|e tr He Htr IH]; [constructor|].
  destruct e; try done; by constructor.
Qed.

(** ** Properties *)

(** What a call on VM [id] did: the VM of the inventory, one operation of the
    adapter, the line for an error that is not the user's, one row that names the VM,
    and the answer for the result. *)
Definition vm_call {B} (c : Caller) (id : Uuid) (op : virt (result Error B)) (act ev : str)
    (confirmed : Vm → Prop) (answer : B → Response) (tr : list wev) (r : Response) : Prop :=
  ∃ h1 h2 vm calls res,
    inv_vms (sh_inventory h1) !! id = Some vm ∧ confirmed vm ∧ sh_virt h2 = true ∧
    (vruns op calls res ∨ res = Err ETask ∧ ∃ more res', vruns op (calls ++ more) res') ∧
    tr = [OHost h1; OHost h2; OTask calls (is_ok res) []] ++ vm_prints act (vm_name vm) res ++
         [OAudit (by_vm c vm act match res with
                                 | Ok _ => Entry_ok ev
                                 | Err e => Entry_failed ev (failure_code e).1
                                 end)] ∧
    match res with Ok b => r = answer b | Err e => r_status r = (failure_code e).2 end.

(** Operations that change nothing. *)
Definition only_read_tasks (tr : list wev) : Prop :=
  Forall (λ e, match e with OTask calls _ _ => changes calls = false | _ => False end) tr.

Lemma at_read_tasks P tr : only_read_tasks tr → audited_trace P tr.
Proof.
  induction 1 as [|e tr He Htr IH]; [constructor|]. destruct e; try done. by constructor.
Qed.

(** The end of a handler, from the operation on. *)
Lemma vm_call_runs {B} c id op act ev confirmed (answer : B → Response) h1 h2 vm tr r :
  inv_vms (sh_inventory h1) !! id = Some vm → confirmed vm → sh_virt h2 = true →
  wruns (res ← task op;
         match res with
         | Ok b => _ ← audit (by_vm c vm act (Entry_ok ev)); mret (answer b)
         | Err e => failure (λ reason, by_vm c vm act (Entry_failed ev reason)) act (vm_name vm) e
         end) tr r →
  vm_call c id op act ev confirmed answer ([OHost h1; OHost h2] ++ tr) r.
Proof.
  intros Hvm Hc Hv (tr1 & tr2 & res & -> & (calls & -> & Ht)%wruns_task & Hr)%wruns_bind.
  exists h1, h2, vm, calls, res. split_and!; [done..| |].
  - destruct res as [b|e].
    + destruct Hr as (t & -> & -> & ->). done.
    + apply failure_runs in Hr as [-> _]. done.
  - destruct res as [b|e]; [by destruct Hr as (t & _ & _ & ->)|]. by apply failure_runs in Hr as [_ ?].
Qed.

Lemma vm_call_audited {B} c id op act ev confirmed (answer : B → Response) tr r :
  vm_call c id op act ev confirmed answer tr r → audited_trace (reports c) tr.
Proof.
  intros (h1 & h2 & vm & calls & res & _ & _ & _ & _ & -> & _).
  apply at_host, at_host. destruct res as [b|e]; cbn [vm_prints]; [by apply at_row; [|constructor]|].
  apply at_failed; [apply failure_only_prints|done|constructor].
Qed.

Lemma run_runs c id action body tr r :
  wruns (run c id action body) tr r →
  only_read tr ∧ (r_status r = 400 ∨ r_status r = 404 ∨ r_status r = 422 ∨ r_status r = 503) ∨
  ∃ act confirm, Power_parse action = Some act ∧ body_or_default Confirm_default body = Ok confirm ∧
    vm_call c id (power id act) (Power_name act) LIFECYCLE
      (λ vm, act = ForceOff → c_confirm confirm = Some (vm_name vm)) (λ _, plain 204) tr r.
Proof.
  unfold run. intros Hr. destruct (Power_parse action) as [act|]; [|rejected Hr].
  destruct (body_or_default Confirm_default body) as [confirm|]; [|rejected Hr].
  read_host Hr h1 tr1.
  destruct (inv_vms (sh_inventory h1) !! id) as [vm|] eqn:Evm;
    [|rejected Hr].
  destruct (_ && _) eqn:Ec; [rejected Hr|].
  read_host Hr h2 tr2.
  destruct (sh_virt h2) eqn:Ev; [|rejected Hr].
  right. exists act, confirm. split_and!; [done..|].
  apply (vm_call_runs _ _ _ _ _ _ _ h1 h2 vm tr2); [done| |done|exact Hr].
  intros ->. rewrite bool_decide_true in Ec by done. simpl in Ec. by bool_hyps.
Qed.

Lemma delete_runs c id body tr r :
  wruns (delete_vm c id body) tr r →
  only_read tr ∧ (r_status r = 400 ∨ r_status r = 404 ∨ r_status r = 422 ∨ r_status r = 503) ∨
  ∃ request, body_or_default DeleteRequest_default body = Ok request ∧
    vm_call c id (delete_on id (remove_volumes request)) (lit "delete") LIFECYCLE
      (λ vm, dr_confirm request = Some (vm_name vm)) (λ report, json_value 200 (Removal_json report)) tr r.
Proof.
  unfold delete_vm. intros Hr.
  destruct (body_or_default DeleteRequest_default body) as [request|]; [|rejected Hr].
  read_host Hr h1 tr1.
  destruct (inv_vms (sh_inventory h1) !! id) as [vm|] eqn:Evm;
    [|rejected Hr].
  destruct (negb (bool_decide _)) eqn:Ec; [rejected Hr|].
  read_host Hr h2 tr2.
  destruct (sh_virt h2) eqn:Ev; [|rejected Hr].
  right. exists request. split; [done|].
  apply (vm_call_runs _ _ _ _ _ _ _ h1 h2 vm tr2); [done| |done|exact Hr]. by bool_hyps.
Qed.

Lemma run_audited c id action body tr r :
  wruns (run c id action body) tr r → audited_trace (reports c) tr.
Proof.
  intros [[Hr _]|(act & confirm & _ & _ & Hc)]%run_runs;
    [by apply at_reads|by eapply vm_call_audited].
Qed.

Lemma delete_audited c id body tr r :
  wruns (delete_vm c id body) tr r → audited_trace (reports c) tr.
Proof.
  intros [[Hr _]|(request & _ & Hc)]%delete_runs; [by apply at_reads|by eapply vm_call_audited].
Qed.

Lemma update_audited c id body tr r :
  wruns (update c id body) tr r → audited_trace (reports c) tr.
Proof.
  unfold update. intros Hr. destruct (from_slice body) as [settings|]; [|answered Hr].
  read_host Hr h1 tr1. apply at_host.
  destruct (inv_vms (sh_inventory h1) !! id) as [vm|]; [|answered Hr].
  read_host Hr h2 tr2. apply at_host.
  destruct (sh_virt h2); [|answered Hr]. cbn [negb] in Hr. cbv zeta in Hr.
  apply wruns_bind in Hr as (t1 & t2 & res & -> & (calls & sent & -> & _)%wruns_task_ev & Hr).
  destruct res as [[]|e].
  - destruct Hr as (t & -> & -> & _). by apply at_row; [|constructor].
  - apply failure_runs in Hr as [-> _]. apply at_failed; [apply failure_only_prints|done|constructor].
Qed.

(** One operation is one block of the trail. *)
Lemma task_block {B} (p : virt (result Error B)) tr r :
  wruns (task p) tr r → ∃ tr0 calls sent, only_read_tasks tr0 ∧ tr = tr0 ++ [OTask calls (is_ok r) sent].
Proof. intros (calls & -> & _)%wruns_task. exists [], calls, []. by split; [constructor|]. Qed.

Lemma task_ev_block {B} (p : virt (result Error B * list Event)) tr r :
  wruns (task_ev p) tr r → ∃ tr0 calls sent, only_read_tasks tr0 ∧ tr = tr0 ++ [OTask calls (is_ok r) sent].
Proof. intros (calls & sent & -> & _)%wruns_task_ev. exists [], calls, sent. by split; [constructor|]. Qed.

(** A run of [audited] whose row names the caller and a target is on record. *)
Lemma audited_audited c nf row ev act call tr r :
  (∀ entry, account (row entry) = Some (session_username (who c)) ∧
            AuditLog.client_ip (row entry) = Some (ip_of c) ∧ target (row entry) ≠ None ∧
            result_ (row entry) = result_ entry ∧ detail (row entry) = detail entry) →
  (∀ tr1 res, wruns call tr1 res → ∃ tr0 calls sent, only_read_tasks tr0 ∧
            tr1 = tr0 ++ [OTask calls (is_ok res) sent]) →
  wruns (audited nf row ev act call) tr r → audited_trace (reports c) tr.
Proof.
  intros Hrow Hcall (tr1 & res & prints & Hc & _ & Ho & Hp & -> & _)%audited_runs.
  destruct (Hcall _ _ Hc) as (tr0 & calls & sent & Hr0 & ->). rewrite <- app_assoc.
  apply audited_app; [by apply at_read_tasks|]. apply at_task; [done..| |constructor].
  destruct (Hrow (with_action act match res with Ok _ => Entry_ok ev
      | Err e => Entry_failed ev (audited_code nf e).1 end)) as (Ha & Hi & Ht & Hres & Hd).
  split_and!; [done..| |]; [rewrite Hres; by destruct res|]. rewrite Hd. by destruct res.
Qed.

(** ** A power action of the API *)

(** The names of the actions. *)
Definition action_names : list (str * Power) :=
  [(lit "start", Start); (lit "shutdown", Shutdown); (lit "force-off", ForceOff); (lit "reboot", Reboot);
   (lit "pause", Pause); (lit "resume", Resume)].

(** The name that a body confirms: none when it is empty. *)
Definition says (body : list Z) (confirm : option str) : Prop :=
  body = [] ∧ confirm = None ∨ body ≠ [] ∧ ∃ parsed, from_slice body = Ok parsed ∧ c_confirm parsed = confirm.

(** The requests that are declined, with what was read and the answer. *)
Inductive declined (id : Uuid) (name : str) (body : list Z) : list wev → Response → Prop :=
| no_such_action : (∀ act, (name, act) ∉ action_names) →
    declined id name body [] (error 404 (lit "no such action"))
| bad_body act e : (name, act) ∈ action_names → body ≠ [] → from_slice (T:=Confirm) body = Err e →
    declined id name body [] (error 400 (lit "bad JSON body: " ++ e))
| no_such_vm act confirm h : (name, act) ∈ action_names → says body confirm →
    inv_vms (sh_inventory h) !! id = None →
    declined id name body [OHost h] (error 404 (lit "no such VM"))
| unconfirmed confirm h vm : (name, ForceOff) ∈ action_names → says body confirm →
    inv_vms (sh_inventory h) !! id = Some vm → confirm ≠ Some (vm_name vm) →
    declined id name body [OHost h] (error 422 (lit "type the VM's name to force it off"))
| not_connected act confirm h1 h2 vm : (name, act) ∈ action_names → says body confirm →
    inv_vms (sh_inventory h1) !! id = Some vm → (act = ForceOff → confirm = Some (vm_name vm)) →
    sh_virt h2 = false →
    declined id name body [OHost h1; OHost h2] (error 503 (lit "Lodger is not connected to libvirt")).

Definition missing (e : Error) : Prop :=
  ∃ v, e = ELibvirt v ∧ verr_code v ∈ [Some NoDomain; Some NoNetwork; Some NoStoragePool; Some NoStorageVolume].
Definition wrong_state (e : Error) : Prop :=
  (∃ why, e = EWrongState why) ∨ ∃ v, e = ELibvirt v ∧ verr_code v = Some OperationInvalid.

(** What is printed and put on record for the result of an action, and the status. *)
Inductive told (name vm : str) : result Error unit → list wev → option str → Z → Prop :=
| told_done : told name vm (Ok tt) [] None 204
| told_missing e : missing e → told name vm (Err e) [] (Some (lit "no_such_vm")) 404
| told_state e : wrong_state e → told name vm (Err e) [] (Some (lit "wrong_state")) 409
| told_other e : ¬ missing e → ¬ wrong_state e →
    told name vm (Err e) [OPrint (lit "lodger: " ++ name ++ lit " " ++ vm ++ lit ": " ++ Error_to_string e)]
      (Some (lit "libvirt_error")) 502.

(** The audit row of an action. *)
Definition vm_row (c : Caller) (vm : Vm) (name : str) (failure : option str) : Entry :=
  {| event := lit "vm.lifecycle"; account := Some (session_username (who c));
     AuditLog.client_ip := Some (ip_of c); target_kind := Some (lit "vm"); target := Some (vm_name vm);
     result_ := match failure with None => lit "ok" | Some _ => lit "failed" end;
     detail := {| via := None; sudo_user := None; action := Some name; reason := failure |} |}.

Lemma action_named name act : Power_parse name = Some act → name = Power_name act ∧ (name, act) ∈ action_names.
Proof.
  unfold Power_parse, action_names. repeat case_bool_decide; intros [= <-]; subst; (split; [done|]);
    repeat first [apply list_elem_of_here | apply list_elem_of_further].
Qed.

Lemma action_unnamed name act : Power_parse name = None → (name, act) ∉ action_names.
Proof.
  unfold Power_parse, action_names. repeat (case_bool_decide; [done|]). intros _.
  repeat (apply not_elem_of_cons; split; [congruence|]). apply not_elem_of_nil.
Qed.

Lemma says_parsed body confirm : body_or_default Confirm_default body = Ok confirm → says body (c_confirm confirm).
Proof.
  unfold body_or_default. destruct body as [|b body]; [intros [= <-]; by left|].
  destruct (from_slice (b :: body)) as [parsed|] eqn:E; [|done]. intros [= <-]. right. split; [done|]. by exists parsed.
Qed.

Lemma is_not_found_missing e : is_not_found e = true ↔ missing e.
Proof.
  unfold is_not_found, missing. split.
  - destruct e; try done. intros Hv. eexists. split; [done|]. revert Hv.
    destruct (verr_code _) as [[]|]; try done; intros _; repeat first [apply list_elem_of_here | apply list_elem_of_further].
  - intros (v & -> & Hv). repeat (apply elem_of_cons in Hv as [->|Hv]; [done|]). by apply not_elem_of_nil in Hv.
Qed.

Lemma is_invalid_wrong e : is_invalid_operation e = true ↔ wrong_state e.
Proof.
  unfold is_invalid_operation, wrong_state. split.
  - destruct e; try done; [rewrite bool_decide_eq_true; eauto|eauto].
  - intros [(why & ->)|(v & -> & Hv)]; [done|]. by rewrite bool_decide_true.
Qed.

(** C26: a power action of the API does what it says and nothing else, on every branch.
    A request reads at most the inventory and is declined, in this order, with 404 when
    the action has no such name, 400 when a body is there that does not parse, 404 when
    the inventory has no such VM, 422 when a VM is forced off and the body does not give
    its name, and 503 when libvirt is away.  Every other request runs exactly that action
    on that VM, once, and prints the error unless it is a missing object or a wrong state;
    then it writes exactly one audit row with the caller, the address, the VM, the action
    and the result, and answers 204, or 404, 409 or 502 by the error. *)
Theorem vm_action_correct c id name body tr r :
  wruns (run c id name body) tr r →
  declined id name body tr r ∨
  ∃ act confirm h1 h2 vm calls res prints failure,
    (name, act) ∈ action_names ∧ says body confirm ∧
    inv_vms (sh_inventory h1) !! id = Some vm ∧ (act = ForceOff → confirm = Some (vm_name vm)) ∧
    sh_virt h2 = true ∧
    (vruns (power id act) calls res ∨ res = Err ETask ∧ ∃ more res', vruns (power id act) (calls ++ more) res') ∧
    told name (vm_name vm) res prints failure (r_status r) ∧
    tr = [OHost h1; OHost h2; OTask calls (is_ok res) []] ++ prints ++ [OAudit (vm_row c vm name failure)].
Proof.
  unfold run. intros Hr. destruct (Power_parse name) as [act|] eqn:Ea.
  2: { destruct Hr as [-> ->]. left. constructor. intros act. by apply action_unnamed. }
  apply action_named in Ea as [En Ha].
  destruct (body_or_default Confirm_default body) as [confirm|message] eqn:Eb.
  2: { destruct Hr as [-> ->]. left. unfold body_or_default in Eb. destruct body as [|b body]; [done|].
       destruct (from_slice (b :: body)) as [|e] eqn:Es; [done|]. injection Eb as <-. by eapply bad_body. }
  apply says_parsed in Eb. read_host Hr h1 tr1.
  destruct (inv_vms (sh_inventory h1) !! id) as [vm|] eqn:Evm; [|destruct Hr as [-> ->]; left; by eapply no_such_vm].
  destruct (_ && _) eqn:Ec.
  { destruct Hr as [-> ->]. left. apply andb_true_iff in Ec as [->%bool_decide_eq_true Hc]. bool_hyps. by eapply unconfirmed. }
  assert (Hc : act = ForceOff → c_confirm confirm = Some (vm_name vm)).
  { intros ->. rewrite bool_decide_true in Ec by done. simpl in Ec. by bool_hyps. }
  read_host Hr h2 tr2.
  destruct (sh_virt h2) eqn:Ev; [|destruct Hr as [-> ->]; left; by eapply not_connected].
  right. cbn [negb] in Hr. apply wruns_bind in Hr as (t1 & t2 & res & -> & (calls & -> & Ht)%wruns_task & Hr).
  exists act, (c_confirm confirm), h1, h2, vm, calls, res. rewrite En.
  destruct res as [[]|e].
  - destruct Hr as (t & -> & -> & ->). exists [], None. by split_and!; [subst..|constructor|].
  - apply failure_runs in Hr as [-> Hs]. unfold failure_code, failure_prints in *.
    destruct (is_not_found e) eqn:E1; [|destruct (is_invalid_operation e) eqn:E2]; cbn [orb fst snd] in *; rewrite Hs.
    + apply is_not_found_missing in E1. exists [], (Some (lit "no_such_vm")). by split_and!; [subst..|constructor|].
    + apply is_invalid_wrong in E2. exists [], (Some (lit "wrong_state")). by split_and!; [subst..|constructor|].
    + rewrite <- not_true_iff_false, is_not_found_missing in E1. rewrite <- not_true_iff_false, is_invalid_wrong in E2.
      eexists _, (Some (lit "libvirt_error")). split_and!; [by subst..|by apply told_other|done].
Qed.

(** Only a force-off destroys a domain. *)
Lemma power_destroys id act calls more r e d :
  vruns (power id act) (calls ++ more) r → e ∈ calls → projT1 e = DomainDestroy d → act = ForceOff.
Proof.
  intros Hv He Hd.
  pose (G := λ (_ : list ev) c, ∀ d, c = DomainDestroy d → act = ForceOff).
  assert (Hs : vsafe G (λ _ _, True) (power id act) []).
  { split; [done|]. intros [dom|err]; [|done]. split; [done|]. intros [info|err]; [|done].
    split; [done|]. intros [active|err]; [|done]. cbn.
    destruct (refusal _ _ _); [done|]. apply vsafe_bind.
    destruct act; cbn; (split; [try done|]); intros [[]|err]; cbn; try done.
    all: case_bool_decide; [|done]; split; [done|]; done. }
  destruct (vsafe_sound _ _ _ _ _ _ Hs Hv) as [_ Hall].
  apply list_elem_of_split in He as (l1 & l2 & ->). rewrite <- app_assoc in Hall.
  by apply (Hall l1 e (l2 ++ more) eq_refl d).
Qed.
End actions.

(** ** Witnesses *)

#[local] Existing Instance log_text_plain.

(** A formatter that leaves texts alone, and a host with one VM, [web], shut off. *)
Definition fmt_plain : Fmt :=
  {| debug_str := id; debug_char := λ c, [c]; verr_to_string := verr_message;
     join_error_to_string := []; uuid_to_string := to_string |}.
#[local] Existing Instance fmt_plain.

Definition web_vm : Vm :=
  {| vm_uuid := 7; vm_name := lit "web"; vm_state := Shutoff; vm_vcpus := 1; vm_memory_kib := 1024;
     vm_persistent := true; vm_autostart := false; vm_has_vnc := false |}.

Definition web_host : Supervisor.Shared :=
  {| sh_inventory := {| inv_vms := {[ 7 := web_vm ]}; inv_pools := ∅; inv_networks := ∅ |};
     sh_virt := true; sh_state := Connected; sh_events := []; sh_reloads := 1 |}.

Definition admin_caller : Caller :=
  {| peer := V4 2130706433; req_headers := [];
     who := {| session_account_id := 1; session_username := lit "root"; session_csrf_token := [9] |} |}.

Definition calm_env (n : nat) : env :=
  {| e_instant := 0; e_sql := λ _, {| tick_now := 0; tick_fault := None; tick_spare_rowid := 1 |};
     e_random := Ok [1; 2]; e_task := true; e_salt := [] |}.

Definition empty_app : AppState :=
  {| app_db := no_tables; app_throttle := Counters_default; app_tickets := ∅; app_setup := None;
     app_journal := []; app_argon2 := [] |}.

(** A body that names the VM, whatever its bytes. *)
Definition names_web : Deserialize Confirm := λ _, Ok {| c_confirm := Some (lit "web") |}.

Definition start_web : web Response :=
  @run ipnet_ref fmt_plain names_web [] admin_caller 7 (lit "start") [].

Lemma vm_action_correct_witness :
  let out := wexec start_web calm_env empty_app web_host stopped_domain [] 0%nat in
  r_status out.1.2 = 204 ∧ ∃ h1 h2 vm calls, inv_vms (sh_inventory h1) !! 7 = Some vm ∧
    out.1.1 = [OHost h1; OHost h2; OTask calls true []] ++ [OAudit (vm_row [] admin_caller vm (lit "start") None)].
Proof.
  intros out. assert (E : r_status out.1.2 = 204) by by vm_compute.
  split; [exact E|].
  destruct (@vm_action_correct ipnet_ref fmt_plain names_web [] admin_caller 7 (lit "start") []
    out.1.1 out.1.2 (wexec_wruns _ _ _ _ _ _ _)) as [Hd|(act & confirm & h1 & h2 & vm & calls & res & prints & f & Hr)].
  - exfalso. assert (Hs : r_status out.1.2 ≠ 204) by (by destruct Hd). by apply Hs.
  - destruct Hr as (_ & _ & Hvm & _ & _ & _ & Ht & Etr). rewrite E in Ht.
    inversion Ht as [Er Ep Ef Hs| | |]; subst. by exists h1, h2, vm, calls.
Defined.
