(* ===== verification/Api.v ===== *)
(** * The reads of the API (crates/lodger/src/api.rs)

    The connection state, the health check, the host page and the lists of the
    inventory, with the JSON of the model types (crates/lodger-core/src/model). *)

From S2P Require Import Prelude Text Net Validate Model Xml Throttle Tickets Db AuditLog Http Server Virt VirtPower VirtConn Inventory Supervisor Web Actions.

(** ** JSON of the model types *)

Definition opt_text (v : option str) : value := match v with Some s => VText s | None => VNull end.

Definition VmState_text (s : VmState) : str :=
  match s with
  | NoState => lit "no_state"
  | Running => lit "running"
  | Blocked => lit "blocked"
  | Paused => lit "paused"
  | ShuttingDown => lit "shutting_down"
  | Shutoff => lit "shutoff"
  | Crashed => lit "crashed"
  | Suspended => lit "suspended"
  | VmUnknown => lit "unknown"
  end.

Definition PoolState_text (s : PoolState) : str :=
  match s with
  | PoolInactive => lit "inactive"
  | PoolBuilding => lit "building"
  | PoolRunning => lit "running"
  | PoolDegraded => lit "degraded"
  | PoolInaccessible => lit "inaccessible"
  | PoolUnknown => lit "unknown"
  end.

Definition VolumeKind_text (k : VolumeKind) : str :=
  match k with
  | VolFile => lit "file"
  | VolBlock => lit "block"
  | VolDir => lit "dir"
  | VolNetwork => lit "network"
  | VolNetDir => lit "net_dir"
  | VolPloop => lit "ploop"
  | VolUnknown => lit "unknown"
  end.

Section json.
Context `{Fmt}.

Definition Vm_json (v : Vm) : value :=
  VObject [(lit "uuid", VText (uuid_to_string (vm_uuid v))); (lit "name", VText (vm_name v));
           (lit "state", VText (VmState_text (vm_state v))); (lit "vcpus", VNum (vm_vcpus v));
           (lit "memory_kib", VNum (vm_memory_kib v)); (lit "persistent", VBool (vm_persistent v));
           (lit "autostart", VBool (vm_autostart v)); (lit "has_vnc", VBool (vm_has_vnc v))].

Definition Pool_fields (p : Pool) : list (str * value) :=
  [(lit "uuid", VText (uuid_to_string (pool_uuid p))); (lit "name", VText (pool_name p));
   (lit "state", VText (PoolState_text (pool_state p)));
   (lit "capacity_bytes", VNum (pool_capacity_bytes p));
   (lit "allocation_bytes", VNum (pool_allocation_bytes p));
   (lit "available_bytes", VNum (pool_available_bytes p));
   (lit "persistent", VBool (pool_persistent p)); (lit "autostart", VBool (pool_autostart p))].

Definition Network_fields (n : Network) : list (str * value) :=
  [(lit "uuid", VText (uuid_to_string (network_uuid n))); (lit "name", VText (network_name n));
   (lit "active", VBool (network_active n)); (lit "persistent", VBool (network_persistent n));
   (lit "autostart", VBool (network_autostart n)); (lit "bridge", opt_text (network_bridge n))].

Definition Volume_json (v : Volume) : value :=
  VObject [(lit "name", VText (volume_name v)); (lit "key", VText (volume_key v));
           (lit "path", VText (volume_path v)); (lit "kind", VText (VolumeKind_text (volume_kind v)));
           (lit "format", opt_text (volume_format v));
           (lit "capacity_bytes", VNum (volume_capacity_bytes v));
           (lit "allocation_bytes", VNum (volume_allocation_bytes v));
           (lit "used_by", VList (VText <$> volume_used_by v));
           (lit "backing_for", VList (VText <$> volume_backing_for v))].

Definition HostInfo_json (i : HostInfo) : value :=
  VObject [(lit "hostname", VText (hostname i)); (lit "libvirt_version", VText (libvirt_version i));
           (lit "cpus", VNum (host_cpus i)); (lit "memory_kib", VNum (host_memory_kib i))].
End json.

(** ** Lists sorted by name, then by UUID *)

Definition named_le {T} (name : T → str) (uuid : T → Uuid) (a b : T) : Prop :=
  if bool_decide (name a = name b) then uuid a ≤ uuid b else str_le (name a) (name b).

#[export] Instance named_le_dec {T} (name : T → str) uuid : RelDecision (named_le name uuid).
Proof. intros a b. unfold named_le. case_bool_decide; apply _. Defined.

Definition sorted_values {T} (name : T → str) (uuid : T → Uuid) (m : gmap Uuid T) : list T :=
  merge_sort (named_le name uuid) (snd <$> map_to_list m).

(** ** api.rs *)

Record Connection := { conn_text : str; conn_error : option str }.

Definition Connection_from (state : ConnState) : Connection :=
  match state with
  | Connecting => {| conn_text := lit "connecting"; conn_error := None |}
  | Connected => {| conn_text := lit "connected"; conn_error := None |}
  | Disconnected error => {| conn_text := lit "disconnected"; conn_error := Some error |}
  end.

Definition Connection_json (c : Connection) : value :=
  VObject ([(lit "state", VText (conn_text c))] ++ some_field (lit "error") (conn_error c)).

Section api.
Context `{Ipnet} `{LogText} `{Fmt}.

Definition health : web Response :=
  state ← conn_state;
  let libvirt := conn_text (Connection_from state) in
  ping ← lift (db ping);
  '(code, status, database) ←
    match ping with
    | Err e =>
        _ ← print (lit "lodger: health check: the database failed: " ++ sql_text e);
        mret (503, lit "error", lit "error")
    | Ok _ => mret (if bool_decide (libvirt = lit "connected") then (200, lit "ok", lit "ok")
                    else (200, lit "degraded", lit "ok"))
    end;
  mret (json code [(lit "status", VText status); (lit "database", VText database);
                   (lit "libvirt", VText libvirt)]).

Definition running_count (inv : Inventory) : Z :=
  Z.of_nat (length (filter (λ vm, vm_state vm = Running) (snd <$> map_to_list (inv_vms inv)))).

Definition host : web Response :=
  state ← conn_state;
  inv ← inventory;
  virt ← has_virt;
  info ← (if (virt : bool) then
            r ← task host_info;
            mret match r with
                 | Ok info => (Some info, None)
                 | Err e => (None, Some (Error_to_string e))
                 end
          else mret (None, None));
  mret (json 200 ([(lit "connection", Connection_json (Connection_from state));
                   (lit "info", from_option HostInfo_json VNull info.1)] ++
                  some_field (lit "info_error") info.2 ++
                  [(lit "vms", VObject [(lit "total", VNum (Z.of_nat (size (inv_vms inv))));
                                        (lit "running", VNum (running_count inv))]);
                   (lit "pools", VNum (Z.of_nat (size (inv_pools inv))));
                   (lit "networks", VNum (Z.of_nat (size (inv_networks inv))))])).

Definition vms : web Response :=
  inv ← inventory;
  mret (json_value 200 (VList (Vm_json <$> sorted_values vm_name vm_uuid (inv_vms inv)))).

Definition vm (id : Uuid) : web Response :=
  inv ← inventory;
  mret match inv_vms inv !! id with
       | Some vm => json_value 200 (Vm_json vm)
       | None => plain 404
       end.
End api.

(** ** Properties *)

Section sorted.
Context {T : Type} (name : T → str) (uuid : T → Uuid).

#[export] Instance named_le_total : Total (named_le name uuid).
Proof.
  intros a b. unfold named_le. case_bool_decide; case_bool_decide; try congruence; [lia|].
  apply str_le_total.
Qed.

#[export] Instance named_le_trans : Transitive (named_le name uuid).
Proof.
  intros a b c. unfold named_le. destruct (decide (name a = name b)) as [E1|E1];
    [rewrite (bool_decide_true _ E1)|rewrite (bool_decide_false _ E1)];
    (destruct (decide (name b = name c)) as [E2|E2];
      [rewrite (bool_decide_true (name b = name c) E2)|rewrite (bool_decide_false (name b = name c) E2)]);
    intros Hab Hbc; case_bool_decide as E3; try congruence.
  - lia.
  - destruct E1. apply (anti_symm str_le); [done|]. by rewrite E3.
  - by transitivity (name b).
Qed.

(** The lists of the API: every object of the inventory once, by name and then by
    UUID, whatever the order of the map. *)
Lemma sorted_values_spec (m : gmap Uuid T) :
  StronglySorted (named_le name uuid) (sorted_values name uuid m) ∧
  ∀ t, t ∈ sorted_values name uuid m ↔ ∃ id, m !! id = Some t.
Proof.
  unfold sorted_values. split; [apply (StronglySorted_merge_sort _)|].
  intros t. rewrite merge_sort_Permutation, list_elem_of_fmap. split.
  - intros ([id t'] & -> & Hin). apply elem_of_map_to_list in Hin. by exists id.
  - intros (id & Hm). exists (id, t). split; [done|]. by apply elem_of_map_to_list.
Qed.

(** The order of the list does not depend on the map's: two inventories with the
    same objects give the same list, when each object has its own UUID. *)
Lemma sorted_values_unique (l1 l2 : list T) :
  NoDup (uuid <$> l1) → l1 ≡ₚ l2 →
  merge_sort (named_le name uuid) l1 = merge_sort (named_le name uuid) l2.
Proof.
  intros Hnd Hp.
  assert (Ha : ∀ a b, a ∈ l1 → b ∈ l1 → named_le name uuid a b → named_le name uuid b a → a = b).
  { intros a b Ha Hb Hab Hba. apply (key_eq uuid l1); [done..|].
    unfold named_le in Hab, Hba. case_bool_decide as E1; case_bool_decide as E2; try congruence; [lia|].
    destruct E1. by apply (anti_symm str_le). }
  apply (StronglySorted_unique_strong (named_le name uuid)).
  - intros a b Ha' Hb' Hab Hba. rewrite merge_sort_Permutation in Ha', Hb'. rewrite <- Hp in Hb'. by apply Ha.
  - apply (StronglySorted_merge_sort _).
  - apply (StronglySorted_merge_sort _).
  - by rewrite !merge_sort_Permutation.
Qed.
End sorted.
