(* ===== verification/Pools.v ===== *)
(** * The storage pool handlers (crates/lodger/src/pools.rs) *)

From S2P Require Import Prelude Text Net Validate Model Xml XmlPool Throttle Tickets Db AuditLog Http Server Virt VirtPower VirtPool VirtConn Inventory Supervisor Web Actions Api.

Definition POOL_NOT_FOUND : NotFound :=
  {| nf_reason := lit "no_such_pool"; nf_message := lit "no such pool" |}.

Definition NFS_MOUNT_ROOT : str := lit "/var/lib/libvirt/pools".

(** [format!("{NFS_MOUNT_ROOT}/{name}")]. *)
Definition mount_folder (name : str) : str := NFS_MOUNT_ROOT ++ lit "/" ++ name.

Inductive PoolKind := KindDir | KindNfs.

Record CreatePool := {
  cp_name : str;
  cp_kind : PoolKind;
  cp_path : option str;
  cp_host : option str;
  cp_export : option str;
  cp_autostart : bool
}.

(** The body of a [PATCH], for pools and for networks alike. *)
Record Change := { ch_active : option bool; ch_autostart : option bool }.

Record PoolRemoval := { pr_confirm : option str; delete_files : bool }.
Definition PoolRemoval_default : PoolRemoval := {| pr_confirm := None; delete_files := false |}.

Definition no_change : Response := error 400 (lit "the body needs " ++ [34] ++ lit "active" ++ [34] ++
  lit " or " ++ [34] ++ lit "autostart" ++ [34]).

(** The body of a delete: an empty one is the default. *)
Definition body_or_bad {T} `{Deserialize T} (default : T) (body : list Z) : result Response T :=
  match body with
  | [] => Ok default
  | _ => map_err bad_json (from_slice body)
  end.

Section pools.
Context `{Ipnet} `{LogText} `{Fmt} `{XmlTree}
  `{!Deserialize CreatePool} `{!Deserialize Change} `{!Deserialize PoolRemoval}.
Variable trusted_proxies : list ipnet.

Definition in_lodger_mount_root (xml : PoolXml) (name : str) : bool :=
  bool_decide (pool_type xml = Some (lit "netfs")) &&
  bool_decide (PoolXml_target_path xml = Some (mount_folder name)).

Definition list_pools : web Response :=
  inv ← inventory;
  mret (json_value 200 (VList (VObject ∘ Pool_fields <$> sorted_values pool_name pool_uuid (inv_pools inv)))).

(** The answer [PoolDetail]. *)
Definition PoolDetail_json (pool : Pool) (xml : PoolXml) (used_by : list str) : value :=
  VObject (Pool_fields pool ++
    [(lit "kind", opt_text (pool_type xml)); (lit "path", opt_text (PoolXml_target_path xml))] ++
    match nfs_source xml with
    | Some (host, export) =>
        [(lit "nfs", VObject [(lit "host", VText host); (lit "export", VText export)])]
    | None => []
    end ++
    [(lit "used_by", VList (VText <$> used_by))]).

(** [detail]: the document, then the users. *)
Definition pool_facts (id : Uuid) : web (result Error (PoolXml * list str)) :=
  doc ← task (pool_xml id);
  match doc with
  | Err e => mret (Err e)
  | Ok doc =>
      match PoolXml_parse doc with
      | Err e => mret (Err (EXml e))
      | Ok xml =>
          users ← task (pool_users id);
          mret ((λ u, (xml, u)) <$> users)
      end
  end.

Definition pool_detail (id : Uuid) : web Response :=
  inv ← inventory;
  match inv_pools inv !! id with
  | None => mret (error 404 (lit "no such pool"))
  | Some pool =>
      virt ← has_virt;
      if negb virt then mret no_libvirt
      else
        facts ← pool_facts id;
        mret match facts with
             | Ok (xml, used_by) => json_value 200 (PoolDetail_json pool xml used_by)
             | Err e => if is_not_found e then error 404 (lit "no such pool") else error_answer 502 e
             end
  end.

Definition invalid (e : InputError) : Response := error 422 (InputError_to_string e).
Definition missing (field : str) : Response := error 422 (field ++ lit " is empty").

(** The pool that a request asks for, before the checks against the others. *)
Definition requested_pool (request : CreatePool) (name : Name) : result Response NewPool :=
  match cp_kind request with
  | KindDir =>
      path ← ok_or (cp_path request) (missing (lit "Pool folder"));
      map_err invalid (NewPool_dir name path)
  | KindNfs =>
      host ← ok_or (cp_host request) (missing (lit "NFS server"));
      export ← ok_or (cp_export request) (missing (lit "NFS export"));
      let path := default (mount_folder (cp_name request)) (cp_path request) in
      map_err invalid (NewPool_nfs name host export path)
  end.

(** The documents that Lodger can read. *)
Definition readable_pools (existing : list (str * str)) : list (str * PoolXml) :=
  omap (λ p : str * str, x ← ok (PoolXml_parse p.2); Some (p.1, x)) existing.

(** [new_pool]. *)
Definition new_pool (request : CreatePool) (existing : list (str * str)) : result Response NewPool :=
  name ← map_err invalid (Name_parse (lit "Pool name") (cp_name request));
  if existsb (λ p : str * str, bool_decide (p.1 = cp_name request)) existing
  then Err (error 409 (lit "a pool called " ++ debug_str (cp_name request) ++ lit " exists already"))
  else
    pool ← requested_pool request name;
    _ ← map_err invalid (NewPool_check_against pool (readable_pools existing));
    Ok pool.

Definition by_pool (c : Caller) (name : str) (entry : Entry) : Entry :=
  target_pool name (with_client_ip (ip_of trusted_proxies c)
    (with_account (session_username (who c)) entry)).

Definition create_pool_handler (c : Caller) (body : list Z) : web Response :=
  match from_slice body with
  | Err e => mret (bad_json e)
  | Ok request =>
      virt ← has_virt;
      if negb virt then mret no_libvirt
      else
        existing ← task pool_xmls;
        match existing with
        | Err e => mret (error_answer 502 e)
        | Ok existing =>
            match new_pool request existing with
            | Err response => mret response
            | Ok pool =>
                let row := by_pool c (as_str (new_pool_name pool)) in
                r ← task (create_pool (NewPool_to_xml pool) (cp_autostart request));
                match r with
                | Ok id =>
                    _ ← audit (row (Entry_ok (lit "pool.created")));
                    mret (json 201 [(lit "uuid", VText (uuid_to_string id))])
                | Err e =>
                    _ ← print (lit "lodger: create pool " ++ as_str (new_pool_name pool) ++ lit ": " ++ Error_to_string e);
                    _ ← audit (row (Entry_failed (lit "pool.created") (lit "libvirt_error")));
                    mret (error_answer 502 e)
                end
            end
        end
  end.

(** The second half of [change]. *)
Definition change_pool_autostart (c : Caller) (id : Uuid) (pool : Pool) (change : Change) : web Response :=
  match ch_autostart change with
  | None => mret (Http.plain 204)
  | Some on =>
      let action := if on then lit "autostart-on" else lit "autostart-off" in
      r ← audited POOL_NOT_FOUND (by_pool c (pool_name pool)) (lit "pool.edited") (Some action)
            (task_ev (set_pool_autostart id on));
      mret match r with Err response => response | Ok _ => Http.plain 204 end
  end.

Definition change_pool (c : Caller) (id : Uuid) (body : list Z) : web Response :=
  match from_slice body with
  | Err e => mret (bad_json e)
  | Ok change =>
      if bool_decide (ch_active change = None) && bool_decide (ch_autostart change = None)
      then mret no_change
      else
        inv ← inventory;
        match inv_pools inv !! id with
        | None => mret (error 404 (lit "no such pool"))
        | Some pool =>
            virt ← has_virt;
            if negb virt then mret no_libvirt
            else
              match ch_active change with
              | None => change_pool_autostart c id pool change
              | Some active =>
                  let event := if active then lit "pool.started" else lit "pool.stopped" in
                  r ← audited POOL_NOT_FOUND (by_pool c (pool_name pool)) event None
                        (task (set_pool_active id active));
                  match r with
                  | Err response => mret response
                  | Ok _ => change_pool_autostart c id pool change
                  end
              end
        end
  end.

(** The future that [remove] passes to [audited]. *)
Definition remove_pool_call (id : Uuid) (name : str) (files : bool) : web (result Error unit) :=
  doc ← task (pool_xml id);
  match doc with
  | Err e => mret (Err e)
  | Ok doc =>
      let lodger_folder := match PoolXml_parse doc with
                           | Ok xml => in_lodger_mount_root xml name
                           | Err _ => false
                           end in
      task (remove_pool id files lodger_folder)
  end.

Definition remove_pool_handler (c : Caller) (id : Uuid) (body : list Z) : web Response :=
  match body_or_bad PoolRemoval_default body with
  | Err response => mret response
  | Ok request =>
      inv ← inventory;
      match inv_pools inv !! id with
      | None => mret (error 404 (lit "no such pool"))
      | Some pool =>
          if negb (bool_decide (pr_confirm request = Some (pool_name pool)))
          then mret (error 422 (lit "type the pool's name to remove it"))
          else
            virt ← has_virt;
            if negb virt then mret no_libvirt
            else
              let action := if delete_files request then lit "delete-files" else lit "keep-files" in
              r ← audited POOL_NOT_FOUND (by_pool c (pool_name pool)) (lit "pool.deleted") (Some action)
                    (remove_pool_call id (pool_name pool) (delete_files request));
              mret match r with Err response => response | Ok _ => Http.plain 204 end
      end
  end.

(** ** Properties *)

Lemma pool_xmls_queries : queries_only pool_xmls.
Proof.
  apply queries_lv, queries_try; [done|]. intros ps. apply gather_try_queries. intros p.
  apply queries_bind; [|by intros [|e]]. unfold pool_name_and_xml.
  apply queries_try; [done|]. intros name. by apply queries_try.
Qed.

Lemma requested_pool_folder request name pool :
  requested_pool request name = Ok pool →
  new_pool_name pool = name ∧ ∃ value, target_path value = Ok (new_pool_path pool).
Proof.
  unfold requested_pool. destruct (cp_kind request).
  - intros (path & _ & (q & Hq & [= <-])%map_err_Ok%bind_Ok)%bind_Ok. split; [done|by exists path].
  - intros (host & _ & (export & _ & Hp)%bind_Ok)%bind_Ok. cbv zeta in Hp.
    apply map_err_Ok in Hp. unfold NewPool_nfs in Hp.
    apply bind_Ok in Hp as (q & Hq & Hp). apply bind_Ok in Hp as (h & _ & Hp).
    apply bind_Ok in Hp as (e & _ & [= <-]). split; [done|]. by eexists.
Qed.

(** A pool that [new_pool] accepts has a good new name and a folder of its own. *)
Definition acceptable_pool (request : CreatePool) (existing : list (str * str)) (pool : NewPool) : Prop :=
  Name_parse (lit "Pool name") (cp_name request) = Ok (new_pool_name pool) ∧
  (cp_name request ∉ fst <$> existing) ∧
  requested_pool request (new_pool_name pool) = Ok pool ∧
  (new_pool_path pool ∉ SYSTEM_FOLDERS) ∧
  (∀ tree, tree ∈ SYSTEM_TREES → ¬ below tree (new_pool_path pool)) ∧
  ∀ name doc other, (name, doc) ∈ existing → PoolXml_parse doc = Ok other →
    ¬ folder_clash pool other ∧ ¬ export_clash pool other.

Lemma new_pool_accepts request existing pool :
  new_pool request existing = Ok pool → acceptable_pool request existing pool.
Proof.
  unfold new_pool. intros (name & Hn & Hr)%bind_Ok. apply map_err_Ok in Hn.
  destruct (existsb _ existing) eqn:Ex; [done|].
  apply bind_Ok in Hr as (p & Hp & (u & Hu & [= <-])%bind_Ok). apply map_err_Ok in Hu.
  destruct (requested_pool_folder _ _ _ Hp) as [En (value & Hv)]. subst name.
  apply target_path_correct in Hv as (_ & Hf & Ht). split_and!; [done| |done..|].
  - intros ([n d] & Hc & Hin)%list_elem_of_fmap. rewrite existsb_false, Forall_forall in Ex.
    specialize (Ex _ Hin). simpl in Ex, Hc. by bool_hyps.
  - intros n doc other Hin Hd. pose proof (check_against_correct p (readable_pools existing)) as Hc.
    rewrite Hu in Hc. apply (Hc n). unfold readable_pools. apply list_elem_of_omap.
    exists (n, doc). split; [done|]. simpl. by rewrite Hd.
Qed.

Lemma new_pool_rejects request existing r :
  new_pool request existing = Err r → r_status r = 422 ∨ r_status r = 409.
Proof.
  assert (Hi : ∀ A (x : result InputError A), map_err invalid x = Err r → r_status r = 422).
  { intros A [a|e]; [done|]. by intros [= <-]. }
  unfold new_pool. intros [Hn|(name & _ & Hr)]%bind_Err; [left; by eapply Hi|].
  destruct (existsb _ existing); [injection Hr as <-; by right|].
  apply bind_Err in Hr as [Hr|(p & _ & [Hu|(u & _ & [=])]%bind_Err)]; [|left; by eapply Hi]. left.
  unfold requested_pool in Hr. destruct (cp_kind request).
  - apply bind_Err in Hr as [Hr|(path & _ & Hr)]; [|by eapply Hi].
    destruct (cp_path request); [done|]. by injection Hr as <-.
  - apply bind_Err in Hr as [Hr|(host & _ & [Hr|(export & _ & Hr)]%bind_Err)]; [| |by eapply Hi].
    + destruct (cp_host request); [done|]. by injection Hr as <-.
    + destruct (cp_export request); [done|]. by injection Hr as <-.
Qed.

(** A pool is defined only after its checks.  A run of [POST /api/pools] that
    changes anything on the host has first read every pool of libvirt; then the
    name is good and new, the folder is no system folder and not below one, and no
    pool that Lodger can read has the same folder or NFS export.  The document that
    libvirt gets is that of the checked pool, an error of libvirt is printed, one row reports the result, and the
    answer is 201 or 502.  Every other run answers 400, 409, 422, 502 or 503 and
    writes no row. *)
Theorem pool_create_checked c body tr r :
  wruns (create_pool_handler c body) tr r →
  (Forall (λ e, match e with OHost _ => True | OTask calls _ _ => changes calls = false | _ => False end) tr ∧
   (r_status r = 400 ∨ r_status r = 409 ∨ r_status r = 422 ∨ r_status r = 502 ∨ r_status r = 503)) ∨
  ∃ request h reads existing pool calls res,
    from_slice body = Ok request ∧ sh_virt h = true ∧ vruns pool_xmls reads (Ok existing) ∧
    acceptable_pool request existing pool ∧
    (let op := create_pool (NewPool_to_xml pool) (cp_autostart request) in
     vruns op calls res ∨ res = Err ETask ∧ ∃ more res', vruns op (calls ++ more) res') ∧
    tr = [OHost h; OTask reads true []; OTask calls (is_ok res) []] ++
         match res with
         | Ok _ => []
         | Err e => [OPrint (lit "lodger: create pool " ++ cp_name request ++ lit ": " ++ Error_to_string e)]
         end ++
         [OAudit (by_pool c (cp_name request)
            match res with
            | Ok _ => Entry_ok (lit "pool.created")
            | Err _ => Entry_failed (lit "pool.created") (lit "libvirt_error")
            end)] ∧
    r_status r = (if is_ok res then 201 else 502).
Proof.
  unfold create_pool_handler. intros Hr.
  destruct (from_slice body) as [request|]; [|destruct Hr as [-> ->]; left; split; [by constructor|cbn; tauto]].
  read_host Hr h tr1.
  destruct (sh_virt h) eqn:Ev; [|rejected Hr].
  cbn [negb] in Hr. apply wruns_bind in Hr as (t1 & t2 & ex & -> & Hx & Hr).
  pose proof (task_harmless _ _ _ (harmless_queries _ pool_xmls_queries) Hx) as (reads & -> & Hreads).
  apply wruns_task in Hx as (reads' & [= <-] & Hx).
  destruct ex as [existing|e]; [|rejected Hr].
  destruct Hx as [Hx|[[=] _]].
  destruct (new_pool request existing) as [pool|resp] eqn:En;
    [|destruct Hr as [-> ->]; left; split;
      [by repeat constructor|by destruct (new_pool_rejects _ _ _ En); auto]].
  apply new_pool_accepts in En. right. cbv zeta in Hr.
  apply wruns_bind in Hr as (t3 & t4 & res & -> & (calls & -> & Ht)%wruns_task & Hr).
  assert (Hname : as_str (new_pool_name pool) = cp_name request).
  { destruct En as (Hn & _). by apply Name_parse_Ok in Hn as [-> _]. }
  exists request, h, reads, existing, pool, calls, res. rewrite Hname in Hr.
  split_and!; try done; 
    (destruct res as [id|e]; [destruct Hr as (t & -> & -> & ->)|destruct Hr as (t0 & -> & t & -> & -> & ->)]; done).
Qed.

(** ** The audit trail *)

Lemma by_pool_row c name entry :
  account (by_pool c name entry) = Some (session_username (who c)) ∧
  AuditLog.client_ip (by_pool c name entry) = Some (ip_of trusted_proxies c) ∧
  target (by_pool c name entry) ≠ None ∧
  result_ (by_pool c name entry) = result_ entry ∧ detail (by_pool c name entry) = detail entry.
Proof. done. Qed.

Lemma pool_xml_queries id : queries_only (pool_xml id).
Proof. apply queries_lv. by apply queries_try. Qed.

Lemma pool_detail_audited P id tr r :
  wruns (pool_detail id) tr r → audited_trace P tr.
Proof.
  unfold pool_detail. intros Hr. read_host Hr h1 tr1. apply at_host.
  destruct (inv_pools (sh_inventory h1) !! id) as [pool|]; [|answered Hr].
  read_host Hr h2 tr2. apply at_host. destruct (sh_virt h2); [|answered Hr].
  cbn [negb] in Hr. apply wruns_bind in Hr as (t1 & t2 & facts & -> & Hf & [-> _]). rewrite app_nil_r.
  apply wruns_bind in Hf as (t3 & t4 & doc & -> & Hd & Hf).
  destruct (task_harmless _ _ _ (harmless_queries _ (pool_xml_queries id)) Hd) as (calls & -> & Hc).
  apply at_read; [done|]. destruct doc as [doc|e]; [|answered Hf].
  destruct (PoolXml_parse doc) as [xml|e]; [|answered Hf].
  apply wruns_bind in Hf as (t5 & t6 & users & -> & Hu & [-> _]).
  destruct (task_harmless _ _ _ (harmless_queries _ (pool_users_queries id)) Hu) as (calls' & -> & Hc').
  apply at_read; [done|constructor].
Qed.

Lemma create_pool_audited c body tr r :
  wruns (create_pool_handler c body) tr r → audited_trace (reports trusted_proxies c) tr.
Proof.
  unfold create_pool_handler. intros Hr.
  destruct (from_slice body) as [request|]; [|destruct Hr as [-> ->]; constructor].
  read_host Hr h tr1. apply at_host. destruct (sh_virt h); [|answered Hr].
  cbn [negb] in Hr. apply wruns_bind in Hr as (t1 & t2 & ex & -> & Hx & Hr).
  destruct (task_harmless _ _ _ (harmless_queries _ pool_xmls_queries) Hx) as (reads & -> & Hreads).
  apply at_read; [done|]. destruct ex as [existing|e]; [|answered Hr].
  destruct (new_pool request existing) as [pool|resp]; [|answered Hr]. cbv zeta in Hr.
  apply wruns_bind in Hr as (t3 & t4 & res & -> & (calls & -> & Ht)%wruns_task & Hr).
  destruct res as [uuid|e].
  - destruct Hr as (t & -> & -> & _). by apply at_row; [|constructor].
  - destruct Hr as (t0 & -> & t & -> & -> & _).
    apply (at_failed _ _ _ [_]); [by repeat constructor|done|constructor].
Qed.

Lemma change_pool_autostart_audited c id pool change tr r :
  wruns (change_pool_autostart c id pool change) tr r → audited_trace (reports trusted_proxies c) tr.
Proof.
  unfold change_pool_autostart. destruct (ch_autostart change) as [on|]; [|by intros [-> _]; constructor].
  intros (t1 & t2 & res & -> & Ha & [-> _])%wruns_bind. rewrite app_nil_r.
  eapply audited_audited; [apply by_pool_row| |exact Ha]. intros ??; apply task_ev_block.
Qed.

Lemma change_pool_audited c id body tr r :
  wruns (change_pool c id body) tr r → audited_trace (reports trusted_proxies c) tr.
Proof.
  unfold change_pool. intros Hr.
  destruct (from_slice body) as [change|]; [|answered Hr].
  destruct (_ && _); [answered Hr|].
  read_host Hr h1 tr1. apply at_host.
  destruct (inv_pools (sh_inventory h1) !! id) as [pool|]; [|answered Hr].
  read_host Hr h2 tr2. apply at_host. destruct (sh_virt h2); [|answered Hr].
  cbn [negb] in Hr. destruct (ch_active change) as [active|]; [|by eapply change_pool_autostart_audited].
  apply wruns_bind in Hr as (t1 & t2 & res & -> & Ha & Hr). apply audited_app.
  - eapply audited_audited; [apply by_pool_row| |exact Ha]. intros ??; apply task_block.
  - destruct res; [by eapply change_pool_autostart_audited|destruct Hr as [-> _]; constructor].
Qed.

Lemma remove_pool_call_block id name files tr r :
  wruns (remove_pool_call id name files) tr r →
  ∃ tr0 calls sent, only_read_tasks tr0 ∧ tr = tr0 ++ [OTask calls (is_ok r) sent].
Proof.
  intros (t1 & t2 & doc & -> & Hd & Hr)%wruns_bind.
  destruct (task_harmless _ _ _ (harmless_queries _ (pool_xml_queries id)) Hd) as (calls & -> & Hc).
  destruct doc as [doc|e].
  - apply wruns_task in Hr as (calls' & -> & _). exists [OTask calls true []], calls', [].
    split; [by repeat constructor|done].
  - destruct Hr as [-> ->]. exists [], calls, []. by split; [constructor|].
Qed.

(** What a delete did: the typed name is that of the inventory's pool. *)
Lemma remove_pool_runs c id body tr r :
  wruns (remove_pool_handler c id body) tr r →
  only_read tr ∧ (r_status r = 400 ∨ r_status r = 404 ∨ r_status r = 422 ∨ r_status r = 503) ∨
  ∃ request h1 h2 pool tr' res, body_or_bad PoolRemoval_default body = Ok request ∧
    inv_pools (sh_inventory h1) !! id = Some pool ∧ pr_confirm request = Some (pool_name pool) ∧
    sh_virt h2 = true ∧ tr = [OHost h1; OHost h2] ++ tr' ∧
    wruns (audited POOL_NOT_FOUND (by_pool c (pool_name pool)) (lit "pool.deleted")
             (Some (if delete_files request then lit "delete-files" else lit "keep-files"))
             (remove_pool_call id (pool_name pool) (delete_files request))) tr' res ∧
    r = match res with Err response => response | Ok _ => Http.plain 204 end.
Proof.
  unfold remove_pool_handler. intros Hr.
  destruct (body_or_bad PoolRemoval_default body) as [request|resp] eqn:Eb.
  2: { destruct Hr as [-> ->]. left. split; [constructor|]. destruct body; [done|].
       simpl in Eb. destruct (from_slice _); [done|]. injection Eb as <-. by left. }
  read_host Hr h1 tr1.
  destruct (inv_pools (sh_inventory h1) !! id) as [pool|] eqn:Ep;
    [|rejected Hr].
  destruct (negb (bool_decide _)) eqn:Ec;
    [rejected Hr|].
  read_host Hr h2 tr2.
  destruct (sh_virt h2) eqn:Ev; [|rejected Hr].
  cbn [negb] in Hr. cbv zeta in Hr. right. bool_hyps.
  apply wruns_bind in Hr as (t1 & t2 & res & -> & Ha & [-> ->]). rewrite app_nil_r.
  by exists request, h1, h2, pool, t1, res.
Qed.

Lemma remove_pool_audited c id body tr r :
  wruns (remove_pool_handler c id body) tr r → audited_trace (reports trusted_proxies c) tr.
Proof.
  intros [[Hr _]|(request & h1 & h2 & pool & tr' & res & _ & _ & _ & _ & -> & Ha & _)]%remove_pool_runs;
    [by apply at_reads|]. apply at_host, at_host.
  eapply audited_audited; [apply by_pool_row| |exact Ha]. intros ??; apply remove_pool_call_block.
Qed.
End pools.

(** ** Witness: a folder pool on a host without pools *)

#[local] Existing Instance log_text_plain.

Definition wants_vms : Deserialize CreatePool := λ _,
  Ok {| cp_name := lit "vms"; cp_kind := KindDir; cp_path := Some (lit "/srv/vms"); cp_host := None;
        cp_export := None; cp_autostart := true |}.

Definition create_vms : web Response :=
  @create_pool_handler ipnet_ref fmt_plain (xml_ref []) wants_vms [] admin_caller [].

Lemma pool_create_checked_witness :
  let out := wexec create_vms calm_env empty_app web_host stopped_domain [] 0%nat in
  r_status out.1.2 = 201 ∧ ∃ request existing pool calls succeeded,
    @acceptable_pool ipnet_ref fmt_plain (xml_ref []) request existing pool ∧
    out.1.1 !! 2%nat = Some (OTask calls succeeded []).
Proof.
  intros out. assert (E : r_status out.1.2 = 201) by by vm_compute.
  split; [exact E|].
  destruct (@pool_create_checked ipnet_ref fmt_plain (xml_ref []) wants_vms [] admin_caller []
    out.1.1 out.1.2 (wexec_wruns _ _ _ _ _ _ _)) as
    [[_ Hs]|(request & h & reads & existing & pool & calls & res & _ & _ & _ & Hp & _ & Htr & _)].
  - rewrite E in Hs. exfalso. by repeat destruct Hs as [Hs|Hs].
  - exists request, existing, pool, calls, (is_ok res). split; [exact Hp|]. by rewrite Htr.
Defined.
