(* ===== verification/Volumes.v ===== *)
(** * The volume handlers (crates/lodger/src/volumes.rs) *)

From S2P Require Import Prelude Text Net Validate Model Xml XmlVolume Throttle Tickets Db AuditLog Http Server Virt VirtPower VirtVolume VirtConn Inventory Supervisor Web Actions Api Pools.

Definition VOLUME_NOT_FOUND : NotFound :=
  {| nf_reason := lit "no_such_volume"; nf_message := lit "no such pool or volume" |}.

Inductive Format := FormatQcow2 | FormatRaw.

Record CreateVolume := { cv_name : str; cv_format : Format; cv_capacity_bytes : Z }.

Section volumes.
Context `{Ipnet} `{LogText} `{Fmt} `{XmlTree} `{!Deserialize CreateVolume}.
Variable trusted_proxies : list ipnet.

(** The answer of a read of a pool that failed. *)
Definition read_failed (e : Error) : Response :=
  if is_not_found e then error 404 (lit "no such pool")
  else if is_invalid_operation e then error_answer 409 e
  else error_answer 502 e.

Definition list_volumes (id : Uuid) : web Response :=
  inv ← inventory;
  match inv_pools inv !! id with
  | None => mret (error 404 (lit "no such pool"))
  | Some _ =>
      virt ← has_virt;
      if negb virt then mret no_libvirt
      else
        r ← task (volumes_on id);
        mret match r with
             | Ok volumes => json_value 200 (VList (Volume_json <$> volumes))
             | Err e => read_failed e
             end
  end.

(** The volume that a request asks for. *)
Definition requested_volume (request : CreateVolume) : result InputError NewVolume :=
  let format := match cv_format request with FormatQcow2 => Qcow2 | FormatRaw => Raw end in
  name ← Name_parse (lit "Volume name") (cv_name request);
  NewVolume_new name format (cv_capacity_bytes request).

Definition by_volume (c : Caller) (pool name : str) (entry : Entry) : Entry :=
  target_volume pool name (with_client_ip (ip_of trusted_proxies c)
    (with_account (session_username (who c)) entry)).

Definition create_volume_handler (c : Caller) (id : Uuid) (body : list Z) : web Response :=
  match from_slice body with
  | Err e => mret (bad_json e)
  | Ok request =>
      inv ← inventory;
      match inv_pools inv !! id with
      | None => mret (error 404 (lit "no such pool"))
      | Some pool =>
          match requested_volume request with
          | Err e => mret (invalid e)
          | Ok volume =>
              virt ← has_virt;
              if negb virt then mret no_libvirt
              else
                existing ← task (volume_names id);
                match existing with
                | Err e => mret (read_failed e)
                | Ok existing =>
                    match NewVolume_check_against volume (pool_name pool) existing with
                    | Err e => mret (error 409 (InputError_to_string e))
                    | Ok _ =>
                        let name := as_str (new_volume_name volume) in
                        r ← audited VOLUME_NOT_FOUND (by_volume c (pool_name pool) name)
                              (lit "volume.created") None
                              (task_ev (create_volume id (NewVolume_to_xml volume)));
                        mret match r with
                             | Ok _ => json 201 [(lit "name", VText name)]
                             | Err response => response
                             end
                    end
                end
          end
      end
  end.

Definition remove_volume_handler (c : Caller) (id : Uuid) (name : str) : web Response :=
  match check_text (lit "Volume name") name with
  | Err e => mret (error 422 (InputError_to_string e))
  | Ok _ =>
      inv ← inventory;
      match inv_pools inv !! id with
      | None => mret (error 404 (lit "no such pool"))
      | Some pool =>
          virt ← has_virt;
          if negb virt then mret no_libvirt
          else
            r ← audited VOLUME_NOT_FOUND (by_volume c (pool_name pool) name) (lit "volume.deleted") None
                  (task_ev (delete_volume id name));
            mret match r with Err response => response | Ok _ => Http.plain 204 end
      end
  end.

(** ** The audit trail *)

Lemma by_volume_row c pool name entry :
  account (by_volume c pool name entry) = Some (session_username (who c)) ∧
  AuditLog.client_ip (by_volume c pool name entry) = Some (ip_of trusted_proxies c) ∧
  target (by_volume c pool name entry) ≠ None ∧
  result_ (by_volume c pool name entry) = result_ entry ∧ detail (by_volume c pool name entry) = detail entry.
Proof. done. Qed.

(** A list refreshes the pool, which only reads its folder again. *)
Lemma volumes_on_harmless id : harmless (volumes_on id).
Proof.
  apply harmless_try; [apply harmless_queries, running_pool_queries|]. intros p.
  apply harmless_try; [done|]. intros _.
  apply harmless_try; [apply harmless_queries, disks_of_all_domains_queries|]. intros disks.
  apply harmless_queries, queries_try; [apply read_volumes_queries|]. intros volumes.
  apply queries_bind; [apply overlays_of_queries|]. intros overlays.
  apply queries_try; [|done]. apply gather_try_queries. intros [v x].
  by apply queries_try; [apply describe_queries|].
Qed.

Lemma volume_names_harmless id : harmless (volume_names id).
Proof.
  apply harmless_try; [apply harmless_queries, running_pool_queries|]. intros p.
  apply harmless_try; [done|]. intros _. apply harmless_queries, queries_try; [done|]. intros vs.
  apply gather_try_queries. intros v. by apply queries_try.
Qed.

Lemma list_volumes_audited P id tr r :
  wruns (list_volumes id) tr r → audited_trace P tr.
Proof.
  unfold list_volumes. intros Hr. read_host Hr h1 tr1. apply at_host.
  destruct (inv_pools (sh_inventory h1) !! id); [|answered Hr].
  read_host Hr h2 tr2. apply at_host. destruct (sh_virt h2); [|answered Hr]. cbn [negb] in Hr.
  apply wruns_bind in Hr as (t1 & t2 & res & -> & Ht & [-> _]).
  destruct (task_harmless _ _ _ (volumes_on_harmless id) Ht) as (calls & -> & Hc).
  by apply at_read; [|constructor].
Qed.

Lemma create_volume_audited c id body tr r :
  wruns (create_volume_handler c id body) tr r → audited_trace (reports trusted_proxies c) tr.
Proof.
  unfold create_volume_handler. intros Hr. destruct (from_slice body) as [request|]; [|answered Hr].
  read_host Hr h1 tr1. apply at_host.
  destruct (inv_pools (sh_inventory h1) !! id) as [pool|]; [|answered Hr].
  destruct (requested_volume request) as [volume|]; [|answered Hr].
  read_host Hr h2 tr2. apply at_host. destruct (sh_virt h2); [|answered Hr]. cbn [negb] in Hr.
  apply wruns_bind in Hr as (t1 & t2 & ex & -> & Ht & Hr).
  destruct (task_harmless _ _ _ (volume_names_harmless id) Ht) as (calls & -> & Hc).
  apply at_read; [done|]. destruct ex as [existing|]; [|answered Hr].
  destruct (NewVolume_check_against _ _ _); [|answered Hr]. cbv zeta in Hr.
  apply wruns_bind in Hr as (t3 & t4 & res & -> & Ha & [-> _]). rewrite app_nil_r.
  eapply audited_audited; [apply by_volume_row| |exact Ha]. intros ??; apply task_ev_block.
Qed.

Lemma remove_volume_audited c id name tr r :
  wruns (remove_volume_handler c id name) tr r → audited_trace (reports trusted_proxies c) tr.
Proof.
  unfold remove_volume_handler. intros Hr. destruct (check_text _ _); [|answered Hr].
  read_host Hr h1 tr1. apply at_host.
  destruct (inv_pools (sh_inventory h1) !! id) as [pool|]; [|answered Hr].
  read_host Hr h2 tr2. apply at_host. destruct (sh_virt h2); [|answered Hr]. cbn [negb] in Hr.
  apply wruns_bind in Hr as (t1 & t2 & res & -> & Ha & [-> _]). rewrite app_nil_r.
  eapply audited_audited; [apply by_volume_row| |exact Ha]. intros ??; apply task_ev_block.
Qed.
End volumes.
