(* ===== verification/Networks.v ===== *)
(** * The virtual network handlers (crates/lodger/src/networks.rs) *)

From S2P Require Import Prelude Text Net Validate Model Xml XmlNetwork Throttle Tickets Db AuditLog Http Server Virt VirtPower VirtNetwork VirtConn Inventory Supervisor Web Actions Api Pools.

Definition NETWORK_NOT_FOUND : NotFound :=
  {| nf_reason := lit "no_such_network"; nf_message := lit "no such network" |}.

Inductive Mode := Nat | Isolated | Bridge.

Record CreateNetwork := {
  cn_name : str;
  cn_mode : Mode;
  cn_subnet : option str;
  cn_bridge : option str;
  cn_autostart : bool
}.

Record NetworkRemoval := { nr_confirm : option str }.
Definition NetworkRemoval_default : NetworkRemoval := {| nr_confirm := None |}.

(** A bridge on the host and what owns it. *)
Record HostBridge := { hb_name : str; hb_owner : option str }.

Definition HostBridge_json (b : HostBridge) : value :=
  VObject [(lit "name", VText (hb_name b)); (lit "owner", opt_text (hb_owner b))].

Definition bridge_owner (name : str) (libvirt : list (str * str)) : option str :=
  match List.find (λ p : str * str, bool_decide (p.1 = name)) libvirt with
  | Some (_, network) => Some (lit "libvirt network " ++ network)
  | None =>
      let docker_network := match strip_prefix (lit "br-") name with
        | Some id => (utf8_len id =? 12) && forallb is_ascii_hexdigit id
        | None => false
        end in
      if bool_decide (name = lit "docker0") || docker_network then Some (lit "Docker") else None
  end.

Section networks.
Context `{Ipnet} `{LogText} `{Fmt} `{XmlTree}
  `{!Deserialize CreateNetwork} `{!Deserialize Change} `{!Deserialize NetworkRemoval}.
Variable trusted_proxies : list ipnet.

Definition list_networks : web Response :=
  inv ← inventory;
  mret (json_value 200 (VList (VObject ∘ Network_fields <$>
    sorted_values network_name network_uuid (inv_networks inv)))).

(** The bridges that libvirt networks created, each with its network. *)
Definition libvirt_bridges (networks : list (str * str)) : list (str * str) :=
  omap (λ p : str * str,
    xml ← ok (NetworkXml_parse p.2);
    if bool_decide (forward_mode xml = Some (lit "bridge")) then None
    else bridge ← NetworkXml_bridge xml; Some (bridge, p.1)) networks.

Definition list_host_bridges : web Response :=
  virt ← has_virt;
  networks ← (if (virt : bool) then r ← task network_xmls; mret (unwrap_or [] r) else mret []);
  names ← host_bridges;
  mret (json_value 200 (VList ((λ name,
    HostBridge_json {| hb_name := name; hb_owner := bridge_owner name (libvirt_bridges networks) |}) <$> names))).

(** The answer [NetworkDetail]. *)
Definition NetworkDetail_json (network : Network) (xml : NetworkXml) (used_by : list str) : value :=
  VObject (Network_fields network ++
    [(lit "mode", opt_text (forward_mode xml));
     (lit "subnets", VList (VText ∘ net_to_string <$> subnets xml));
     (lit "used_by", VList (VText <$> used_by))]).

Definition network_facts (id : Uuid) : web (result Error (NetworkXml * list str)) :=
  doc ← task (network_xml id);
  match doc with
  | Err e => mret (Err e)
  | Ok doc =>
      match NetworkXml_parse doc with
      | Err e => mret (Err (EXml e))
      | Ok xml =>
          users ← task (network_users id);
          mret ((λ u, (xml, u)) <$> users)
      end
  end.

Definition network_detail (id : Uuid) : web Response :=
  inv ← inventory;
  match inv_networks inv !! id with
  | None => mret (error 404 (lit "no such network"))
  | Some network =>
      virt ← has_virt;
      if negb virt then mret no_libvirt
      else
        facts ← network_facts id;
        mret match facts with
             | Ok (xml, used_by) => json_value 200 (NetworkDetail_json network xml used_by)
             | Err e => if is_not_found e then error 404 (lit "no such network") else error_answer 502 e
             end
  end.

(** The network that a request asks for, before the checks against the others. *)
Definition requested_network (request : CreateNetwork) (name : Name) (bridges : list str) :
    result Response NewNetwork :=
  let missing field := invalid (Empty field) in
  match cn_mode request with
  | Nat | Isolated =>
      subnet ← ok_or (cn_subnet request) (missing (lit "Subnet"));
      map_err invalid (match cn_mode request with
                       | Nat => NewNetwork_nat name subnet
                       | _ => NewNetwork_isolated name subnet
                       end)
  | Bridge =>
      bridge ← ok_or (cn_bridge request) (missing (lit "Host bridge"));
      map_err invalid (NewNetwork_bridge name bridge bridges)
  end.

Definition readable_networks (existing : list (str * str)) : list (str * NetworkXml) :=
  omap (λ p : str * str, x ← ok (NetworkXml_parse p.2); Some (p.1, x)) existing.

(** [new_network]. *)
Definition new_network (request : CreateNetwork) (existing : list (str * str)) (bridges : list str) :
    result Response NewNetwork :=
  name ← map_err invalid (Name_parse (lit "Network name") (cn_name request));
  if existsb (λ p : str * str, bool_decide (p.1 = cn_name request)) existing
  then Err (error 409 (lit "a network called " ++ debug_str (cn_name request) ++ lit " exists already"))
  else
    network ← requested_network request name bridges;
    _ ← map_err invalid (NewNetwork_check_against network (readable_networks existing));
    Ok network.

Definition by_network (c : Caller) (name : str) (entry : Entry) : Entry :=
  target_network name (with_client_ip (ip_of trusted_proxies c)
    (with_account (session_username (who c)) entry)).

Definition create_network_handler (c : Caller) (body : list Z) : web Response :=
  match from_slice body with
  | Err e => mret (bad_json e)
  | Ok request =>
      virt ← has_virt;
      if negb virt then mret no_libvirt
      else
        existing ← task network_xmls;
        match existing with
        | Err e => mret (error_answer 502 e)
        | Ok existing =>
            bridges ← host_bridges;
            match new_network request existing bridges with
            | Err response => mret response
            | Ok network =>
                let row := by_network c (as_str (new_network_name network)) in
                r ← task (create_network (NewNetwork_to_xml network) (cn_autostart request));
                match r with
                | Ok id =>
                    _ ← audit (row (Entry_ok (lit "network.created")));
                    mret (json 201 [(lit "uuid", VText (uuid_to_string id))])
                | Err e =>
                    _ ← print (lit "lodger: create network " ++ as_str (new_network_name network) ++ lit ": " ++ Error_to_string e);
                    _ ← audit (row (Entry_failed (lit "network.created") (lit "libvirt_error")));
                    mret (error_answer 502 e)
                end
            end
        end
  end.

(** The second half of [change]. *)
Definition change_network_autostart (c : Caller) (id : Uuid) (network : Network) (change : Change) :
    web Response :=
  match ch_autostart change with
  | None => mret (plain 204)
  | Some on =>
      let action := if on then lit "autostart-on" else lit "autostart-off" in
      r ← audited NETWORK_NOT_FOUND (by_network c (network_name network)) (lit "network.edited")
            (Some action) (task_ev (set_network_autostart id on));
      mret match r with Err response => response | Ok _ => plain 204 end
  end.

Definition change_network (c : Caller) (id : Uuid) (body : list Z) : web Response :=
  match from_slice body with
  | Err e => mret (bad_json e)
  | Ok change =>
      if bool_decide (ch_active change = None) && bool_decide (ch_autostart change = None)
      then mret no_change
      else
        inv ← inventory;
        match inv_networks inv !! id with
        | None => mret (error 404 (lit "no such network"))
        | Some network =>
            virt ← has_virt;
            if negb virt then mret no_libvirt
            else
              match ch_active change with
              | None => change_network_autostart c id network change
              | Some active =>
                  let event := if active then lit "network.started" else lit "network.stopped" in
                  r ← audited NETWORK_NOT_FOUND (by_network c (network_name network)) event None
                        (task (set_network_active id active));
                  match r with
                  | Err response => mret response
                  | Ok _ => change_network_autostart c id network change
                  end
              end
        end
  end.

Definition remove_network_handler (c : Caller) (id : Uuid) (body : list Z) : web Response :=
  match body_or_bad NetworkRemoval_default body with
  | Err response => mret response
  | Ok request =>
      inv ← inventory;
      match inv_networks inv !! id with
      | None => mret (error 404 (lit "no such network"))
      | Some network =>
          if negb (bool_decide (nr_confirm request = Some (network_name network)))
          then mret (error 422 (lit "type the network's name to delete it"))
          else
            virt ← has_virt;
            if negb virt then mret no_libvirt
            else
              r ← audited NETWORK_NOT_FOUND (by_network c (network_name network)) (lit "network.deleted") None
                    (task (delete_network id));
              mret match r with Err response => response | Ok _ => plain 204 end
      end
  end.

(** ** Checks of a new network *)

(** A network that [new_network] accepts: a good new name; and by the mode that is asked
    for, a bridge with a good name that the host has, or a subnet that shares no address
    with a network that Lodger can read. *)
Definition acceptable_network (request : CreateNetwork) (existing : list (str * str)) (bridges : list str)
    (network : NewNetwork) : Prop :=
  let free subnet :=
    (∃ text, cn_subnet request = Some text ∧ parse_subnet (lit "Subnet") text = Ok subnet) ∧
    ∀ name doc other net a, (name, doc) ∈ existing → NetworkXml_parse doc = Ok other →
      net ∈ subnets other → in_net subnet a → in_net net a → False in
  Name_parse (lit "Network name") (cn_name request) = Ok (new_network_name network) ∧
  (cn_name request ∉ fst <$> existing) ∧
  match cn_mode request, new_network_mode network with
  | Nat, ModeNat subnet | Isolated, ModeIsolated subnet => free subnet
  | Bridge, ModeBridge bridge =>
      cn_bridge request = Some bridge ∧ parse_interface (lit "Host bridge") bridge = Ok bridge ∧ bridge ∈ bridges
  | _, _ => False
  end.

(** The requests that cannot be met, and the status. *)
Inductive unfit (request : CreateNetwork) (existing : list (str * str)) (bridges : list str) : Z → Prop :=
| name_taken name : Name_parse (lit "Network name") (cn_name request) = Ok name →
    cn_name request ∈ fst <$> existing → unfit request existing bridges 409
| unacceptable :
    (∀ name, Name_parse (lit "Network name") (cn_name request) = Ok name → cn_name request ∉ fst <$> existing) →
    (∀ network, ¬ acceptable_network request existing bridges network) → unfit request existing bridges 422.
End networks.

(** ** The audit trail *)

Section trail.
Context `{Ipnet} `{LogText} `{Fmt} `{XmlTree}
  `{!Deserialize CreateNetwork} `{!Deserialize Change} `{!Deserialize NetworkRemoval}.
Variable trusted_proxies : list ipnet.

Lemma network_xmls_queries : queries_only network_xmls.
Proof.
  apply queries_lv, queries_try; [done|]. intros ns. apply gather_try_queries. intros n.
  apply queries_bind; [|by intros [|e]]. unfold network_name_and_xml.
  apply queries_try; [done|]. intros name. by apply queries_try.
Qed.

Lemma by_network_row c name entry :
  account (by_network trusted_proxies c name entry) = Some (session_username (who c)) ∧
  AuditLog.client_ip (by_network trusted_proxies c name entry) = Some (ip_of trusted_proxies c) ∧
  target (by_network trusted_proxies c name entry) ≠ None ∧
  result_ (by_network trusted_proxies c name entry) = result_ entry ∧
  detail (by_network trusted_proxies c name entry) = detail entry.
Proof. done. Qed.

Lemma network_xml_queries id : queries_only (network_xml id).
Proof. apply queries_lv. by apply queries_try. Qed.

Lemma list_host_bridges_audited P tr r :
  wruns list_host_bridges tr r → audited_trace P tr.
Proof.
  unfold list_host_bridges. intros Hr. read_host Hr h tr1. apply at_host.
  apply wruns_bind in Hr as (t1 & t2 & networks & -> & Hn & (l & t3 & -> & [-> _])%wruns_bridges).
  apply audited_app; [|by apply at_bridges; constructor].
  destruct (sh_virt h); [|by destruct Hn as [-> _]; constructor].
  apply wruns_bind in Hn as (t4 & t5 & res & -> & Ht & [-> _]).
  destruct (task_harmless _ _ _ (harmless_queries _ network_xmls_queries) Ht) as (calls & -> & Hc).
  by apply at_read; [|constructor].
Qed.

Lemma network_detail_audited P id tr r :
  wruns (network_detail id) tr r → audited_trace P tr.
Proof.
  unfold network_detail. intros Hr. read_host Hr h1 tr1. apply at_host.
  destruct (inv_networks (sh_inventory h1) !! id) as [network|]; [|answered Hr].
  read_host Hr h2 tr2. apply at_host. destruct (sh_virt h2); [|answered Hr].
  cbn [negb] in Hr. apply wruns_bind in Hr as (t1 & t2 & facts & -> & Hf & [-> _]). rewrite app_nil_r.
  apply wruns_bind in Hf as (t3 & t4 & doc & -> & Hd & Hf).
  destruct (task_harmless _ _ _ (harmless_queries _ (network_xml_queries id)) Hd) as (calls & -> & Hc).
  apply at_read; [done|]. destruct doc as [doc|e]; [|answered Hf].
  destruct (NetworkXml_parse doc) as [xml|e]; [|answered Hf].
  apply wruns_bind in Hf as (t5 & t6 & users & -> & Hu & [-> _]).
  destruct (task_harmless _ _ _ (harmless_queries _ (network_users_queries id)) Hu) as (calls' & -> & Hc').
  apply at_read; [done|constructor].
Qed.

Lemma create_network_audited c body tr r :
  wruns (create_network_handler trusted_proxies c body) tr r → audited_trace (reports trusted_proxies c) tr.
Proof.
  unfold create_network_handler. intros Hr. destruct (from_slice body) as [request|]; [|answered Hr].
  read_host Hr h tr1. apply at_host. destruct (sh_virt h); [|answered Hr].
  cbn [negb] in Hr. apply wruns_bind in Hr as (t1 & t2 & ex & -> & Hx & Hr).
  destruct (task_harmless _ _ _ (harmless_queries _ network_xmls_queries) Hx) as (reads & -> & Hreads).
  apply at_read; [done|]. destruct ex as [existing|e]; [|answered Hr].
  rewrite wruns_bridges in Hr. destruct Hr as (bridges & tr2 & -> & Hr). apply at_bridges.
  destruct (new_network request existing bridges) as [network|resp]; [|answered Hr]. cbv zeta in Hr.
  apply wruns_bind in Hr as (t3 & t4 & res & -> & (calls & -> & Ht)%wruns_task & Hr).
  destruct res as [uuid|e].
  - destruct Hr as (t & -> & -> & _). by apply at_row; [|constructor].
  - destruct Hr as (t0 & -> & t & -> & -> & _).
    apply (at_failed _ _ _ [_]); [by repeat constructor|done|constructor].
Qed.

Lemma change_network_autostart_audited c id network change tr r :
  wruns (change_network_autostart trusted_proxies c id network change) tr r →
  audited_trace (reports trusted_proxies c) tr.
Proof.
  unfold change_network_autostart. destruct (ch_autostart change) as [on|]; [|by intros [-> _]; constructor].
  intros (t1 & t2 & res & -> & Ha & [-> _])%wruns_bind. rewrite app_nil_r.
  eapply audited_audited; [apply by_network_row| |exact Ha]. intros ??; apply task_ev_block.
Qed.

Lemma change_network_audited c id body tr r :
  wruns (change_network trusted_proxies c id body) tr r → audited_trace (reports trusted_proxies c) tr.
Proof.
  unfold change_network. intros Hr. destruct (from_slice body) as [change|]; [|answered Hr].
  destruct (_ && _); [answered Hr|]. read_host Hr h1 tr1. apply at_host.
  destruct (inv_networks (sh_inventory h1) !! id) as [network|]; [|answered Hr].
  read_host Hr h2 tr2. apply at_host. destruct (sh_virt h2); [|answered Hr].
  cbn [negb] in Hr. destruct (ch_active change) as [active|]; [|by eapply change_network_autostart_audited].
  apply wruns_bind in Hr as (t1 & t2 & res & -> & Ha & Hr). apply audited_app.
  - eapply audited_audited; [apply by_network_row| |exact Ha]. intros ??; apply task_block.
  - destruct res; [by eapply change_network_autostart_audited|answered Hr].
Qed.

(** What a delete did: the typed name is that of the inventory's network. *)
Lemma remove_network_runs c id body tr r :
  wruns (remove_network_handler trusted_proxies c id body) tr r →
  only_read tr ∧ (r_status r = 400 ∨ r_status r = 404 ∨ r_status r = 422 ∨ r_status r = 503) ∨
  ∃ request h1 h2 network tr' res, body_or_bad NetworkRemoval_default body = Ok request ∧
    inv_networks (sh_inventory h1) !! id = Some network ∧ nr_confirm request = Some (network_name network) ∧
    sh_virt h2 = true ∧ tr = [OHost h1; OHost h2] ++ tr' ∧
    wruns (audited NETWORK_NOT_FOUND (by_network trusted_proxies c (network_name network))
             (lit "network.deleted") None (task (delete_network id))) tr' res ∧
    r = match res with Err response => response | Ok _ => plain 204 end.
Proof.
  unfold remove_network_handler. intros Hr.
  destruct (body_or_bad NetworkRemoval_default body) as [request|resp] eqn:Eb.
  2: { destruct Hr as [-> ->]. left. split; [constructor|]. destruct body; [done|].
       simpl in Eb. destruct (from_slice _); [done|]. injection Eb as <-. by left. }
  read_host Hr h1 tr1.
  destruct (inv_networks (sh_inventory h1) !! id) as [network|] eqn:Ep; [|rejected Hr].
  destruct (negb (bool_decide _)) eqn:Ec; [rejected Hr|].
  read_host Hr h2 tr2. destruct (sh_virt h2) eqn:Ev; [|rejected Hr].
  cbn [negb] in Hr. right. bool_hyps.
  apply wruns_bind in Hr as (t1 & t2 & res & -> & Ha & [-> ->]). rewrite app_nil_r.
  by exists request, h1, h2, network, t1, res.
Qed.

Lemma remove_network_audited c id body tr r :
  wruns (remove_network_handler trusted_proxies c id body) tr r →
  audited_trace (reports trusted_proxies c) tr.
Proof.
  intros [[Hr _]|(request & h1 & h2 & net & tr' & res & _ & _ & _ & _ & -> & Ha & _)]%remove_network_runs;
    [by apply at_reads|]. apply at_host, at_host.
  eapply audited_audited; [apply by_network_row| |exact Ha]. intros ??; apply task_block.
Qed.
End trail.

Section checks.
Context `{IpnetLaws} `{LogText} `{Fmt} `{XmlTree} `{!Deserialize CreateNetwork}.
Variable trusted_proxies : list ipnet.

(** A subnet passes the test exactly when it is free. *)
Lemma check_against_free n subnet existing :
  NewNetwork_subnet n = Some subnet →
  (NewNetwork_check_against n (readable_networks existing) = Ok tt ↔
   ∀ name doc other net a, (name, doc) ∈ existing → NetworkXml_parse doc = Ok other →
     net ∈ subnets other → in_net subnet a → in_net net a → False).
Proof.
  intros Hs. unfold NewNetwork_check_against. rewrite Hs. cbv zeta.
  match goal with |- check_no_overlap ?f ?n ?l = _ ↔ _ => pose proof (check_no_overlap_correct f n l) as Hc; set (others := l) in * end.
  assert (Ho : ∀ name net, (name, net) ∈ others ↔ ∃ doc other, (name, doc) ∈ existing ∧ NetworkXml_parse doc = Ok other ∧ net ∈ subnets other).
  { intros name net. unfold others. rewrite list_elem_of_bind. split.
    - intros ([n' x] & Hin & Hr). apply list_elem_of_fmap in Hin as (net' & [= -> ->] & Hnet).
      apply list_elem_of_omap in Hr as ([n0 doc] & Hin & Hx). simpl in Hx. apply bind_Some in Hx as (y & Hy%ok_Some & [= -> ->]).
      by exists doc, x.
    - intros (doc & other & Hin & Hd & Hnet). exists (name, other). split; [by apply list_elem_of_fmap; exists net|].
      apply list_elem_of_omap. exists (name, doc). split; [done|]. simpl. by rewrite Hd. }
  destruct (check_no_overlap _ subnet others) as [[]|e].
  - split; [|done]. intros _ name doc other net a Hin Hd Hnet. apply (Hc name net a), Ho. by exists doc, other.
  - destruct Hc as (l1 & name & net & l2 & -> & Hl & (a & Ha & Hb) & _). split; [done|]. intros Hf. exfalso.
    assert (Hin : (name, net) ∈ others) by (rewrite Hl; set_solver).
    apply Ho in Hin as (doc & other & Hin & Hd & Hnet). by eapply Hf.
Qed.

Lemma parse_interface_same field value r : parse_interface field value = Ok r → r = value.
Proof. unfold parse_interface. intros (? & _ & Hs)%bind_Ok. cbv zeta in Hs. destruct (_ && _); [by injection Hs as <-|done]. Qed.

(** The network that a request asks for. *)
Definition asked (request : CreateNetwork) (bridges : list str) (name : Name) (network : NewNetwork) : Prop :=
  new_network_name network = name ∧
  match cn_mode request, new_network_mode network with
  | Nat, ModeNat subnet | Isolated, ModeIsolated subnet =>
      ∃ text, cn_subnet request = Some text ∧ parse_subnet (lit "Subnet") text = Ok subnet
  | Bridge, ModeBridge bridge =>
      cn_bridge request = Some bridge ∧ parse_interface (lit "Host bridge") bridge = Ok bridge ∧ bridge ∈ bridges
  | _, _ => False
  end.

Lemma requested_spec request name bridges :
  match requested_network request name bridges with
  | Ok network => asked request bridges name network
  | Err r => r_status r = 422 ∧ ∀ network, ¬ asked request bridges name network
  end.
Proof.
  unfold requested_network, asked. destruct (cn_mode request).
  1, 2: destruct (cn_subnet request) as [text|]; cbn [ok_or mbind result_bind];
    [|split; [done|]; intros [n []] [_ Hf]; try done; by destruct Hf as (? & [=] & _)];
    unfold NewNetwork_nat, NewNetwork_isolated; destruct (parse_subnet (lit "Subnet") text) as [subnet|e] eqn:Es;
    cbn [map_err mbind result_bind]; [split; [done|]; by exists text|];
    split; [done|]; intros [n []] [_ Hf]; try done; destruct Hf as (? & [= <-] & Hf); cbn [new_network_mode] in *; congruence.
  destruct (cn_bridge request) as [text|]; cbn [ok_or mbind result_bind].
  2: { split; [done|]. intros [n []] [_ Hf]; try done. by destruct Hf as ([=] & _). }
  unfold NewNetwork_bridge. destruct (parse_interface (lit "Host bridge") text) as [bridge|e] eqn:Es; cbn [map_err mbind result_bind].
  2: { split; [done|]. intros [n []] [_ Hf]; try done. destruct Hf as ([= ->] & Hf & _). cbn [new_network_mode] in *. congruence. }
  apply parse_interface_same in Es as E. subst bridge. case_bool_decide as Hin; cbn [negb map_err]; [done|].
  split; [done|]. intros [n []] [_ Hf]; try done. by destruct Hf as ([= ->] & _ & Hf).
Qed.

Lemma asked_once request bridges name n n' : asked request bridges name n → asked request bridges name n' → n = n'.
Proof.
  destruct n as [a m], n' as [a' m']. intros [<- Hm] [E Hm']. cbn [new_network_name new_network_mode] in *. subst a'. f_equal.
  destruct (cn_mode request), m, m'; naive_solver congruence.
Qed.

(** [new_network] accepts exactly the requests that can be met. *)
Lemma new_network_spec request existing bridges :
  match new_network request existing bridges with
  | Ok network => acceptable_network request existing bridges network
  | Err r => unfit request existing bridges (r_status r)
  end.
Proof.
  unfold new_network.
  destruct (Name_parse (lit "Network name") (cn_name request)) as [name|e] eqn:En.
  2: { apply unacceptable; [by rewrite En|]. intros n (Hn & _). congruence. }
  cbn [map_err mbind result_bind].
  destruct (existsb (λ p : str * str, bool_decide (p.1 = cn_name request)) existing) eqn:Ex.
  { apply (name_taken _ _ _ name); [done|]. apply existsb_exists in Ex as ([n doc] & Hin%list_elem_of_In & Hd).
    apply bool_decide_eq_true in Hd. cbn in Hd. apply list_elem_of_fmap. by exists (n, doc). }
  assert (Hnew : cn_name request ∉ fst <$> existing).
  { intros ([n d] & Hc & Hin)%list_elem_of_fmap. rewrite existsb_false, Forall_forall in Ex.
    specialize (Ex _ Hin). simpl in Ex, Hc. by bool_hyps. }
  assert (Hask : ∀ network, acceptable_network request existing bridges network → asked request bridges name network).
  { intros n (Hn & _ & Hf). rewrite En in Hn. injection Hn as E. split; [done|].
    destruct (cn_mode request), (new_network_mode n); try done; by destruct Hf. }
  pose proof (requested_spec request name bridges) as Hr.
  destruct (requested_network request name bridges) as [p|r]; cbn [mbind result_bind].
  2: { destruct Hr as [-> Hr]. apply unacceptable; [by intros ? _|]. intros n Hn. by apply (Hr n), Hask. }
  assert (Hfit : NewNetwork_check_against p (readable_networks existing) = Ok tt ↔
    acceptable_network request existing bridges p).
  { unfold acceptable_network. destruct Hr as [Hn Hm]. rewrite Hn. destruct p as [n m]. cbn [new_network_mode new_network_name] in *.
    destruct (cn_mode request), m as [subnet|subnet|bridge]; try done.
    1, 2: rewrite (check_against_free _ subnet) by done; naive_solver. }
  destruct (NewNetwork_check_against p _) as [[]|e]; cbn [map_err mbind result_bind]; [by apply Hfit|].
  apply unacceptable; [by intros ? _|]. intros n Hacc. rewrite (asked_once _ _ _ n p (Hask n Hacc) Hr) in Hacc.
  by apply Hfit in Hacc.
Qed.

(** A request that is declined: what was read, and the answer. *)
Inductive network_declined (body : list Z) : list wev → Response → Prop :=
| net_bad_body e : from_slice (T:=CreateNetwork) body = Err e →
    network_declined body [] (error 400 (lit "bad JSON body: " ++ e))
| net_away request h : from_slice body = Ok (request : CreateNetwork) → sh_virt h = false →
    network_declined body [OHost h] (error 503 (lit "Lodger is not connected to libvirt"))
| net_unread request h reads e : from_slice body = Ok (request : CreateNetwork) → sh_virt h = true →
    changes reads = false → network_declined body [OHost h; OTask reads false []] (error_answer 502 e)
| net_unfit request h reads existing bridges r : from_slice body = Ok request → sh_virt h = true →
    vruns network_xmls reads (Ok existing) → changes reads = false →
    unfit request existing bridges (r_status r) →
    network_declined body [OHost h; OTask reads true []; OBridges bridges] r.

(** C30: a network is defined only after its checks, and every answer has its cause.  A
    run of [POST /api/networks] that changes anything on the host has first read the
    networks of libvirt and the bridges of the host; then the name is good
    and new, and the network is of the mode that was asked for: the host has the bridge, or
    the subnet is private and shares no address with a network whose document Lodger can
    read.  (A network whose document it cannot read stops nothing.)  The document that
    libvirt gets is that of the checked network, an error of libvirt is printed, one row
    reports the result, and the answer is 201 or 502.  Every other run changes nothing and
    writes no row: 400 for a body that does not parse, 503 when libvirt is away, 502 when
    the networks cannot be read, 409 when the name is taken, and 422 only when no network
    could be accepted. *)
Theorem network_create_checked c body tr r :
  wruns (create_network_handler trusted_proxies c body) tr r →
  network_declined body tr r ∨
  ∃ request h reads existing bridges network calls res,
    from_slice body = Ok request ∧ sh_virt h = true ∧ vruns network_xmls reads (Ok existing) ∧
    acceptable_network request existing bridges network ∧
    (let op := create_network (NewNetwork_to_xml network) (cn_autostart request) in
     vruns op calls res ∨ res = Err ETask ∧ ∃ more res', vruns op (calls ++ more) res') ∧
    tr = [OHost h; OTask reads true []; OBridges bridges; OTask calls (is_ok res) []] ++
         match res with
         | Ok _ => []
         | Err e => [OPrint (lit "lodger: create network " ++ cn_name request ++ lit ": " ++ Error_to_string e)]
         end ++
         [OAudit (by_network trusted_proxies c (cn_name request)
            match res with
            | Ok _ => Entry_ok (lit "network.created")
            | Err _ => Entry_failed (lit "network.created") (lit "libvirt_error")
            end)] ∧
    r_status r = (if is_ok res then 201 else 502).
Proof.
  unfold create_network_handler. intros Hr. destruct (from_slice body) as [request|e] eqn:Eb.
  2: { destruct Hr as [-> ->]. left. by apply net_bad_body. }
  read_host Hr h tr1. destruct (sh_virt h) eqn:Ev; [|destruct Hr as [-> ->]; left; by eapply net_away].
  cbn [negb] in Hr. apply wruns_bind in Hr as (t1 & t2 & ex & -> & Hx & Hr).
  pose proof (task_harmless _ _ _ (harmless_queries _ network_xmls_queries) Hx) as (reads & -> & Hreads).
  apply wruns_task in Hx as (reads' & [= <-] & Hx).
  destruct ex as [existing|e]; [|destruct Hr as [-> ->]; left; by eapply net_unread].
  destruct Hx as [Hx|[[=] _]]. rewrite wruns_bridges in Hr. destruct Hr as (bridges & tr2 & -> & Hr).
  pose proof (new_network_spec request existing bridges) as En.
  destruct (new_network request existing bridges) as [network|resp].
  2: { destruct Hr as [-> ->]. left. by eapply net_unfit. }
  right. cbv zeta in Hr.
  apply wruns_bind in Hr as (t3 & t4 & res & -> & (calls & -> & Ht)%wruns_task & Hr).
  assert (Hname : as_str (new_network_name network) = cn_name request).
  { destruct En as (Hn & _). by apply Name_parse_Ok in Hn as [-> _]. }
  exists request, h, reads, existing, bridges, network, calls, res. rewrite Hname in Hr.
  split_and!; try done; 
    (destruct res as [id|e]; [destruct Hr as (t & -> & -> & ->)|destruct Hr as (t0 & -> & t & -> & -> & ->)]; done).
Qed.
End checks.

(** ** Witness: a NAT network on a host without networks *)

Definition wants_lan : Deserialize CreateNetwork := λ _,
  Ok {| cn_name := lit "lan"; cn_mode := Nat; cn_subnet := Some (lit "192.168.150.0/24");
        cn_bridge := None; cn_autostart := true |}.

#[local] Existing Instance log_text_plain.

Definition create_lan : web Response :=
  @create_network_handler ipnet_ref fmt_plain (xml_ref []) wants_lan [] admin_caller [].

Lemma network_create_checked_witness :
  let out := wexec create_lan calm_env empty_app web_host stopped_domain [] 0%nat in
  r_status out.1.2 = 201 ∧ ∃ request existing bridges network,
    acceptable_network (H2 := xml_ref []) request existing bridges network.
Proof.
  intros out. assert (E : r_status out.1.2 = 201) by by vm_compute.
  split; [exact E|].
  destruct (@network_create_checked ipnet_ref ipnet_ref_laws fmt_plain (xml_ref []) wants_lan []
    admin_caller [] out.1.1 out.1.2 (wexec_wruns _ _ _ _ _ _ _)) as
    [Hd|(request & h & reads & existing & bridges & network & calls & res & _ & _ & _ & Hp & _)].
  - exfalso. assert (Hs : r_status out.1.2 ≠ 201).
    { destruct Hd as [| | |? ? ? ? ? ? _ _ _ _ Hu]; [done..|]. by inversion Hu. }
    by apply Hs.
  - by exists request, existing, bridges, network.
Defined.
