(* ===== verification/Stats.v ===== *)
(** * The statistics hub (crates/lodger/src/stats.rs)

    The one poll task that serves every subscriber, as a transition system, and the
    round that turns samples of counters into rates.  Steps under the lock of
    [running] are atomic; a subscriber may go away at any moment. *)

From stdpp Require Import relations.
From S2P Require Import Prelude Text Model.

Abbreviation Snapshot := (list VmStats).

(** Five seconds, in nanoseconds. *)
Definition PERIOD : Z := 5 * 1000000000.

(** The counters of the last round, each with the instant of its sample. *)
Abbreviation Before := (gmap Uuid (Z * Counters)).

(** [at - t] on instants in nanoseconds. *)
Definition duration_between (t at_ : Z) : Duration :=
  {| secs := (at_ - t) / 1000000000; nanos := (at_ - t) mod 1000000000 |}.

(** One iteration of the loop over the samples. *)
Definition stat_of (vcpus_of : Uuid → option Z) (before : Before) (at_ : Z)
    (sample : Uuid * Counters) : VmStats :=
  let '(id, counters) := sample in
  let last := before !! id in
  let elapsed := match last with
                 | Some (t, _) => duration_between t at_
                 | None => {| secs := 0; nanos := 0 |}
                 end in
  between id (snd <$> last) counters elapsed (default 0 (vcpus_of id)).

Definition by_uuid (a b : VmStats) : Prop := stats_uuid a ≤ stats_uuid b.
#[export] Instance by_uuid_dec : RelDecision by_uuid.
Proof. intros a b. unfold by_uuid. apply _. Defined.

(** The end of a round: the snapshot, and the counters for the next one.  libvirt
    lists each domain once. *)
Definition round_result (vcpus_of : Uuid → option Z) (before : Before) (at_ : Z)
    (samples : list (Uuid * Counters)) : Snapshot * Before :=
  (merge_sort by_uuid (stat_of vcpus_of before at_ <$> samples),
   foldl (λ m '(id, counters), <[id := (at_, counters)]> m) ∅ samples).

(** ** The hub *)

(** Where the poll task is: before the check of a tick, or in the work of a round. *)
Inductive Poll := AtTick (before : Before) | Working (before : Before).

(** [tx] is a watch channel: the latest snapshot with its version, and for each
    receiver the version that it has seen.  [tasks] are the poll tasks that exist, and
    [printed] the lines on the standard error. *)
Record Hub := {
  running : bool;
  version : Z;
  latest : Snapshot;
  receivers : list Z;
  tasks : list Poll;
  calls : Z;
  printed : list str
}.

Definition Stats_new : Hub :=
  {| running := false; version := 0; latest := []; receivers := []; tasks := []; calls := 0;
     printed := [] |}.

(** [Stats::subscribe]. *)
Definition subscribe (h : Hub) : Hub :=
  {| running := true; version := version h; latest := latest h;
     receivers := receivers h ++ [version h];
     tasks := if running h then tasks h else tasks h ++ [AtTick ∅];
     calls := calls h; printed := printed h |}.

(** A receiver is dropped. *)
Definition drop_receiver (i : nat) (h : Hub) : Hub :=
  {| running := running h; version := version h; latest := latest h;
     receivers := delete i (receivers h); tasks := tasks h; calls := calls h; printed := printed h |}.

(** The check of [poll], under the lock: the task goes on, or it ends. *)
Definition check (i : nat) (before : Before) (h : Hub) : Hub :=
  match receivers h with
  | [] => {| running := false; version := version h; latest := latest h; receivers := [];
             tasks := delete i (tasks h); calls := calls h; printed := printed h |}
  | _ => {| running := running h; version := version h; latest := latest h; receivers := receivers h;
            tasks := <[i := Working before]> (tasks h); calls := calls h; printed := printed h |}
  end.

(** The rest of a round.  [connected] is whether there is a connection, and
    [samples] what libvirt answers, or the text of its error. *)
Definition finish (i : nat) (before : Before) (connected : bool)
    (samples : result str (list (Uuid * Counters))) (vcpus_of : Uuid → option Z) (at_ : Z) (h : Hub) : Hub :=
  if negb connected then
    {| running := running h; version := version h; latest := latest h; receivers := receivers h;
       tasks := <[i := AtTick before]> (tasks h); calls := calls h; printed := printed h |}
  else
    match samples with
    | Err e =>
        {| running := running h; version := version h; latest := latest h; receivers := receivers h;
           tasks := <[i := AtTick before]> (tasks h); calls := calls h + 1;
           printed := printed h ++ [lit "lodger: stats: " ++ e] |}
    | Ok samples =>
        let '(stats, now) := round_result vcpus_of before at_ samples in
        {| running := running h; version := version h + 1; latest := stats; receivers := receivers h;
           tasks := <[i := AtTick now]> (tasks h); calls := calls h + 1; printed := printed h |}
    end.

(** [next_stats] of a receiver: the snapshot that it has not seen. *)
Definition next_snapshot (i : nat) (h : Hub) : option (Snapshot * Hub) :=
  match receivers h !! i with
  | Some seen =>
      if seen <? version h
      then Some (latest h, {| running := running h; version := version h; latest := latest h;
                              receivers := <[i := version h]> (receivers h); tasks := tasks h;
                              calls := calls h; printed := printed h |})
      else None
  | None => None
  end.

(** The steps of the poll task, and those of its surroundings. *)
Inductive task_step : Hub → Hub → Prop :=
| step_check i before h : tasks h !! i = Some (AtTick before) → task_step h (check i before h)
| step_finish i before connected samples vcpus_of at_ h :
    tasks h !! i = Some (Working before) →
    task_step h (finish i before connected samples vcpus_of at_ h).

Inductive hub_step : Hub → Hub → Prop :=
| step_task h h' : task_step h h' → hub_step h h'
| step_subscribe h : hub_step h (subscribe h)
| step_drop i h : hub_step h (drop_receiver i h)
| step_next i h s h' : next_snapshot i h = Some (s, h') → hub_step h h'.

(** ** Properties *)

(** There is one poll task while [running] says so and none otherwise, and whoever
    subscribes has one.  No receiver is ahead of the channel. *)
Definition hub_inv (h : Hub) : Prop :=
  length (tasks h) = (if running h then 1 else 0)%nat ∧
  (receivers h ≠ [] → running h = true) ∧
  Forall (λ seen, 0 ≤ seen ≤ version h) (receivers h) ∧ 0 ≤ version h.

Lemma one_task (l : list Poll) i p : length l = 1%nat → l !! i = Some p → l = [p] ∧ i = 0%nat.
Proof. destruct l as [|q [|]]; try done. intros _. destruct i; by intros [= ->]. Qed.

Lemma hub_inv_running h i p : hub_inv h → tasks h !! i = Some p →
  running h = true ∧ tasks h = [p] ∧ i = 0%nat.
Proof.
  intros (Hl & _) Ht. destruct (running h); [|by destruct (tasks h)].
  split; [done|]. by apply one_task.
Qed.

Lemma hub_inv_step h h' : hub_inv h → hub_step h h' → hub_inv h'.
Proof.
  intros Hi Hs. pose proof Hi as (Hl & Hr & Hf & Hv). destruct Hs as [h h' Ht|h|i h|i h s h' Hn].
  - destruct Ht as [i before h Ht|i before connected samples vcpus_of at_ h Ht];
      destruct (hub_inv_running _ _ _ Hi Ht) as (Hrun & Et & ->).
    + unfold check. destruct (receivers h) eqn:Er; unfold hub_inv; cbn; rewrite Et; [done|].
      by rewrite Hrun.
    + unfold finish. destruct connected; cbn [negb];
        [destruct samples as [samples|e]|]; [destruct (round_result _ _ _ _) as [stats now]|..];
        unfold hub_inv; cbn; rewrite Et, Hrun; split_and!; try done; [|lia].
      eapply Forall_impl; [exact Hf|]. simpl. lia.
  - unfold hub_inv. cbn. split_and!; [|done| |done].
    + destruct (running h); [done|]. rewrite length_app, Hl. done.
    + apply Forall_app. split; [done|]. by constructor.
  - unfold hub_inv. cbn. split_and!; [done| |by apply Forall_delete|done].
    intros Hne. apply Hr. by intros E; rewrite E in Hne.
  - unfold next_snapshot in Hn. destruct (receivers h !! i) as [seen|] eqn:Er; [|done].
    destruct (seen <? version h); [|done]. injection Hn as _ <-. unfold hub_inv. cbn.
    split_and!; [done| |by apply Forall_insert|done].
    intros _. apply Hr. by intros E; rewrite E in Er.
Qed.

Lemma hub_inv_reachable h : rtc hub_step Stats_new h → hub_inv h.
Proof.
  intros Hh. assert (H0 : hub_inv Stats_new) by done.
  induction Hh as [|a b c Hab Hbc IH]; [done|]. apply IH. by eapply hub_inv_step.
Qed.

(** The work that is left for the task once nobody subscribes. *)
Definition work (h : Hub) : nat :=
  match tasks h with
  | [] => 0
  | AtTick _ :: _ => 1
  | Working _ :: _ => 2
  end.

Lemma task_step_work h h' :
  hub_inv h → receivers h = [] → task_step h h' →
  receivers h' = [] ∧ (work h' < work h)%nat ∧ calls h' ≤ calls h + 1.
Proof.
  intros Hi Hr Hs. destruct Hs as [i before h Ht|i before connected samples vcpus_of at_ h Ht];
    destruct (hub_inv_running _ _ _ Hi Ht) as (Hrun & Et & ->).
  - unfold check, work. rewrite Hr, Et. cbn. split_and!; done || lia.
  - unfold finish, work. destruct connected; cbn [negb];
      [destruct samples as [samples|e]; [destruct (round_result _ _ _ _) as [stats now]|]|];
      cbn; rewrite Et, Hr; cbn; split_and!; done || lia.
Qed.

(** C37: the statistics hub serves everybody with one task, and stops.  In every
    state that the hub can reach there is exactly one poll task or none, as
    [running] says, and there is one whenever somebody subscribes, so a subscriber
    never waits for a task that has ended.  A round starts only when the check saw a
    subscriber.  Once the last one is gone the task ends after at most two more
    steps, whatever libvirt answers. *)
Theorem stats_hub_serves h :
  rtc hub_step Stats_new h →
  length (tasks h) = (if running h then 1 else 0)%nat ∧
  (receivers h ≠ [] → ∃ p, tasks h = [p]) ∧
  (∀ i before, tasks h !! i = Some (AtTick before) →
     (∃ b, tasks (check i before h) = [Working b]) ↔ receivers h ≠ []) ∧
  (∀ n h', receivers h = [] → nsteps task_step n h h' → (n ≤ 2)%nat ∧ receivers h' = []) ∧
  (receivers h = [] → ∀ h', nf task_step h' → rtc task_step h h' → tasks h' = [] ∧ running h' = false).
Proof.
  intros Hh%hub_inv_reachable. pose proof Hh as (Hl & Hr & _). split_and!.
  - done.
  - intros Hne. specialize (Hr Hne). rewrite Hr in Hl. destruct (tasks h) as [|p [|]]; try done. by exists p.
  - intros i before Ht. destruct (hub_inv_running _ _ _ Hh Ht) as (Hrun & Et & ->).
    unfold check. destruct (receivers h) eqn:Er; cbn; rewrite Et; cbn.
    + split; [by intros []|done].
    + split; [done|]. intros _. by exists before.
  - intros n h' Hn. assert (Hw : (work h ≤ 2)%nat) by (unfold work; by destruct (tasks h) as [|[]]; lia).
    cut (∀ m, nsteps task_step m h h' → (m + work h' ≤ work h)%nat ∧ receivers h' = []).
    { intros Hc Hs. destruct (Hc _ Hs). split; [lia|done]. }
    clear Hr Hl Hw. intros m Hs. induction Hs as [h|m h1 h2 h3 H12 H23 IH]; [done|].
    destruct (task_step_work _ _ Hh Hn H12) as (Hr2 & Hw2 & _).
    assert (Hi2 : hub_inv h2) by (eapply hub_inv_step; [exact Hh|by constructor]).
    destruct (IH Hi2 Hr2). split; [lia|done].
  - intros Hn h' Hnf Hs. induction Hs as [h|h1 h2 h3 H12 H23 IH].
    + destruct Hh as (Hlen & _). destruct (tasks h) as [|p ps] eqn:Et.
      * split; [done|]. by destruct (running h).
      * exfalso. apply Hnf. destruct p as [before|before].
        -- exists (check 0 before h). apply step_check. by rewrite Et.
        -- exists (finish 0 before false (Err []) (λ _, None) 0 h). apply step_finish. by rewrite Et.
    + destruct (task_step_work _ _ Hh Hn H12) as (Hr2 & _).
      assert (Hi2 : hub_inv h2) by (eapply hub_inv_step; [exact Hh|by constructor]).
      apply IH; try done; by apply Hi2.
Qed.

(** A round shows each sample once, sorted by UUID, and a VM that was not in the
    round before has no rates. *)
Lemma round_result_spec vcpus_of before at_ samples :
  StronglySorted by_uuid (round_result vcpus_of before at_ samples).1 ∧
  (round_result vcpus_of before at_ samples).1 ≡ₚ stat_of vcpus_of before at_ <$> samples ∧
  ∀ id c, before !! id = None →
    cpu_percent (stat_of vcpus_of before at_ (id, c)) = None ∧
    disk_read_bps (stat_of vcpus_of before at_ (id, c)) = None.
Proof.
  unfold round_result. cbn [fst]. split_and!.
  - assert (Total by_uuid) by (intros a b; unfold by_uuid; lia).
    assert (Transitive by_uuid) by (intros a b c; unfold by_uuid; lia).
    apply (StronglySorted_merge_sort by_uuid).
  - apply merge_sort_Permutation.
  - intros id c Hb. unfold stat_of. by rewrite Hb.
Qed.

Lemma stats_hub_serves_witness :
  let h := subscribe Stats_new in
  receivers h ≠ [] ∧ ∃ p, tasks h = [p].
Proof.
  cbv zeta. split; [done|].
  destruct (stats_hub_serves (subscribe Stats_new)) as (_ & Hs & _).
  - apply rtc_once. apply step_subscribe.
  - by apply Hs.
Defined.
