(* ===== verification/Sockets.v ===== *)
(** * The WebSockets (crates/lodger/src/ws.rs and crates/lodger/src/console.rs)

    The messages of [/ws/events] and the relay of a VM's console, each as a step
    function over what [select!] delivers, in any order.  [serde_json] on a message
    of the browser is a parameter. *)

From S2P Require Import Prelude Text Net Validate Model Xml Throttle Tickets Db AuditLog Http Server Auth Virt VirtPower VirtConn Inventory Supervisor Web Actions Api.

(** ** ws.rs *)

Inductive Update :=
| UpVm (id : Uuid)
| UpPool (id : Uuid)
| UpNetwork (id : Uuid)
| UpResync
| UpConnection (connection : Connection)
| UpStats (vms : list VmStats).

Inductive Request := SubscribeStats | UnsubscribeStats.

Inductive RecvError := RecvClosed | RecvLagged (n : Z).

Definition update_for (received : result RecvError Event) : option Update :=
  match received with
  | Ok (EvDomain id _) => Some (UpVm id)
  | Ok (EvPool id _) => Some (UpPool id)
  | Ok (EvNetwork id _) => Some (UpNetwork id)
  | Ok (EvClosed _) => None
  | Err (RecvLagged _) => Some UpResync
  | Err RecvClosed => None
  end.

(** What the browser sends. *)
Inductive Incoming :=
| InText (text : str)
| InBinary (bytes : list Z)
| InClose
| InOther
| InError
| InEnd.

(** What a branch of the [select!] of [forward] delivers. *)
Inductive Input :=
| Received (received : result RecvError Event)
| Reloaded
| ConnChanged (state : ConnState)
| SessionEnded
| NextStats (vms : list VmStats)
| FromBrowser (message : Incoming).

(** What goes to the browser: an update, or the close of [session_over], code 1008. *)
Inductive Message := MUpdate (update : Update) | MSessionOver.

Definition POLICY : Z := 1008.

Section forward.
(** [serde_json::from_str] at [Request]. *)
Variable parse_request : str → option Request.

Definition request (text : str) : option Request :=
  if 256 <? utf8_len text then None else parse_request text.

(** One turn of the loop of [forward]: [stats] is whether the client subscribes. *)
Inductive Turn := Continue (stats : bool) | Send (update : Update) (stats : bool) | Stop (last : option Message).

Definition turn (stats : bool) (input : Input) : Turn :=
  match input with
  | Received (Err RecvClosed) => Stop None
  | Received received =>
      match update_for received with Some update => Send update stats | None => Continue stats end
  | Reloaded => Send UpResync stats
  | ConnChanged state => Send (UpConnection (Connection_from state)) stats
  | SessionEnded => Stop (Some MSessionOver)
  | NextStats vms => if stats then Send (UpStats vms) stats else Continue stats
  | FromBrowser (InClose | InError | InEnd) => Stop None
  | FromBrowser (InText text) =>
      match request text with
      | Some SubscribeStats => Continue true
      | Some UnsubscribeStats => Continue false
      | None => Continue stats
      end
  | FromBrowser (InBinary _ | InOther) => Continue stats
  end.

(** [forward]: each input comes with whether a send succeeds then. *)
Fixpoint forward (stats : bool) (inputs : list (Input * bool)) : list Message :=
  match inputs with
  | [] => []
  | (input, sent) :: inputs =>
      match turn stats input with
      | Continue stats => forward stats inputs
      | Send update stats => if sent then MUpdate update :: forward stats inputs else []
      | Stop last => match last with Some m => if sent then [m] else [] | None => [] end
      end
  end.

(** ** What a client sees *)

(** The update that an input calls for, apart from statistics. *)
Definition change_of (input : Input) : option Update :=
  match input with
  | Received received => update_for received
  | Reloaded => Some UpResync
  | ConnChanged state => Some (UpConnection (Connection_from state))
  | _ => None
  end.

(** An input that ends the loop. *)
Definition ends (input : Input) : bool :=
  match input with
  | Received (Err RecvClosed) | SessionEnded | FromBrowser (InClose | InError | InEnd) => true
  | _ => false
  end.

(** The last request of the client that Lodger understands. *)
Fixpoint wants_stats (stats : bool) (inputs : list Input) : bool :=
  match inputs with
  | [] => stats
  | FromBrowser (InText text) :: inputs =>
      wants_stats match request text with
                  | Some SubscribeStats => true
                  | Some UnsubscribeStats => false
                  | None => stats
                  end inputs
  | _ :: inputs => wants_stats stats inputs
  end.

Definition is_change (m : Message) : option Update :=
  match m with MUpdate (UpStats _) | MSessionOver => None | MUpdate u => Some u end.

Lemma forward_app stats pre post :
  Forall (λ p : Input * bool, ends p.1 = false ∧ p.2 = true) pre →
  forward stats (pre ++ post) = forward stats pre ++ forward (wants_stats stats (fst <$> pre)) post.
Proof.
  intros Hp. revert stats. induction Hp as [|[i sent] pre [Hi Hs] Hp IH]; intros stats; [done|].
  simpl in Hi, Hs. subst sent. cbn [app forward fmap list_fmap fst].
  destruct i as [[[]|[|n]]| | | |vms|[]]; try done; cbn [turn update_for]; try by rewrite IH.
  - destruct stats; by rewrite IH.
  - cbn [wants_stats]. destruct (request text) as [[]|]; by rewrite IH.
Qed.

Lemma forward_changes stats inputs :
  Forall (λ p : Input * bool, ends p.1 = false ∧ p.2 = true) inputs →
  omap is_change (forward stats inputs) = omap change_of (fst <$> inputs).
Proof.
  intros Hp. revert stats. induction Hp as [|[i sent] pre [Hi Hs] Hp IH]; intros stats; [done|].
  simpl in Hi, Hs. subst sent. cbn [forward fmap list_fmap fst].
  destruct i as [[[]|[|n]]| | | |vms|[]]; try done; cbn [turn update_for]; cbn; try by rewrite IH.
  - destruct stats; cbn; by rewrite IH.
  - destruct (request text) as [[]|]; by rewrite IH.
Qed.

Lemma forward_stop stats i sent post :
  ends i = true → (length (forward stats ((i, sent) :: post)) ≤ 1)%nat ∧
    (∀ u, MUpdate u ∉ forward stats ((i, sent) :: post)) ∧
    (i = SessionEnded → sent = true → forward stats ((i, sent) :: post) = [MSessionOver]).
Proof.
  intros He. destruct i as [[[]|[|n]]| | | |vms|[]]; try done; cbn; destruct sent; cbn;
    split_and!; try done; try lia; try (intros u Hu; set_solver).
Qed.

(** The event socket tells everything, in order, and nothing after its end.
    While every send works and nothing ends the loop, the client gets exactly one
    message for every event, reload and change of the connection, in order, however
    it subscribes.  It gets statistics exactly while its last understood request was
    a subscription; a text of more than 256 bytes is no request.  The end of the
    session sends the close with code 1008 and then nothing more, and no input after
    the end changes what was sent. *)
Theorem socket_forwards_all stats inputs input sent post :
  Forall (λ p : Input * bool, ends p.1 = false ∧ p.2 = true) inputs →
  omap is_change (forward stats inputs) = omap change_of (fst <$> inputs) ∧
  (∀ vms, forward stats (inputs ++ [(NextStats vms, true)]) = forward stats inputs ++
     if wants_stats stats (fst <$> inputs) then [MUpdate (UpStats vms)] else []) ∧
  (ends input = true →
     ∃ last, forward stats (inputs ++ (input, sent) :: post) = forward stats inputs ++ last ∧
       (last = [] ∨ last = [MSessionOver]) ∧
       (input = SessionEnded → sent = true → last = [MSessionOver])) ∧
  (∀ text, 256 < utf8_len text → request text = None).
Proof.
  intros Hi. split_and!.
  - by apply forward_changes.
  - intros vms. rewrite forward_app by done. cbn. by destruct (wants_stats _ _).
  - intros He. rewrite forward_app by done. eexists. split; [done|].
    destruct (forward_stop (wants_stats stats (fst <$> inputs)) input sent post He) as (Hl & Hn & Hs).
    split; [|done]. destruct (forward _ _) as [|[u|] [|]]; auto; cbn in *; [|lia|lia].
    destruct (Hn u). set_solver.
  - intros text Ht. unfold request. destruct (Z.ltb_spec 256 (utf8_len text)); [done|lia].
Qed.
End forward.

(** ** console.rs *)

Definition CHUNK : Z := 64 * 1024.

(** What [select!] delivers to the relay: a message of the browser, a read of at
    most [CHUNK] bytes from QEMU, which is empty at the end, or the end of the
    session; each with whether the write that follows works. *)
Inductive RelayInput :=
| BrowserSent (message : Incoming)
| VmSent (bytes : option (list Z))
| RelaySessionEnded.

(** What goes out: bytes to QEMU, bytes to the browser, and a close. *)
Inductive RelayOutput :=
| ToVm (bytes : list Z)
| ToBrowser (bytes : list Z)
| CloseBrowser
| CloseSessionOver.

Fixpoint relay (inputs : list (RelayInput * bool)) : list RelayOutput :=
  match inputs with
  | [] => []
  | (BrowserSent (InBinary bytes), written) :: inputs =>
      if written then ToVm bytes :: relay inputs else []
  | (BrowserSent (InClose | InError | InEnd), _) :: _ => []
  | (BrowserSent (InText _ | InOther), _) :: inputs => relay inputs
  | (VmSent (Some ((_ :: _) as bytes)), written) :: inputs =>
      if written then ToBrowser bytes :: relay inputs else []
  | (VmSent (Some [] | None), written) :: _ => if written then [CloseBrowser] else []
  | (RelaySessionEnded, written) :: _ => if written then [CloseSessionOver] else []
  end.

Definition relay_goes_on (p : RelayInput * bool) : Prop :=
  p.2 = true ∧
  match p.1 with
  | BrowserSent (InClose | InError | InEnd) | VmSent (Some [] | None) | RelaySessionEnded => False
  | _ => True
  end.

Definition from_browser (p : RelayInput * bool) : list Z :=
  match p.1 with BrowserSent (InBinary bytes) => bytes | _ => [] end.
Definition from_vm (p : RelayInput * bool) : list Z :=
  match p.1 with VmSent (Some bytes) => bytes | _ => [] end.
Definition to_vm (o : RelayOutput) : list Z := match o with ToVm bytes => bytes | _ => [] end.
Definition to_browser (o : RelayOutput) : list Z := match o with ToBrowser bytes => bytes | _ => [] end.

(** The relay copies both directions byte for byte and in order, and the end of the
    session cuts both. *)
Lemma relay_copies inputs written post :
  Forall relay_goes_on inputs →
  (relay inputs ≫= to_vm) = (inputs ≫= from_browser) ∧
  (relay inputs ≫= to_browser) = (inputs ≫= from_vm) ∧
  relay (inputs ++ (RelaySessionEnded, written) :: post) =
    relay inputs ++ if written then [CloseSessionOver] else [].
Proof.
  induction 1 as [|[i w] inputs [Hw Hi] Hin (IH1 & IH2 & IH3)]; [done|]. simpl in Hw, Hi. subst w.
  destruct i as [[]|[[|b bs]|]|]; try done; cbn [relay app mbind list_bind from_browser from_vm fst];
    rewrite ?IH3; cbn [app mbind list_bind to_vm to_browser];
    (split_and!; [rewrite ?IH1|rewrite ?IH2|]; done).
Qed.

(** ** The handlers *)

Section handlers.
Context `{Ipnet} `{LogText} `{Fmt}.
Variable sha256 : str → list Z.

(** [(code, text).into_response()]. *)
Definition text_answer (code : Z) (text : str) : Response :=
  {| r_status := code; r_body := FileBody text;
     r_headers := [(lit "content-type", lit "text/plain; charset=utf-8")] |}.

(** [events]: the answer, or the key of the session for the upgraded socket.
    [None] is the panic of [open_socket]. *)
Definition events (headers : HeaderMap) (ticket : option str) : web (option (result Response (list Z))) :=
  lift (open_socket sha256 headers ticket).

(** [vnc].  [ready] is what making the socket non-blocking gives. *)
Definition vnc (id : Uuid) (headers : HeaderMap) (ticket : option str) (ready : result str unit) :
    web (option (result Response (list Z))) :=
  opened ← lift (open_socket sha256 headers ticket);
  match opened with
  | None => mret None
  | Some (Err response) => mret (Some (Err response))
  | Some (Ok key) =>
      virt ← has_virt;
      if negb virt then mret (Some (Err (text_answer 503 (lit "libvirt is not connected"))))
      else
        socket ← task (open_vnc id);
        mret (Some match socket with
                   | Err e => Err (if is_not_found e then Http.plain 404
                                   else text_answer 409 (Error_to_string e))
                   | Ok _ =>
                       match ready with
                       | Err e => Err (text_answer 500 e)
                       | Ok _ => Ok key
                       end
                   end)
  end.
End handlers.

Lemma socket_forwards_all_witness :
  forward (λ _, Some SubscribeStats) false
    ([(FromBrowser (InText (lit "x")), true)] ++ [(NextStats [], true)]) = [MUpdate (UpStats [])] ∧
  ∃ last, forward (λ _, None) false ([(Reloaded, true)] ++ (SessionEnded, true) :: []) =
    forward (λ _, None) false [(Reloaded, true)] ++ last ∧ (last = [] ∨ last = [MSessionOver]).
Proof.
  split.
  - destruct (socket_forwards_all (λ _, Some SubscribeStats) false
      [(FromBrowser (InText (lit "x")), true)] Reloaded true []) as (_ & Hv & _); [by repeat constructor|].
    rewrite Hv. reflexivity.
  - destruct (socket_forwards_all (λ _, None) false [(Reloaded, true)] SessionEnded true [])
      as (_ & _ & Hs & _); [by repeat constructor|].
    destruct Hs as (last & E & Hl & _); [done|]. by exists last.
Defined.
