(* ===== verification/Router.v ===== *)
(** * The HTTP service (crates/lodger/src/server.rs)

    The table of routes, the session guard around the protected ones, and the two
    layers around everything, as one program per request.  axum is outside: how it
    matches a path ([rq_route]) and reads the parts of a request are parameters. *)

From S2P Require Import Prelude Text Net Validate Password Model Xml Throttle Tickets Db AuditLog Http Assets Server Auth Setup Accounts Virt VirtPower VirtDelete VirtConn Inventory Supervisor Web Actions Api Pools Volumes Networks Sockets.

(** The path patterns of [router], with their parameters as text. *)
Inductive Route :=
| RtHealth
| RtSetup
| RtSession
| RtHost
| RtVms
| RtVm (id : str)
| RtVmAction (id action : str)
| RtPools
| RtPool (id : str)
| RtVolumes (id : str)
| RtVolume (id name : str)
| RtNetworks
| RtNetwork (id : str)
| RtHostBridges
| RtWsTickets
| RtAccounts
| RtAccount (id : str)
| RtPassword
| RtWsEvents
| RtVnc (id : str)
| RtReserved
| RtOther.

Record HttpRequest := {
  rq_method : Method;
  rq_route : Route;
  rq_path : str;
  rq_ticket : option str;
  rq_peer : ip_addr;
  rq_headers : HeaderMap;
  rq_body : list Z
}.

(** The handlers, and who may reach them. *)
Inductive Handler :=
| HHealth | HSetupStatus | HSetupClaim | HLogin
| HHost | HVms | HVm (id : str) | HVmDelete (id : str) | HVmUpdate (id : str) | HVmAction (id action : str)
| HPools | HPoolCreate | HPool (id : str) | HPoolChange (id : str) | HPoolRemove (id : str)
| HVolumes (id : str) | HVolumeCreate (id : str) | HVolumeRemove (id name : str)
| HNetworks | HNetworkCreate | HNetwork (id : str) | HNetworkChange (id : str) | HNetworkRemove (id : str)
| HHostBridges | HCurrent | HLogout | HIssueTicket
| HAccounts | HAccountCreate | HAccountDelete (id : str) | HChangePassword
| HWsEvents | HVnc (id : str).

Inductive Access := Public | Protected | Socket.

(** The table of [router]. *)
Definition routes (route : Route) (method : Method) : option (Access * Handler) :=
  match route, method with
  | RtHealth, GET => Some (Public, HHealth)
  | RtSetup, GET => Some (Public, HSetupStatus)
  | RtSetup, POST => Some (Public, HSetupClaim)
  | RtSession, POST => Some (Public, HLogin)
  | RtHost, GET => Some (Protected, HHost)
  | RtVms, GET => Some (Protected, HVms)
  | RtVm id, GET => Some (Protected, HVm id)
  | RtVm id, DELETE => Some (Protected, HVmDelete id)
  | RtVm id, PATCH => Some (Protected, HVmUpdate id)
  | RtVmAction id action, POST => Some (Protected, HVmAction id action)
  | RtPools, GET => Some (Protected, HPools)
  | RtPools, POST => Some (Protected, HPoolCreate)
  | RtPool id, GET => Some (Protected, HPool id)
  | RtPool id, PATCH => Some (Protected, HPoolChange id)
  | RtPool id, DELETE => Some (Protected, HPoolRemove id)
  | RtVolumes id, GET => Some (Protected, HVolumes id)
  | RtVolumes id, POST => Some (Protected, HVolumeCreate id)
  | RtVolume id name, DELETE => Some (Protected, HVolumeRemove id name)
  | RtNetworks, GET => Some (Protected, HNetworks)
  | RtNetworks, POST => Some (Protected, HNetworkCreate)
  | RtNetwork id, GET => Some (Protected, HNetwork id)
  | RtNetwork id, PATCH => Some (Protected, HNetworkChange id)
  | RtNetwork id, DELETE => Some (Protected, HNetworkRemove id)
  | RtHostBridges, GET => Some (Protected, HHostBridges)
  | RtSession, GET => Some (Protected, HCurrent)
  | RtSession, DELETE => Some (Protected, HLogout)
  | RtWsTickets, POST => Some (Protected, HIssueTicket)
  | RtAccounts, GET => Some (Protected, HAccounts)
  | RtAccounts, POST => Some (Protected, HAccountCreate)
  | RtAccount id, DELETE => Some (Protected, HAccountDelete id)
  | RtPassword, POST => Some (Protected, HChangePassword)
  | RtWsEvents, GET => Some (Socket, HWsEvents)
  | RtVnc id, GET => Some (Socket, HVnc id)
  | _, _ => None
  end.

(** [get] also answers HEAD, without the body. *)
Definition routed (route : Route) (method : Method) : option (Access * Handler) :=
  routes route (if bool_decide (method = HEAD) then GET else method).

(** The answer to a request of a known path with another method. *)
Definition method_not_allowed : Response := Http.plain 405.

(** [reserved]. *)
Definition reserved : Response := Http.plain 404.

Definition strip_head (method : Method) (r : Response) : Response :=
  if bool_decide (method = HEAD)
  then {| r_status := r_status r; r_body := NoBody; r_headers := r_headers r |} else r.

(** axum's [Json] and [Path] extractors: a value, or the answer that rejects. *)
Class FromJson (T : Type) := from_json : HeaderMap → list Z → result Response T.

Section router.
Context `{Ipnet} `{LogText} `{Fmt} `{XmlTree} `{Lowercase} `{Argon2}
  `{!Deserialize Confirm} `{!Deserialize DeleteRequest} `{!Deserialize Settings}
  `{!Deserialize CreatePool} `{!Deserialize Change} `{!Deserialize PoolRemoval}
  `{!Deserialize CreateVolume} `{!Deserialize CreateNetwork} `{!Deserialize NetworkRemoval}
  `{!FromJson Login} `{!FromJson Claim} `{!FromJson NewAccount} `{!FromJson PasswordChange}.
Variable path_uuid : str → result Response Uuid.
Variable path_i64 : str → result Response Z.
(** The text of a database time. *)
Variable time_text : Z → str.
(** The state of the server that no request changes. *)
Variable sha256 : str → list Z.
Variable DUMMY : str.
Variable COMMON : list str.
Variable trusted_proxies : list ipnet.
Variable public_origin : option str.
Variable csp : str.
Variable hsts : bool.
Variable STUB_PAGE : list Z.
Variable source : str → option Asset.
(** What making the console's socket non-blocking gives. *)
Variable ready : result str unit.

Definition Listed_json (l : Listed) : value :=
  let a := listed_account l in
  VObject [(lit "id", VNum (info_id a)); (lit "username", VText (info_username a));
           (lit "created_at", VText (time_text (info_created_at a)));
           (lit "password_changed_at", VText (time_text (info_changed_at a)));
           (lit "you", VBool (listed_you l))].

(** The answer of a socket handler: 101 when the upgrade goes on. *)
Definition upgraded (r : option (result Response (list Z))) : option Response :=
  (λ r, match r with Ok _ => Http.plain 101 | Err response => response end) <$> r.

(** A handler with one parsed parameter of its path. *)
Definition with_param {T} (p : result Response T) (k : T → web Response) : web (option Response) :=
  match p with Err response => mret (Some response) | Ok t => Some <$> k t end.

(** One handler on one request; [None] is a panic. *)
Definition run_handler (rq : HttpRequest) (c : Caller) (h : Handler) : web (option Response) :=
  let headers := rq_headers rq in
  let body := rq_body rq in
  match h with
  | HHealth => Some <$> health
  | HSetupStatus => Some <$> lift Setup.status
  | HSetupClaim =>
      Some <$> lift (claim sha256 trusted_proxies COMMON InputError_to_string PasswordError_to_string
                       (rq_peer rq) headers (from_json headers body))
  | HLogin => Some <$> lift (login sha256 trusted_proxies DUMMY (rq_peer rq) headers (from_json headers body))
  | HHost => Some <$> host
  | HVms => Some <$> vms
  | HVm id => with_param (path_uuid id) vm
  | HVmDelete id => with_param (path_uuid id) (λ id, delete_vm trusted_proxies c id body)
  | HVmUpdate id => with_param (path_uuid id) (λ id, update trusted_proxies c id body)
  | HVmAction id action => with_param (path_uuid id) (λ id, run trusted_proxies c id action body)
  | HPools => Some <$> list_pools
  | HPoolCreate => Some <$> create_pool_handler trusted_proxies c body
  | HPool id => with_param (path_uuid id) pool_detail
  | HPoolChange id => with_param (path_uuid id) (λ id, change_pool trusted_proxies c id body)
  | HPoolRemove id => with_param (path_uuid id) (λ id, remove_pool_handler trusted_proxies c id body)
  | HVolumes id => with_param (path_uuid id) list_volumes
  | HVolumeCreate id => with_param (path_uuid id) (λ id, create_volume_handler trusted_proxies c id body)
  | HVolumeRemove id name =>
      with_param (path_uuid id) (λ id, remove_volume_handler trusted_proxies c id name)
  | HNetworks => Some <$> list_networks
  | HNetworkCreate => Some <$> create_network_handler trusted_proxies c body
  | HNetwork id => with_param (path_uuid id) network_detail
  | HNetworkChange id => with_param (path_uuid id) (λ id, change_network trusted_proxies c id body)
  | HNetworkRemove id => with_param (path_uuid id) (λ id, remove_network_handler trusted_proxies c id body)
  | HHostBridges => Some <$> list_host_bridges
  | HCurrent => mret (Some (Auth.current (who c)))
  | HLogout => lift (logout sha256 headers)
  | HIssueTicket => lift (issue_ticket sha256 headers)
  | HAccounts =>
      r ← lift (list_ (who c));
      mret (Some match r with
                 | Ok rows => json_value 200 (VList (Listed_json <$> rows))
                 | Err response => response
                 end)
  | HAccountCreate =>
      Some <$> lift (create trusted_proxies COMMON InputError_to_string PasswordError_to_string
                       (rq_peer rq) headers (who c) (from_json headers body))
  | HAccountDelete id =>
      with_param (path_i64 id) (λ id, lift (delete_ trusted_proxies (rq_peer rq) headers (who c) id))
  | HChangePassword =>
      lift (change_password sha256 trusted_proxies COMMON PasswordError_to_string
              (rq_peer rq) headers (who c) (from_json headers body))
  | HWsEvents => upgraded <$> events sha256 headers (rq_ticket rq)
  | HVnc id =>
      match path_uuid id with
      | Err response => mret (Some response)
      | Ok id => upgraded <$> vnc sha256 id headers (rq_ticket rq) ready
      end
  end.

(** A request without a session has no caller; its handlers do not use one. *)
Definition nobody (rq : HttpRequest) : Caller :=
  {| peer := rq_peer rq; req_headers := rq_headers rq;
     who := {| session_account_id := 0; session_username := []; session_csrf_token := [] |} |}.

(** The router inside the layers. *)
Definition dispatch (rq : HttpRequest) : web (option Response) :=
  match rq_route rq with
  | RtReserved => mret (Some reserved)
  | RtOther => mret (Some (respond STUB_PAGE source (rq_method rq) (rq_path rq) (rq_headers rq)))
  | route =>
      match routed route (rq_method rq) with
      | None => mret (Some method_not_allowed)
      | Some (Protected, h) =>
          session ← lift (authenticate sha256 (rq_method rq) (rq_headers rq));
          match session with
          | Err response => mret (Some response)
          | Ok session =>
              run_handler rq {| peer := rq_peer rq; req_headers := rq_headers rq; who := session |} h
          end
      | Some (_, h) => run_handler rq (nobody rq) h
      end
  end.

(** [router]: the layers around the routes. *)
Definition router (rq : HttpRequest) : web (option Response) :=
  match require_same_origin (rq_method rq) (rq_headers rq) public_origin with
  | Some response => mret (Some (add_headers csp hsts response))
  | None =>
      response ← dispatch rq;
      mret (option_map (λ r, add_headers csp hsts (strip_head (rq_method rq) r)) response)
  end.
End router.

(** ** The audit trail of the service *)

Section trail.
Context `{Ipnet} `{LogText}.

Lemma at_atoms P tr :
  Forall (λ e, match e with OAtom _ _ => True | _ => False end) tr → audited_trace P tr.
Proof.
  induction 1 as [|e tr He Htr IH]; [constructor|]. destruct e; try done. by constructor.
Qed.

Lemma lift_audited {A} P (p : prog A) tr a : wruns (lift p) tr a → audited_trace P tr.
Proof. intros Hr. eapply at_atoms, wruns_lift, Hr. Qed.

Lemma with_param_audited {T} P (p : result Response T) k tr r :
  (∀ t tr r, wruns (k t) tr r → audited_trace P tr) →
  wruns (with_param p k) tr r → audited_trace P tr.
Proof.
  intros Hk. unfold with_param. destruct p as [t|]; [|intros [-> _]; constructor].
  intros (r' & Hr & _)%wruns_fmap. by eapply Hk.
Qed.

Lemma open_vnc_harmless id : harmless (open_vnc id).
Proof.
  split; [done|]. intros [ours|]; [|done]. apply harmless_try; [|done].
  apply harmless_bind; [|done]. by apply harmless_try.
Qed.

Context `{Fmt}.

Lemma host_audited P tr r : wruns host tr r → audited_trace P tr.
Proof.
  unfold host. intros Hr. read_host Hr h1 tr1. read_host Hr h2 tr2. read_host Hr h3 tr3.
  do 3 apply at_host. apply wruns_bind in Hr as (t1 & t2 & info & -> & Hi & [-> _]). rewrite app_nil_r.
  destruct (sh_virt h3); [|by destruct Hi as [-> _]; constructor].
  apply wruns_bind in Hi as (t3 & t4 & res & -> & Ht & [-> _]).
  assert (Hq : harmless host_info).
  { apply harmless_bind; [|done]. do 3 (apply harmless_try; [done|intros]). done. }
  destruct (task_harmless _ _ _ Hq Ht) as (calls & -> & Hc). by apply at_read; [|constructor].
Qed.

Lemma health_audited P tr r : wruns health tr r → audited_trace P tr.
Proof.
  unfold health. intros Hr. read_host Hr h1 tr1. apply at_host.
  apply wruns_bind in Hr as (t1 & t2 & ping & -> & Hp & Hr). apply audited_app; [eapply lift_audited, Hp|].
  destruct ping as [[]|e].
  - assert (t2 = []) as -> by (case_bool_decide; by destruct Hr as [-> _]). constructor.
  - destruct Hr as (t & -> & -> & _). apply at_print. constructor.
Qed.

Lemma vnc_audited P sha256 id headers ticket ready tr r :
  wruns (vnc sha256 id headers ticket ready) tr r → audited_trace P tr.
Proof.
  intros (t1 & t2 & opened & -> & Ho & Hr)%wruns_bind. apply audited_app; [eapply lift_audited, Ho|].
  destruct opened as [[key|]|]; [|answered Hr..]. read_host Hr h tr1. apply at_host.
  destruct (sh_virt h); [|answered Hr]. cbn [negb] in Hr.
  apply wruns_bind in Hr as (t3 & t4 & res & -> & Ht & [-> _]).
  destruct (task_harmless _ _ _ (open_vnc_harmless id) Ht) as (calls & -> & Hc).
  by apply at_read; [|constructor].
Qed.
End trail.

(** ** The guards of the service *)

(** The handlers that a GET reaches, and those without a session. *)
Definition reads_only (h : Handler) : bool :=
  match h with
  | HVmDelete _ | HVmUpdate _ | HVmAction _ _ | HPoolCreate | HPoolChange _ | HPoolRemove _
  | HVolumeCreate _ | HVolumeRemove _ _ | HNetworkCreate | HNetworkChange _ | HNetworkRemove _ => false
  | _ => true
  end.

(** Only a protected route has a handler that changes the host, and never for a
    safe method. *)
Lemma routed_access route method access h :
  routed route method = Some (access, h) → reads_only h = false → access = Protected ∧ is_safe method = false.
Proof.
  unfold routed. case_bool_decide as Hm.
  - destruct route; try done; by intros [= <- <-].
  - destruct method; try done; destruct route; try done; by intros [= <- <-].
Qed.

(** The session of a request that the guard lets through, as a step of the request
    found it: the cookie names a live session of an existing account, and an unsafe
    method carries its CSRF token. *)
Definition guarded_by (sha256 : str → list Z) (rq : HttpRequest) (e : env) (s : AppState) (sess : Session) :
    Prop :=
  ∃ token row a, cookie_token (rq_headers rq) = Some token ∧
    row ∈ tab_sessions (app_db s) ∧ ses_token row = sha256 token ∧
    ses_live (tick_now (e_sql e 0%nat)) row = true ∧
    a ∈ tab_accounts (app_db s) ∧ acc_id a = ses_account row ∧
    session_account_id sess = acc_id a ∧ session_username sess = acc_username a ∧
    (is_safe (rq_method rq) = true ∨ header_get (rq_headers rq) CSRF_HEADER = Some (ses_csrf row)).

Section guards.
Context `{Ipnet} `{LogText}.

Lemma authenticate_runs sha256 rq tr res :
  wruns (lift (authenticate sha256 (rq_method rq) (rq_headers rq))) tr res →
  match res with
  | Ok sess => ∃ e s, tr = [OAtom e s] ∧ guarded_by sha256 rq e s sess
  | Err r => r_status r = 401 ∨ r_status r = 403 ∨ r_status r = 500
  end.
Proof.
  unfold authenticate, lookup. destruct (cookie_token (rq_headers rq)) as [token|] eqn:Ec.
  - intros (e & s & tr' & -> & Hr). unfold db in Hr.
    destruct (session (token_hash sha256 token) (e_sql e) (app_db s) 0%nat) as [[r t] n] eqn:Es.
    cbn [fst snd] in Hr. destruct r as [[sess|]|err].
    2: { destruct Hr as [-> ->]. cbn. auto. }
    2: { destruct Hr as (e' & s' & tr2 & -> & [-> ->]). cbn. auto. }
    destruct Hr as [-> ->].
    destruct (session_Some _ _ _ _ _ _ _ Es) as (row & a & Hrow & Ht & Hl & Ha & Hid & ->).
    destruct (negb (is_safe _) && negb (csrf_matches _ _)) eqn:Eg; [auto|].
    exists e, s. split; [done|]. exists token, row, a. split_and!; try done.
    apply andb_false_iff in Eg as [Eg|Eg]; apply negb_false_iff in Eg; [by left|right].
    unfold csrf_matches in Eg. case_match; [|done]. bool_hyps. by subst.
  - intros [-> ->]. cbn. auto.
Qed.

Context `{Fmt} `{XmlTree} `{Lowercase} `{Argon2}
  `{!Deserialize Confirm} `{!Deserialize DeleteRequest} `{!Deserialize Settings}
  `{!Deserialize CreatePool} `{!Deserialize Change} `{!Deserialize PoolRemoval}
  `{!Deserialize CreateVolume} `{!Deserialize CreateNetwork} `{!Deserialize NetworkRemoval}
  `{!FromJson Login} `{!FromJson Claim} `{!FromJson NewAccount} `{!FromJson PasswordChange}.
Variables (path_uuid : str → result Response Uuid) (path_i64 : str → result Response Z)
  (time_text : Z → str) (sha256 : str → list Z) (DUMMY : str) (COMMON : list str)
  (trusted_proxies : list ipnet) (public_origin : option str) (csp : str) (hsts : bool)
  (STUB_PAGE : list Z) (source : str → option Asset) (ready : result str unit).

Let handle := run_handler path_uuid path_i64 time_text sha256 DUMMY COMMON trusted_proxies ready.
Let serve := router path_uuid path_i64 time_text sha256 DUMMY COMMON trusted_proxies public_origin
  csp hsts STUB_PAGE source ready.
Let inside := dispatch path_uuid path_i64 time_text sha256 DUMMY COMMON trusted_proxies STUB_PAGE source ready.

Lemma reading_audited P rq c h tr r :
  reads_only h = true → wruns (handle rq c h) tr r → audited_trace P tr.
Proof.
  unfold handle, run_handler. intros Hh.
  destruct h; try done; clear Hh;
    try (intros (r' & Hr & _)%wruns_fmap; by eapply lift_audited);
    try (by eapply lift_audited);
    try (by eapply with_param_audited; intros; eapply lift_audited).
  - intros (r' & Hr & _)%wruns_fmap. by eapply health_audited.
  - intros (r' & Hr & _)%wruns_fmap. by eapply host_audited.
  - intros (r' & Hr & _)%wruns_fmap. unfold vms in Hr. read_host Hr h tr1. destruct Hr as [-> _].
    apply at_host. constructor.
  - apply with_param_audited. intros t tr' r' Hr. unfold vm in Hr. read_host Hr h tr1. destruct Hr as [-> _].
    apply at_host. constructor.
  - intros (r' & Hr & _)%wruns_fmap. unfold list_pools in Hr. read_host Hr h tr1. destruct Hr as [-> _].
    apply at_host. constructor.
  - apply with_param_audited. intros t tr' r' Hr. by eapply pool_detail_audited.
  - apply with_param_audited. intros t tr' r' Hr. by eapply list_volumes_audited.
  - intros (r' & Hr & _)%wruns_fmap. unfold list_networks in Hr. read_host Hr h tr1. destruct Hr as [-> _].
    apply at_host. constructor.
  - apply with_param_audited. intros t tr' r' Hr. by eapply network_detail_audited.
  - intros (r' & Hr & _)%wruns_fmap. by eapply list_host_bridges_audited.
  - intros [-> _]. constructor.
  - destruct (path_uuid id); [|intros [-> _]; constructor].
    intros (r' & Hr & _)%wruns_fmap. by eapply vnc_audited.
Qed.

Lemma handler_audited rq c h tr r :
  wruns (handle rq c h) tr r → audited_trace (reports trusted_proxies c) tr.
Proof.
  destruct (reads_only h) eqn:Eh; [by apply reading_audited|].
  unfold handle, run_handler. destruct h; try done; clear Eh;
    try (apply with_param_audited; intros t tr' r' Hr); try (intros (r' & Hr & _)%wruns_fmap).
  - by eapply delete_audited.
  - by eapply update_audited.
  - by eapply run_audited.
  - by eapply create_pool_audited.
  - by eapply change_pool_audited.
  - by eapply remove_pool_audited.
  - by eapply create_volume_audited.
  - by eapply remove_volume_audited.
  - by eapply create_network_audited.
  - by eapply change_network_audited.
  - by eapply remove_network_audited.
Qed.
End guards.

Section promises.
Context `{Ipnet} `{LogText} `{Fmt} `{XmlTree} `{Lowercase} `{Argon2}
  `{!Deserialize Confirm} `{!Deserialize DeleteRequest} `{!Deserialize Settings}
  `{!Deserialize CreatePool} `{!Deserialize Change} `{!Deserialize PoolRemoval}
  `{!Deserialize CreateVolume} `{!Deserialize CreateNetwork} `{!Deserialize NetworkRemoval}
  `{!FromJson Login} `{!FromJson Claim} `{!FromJson NewAccount} `{!FromJson PasswordChange}.
Variables (path_uuid : str → result Response Uuid) (path_i64 : str → result Response Z)
  (time_text : Z → str) (sha256 : str → list Z) (DUMMY : str) (COMMON : list str)
  (trusted_proxies : list ipnet) (public_origin : option str) (csp : str) (hsts : bool)
  (STUB_PAGE : list Z) (source : str → option Asset) (ready : result str unit).

#[local] Abbreviation serve := (router path_uuid path_i64 time_text sha256 DUMMY COMMON trusted_proxies public_origin
  csp hsts STUB_PAGE source ready).
#[local] Abbreviation inside := (dispatch path_uuid path_i64 time_text sha256 DUMMY COMMON trusted_proxies STUB_PAGE
  source ready).

(** A request that gets through the layers is what [dispatch] makes of it. *)
Lemma serve_runs rq tr r :
  wruns (serve rq) tr r →
  (tr = [] ∧ ∃ resp, r = Some (add_headers csp hsts resp) ∧ r_status resp = 403 ∧
     is_safe (rq_method rq) = false ∧ from_lodger (rq_headers rq) public_origin = false) ∨
  (is_safe (rq_method rq) || from_lodger (rq_headers rq) public_origin = true ∧
   ∃ r', wruns (inside rq) tr r' ∧
     r = option_map (λ r, add_headers csp hsts (strip_head (rq_method rq) r)) r').
Proof.
  unfold router, require_same_origin.
  destruct (is_safe (rq_method rq) || from_lodger (rq_headers rq) public_origin) eqn:Eo.
  - intros (t1 & t2 & r' & -> & Hr & [-> ->])%wruns_bind. rewrite app_nil_r. right. split; [done|]. by exists r'.
  - intros [-> ->]. left. split; [done|]. apply orb_false_iff in Eo as [Es Ef]. by eexists.
Qed.

(** A request that is not answered at once: an unguarded handler, or a protected one
    behind the guard. *)
Lemma inside_runs rq tr r :
  wruns (inside rq) tr r →
  tr = [] ∨
  (∃ access h, routed (rq_route rq) (rq_method rq) = Some (access, h) ∧ access ≠ Protected ∧
     wruns (run_handler path_uuid path_i64 time_text sha256 DUMMY COMMON trusted_proxies ready rq (nobody rq) h) tr r) ∨
  (∃ h tr1 tr2 session, routed (rq_route rq) (rq_method rq) = Some (Protected, h) ∧ tr = tr1 ++ tr2 ∧
     wruns (lift (authenticate sha256 (rq_method rq) (rq_headers rq))) tr1 session ∧
     match session with
     | Err response => tr2 = [] ∧ r = Some response
     | Ok session => wruns (run_handler path_uuid path_i64 time_text sha256 DUMMY COMMON trusted_proxies ready rq
         {| peer := rq_peer rq; req_headers := rq_headers rq; who := session |} h) tr2 r
     end).
Proof.
  unfold dispatch. intros Hr.
  assert (Hd : (rq_route rq = RtReserved ∨ rq_route rq = RtOther) ∨
    wruns (match routed (rq_route rq) (rq_method rq) with
           | None => mret (Some method_not_allowed)
           | Some (Protected, h) =>
               session ← lift (authenticate sha256 (rq_method rq) (rq_headers rq));
               match session with
               | Err response => mret (Some response)
               | Ok session => run_handler path_uuid path_i64 time_text sha256 DUMMY COMMON trusted_proxies ready rq
                   {| peer := rq_peer rq; req_headers := rq_headers rq; who := session |} h
               end
           | Some (_, h) => run_handler path_uuid path_i64 time_text sha256 DUMMY COMMON trusted_proxies ready
               rq (nobody rq) h
           end) tr r) by (destruct (rq_route rq); auto).
  destruct Hd as [Hd|Hd].
  - left. destruct Hd as [E|E]; rewrite E in Hr; by destruct Hr.
  - destruct (routed (rq_route rq) (rq_method rq)) as [[[] h]|] eqn:Er.
    + right. left. by exists Public, h.
    + right. right. apply wruns_bind in Hd as (t1 & t2 & session & -> & Ha & Hd).
      exists h, t1, t2, session. by destruct session.
    + right. left. by exists Socket, h.
    + left. by destruct Hd.
Qed.

(** C1: nothing on the host changes behind the user's back.  Whatever request comes,
    whatever libvirt answers and whatever else runs in between: an operation that
    changes the host runs only for an unsafe method from a Lodger page, after a step
    of this request found a live session of an existing account by its cookie and
    its CSRF token; and the very next thing that the request does, but for printing the
    error of a failure, is to write an audit row with that account, the client's address, the object, and whether the
    operation worked. *)
Theorem host_changes_guarded rq tr r tr1 calls succeeded sent tr2 :
  wruns (serve rq) tr r → tr = tr1 ++ OTask calls succeeded sent :: tr2 → changes calls = true →
  is_safe (rq_method rq) = false ∧ from_lodger (rq_headers rq) public_origin = true ∧
  ∃ e s sess tr0 prints entry tr3, tr1 = OAtom e s :: tr0 ∧ guarded_by sha256 rq e s sess ∧
    tr2 = prints ++ OAudit entry :: tr3 ∧ only_prints prints ∧ (succeeded = true → prints = []) ∧
    account entry = Some (session_username sess) ∧
    AuditLog.client_ip entry = Some (Http.client_ip (rq_peer rq) (rq_headers rq) trusted_proxies) ∧
    target entry ≠ None ∧ result_ entry = (if succeeded then lit "ok" else lit "failed").
Proof.
  intros Hr E Hc. apply serve_runs in Hr as [(-> & _)|(Ho & r' & Hr & _)]; [by destruct tr1|].
  apply inside_runs in Hr as [->|[(access & h & Er & Hacc & Hr)|(h & t1 & t2 & session & Er & -> & Ha & Hr)]].
  - by destruct tr1.
  - exfalso. destruct (reads_only h) eqn:Eh; [|by destruct (routed_access _ _ _ _ Er Eh)].
    pose proof (reading_audited path_uuid path_i64 time_text sha256 DUMMY COMMON trusted_proxies ready
      (λ _ _, False) _ _ _ _ _ Eh Hr) as Hf.
    by destruct (audited_on_record _ _ _ _ _ _ _ Hf E Hc) as (_ & _ & _ & _ & _ & _ & ?).
  - pose proof (wruns_lift _ _ _ Ha) as Hatoms. apply authenticate_runs in Ha.
    destruct session as [sess|resp].
    2: { destruct Hr as [-> _]. exfalso. rewrite app_nil_r in E. rewrite E in Hatoms.
         by apply Forall_app in Hatoms as [_ [? _]%Forall_cons]. }
    destruct Ha as (e & s & -> & Hg). cbn [app] in E.
    destruct tr1 as [|x tr0]; [done|]. injection E as <- E.
    destruct (reads_only h) eqn:Eh.
    { pose proof (reading_audited path_uuid path_i64 time_text sha256 DUMMY COMMON trusted_proxies ready
        (λ _ _, False) _ _ _ _ _ Eh Hr) as Hf.
      by destruct (audited_on_record _ _ _ _ _ _ _ Hf E Hc) as (_ & _ & _ & _ & _ & _ & ?). }
    destruct (routed_access _ _ _ _ Er Eh) as [_ Hs]. rewrite Hs in Ho.
    pose proof (handler_audited path_uuid path_i64 time_text sha256 DUMMY COMMON trusted_proxies ready
      _ _ _ _ _ Hr) as Hf.
    destruct (audited_on_record _ _ _ _ _ _ _ Hf E Hc) as (prints & entry & tr3 & -> & Hop & Hpr & Hacc & Hip & Ht & Hres & _).
    split_and!; [done..|]. by exists e, s, sess, tr0, prints, entry, tr3.
Qed.

Lemma add_headers_all resp :
  header_get_all (r_headers (add_headers csp hsts resp)) (lit "content-security-policy") = [csp] ∧
  header_get_all (r_headers (add_headers csp hsts resp)) (lit "referrer-policy") = [lit "no-referrer"] ∧
  header_get_all (r_headers (add_headers csp hsts resp)) (lit "x-content-type-options") = [lit "nosniff"] ∧
  (hsts = true → header_get_all (r_headers (add_headers csp hsts resp)) (lit "strict-transport-security") =
     [lit "max-age=31536000"]).
Proof.
  unfold add_headers. destruct hsts; cbn [add_header r_headers]; split_and!; try done; intros;
    repeat (rewrite header_insert_same || rewrite header_insert_other by done); done.
Qed.

(** C35: every answer is hardened, and a foreign page gets nowhere.  Whatever a
    request is, its answer carries exactly one Content-Security-Policy, Lodger's own,
    no referrer, no type sniffing, and HSTS when Lodger serves HTTPS; a handler
    cannot drop or weaken them.  The answer to HEAD has no body.  A state-changing
    request that is not from a Lodger page gets 403 before any step is made.  A path
    under the reserved prefixes is never answered with a file of the web UI. *)
Theorem every_answer_hardened rq tr r :
  wruns (serve rq) tr (Some r) →
  (header_get_all (r_headers r) (lit "content-security-policy") = [csp] ∧
   header_get_all (r_headers r) (lit "referrer-policy") = [lit "no-referrer"] ∧
   header_get_all (r_headers r) (lit "x-content-type-options") = [lit "nosniff"] ∧
   (hsts = true → header_get_all (r_headers r) (lit "strict-transport-security") = [lit "max-age=31536000"])) ∧
  (rq_method rq = HEAD → r_body r = NoBody) ∧
  (is_safe (rq_method rq) = false → from_lodger (rq_headers rq) public_origin = false →
     tr = [] ∧ r_status r = 403) ∧
  (rq_route rq = RtReserved → tr = [] ∧ (∀ bytes, r_body r ≠ FileBody bytes) ∧
     (r_status r = 404 ∨ r_status r = 403)).
Proof.
  assert (Hst : ∀ x, r_status (add_headers csp hsts x) = r_status x).
  { intros x. unfold add_headers. by destruct hsts. }
  assert (Hbd : ∀ x, r_body (add_headers csp hsts x) = r_body x).
  { intros x. unfold add_headers. by destruct hsts. }
  intros Hr. pose proof Hr as Hr0.
  apply serve_runs in Hr as [(-> & resp & [= ->] & Hs & Hsafe & Hfrom)|(Ho & r' & Hr & Er)].
  - split; [apply add_headers_all|]. rewrite Hst. split_and!; try done.
    + intros E. by rewrite E in Hsafe.
    + intros _. split_and!; [done| |by right]. rewrite Hbd. unfold router in Hr0.
      unfold require_same_origin in Hr0. rewrite Hsafe, Hfrom in Hr0. destruct Hr0 as [_ [= E]].
      assert (Hb : r_body (add_headers csp hsts resp) = r_body (add_headers csp hsts (error 403 FOREIGN)))
        by congruence.
      rewrite !Hbd in Hb. by rewrite Hb.
  - destruct r' as [r'|]; [|done]. cbn in Er. injection Er as ->.
    split; [apply add_headers_all|]. rewrite Hst, Hbd. split_and!.
    + intros ->. done.
    + intros Hs Hf. by rewrite Hs, Hf in Ho.
    + intros Ert. unfold dispatch in Hr. rewrite Ert in Hr. destruct Hr as [-> [= ->]].
      split_and!; [done| |]; unfold strip_head; case_bool_decide; auto.
Qed.

End promises.

Section names.
Context `{Ipnet} `{LogText} `{Fmt} `{XmlTree} `{!Deserialize Confirm} `{!Deserialize DeleteRequest}
  `{!Deserialize PoolRemoval} `{!Deserialize NetworkRemoval}.
Variable trusted_proxies : list ipnet.

(** C11: what cannot be undone needs the name.  A run of the handlers that destroys
    a running domain, or that deletes a VM, a pool or a network, has read the object
    from the inventory, and the body of the request repeats its name. *)
Theorem typed_name_required c id action body tr calls succeeded sent r :
  OTask calls succeeded sent ∈ tr →
  (wruns (run trusted_proxies c id action body) tr r →
     (∃ e d, e ∈ calls ∧ projT1 e = DomainDestroy d) →
     ∃ h vm confirm, OHost h ∈ tr ∧ inv_vms (sh_inventory h) !! id = Some vm ∧
       body_or_default Confirm_default body = Ok confirm ∧ c_confirm confirm = Some (vm_name vm)) ∧
  (wruns (delete_vm trusted_proxies c id body) tr r →
     ∃ h vm request, OHost h ∈ tr ∧ inv_vms (sh_inventory h) !! id = Some vm ∧
       body_or_default DeleteRequest_default body = Ok request ∧ dr_confirm request = Some (vm_name vm)) ∧
  (wruns (remove_pool_handler trusted_proxies c id body) tr r →
     ∃ h pool request, OHost h ∈ tr ∧ inv_pools (sh_inventory h) !! id = Some pool ∧
       body_or_bad PoolRemoval_default body = Ok request ∧ pr_confirm request = Some (pool_name pool)) ∧
  (wruns (remove_network_handler trusted_proxies c id body) tr r →
     ∃ h network request, OHost h ∈ tr ∧ inv_networks (sh_inventory h) !! id = Some network ∧
       body_or_bad NetworkRemoval_default body = Ok request ∧ nr_confirm request = Some (network_name network)).
Proof.
  intros Ht.
  assert (Hno : ¬ only_read tr).
  { intros Ho. unfold only_read in Ho. rewrite Forall_forall in Ho. by specialize (Ho _ Ht). }
  split_and!.
  - intros [[? _]|(act & confirm & _ & Hb & Hc)]%run_runs (e & d & He & Hd); [done|].
    destruct Hc as (h1 & h2 & vm & calls' & res & Hvm & Hconf & _ & Hrun & Etr & _).
    assert (calls = calls') as ->.
    { pose proof (vm_prints_no_task (Power_name act) (vm_name vm) res calls succeeded sent). subst tr. set_solver. }
    assert (act = ForceOff) as ->.
    { destruct Hrun as [Hrun|(_ & more & res' & Hrun)]; [|by eapply power_destroys].
      eapply (power_destroys id act calls' []); [rewrite app_nil_r; exact Hrun|done..]. }
    exists h1, vm, confirm. split_and!; [subst tr; set_solver|done|done|by apply Hconf].
  - intros [[? _]|(request & Hb & Hc)]%delete_runs; [done|].
    destruct Hc as (h1 & h2 & vm & calls' & res & Hvm & Hconf & _ & _ & Etr & _).
    exists h1, vm, request. split_and!; [subst tr; set_solver|done..].
  - intros [[? _]|(request & h1 & h2 & pool & tr' & res & Hb & Hp & Hconf & _ & Etr & _)]%remove_pool_runs; [done|].
    exists h1, pool, request. split_and!; [subst tr; set_solver|done..].
  - intros [[? _]|(request & h1 & h2 & net & tr' & res & Hb & Hp & Hconf & _ & Etr & _)]%remove_network_runs; [done|].
    exists h1, net, request. split_and!; [subst tr; set_solver|done..].
Qed.
End names.

(** ** Witnesses: VM [web] is started from a Lodger page *)

#[local] Existing Instance log_text_plain.

Definition takes_any {T} (t : T) : Deserialize T := λ _, Ok t.
Definition json_any {T} (t : T) : FromJson T := λ _ _, Ok t.

(** The service with the session of the small database, whose cookie has the hash
    [[7]]. *)
Definition small_service : HttpRequest → web (option Response) :=
  @router ipnet_ref log_text_plain fmt_plain (xml_ref []) ascii_lowercase argon2_plain
    names_web (takes_any {| dr_confirm := None; remove_volumes := false |})
    (takes_any {| set_autostart_to := true |}) wants_vms
    (takes_any {| ch_active := Some true; ch_autostart := None |})
    (takes_any {| pr_confirm := None; delete_files := false |})
    (takes_any {| cv_name := lit "disk"; cv_format := FormatRaw; cv_capacity_bytes := 1048576 |})
    wants_lan (takes_any {| nr_confirm := None |})
    (json_any {| login_username := []; login_password := [] |})
    (json_any {| claim_token := []; claim_username := []; claim_password := [] |})
    (json_any {| na_username := []; na_password := [] |})
    (json_any {| current_password := []; new_password := [] |})
    (λ _, Ok 7) (λ _, Ok 1) (λ _, []) (λ _, [7]) [] [] [] None (lit "default-src 'self'") true
    [] (λ _, None) (Ok tt).

Definition start_request : HttpRequest :=
  {| rq_method := POST; rq_route := RtVmAction (lit "7") (lit "start");
     rq_path := lit "/api/vms/7/actions/start"; rq_ticket := None; rq_peer := V4 7;
     rq_headers := [(lit "cookie", lit "__Host-lodger_sid=x"); (lit "x-csrf-token", lit "csrf");
                    (lit "sec-fetch-site", lit "same-origin")];
     rq_body := [] |}.

Definition start_run : list wev * option Response * AppState :=
  wexec (small_service start_request) Auth.calm_env Auth.small_app web_host stopped_domain [] 0%nat.

Lemma start_run_status : from_option r_status 0 start_run.1.2 = 204.
Proof. vm_compute. reflexivity. Qed.

Definition start_calls : list ev := (vrun (@power ipnet_ref 7 Start) stopped_domain 0%nat).1.

Lemma host_changes_guarded_witness :
  let tr1 := take 3 start_run.1.1 in
  ∃ e s sess tr0 entry tr3, tr1 = OAtom e s :: tr0 ∧ guarded_by (λ _, [7]) start_request e s sess ∧
    drop 4 start_run.1.1 = OAudit entry :: tr3 ∧ account entry = Some (session_username sess) ∧
    AuditLog.client_ip entry = Some (V4 7).
Proof.
  intros tr1.
  assert (E : start_run.1.1 = tr1 ++ OTask start_calls true [] :: drop 4 start_run.1.1) by reflexivity.
  assert (Hc : changes start_calls = true) by reflexivity.
  destruct (@host_changes_guarded ipnet_ref log_text_plain fmt_plain (xml_ref []) ascii_lowercase argon2_plain
    names_web (takes_any {| dr_confirm := None; remove_volumes := false |})
    (takes_any {| set_autostart_to := true |}) wants_vms
    (takes_any {| ch_active := Some true; ch_autostart := None |})
    (takes_any {| pr_confirm := None; delete_files := false |})
    (takes_any {| cv_name := lit "disk"; cv_format := FormatRaw; cv_capacity_bytes := 1048576 |})
    wants_lan (takes_any {| nr_confirm := None |})
    (json_any {| login_username := []; login_password := [] |})
    (json_any {| claim_token := []; claim_username := []; claim_password := [] |})
    (json_any {| na_username := []; na_password := [] |})
    (json_any {| current_password := []; new_password := [] |})
    (λ _, Ok 7) (λ _, Ok 1) (λ _, []) (λ _, [7]) [] [] [] None (lit "default-src 'self'") true
    [] (λ _, None) (Ok tt) start_request start_run.1.1 start_run.1.2 tr1 start_calls true []
    (drop 4 start_run.1.1) (wexec_wruns _ _ _ _ _ _ _) E Hc)
    as (_ & _ & e & s & sess & tr0 & prints & entry & tr3 & H1 & H2 & H3 & _ & Hp & H4 & H5 & _).
  rewrite (Hp eq_refl) in H3. exists e, s, sess, tr0, entry, tr3. split_and!; [exact H1|exact H2|exact H3|exact H4|exact H5].
Defined.

(** An unknown path gets the stub page with the headers. *)
Definition page_request : HttpRequest :=
  {| rq_method := HEAD; rq_route := RtOther; rq_path := lit "/"; rq_ticket := None; rq_peer := V4 7;
     rq_headers := []; rq_body := [] |}.

Definition page_run : list wev * option Response * AppState :=
  wexec (small_service page_request) Auth.calm_env Auth.small_app web_host stopped_domain [] 0%nat.

Lemma every_answer_hardened_witness :
  ∃ r, page_run.1.2 = Some r ∧ r_body r = NoBody ∧
    header_get_all (r_headers r) (lit "content-security-policy") = [lit "default-src 'self'"].
Proof.
  destruct page_run.1.2 as [r|] eqn:E; [|discriminate E]. exists r. split; [reflexivity|].
  assert (Hr : wruns (small_service page_request) page_run.1.1 (Some r)).
  { rewrite <- E. apply wexec_wruns. }
  destruct (@every_answer_hardened ipnet_ref log_text_plain fmt_plain (xml_ref []) ascii_lowercase argon2_plain
    names_web (takes_any {| dr_confirm := None; remove_volumes := false |})
    (takes_any {| set_autostart_to := true |}) wants_vms
    (takes_any {| ch_active := Some true; ch_autostart := None |})
    (takes_any {| pr_confirm := None; delete_files := false |})
    (takes_any {| cv_name := lit "disk"; cv_format := FormatRaw; cv_capacity_bytes := 1048576 |})
    wants_lan (takes_any {| nr_confirm := None |})
    (json_any {| login_username := []; login_password := [] |})
    (json_any {| claim_token := []; claim_username := []; claim_password := [] |})
    (json_any {| na_username := []; na_password := [] |})
    (json_any {| current_password := []; new_password := [] |})
    (λ _, Ok 7) (λ _, Ok 1) (λ _, []) (λ _, [7]) [] [] [] None (lit "default-src 'self'") true
    [] (λ _, None) (Ok tt) page_request page_run.1.1 r Hr) as ((Hcsp & _) & Hb & _).
  split; [apply Hb; reflexivity|exact Hcsp].
Defined.

(** VM [web] is deleted: the trace of the handler holds its operation. *)
Definition delete_web : web Response :=
  @delete_vm ipnet_ref fmt_plain (xml_ref [])
    (takes_any {| dr_confirm := Some (lit "web"); remove_volumes := false |}) [] admin_caller 7 [1].

Definition delete_run : list wev * Response * AppState :=
  wexec delete_web Auth.calm_env Auth.small_app web_host stopped_domain [] 0%nat.

Lemma typed_name_required_witness :
  ∃ calls succeeded sent h vm, OTask calls succeeded sent ∈ delete_run.1.1 ∧
    OHost h ∈ delete_run.1.1 ∧ inv_vms (sh_inventory h) !! 7 = Some vm ∧ vm_name vm = lit "web".
Proof.
  pose (D := takes_any {| dr_confirm := Some (lit "web"); remove_volumes := false |}).
  set (calls := (vrun (@VirtDelete.delete_on ipnet_ref (xml_ref []) 7 false) stopped_domain 0%nat).1).
  set (ok := is_ok (vrun (@VirtDelete.delete_on ipnet_ref (xml_ref []) 7 false) stopped_domain 0%nat).2).
  assert (Hin : OTask calls ok [] ∈ delete_run.1.1).
  { assert (E : delete_run.1.1 !! 2%nat = Some (OTask calls ok [])) by reflexivity.
    by apply list_elem_of_lookup_2 in E. }
  destruct (@typed_name_required ipnet_ref fmt_plain (xml_ref []) names_web D
    (takes_any {| pr_confirm := None; delete_files := false |}) (takes_any {| nr_confirm := None |})
    [] admin_caller 7 [] [1] delete_run.1.1 calls ok [] delete_run.1.2 Hin) as (_ & Hd & _).
  destruct (Hd (wexec_wruns _ _ _ _ _ _ _)) as (h & vm & request & Hh & Hvm & Hb & Hname).
  exists calls, ok, [], h, vm. split_and!; [exact Hin|exact Hh|exact Hvm|].
  injection Hb as <-. by injection Hname.
Defined.
