(* ===== verification/Lines.v ===== *)
(** * Texts of one line

    What the parts of a log line promise: fixed texts, numbers, addresses, checked names
    and audit lines have no line break. *)

From S2P Require Import Prelude Text Net Validate Db AuditLog.

Definition one_line (t : str) : Prop := Forall (λ c, c ≠ 10) t.

Lemma one_line_app a b : one_line (a ++ b) ↔ one_line a ∧ one_line b.
Proof. apply Forall_app. Qed.

(** For fixed texts. *)
Lemma one_line_lit t : bool_decide (10 ∈ t) = false → one_line t.
Proof.
  intros Ht. bool_hyps. apply Forall_forall. intros c Hc ->. done.
Qed.

Lemma one_line_take n t : one_line t → one_line (take n t).
Proof. apply Forall_take. Qed.

Lemma one_line_join c ts : c ≠ 10 → Forall one_line ts → one_line (join [c] ts).
Proof.
  intros Hc. induction 1 as [|t ts Ht Hts IH]; [constructor|].
  destruct ts as [|u ts]; [done|]. rewrite join_cons by done.
  rewrite one_line_app. split; [done|]. by apply Forall_cons.
Qed.

Lemma one_line_digits fuel n acc : one_line acc → one_line (digits_fuel fuel n acc).
Proof.
  revert n acc. induction fuel as [|fuel IH]; intros n acc Ha; [done|]. cbn [digits_fuel].
  assert (Hc : one_line (48 + n mod 10 :: acc)).
  { apply Forall_cons. split; [|done]. pose proof (Z.mod_pos_bound n 10). lia. }
  case_match; auto.
Qed.

Lemma one_line_to_string n : one_line (to_string n).
Proof. by apply one_line_digits, Forall_nil. Qed.

Lemma one_line_name `{Ipnet} field value name : Name_parse field value = Ok name → one_line (as_str name).
Proof.
  intros [-> ((c & s & -> & Hc & Hs) & _)]%Name_parse_Ok. cbn [as_str].
  apply Forall_cons. split; [by intros ->|]. eapply Forall_impl; [exact Hs|]. by intros x Hx ->.
Qed.

Lemma one_line_group g : one_line (group_to_string g).
Proof.
  assert (Hd : ∀ x, hex_digit (x mod 16) ≠ 10).
  { intros x. pose proof (hex_digit_range (x mod 16) (Z.mod_pos_bound _ 16 ltac:(lia))). lia. }
  unfold group_to_string. repeat case_match; repeat (apply Forall_cons; split; [apply Hd|]); by apply Forall_nil.
Qed.

Lemma one_line_ip ip : one_line (ip_to_string ip).
Proof.
  assert (H4 : ∀ a, one_line (ipv4_to_string a)).
  { intros a. apply one_line_join; [done|]. apply Forall_fmap, Forall_true. intros x. apply one_line_to_string. }
  assert (Hg : ∀ gs, one_line (groups_to_string gs)).
  { intros gs. apply one_line_join; [done|]. apply Forall_fmap, Forall_true. intros x. apply one_line_group. }
  destruct ip as [a|a]; [apply H4|]. cbn [ip_to_string]. unfold ipv6_to_string.
  case_match; [rewrite one_line_app; split; [by apply one_line_lit|apply H4]|].
  destruct (longest_zeros _ _ _) as [start n]. case_bool_decide; [|apply Hg].
  rewrite !one_line_app. split; [apply Hg|]. split; [by apply one_line_lit|apply Hg].
Qed.

Lemma one_line_audit e : one_line (AuditLog.line e).
Proof. eapply Forall_impl; [apply line_visible|]. simpl. lia. Qed.
