(* ===== verification/Regime.v ===== *)
(** * What every request keeps

    A regime says what the service may assume of its surroundings and of its tables,
    and what it then promises: an invariant of the tables, a property of every line that
    it prints, a property of every session token that it makes, and a fact about the
    tables that once true stays true.  Every handler keeps every regime; this is proved
    here once, step by step, for the handlers on the service's own state, and in
    Service.v for all requests.  Each promise of the service is then one instance. *)

From S2P Require Import Prelude Text Net Validate Password Model Xml Throttle Tickets Db AuditLog Lines Http Server Auth Setup Accounts Virt VirtConn Inventory Supervisor.

(** The operations that a regime allows: the names of new accounts and the tokens of new
    sessions are good. *)
Definition op_within (line : str → Prop) (token : list Z → Prop) (o : db_op) : Prop :=
  match o with
  | OpCreateFirst u _ | OpCreate u _ => line u
  | OpCreateSession new | OpChange _ _ _ new => token (new_token_sha256 new)
  | _ => True
  end.

Class Regime `{Ipnet} `{LogText} `{Argon2} `{Fmt} (sha256 : str → list Z) := {
  (** What may come from outside. *)
  ok_env : env → Prop;
  ok_host : Shared → Prop;
  ok_error : Error → Prop;
  (** The invariant of the tables, the lines and the tokens; and what stays true. *)
  ok_tables : Tables → Prop;
  ok_line : str → Prop;
  ok_token : list Z → Prop;
  settled : Tables → Prop;
  (** Lines are made of good parts. *)
  line_app a b : ok_line a → ok_line b → ok_line (a ++ b);
  line_plain t : one_line t → ok_line t;
  line_debug t : ok_line (debug_text t);
  line_random e t : ok_env e → e_random e = Err t → ok_line t;
  line_hash salt p t : argon2_hash salt p = Err t → ok_line t;
  line_vm h id vm : ok_host h → inv_vms (sh_inventory h) !! id = Some vm → ok_line (vm_name vm);
  line_error e : ok_error e → ok_line (Error_to_string e);
  line_username t a : ok_tables t → a ∈ tab_accounts t → ok_line (acc_username a);
  (** Fresh randomness makes good tokens. *)
  token_random e bytes : ok_env e → e_random e = Ok bytes → ok_token (sha256 (hex_encode bytes));
  (** The operations of the database. *)
  op_tables o e t : op_within ok_line ok_token o → ok_env e → ok_tables t →
    ok_tables (run_op o (e_sql e) t 0%nat).1.2;
  op_settled o e t : op_within ok_line ok_token o → ok_env e → settled t →
    settled (run_op o (e_sql e) t 0%nat).1.2;
  op_line o e t err : op_within ok_line ok_token o → ok_env e → ok_tables t →
    (run_op o (e_sql e) t 0%nat).1.1 = Err err → ok_line (sql_text err)
}.

Abbreviation any := (λ _, True).

Create HintDb ok_line discriminated.

Section regime.
Context `{Ipnet} `{LogText} `{Argon2} `{Fmt} {sha256 : str → list Z} `{!Regime sha256}.

Definition ok_op : db_op → Prop := op_within ok_line ok_token.

Lemma ok_line_to_string n : ok_line (to_string n).
Proof. apply line_plain, one_line_to_string. Qed.
Lemma ok_line_ip ip : ok_line (ip_to_string ip).
Proof. apply line_plain, one_line_ip. Qed.
Lemma ok_line_audit e : ok_line (AuditLog.line e).
Proof. apply line_plain, one_line_audit. Qed.
Lemma ok_line_name field value name : Name_parse field value = Ok name → ok_line (as_str name).
Proof. intros Hn. by eapply line_plain, one_line_name. Qed.
Lemma ok_line_lit t : bool_decide (10 ∈ t) = false → ok_line t.
Proof. intros Ht. by apply line_plain, one_line_lit. Qed.
End regime.

#[export] Hint Resolve ok_line_to_string ok_line_ip ok_line_audit ok_line_name line_debug line_error : ok_line.

(** Splits a line into its parts. *)
Ltac good_line :=
  lazymatch goal with
  | |- ok_line (_ ++ _) => apply line_app; good_line
  | |- ok_line (lit _) => apply ok_line_lit; vm_compute; reflexivity
  | |- ok_line (match ?x with _ => _ end) => destruct x; good_line
  | |- _ => eauto with ok_line
  end.

(** ** Programs on the state of the service *)

Section programs.
Context `{Ipnet} `{LogText} `{Argon2} `{Fmt} {sha256 : str → list Z} `{!Regime sha256}.

(** The invariant: the tables and the lines. *)
Definition safe (s : AppState) : Prop := ok_tables (app_db s) ∧ Forall ok_line (app_journal s).

(** A step from [s] to [s'] keeps the invariant and what is settled. *)
Definition fine_step (s s' : AppState) : Prop :=
  safe s' ∧ (settled (app_db s) → settled (app_db s')).

(** Every step of [p] is fine, and its result satisfies [Q]. *)
Fixpoint holds {A} (p : prog A) (Q : A → Prop) : Prop :=
  match p with
  | Ret a => Q a
  | Atom f k => ∀ e s, ok_env e → safe s → fine_step s (f e s).1 ∧ holds (k (f e s).2) Q
  end.

(** What is known of a result of the database, or of one with a text as its error. *)
Definition db_said {A} (Q : A → Prop) (r : result SqlError A) : Prop :=
  match r with Ok a => Q a | Err e => ok_line (sql_text e) end.
Definition text_said {A} (Q : A → Prop) (r : result str A) : Prop :=
  match r with Ok a => Q a | Err t => ok_line t end.

Lemma holds_ret {A} (a : A) (Q : A → Prop) : Q a → holds (mret a) Q.
Proof. done. Qed.

Lemma holds_bind {A B} (p : prog A) (f : A → prog B) P Q :
  holds p P → (∀ a, P a → holds (f a) Q) → holds (p ≫= f) Q.
Proof.
  intros Hp Hf. induction p as [a|C g k IH]; [by apply Hf|]. cbn in *.
  intros e s He Hs. destruct (Hp e s He Hs). auto.
Qed.

Lemma holds_mono {A} (p : prog A) (P Q : A → Prop) : holds p P → (∀ a, P a → Q a) → holds p Q.
Proof.
  intros Hp HPQ. induction p as [a|C g k IH]; [by apply HPQ|]. cbn in *.
  intros e s He Hs. destruct (Hp e s He Hs). auto.
Qed.

Lemma holds_then {A B} (p : prog A) (f : A → prog B) Q :
  holds p any → (∀ a, holds (f a) Q) → holds (p ≫= f) Q.
Proof. intros Hp Hf. by eapply holds_bind. Qed.

(** A step that touches neither the database nor the log. *)
Lemma holds_same {B} (f : env → AppState → AppState * B) (Q : B → Prop) :
  (∀ e s, app_db (f e s).1 = app_db s ∧ app_journal (f e s).1 = app_journal s) →
  (∀ e s, ok_env e → Q (f e s).2) → holds (atom f) Q.
Proof.
  intros Hf HQ e s He [Hn Hj]. destruct (Hf e s) as [Hd Hl].
  split; [by unfold fine_step, safe; rewrite Hd, Hl|]. by apply HQ.
Qed.

Lemma void_unit (m : sql unit) env t n : void m env t n = m env t n.
Proof. unfold void, mbind, sql_bind. by destruct (m env t n) as [[[[]|e] t'] n']. Qed.

(** An operation of the database on good tables. *)
Lemma op_fine o e s :
  ok_op o → ok_env e → safe s →
  fine_step s (with_db (run_op o (e_sql e) (app_db s) O).1.2 s) ∧
  ∀ err, (run_op o (e_sql e) (app_db s) O).1.1 = Err err → ok_line (sql_text err).
Proof.
  intros Ho He [Ht Hj]. split.
  - split; [split; [by apply op_tables|done]|by apply op_settled].
  - intros err. by apply op_line.
Qed.

(** A database call.  [P] is what its results on good tables satisfy. *)
Lemma holds_db {A} (m : sql A) o (P : A → Prop) :
  (∀ env t n, run_op o env t n = void m env t n) → ok_op o →
  (∀ env t n a, ok_tables t → (m env t n).1.1 = Ok a → P a) → holds (db m) (db_said P).
Proof.
  intros Eo Ho HP e s He Hs. destruct (op_fine o e s Ho He Hs) as [Hf Hl]. destruct Hs as [Ht _].
  specialize (HP (e_sql e) (app_db s) O). rewrite Eo in Hf, Hl. unfold void, mbind, sql_bind in Hf, Hl. cbn.
  destruct (m (e_sql e) (app_db s) O) as [[[a|err] t] n]; cbn in *; (split; [exact Hf|]); [by apply HP|by apply Hl].
Qed.

Lemma holds_run {A} (m : sql A) o :
  (∀ env t n, run_op o env t n = void m env t n) → ok_op o → holds (db m) (db_said any).
Proof. intros Eo Ho. by eapply holds_db. Qed.

Lemma holds_unit_op (m : sql unit) o : run_op o = m → ok_op o → holds (db m) (db_said any).
Proof. intros <- Ho. apply (holds_run _ o); [|done]. intros. by rewrite void_unit. Qed.

(** An audit row writes its line, and one more when the row cannot be written. *)
Lemma fine_audit entry e s :
  ok_env e → safe s →
  let '(j, t, _) := log entry (e_sql e) (app_journal s) (app_db s) O in
  fine_step s (with_journal j (with_db t s)).
Proof.
  intros He Hs. destruct (op_fine (OpAudit (row entry)) e s I He Hs) as [[[Ht _] Hset] Hl].
  destruct Hs as [_ Hj]. unfold run_op in Ht, Hset, Hl. unfold log, record, journal_write.
  pose proof (ok_line_audit entry) as Hline. set (l := AuditLog.line entry) in *. clearbody l.
  set (x := row entry) in *. clearbody x.
  assert (Hj' : Forall ok_line (app_journal s ++ [l])).
  { apply Forall_app. split; [done|]. by apply Forall_singleton. }
  destruct (Db.audit x (e_sql e) (app_db s) O) as [[[[]|err] t] n]; [done|].
  split; [|done]. split; [done|]. apply Forall_app. split; [done|]. apply Forall_singleton.
  specialize (Hl err eq_refl). cbn [map_err]. good_line.
Qed.

Lemma holds_audit entry : holds (audit_log entry) any.
Proof.
  intros e s He Hs. pose proof (fine_audit entry e s He Hs) as Ha. cbn.
  by destruct (log _ _ _ _ _) as [[j t] m].
Qed.

(** One tick of the sweep. *)
Lemma fine_sweep e s :
  ok_env e → safe s →
  let '(j, t, _) := delete_old_rows (e_sql e) (app_journal s) (app_db s) O in
  fine_step s (with_journal j (with_db t s)).
Proof.
  intros He Hs. destruct (op_fine (OpDeleteOld KEEP_DAYS) e s I He Hs) as [[[Ht _] Hset] Hl].
  destruct Hs as [_ Hj]. unfold run_op, void, mbind, sql_bind in Ht, Hset, Hl. unfold delete_old_rows.
  destruct (delete_old_audit_rows KEEP_DAYS _ _ _) as [[[rows|err] t] n]; cbn [fst snd mret sql_ret] in *.
  - split; [|done]. split; [done|]. cbn [with_journal app_journal]. destruct (rows =? 0); [done|].
    apply Forall_app. split; [done|]. apply Forall_singleton. good_line.
  - split; [|done]. split; [done|]. cbn [with_journal app_journal].
    apply Forall_app. split; [done|]. apply Forall_singleton. specialize (Hl err eq_refl). good_line.
Qed.

Lemma fine_print line s : ok_line line → safe s → fine_step s (with_journal (app_journal s ++ [line]) s).
Proof.
  intros Hl [Hn Hj]. split; [|done]. split; [done|]. apply Forall_app. split; [done|]. by apply Forall_singleton.
Qed.

Lemma holds_eprintln line : ok_line line → holds (eprintln line) any.
Proof. intros Hl e s He Hs. split; [by apply fine_print|done]. Qed.

Lemma holds_told {A} line (a : A) (Q : A → Prop) : ok_line line → Q a → holds (_ ← eprintln line; mret a) Q.
Proof. intros Hl Ha. eapply holds_then; [by apply holds_eprintln|by intros]. Qed.

Lemma holds_run_task {A} (work : hashing A) (P : A → Prop) :
  (∀ e, P (work e).2) → holds (run_task work) (λ r, ∀ a, r = Some a → P a).
Proof.
  intros Hw. apply holds_same; intros e s; specialize (Hw e); destruct (work e) as [runs a]; [done|].
  intros _ b. cbn. case_match; [|done]. by intros [= <-].
Qed.
End programs.

(** ** The handlers *)

(** One step of a handler: what is known of its result goes to the context. *)
Ltac said :=
  repeat match goal with
  | H : db_said _ _ |- _ => progress cbn [db_said] in H
  | H : text_said _ _ |- _ => progress cbn [text_said] in H
  end.
#[local] Ltac holds_step :=
  lazymatch goal with
  | |- holds (mret _) _ => exact I
  | |- holds (audit_log _) _ => apply holds_audit
  | |- holds (eprintln _) _ => apply holds_eprintln; good_line
  | |- holds (eprintln _ ≫= _) _ => eapply holds_then; [|intros ?]
  | |- holds (audit_log _ ≫= _) _ => eapply holds_then; [|intros ?]
  | |- holds (match ?x with _ => _ end) _ => destruct x; said
  | |- holds (if ?x then _ else _) _ => destruct x
  | |- holds (let '(_, _) := ?x in _) _ => destruct x
  end.
#[local] Ltac holds_all := repeat (cbv zeta; holds_step).

Section handlers.
Context `{Ipnet} `{LogText} `{Argon2} `{Fmt} {sha256 : str → list Z} `{!Regime sha256} `{Lowercase}.
Variables (trusted_proxies : list ipnet) (DUMMY : str) (COMMON : list str)
  (input_error_text : InputError → str) (password_error_text : PasswordError → str).

Lemma holds_lookup headers : holds (lookup sha256 headers) any.
Proof.
  unfold lookup. destruct (cookie_token headers); [|done].
  eapply holds_bind; [by eapply (holds_run _ (OpSession _))|]. intros r Hr. holds_all.
Qed.

Lemma holds_authenticate method headers : holds (authenticate sha256 method headers) any.
Proof. eapply holds_then; [apply holds_lookup|]. by intros. Qed.

Lemma holds_throttled username ip : holds (throttled username ip) any.
Proof.
  eapply holds_then; [apply holds_same; [intros e s; by destruct (begin _ _ _ _)|done]|].
  intros [attempt|retry]; [|done]. destruct (negb _); [|done].
  eapply holds_then; [eapply holds_mono; [by eapply (holds_run _ (OpFind _))|done]|]. intros found.
  apply holds_told; [|done]. unfold throttle_warning. good_line.
Qed.

(** A token from fresh randomness. *)
Lemma holds_random_token : holds random_token (text_said (λ token, ok_token (token_hash sha256 token))).
Proof.
  eapply holds_bind with (P := text_said (λ bytes, ok_token (sha256 (hex_encode bytes)))).
  - apply holds_same; [done|]. intros e s He. cbn. destruct (e_random e) eqn:Er; cbn.
    + by eapply token_random.
    + by eapply line_random.
  - intros [bytes|t] Ht; [done|]. change (ok_line (lit "cannot make a token: " ++ t)). good_line.
Qed.

Lemma holds_new_session id ip headers :
  holds (new_session sha256 id ip headers) (text_said (λ r, ok_token (new_token_sha256 r.2))).
Proof.
  eapply holds_bind; [apply holds_random_token|]. intros [token|t] Ht; [|done].
  eapply holds_bind; [apply holds_random_token|]. by intros [csrf|t].
Qed.

Lemma holds_succeed username ip attempt : holds (throttle_succeed username ip attempt) any.
Proof. by apply holds_same. Qed.

Lemma holds_start_session a ip headers : holds (start_session sha256 a ip headers) any.
Proof.
  eapply holds_bind; [apply holds_new_session|]. intros [[token new]|t] Ht; cbn in Ht; [|holds_all].
  cbv zeta. eapply holds_bind with (P := db_said any).
  { destruct (session_key sha256 headers); [by eapply (holds_unit_op _ (OpDeleteSession _))|done]. }
  intros [u|e] He; cbn in He; [|unfold login_failed_line; holds_all].
  eapply holds_bind; [by eapply (holds_unit_op _ (OpCreateSession _))|].
  intros [u'|e] He'; cbn in He'; unfold login_failed_line; holds_all.
Qed.

Lemma holds_login peer headers body : holds (login sha256 trusted_proxies DUMMY peer headers body) any.
Proof.
  unfold login. destruct body as [l|]; [|done]. cbv zeta.
  eapply holds_then; [apply holds_throttled|]. intros [attempt|]; [|done].
  eapply holds_bind; [by eapply (holds_run _ (OpFind _))|].
  intros [account|e] He; cbn in He; [|unfold login_failed_line; holds_all].
  eapply holds_then; [eapply holds_mono; [by apply (holds_run_task _ any)|done]|]. intros verified.
  destruct (if default false verified then account else None); [|holds_all].
  eapply holds_then; [apply holds_succeed|]. intros _. apply holds_start_session.
Qed.

Lemma holds_logout headers : holds (logout sha256 headers) any.
Proof.
  unfold logout. destruct (cookie_token headers); [|done].
  eapply holds_bind; [by eapply (holds_unit_op _ (OpDeleteSession _))|]. intros r Hr. holds_all.
Qed.

Lemma holds_issue_ticket headers : holds (issue_ticket sha256 headers) any.
Proof.
  unfold issue_ticket. destruct (session_key sha256 headers) as [key|]; [|done]. cbv zeta.
  eapply holds_bind with (P := text_said any).
  - apply holds_same; [intros e s; by destruct (issue _ _ _ _ _ _)|].
    intros e s He. unfold issue. destruct (e_random e) as [bytes|t] eqn:Er; cbn [map_err].
    + cbv zeta. destruct (_ <=? _); [|done]. by destruct (_ <=? _).
    + pose proof (line_random e t He Er) as Ht. change (ok_line (lit "cannot make a ticket: " ++ t)). good_line.
  - intros [[ticket|]|t] Ht; cbn in Ht; holds_all.
Qed.

Lemma holds_open_socket headers ticket : holds (open_socket sha256 headers ticket) any.
Proof.
  eapply holds_then; [apply holds_lookup|]. intros [[sess|]|]; try done.
  destruct (session_key sha256 headers) as [key|]; [|done]. cbv zeta.
  eapply holds_then; [apply holds_same; [intros e s; by destruct (redeem _ _ _ _ _ _)|done]|]. by intros [].
Qed.

Lemma holds_session_check key : holds (session_check key) any.
Proof. eapply holds_bind; [by eapply (holds_run _ (OpAlive _))|]. intros r Hr. holds_all. Qed.

Lemma holds_status : holds Setup.status any.
Proof. by apply holds_same. Qed.

Lemma holds_hash password :
  holds (run_task (Server.hash password)) (λ r, ∀ t, r = Some (Err t) → ok_line t).
Proof.
  eapply holds_mono; [apply (holds_run_task _ (λ r, ∀ t, r = Err t → ok_line t))|intros r Hr t ->; by eapply Hr].
  intros e t Ht. by eapply (line_hash (e_salt e) password).
Qed.

Lemma holds_claim peer headers body :
  holds (claim sha256 trusted_proxies COMMON input_error_text password_error_text peer headers body) any.
Proof.
  unfold claim. eapply holds_then; [by apply holds_same|]. intros []; [done|].
  destruct body as [cl|]; [|done]. eapply holds_then; [by apply holds_same|]. intros [resp|]; [done|].
  destruct (Name_parse _ _) as [name|] eqn:En; [|done]. destruct (Password.check _ _); [|done].
  eapply holds_bind; [apply holds_hash|]. intros [[hash|msg]|] Ht; [|specialize (Ht msg eq_refl); holds_all|holds_all].
  cbv zeta. pose proof (ok_line_name _ _ _ En) as Hn.
  eapply holds_bind; [eapply (holds_run _ (OpCreateFirst _ _)); [done|exact Hn]|].
  intros [[]|e] He; cbn in He; try holds_all.
  eapply holds_then; [by apply holds_same|]. intros _. holds_all.
Qed.

Lemma holds_hash_password password : holds (hash_password password) any.
Proof.
  eapply holds_bind; [apply holds_hash|]. intros [[hash|msg]|] Ht; [done| |holds_all].
  specialize (Ht msg eq_refl). holds_all.
Qed.

Lemma holds_database_failed what e :
  ok_line what → ok_line (sql_text e) → holds (database_failed what e) any.
Proof. intros Hw He. unfold database_failed. holds_all. Qed.

Lemma holds_failed {A} what e (f : Response → A) :
  bool_decide (10 ∈ what) = false → ok_line (sql_text e) →
  holds (response ← database_failed what e; mret (f response)) any.
Proof. intros Hw He. eapply holds_then; [|done]. apply holds_database_failed; [by apply ok_line_lit|done]. Qed.

Lemma holds_list session : holds (list_ session) any.
Proof.
  eapply holds_bind; [by eapply (holds_run _ OpList)|]. intros [rows|e] He; cbn in He; [done|].
  by apply holds_failed.
Qed.

Lemma holds_create peer headers session body :
  holds (create trusted_proxies COMMON input_error_text password_error_text peer headers session body)
    any.
Proof.
  unfold create. destruct body as [new|]; [|done].
  destruct (Name_parse _ _) as [name|] eqn:En; [|done]. destruct (Password.check _ _); [|done].
  eapply holds_then; [apply holds_hash_password|]. intros [hash|]; [|done].
  cbv zeta. pose proof (ok_line_name _ _ _ En) as Hn.
  eapply holds_bind; [eapply (holds_run _ (OpCreate _ _)); [done|exact Hn]|].
  intros [[id|]|e] He; cbn in He; [holds_all..|].
  apply holds_database_failed; [by apply ok_line_lit|done].
Qed.

Lemma holds_delete peer headers session id : holds (delete_ trusted_proxies peer headers session id) any.
Proof.
  unfold delete_. cbv zeta. eapply holds_bind; [by eapply (holds_run _ (OpDelete _))|].
  intros [[name| |]|e] He; cbn in He; [holds_all..|].
  apply holds_database_failed; [by apply ok_line_lit|done].
Qed.

Lemma holds_store_password headers account ip new_password :
  ok_line (account_username account) →
  holds (store_password sha256 headers account ip new_password) any.
Proof.
  intros Hn. eapply holds_then; [apply holds_hash_password|]. intros [hash|]; [|done].
  destruct (session_key sha256 headers) as [current|]; [|done].
  eapply holds_bind; [apply holds_new_session|]. intros [[token new]|msg] Ht; cbn in Ht; [|holds_all].
  cbv zeta. eapply holds_bind; [by eapply (holds_run _ (OpChange _ _ _ _))|].
  intros [n|e] He; cbn in He; [holds_all|]. by apply holds_failed.
Qed.

Lemma holds_account_by_id id :
  holds (db (account_by_id id)) (db_said (λ o, ∀ a, o = Some a → ok_line (account_username a))).
Proof.
  eapply (holds_db _ (OpById id)); [done..|]. intros env t n o Ht E a ->.
  destruct (account_by_id id env t n) as [[r t'] n'] eqn:Ea. cbn in E. subst r.
  apply account_by_id_spec in Ea as [_ Ha].
  destruct (Ha a eq_refl) as (x & Hx & _ & ->). by eapply line_username.
Qed.

Lemma holds_change_password peer headers session body :
  holds (Accounts.change_password sha256 trusted_proxies COMMON password_error_text
    peer headers session body) any.
Proof.
  unfold Accounts.change_password. destruct body as [change|]; [|done].
  destruct (Password.check _ _); [|done].
  eapply holds_bind; [apply holds_account_by_id|].
  intros [[a|]|e] He; cbn in He; [|done|by apply holds_failed]. cbv zeta.
  eapply holds_then; [apply holds_throttled|]. intros [attempt|]; [|done].
  eapply holds_then; [eapply holds_mono; [by apply (holds_run_task _ any)|done]|]. intros verified. destruct (negb _); [holds_all|].
  eapply holds_then; [apply holds_succeed|]. intros _. apply holds_store_password. by apply He.
Qed.
End handlers.
