(* ===== verification/Service.v ===== *)
(** * All requests together (crates/lodger/src/server.rs)

    The service as a transition system: any number of requests, each at some step of
    its program, over one shared state, with the daily sweep of the audit log, the
    admin commands of other processes, and requests that die when their client goes
    away.  Every regime (Regime.v) holds of all of it; the first instance is the
    database, whose invariants the service keeps. *)

From stdpp Require Import relations.
From S2P Require Import Prelude Text Net Validate Password Model Xml XmlPool XmlVolume XmlNetwork Throttle Tickets Db AuditLog Lines Http Assets Server Auth Setup Accounts Virt VirtPower VirtDelete VirtConn Inventory Supervisor Web Actions Api Pools Volumes Networks Sockets Router Regime.

(** ** The service *)

(** The state after an audit row. *)
Definition after_audit `{LogText} (entry : Entry) (e : env) (s : AppState) : AppState :=
  let '(j, t, _) := log entry (e_sql e) (app_journal s) (app_db s) O in with_journal j (with_db t s).

(** The state after a tick of the audit sweep. *)
Definition after_sweep `{LogText} (sql : nat → tick) (s : AppState) : AppState :=
  let '(j, t, _) := delete_old_rows sql (app_journal s) (app_db s) O in with_journal j (with_db t s).

(** The log line of a round of the statistics whose call fails (stats.rs, [poll]). *)
Definition stats_line `{Ipnet} `{Fmt} (e : Error) : str := lit "lodger: stats: " ++ Error_to_string e.

(** One round of an open socket's session check, among the requests. *)
Definition socket_round `{Ipnet} `{LogText} (key : list Z) : web (option Response) :=
  (λ _, None) <$> lift (session_check key).

Section steps.
Context `{Ipnet} `{LogText} `{Fmt}.

(** What comes from outside: the clock, the randomness and the faults that a step
    meets, what the supervisor keeps, the errors of libvirt's operations, and the
    operations that the admin commands run.  A theorem says which of these it
    allows; [anything] allows all. *)
Record Outside := {
  may_env : env → Prop;
  may_host : Shared → Prop;
  may_fail : Error → Prop;
  may_admin : db_op → Prop
}.

Definition anything : Outside :=
  {| may_env := λ _, True; may_host := λ _, True; may_fail := λ _, True; may_admin := λ _, True |}.

(** One step of one request. *)
Inductive web_step {A} (out : Outside) : AppState → web A → AppState → web A → Prop :=
| ws_atom (B : Type) (f : env → AppState → AppState * B) (k : B → web A) e s :
    may_env out e → web_step out s (WAtom f k) (f e s).1 (k (f e s).2)
| ws_audit entry k e s : may_env out e → web_step out s (WAudit entry k) (after_audit entry e s) k
| ws_print line k s : web_step out s (WPrint line k) (with_journal (app_journal s ++ [line]) s) k
| ws_host h k s : may_host out h → web_step out s (WHost k) s (k h)
| ws_task (B : Type) (q : virt (result Error B * list Event)) k calls res s :
    task_runs q calls res → (∀ e, res.1 = Err e → may_fail out e) → web_step out s (WTask q k) s (k res.1)
| ws_bridges l k s : web_step out s (WBridges k) s (k l).

(** The service: requests come, make steps, and go when they are answered or when
    their client goes away; open sockets ask for their session, one program for each
    round; the daily sweep and the admin commands use the same database, and the poll
    of the statistics the same log.  The first state holds the setup token of the
    start, if there is one. *)
Inductive service_step (out : Outside) (serve : HttpRequest → web (option Response)) :
    AppState * list (web (option Response)) → AppState * list (web (option Response)) → Prop :=
| ss_arrive rq s ps : service_step out serve (s, ps) (s, ps ++ [serve rq])
| ss_web i p s ps s' p' :
    ps !! i = Some p → web_step out s p s' p' → service_step out serve (s, ps) (s', <[i := p']> ps)
| ss_socket key s ps :
    service_step out serve (s, ps) (s, ps ++ [socket_round key])
| ss_gone i s ps : service_step out serve (s, ps) (s, delete i ps)
| ss_sweep e s ps :
    may_env out e → service_step out serve (s, ps) (after_sweep (e_sql e) s, ps)
| ss_stats e s ps :
    may_fail out e →
    service_step out serve (s, ps) (with_journal (app_journal s ++ [stats_line e]) s, ps)
| ss_admin o e s ps :
    may_admin out o → may_env out e →
    service_step out serve (s, ps) (with_db (run_op o (e_sql e) (app_db s) O).1.2 s, ps).
End steps.

(** ** Every regime holds of every request *)

Section regime.
Context `{Ipnet} `{LogText} `{Argon2} `{Fmt} {sha256 : str → list Z} `{!Regime sha256}.

(** What is known of the result of an operation of the adapter. *)
Definition task_said {A} (r : result Error A) : Prop := ∀ e, r = Err e → ok_error e.

(** Every step of [p] is fine, and its result satisfies [Q]. *)
Fixpoint wholds {A} (p : web A) (Q : A → Prop) : Prop :=
  match p with
  | WRet a => Q a
  | WAtom f k => ∀ e s, ok_env e → safe s → fine_step s (f e s).1 ∧ wholds (k (f e s).2) Q
  | WAudit _ k => wholds k Q
  | WPrint line k => ok_line line ∧ wholds k Q
  | WHost k => ∀ h, ok_host h → wholds (k h) Q
  | WTask q k => ∀ r, task_said r → wholds (k r) Q
  | WBridges k => ∀ l, wholds (k l) Q
  end.

Lemma wholds_bind {A B} (p : web A) (f : A → web B) P Q :
  wholds p P → (∀ a, P a → wholds (f a) Q) → wholds (p ≫= f) Q.
Proof.
  intros Hp Hf. induction p as [a|C g k IH|entry k IH|line k IH|k IH|C q k IH|k IH];
    cbn [mbind web_bind wholds] in *; [by apply Hf| |by auto|by destruct Hp; auto|by auto..].
  intros e s He Hs. destruct (Hp e s He Hs). auto.
Qed.

Lemma wholds_then {A B} (p : web A) (f : A → web B) Q :
  wholds p any → (∀ a, wholds (f a) Q) → wholds (p ≫= f) Q.
Proof. intros Hp Hf. by eapply wholds_bind. Qed.

Lemma wholds_lift {A} (p : prog A) Q : holds p Q → wholds (lift p) Q.
Proof.
  induction p as [a|B f k IH]; [done|]. cbn. intros Hk e s He Hs. destruct (Hk e s He Hs). auto.
Qed.

Lemma wholds_fmap {A B} (f : A → B) (p : web A) : wholds p any → wholds (f <$> p) any.
Proof. intros Hp. by eapply wholds_then. Qed.

Lemma wholds_task {A} (p : virt (result Error A)) : wholds (task p) task_said.
Proof. by intros r Hr. Qed.
Lemma wholds_task_ev {A} (p : virt (result Error A * list Event)) : wholds (task_ev p) task_said.
Proof. by intros r Hr. Qed.

Lemma wholds_inventory {A} (f : Inventory → web A) Q :
  (∀ inv, (∀ id vm, inv_vms inv !! id = Some vm → ok_line (vm_name vm)) → wholds (f inv) Q) →
  wholds (inventory ≫= f) Q.
Proof. intros Hf h Hh. apply Hf. intros id vm. by apply line_vm. Qed.
Lemma wholds_has_virt {A} (f : bool → web A) Q : (∀ b, wholds (f b) Q) → wholds (has_virt ≫= f) Q.
Proof. intros Hf h _. apply Hf. Qed.
Lemma wholds_conn_state {A} (f : ConnState → web A) Q : (∀ c, wholds (f c) Q) → wholds (conn_state ≫= f) Q.
Proof. intros Hf h _. apply Hf. Qed.
Lemma wholds_bridges {A} (f : list str → web A) Q : (∀ l, wholds (f l) Q) → wholds (host_bridges ≫= f) Q.
Proof. intros Hf l. apply Hf. Qed.
Lemma wholds_print {A} line (f : unit → web A) Q :
  ok_line line → wholds (f tt) Q → wholds (print line ≫= f) Q.
Proof. done. Qed.
Lemma wholds_audit {A} entry (f : unit → web A) Q : wholds (f tt) Q → wholds (audit entry ≫= f) Q.
Proof. done. Qed.

Lemma wholds_failure row action vm e :
  ok_line action → ok_line vm → ok_error e → wholds (failure row action vm e) any.
Proof.
  intros Ha Hv He. unfold failure. eapply wholds_then; [|by intros [reason code]].
  destruct (is_not_found e); [done|]. destruct (is_invalid_operation e); [done|].
  apply wholds_print; [good_line|done].
Qed.

Lemma wholds_audited nf row ev act call :
  ok_line ev → wholds call task_said → wholds (audited nf row ev act call) any.
Proof.
  intros Hev Hc. eapply wholds_bind; [exact Hc|]. intros [u|e] He; [done|].
  specialize (He e eq_refl). eapply wholds_then; [|by intros [reason code]].
  destruct (is_not_found e); [done|]. destruct (match e with EInUse _ => true | _ => false end); [done|].
  destruct (is_invalid_operation e); [done|]. apply wholds_print; [good_line|done].
Qed.

Lemma ok_line_Power_name a : ok_line (Power_name a).
Proof. by destruct a; apply ok_line_lit. Qed.

Lemma ok_line_task {A} e : task_said (A := A) (Err e) → ok_line (Error_to_string e).
Proof. intros Hr. by apply line_error, Hr. Qed.

#[local] Hint Resolve ok_line_Power_name ok_line_task : ok_line.

#[local] Ltac wholds_step :=
  lazymatch goal with
  | |- wholds (mret _) _ => exact I
  | |- wholds (inventory ≫= _) _ => apply wholds_inventory; intros ? ?
  | |- wholds (has_virt ≫= _) _ => apply wholds_has_virt; intros ?
  | |- wholds (conn_state ≫= _) _ => apply wholds_conn_state; intros ?
  | |- wholds (host_bridges ≫= _) _ => apply wholds_bridges; intros ?
  | |- wholds (print _ ≫= _) _ => apply wholds_print; [good_line|]
  | |- wholds (audit _ ≫= _) _ => apply wholds_audit
  | |- wholds (task _ ≫= _) _ => eapply wholds_bind; [apply wholds_task|intros [?|?] ?]
  | |- wholds (task_ev _ ≫= _) _ => eapply wholds_bind; [apply wholds_task_ev|intros [?|?] ?]
  | |- wholds (audited _ _ _ _ _ ≫= _) _ => eapply wholds_then; [apply wholds_audited; [good_line|]|intros ?]
  | |- wholds (failure _ _ _ _) _ => apply wholds_failure; [good_line|eauto|by eauto]
  | |- wholds (match ?x with _ => _ end) _ => destruct x eqn:?
  | |- wholds (if ?x then _ else _) _ => destruct x eqn:?
  | |- wholds (let '(_, _) := ?x in _) _ => destruct x
  | |- wholds (_ <$> _) _ => apply wholds_fmap
  | |- wholds (task _) task_said => apply wholds_task
  | |- wholds (task_ev _) task_said => apply wholds_task_ev
  | |- wholds (_ ≫= _) _ => eapply wholds_then; [|intros ?]
  end.
#[local] Ltac wholds_all := repeat (cbv zeta; wholds_step).

Context `{XmlTree} `{Lowercase}
  `{!Deserialize Confirm} `{!Deserialize DeleteRequest} `{!Deserialize Settings}
  `{!Deserialize CreatePool} `{!Deserialize Change} `{!Deserialize PoolRemoval}
  `{!Deserialize CreateVolume} `{!Deserialize CreateNetwork} `{!Deserialize NetworkRemoval}.
Variable trusted_proxies : list ipnet.

Lemma wholds_run c id action body : wholds (run trusted_proxies c id action body) any.
Proof. unfold run. wholds_all. Qed.

Lemma wholds_delete c id body : wholds (delete_vm trusted_proxies c id body) any.
Proof. unfold delete_vm. wholds_all. Qed.

Lemma wholds_update c id body : wholds (update trusted_proxies c id body) any.
Proof. unfold update. wholds_all. Qed.

Lemma ok_line_new_pool request existing pool :
  new_pool request existing = Ok pool → ok_line (as_str (new_pool_name pool)).
Proof. intros (Hn & _)%new_pool_accepts. by eapply ok_line_name. Qed.

Lemma ok_line_new_network request existing bridges network :
  new_network request existing bridges = Ok network → ok_line (as_str (new_network_name network)).
Proof.
  unfold new_network. intros (name & Hn & Hr)%bind_Ok. apply map_err_Ok in Hn.
  destruct (existsb _ existing); [done|]. apply bind_Ok in Hr as (net & Hr & (u & _ & [= <-])%bind_Ok).
  assert (new_network_name net = name) as ->; [|by eapply ok_line_name].
  unfold requested_network in Hr.
  destruct (cn_mode request); apply bind_Ok in Hr as (text & _ & (x & _ & Hr)%map_err_Ok%bind_Ok).
  1-2: by injection Hr as <-.
  case_bool_decide; [by injection Hr as <-|done].
Qed.
#[local] Hint Resolve ok_line_new_pool ok_line_new_network : ok_line.

Lemma wholds_create_pool c body : wholds (create_pool_handler trusted_proxies c body) any.
Proof. unfold create_pool_handler. wholds_all. Qed.

Lemma wholds_create_network c body : wholds (create_network_handler trusted_proxies c body) any.
Proof. unfold create_network_handler. wholds_all. Qed.

Lemma wholds_remove_pool_call id name files : wholds (remove_pool_call id name files) task_said.
Proof.
  eapply wholds_bind; [apply wholds_task|]. intros [doc|e] He; [apply wholds_task|].
  intros e' [= <-]. by apply He.
Qed.

Context `{!FromJson Login} `{!FromJson Claim} `{!FromJson NewAccount} `{!FromJson PasswordChange}.
Variables (path_uuid : str → result Response Uuid) (path_i64 : str → result Response Z)
  (time_text : Z → str) (DUMMY : str) (COMMON : list str)
  (public_origin : option str) (csp : str) (hsts : bool)
  (STUB_PAGE : list Z) (source : str → option Asset) (ready : result str unit).

#[local] Abbreviation serve := (router path_uuid path_i64 time_text sha256 DUMMY COMMON trusted_proxies
  public_origin csp hsts STUB_PAGE source ready).

Lemma wholds_health : wholds health any.
Proof.
  unfold health. apply wholds_conn_state. intros c. cbv zeta.
  eapply wholds_bind; [apply wholds_lift; by eapply (holds_unit_op _ OpPing)|].
  intros [[]|e] He; cbn in He; wholds_all.
Qed.

(** The handlers that only run a program on the service's own state. *)
Lemma wholds_lifted {A} (f : A → option Response) (p : prog A) :
  holds p any → wholds (f <$> lift p) any.
Proof. intros Hp. by apply wholds_fmap, wholds_lift. Qed.

Lemma wholds_socket_round key : wholds (socket_round key) any.
Proof. apply wholds_lifted, holds_session_check. Qed.

Lemma wholds_handler rq c h :
  wholds (run_handler path_uuid path_i64 time_text sha256 DUMMY COMMON trusted_proxies ready rq c h) any.
Proof.
  unfold run_handler, with_param. destruct h; cbv zeta.
  - apply wholds_fmap, wholds_health.
  - apply wholds_lifted, holds_status.
  - apply wholds_lifted, holds_claim.
  - apply wholds_lifted, holds_login.
  - unfold host. wholds_all.
  - unfold vms. wholds_all.
  - unfold vm. wholds_all.
  - destruct (path_uuid id); [|done]. apply wholds_fmap, wholds_delete.
  - destruct (path_uuid id); [|done]. apply wholds_fmap, wholds_update.
  - destruct (path_uuid id); [|done]. apply wholds_fmap, wholds_run.
  - unfold list_pools. wholds_all.
  - apply wholds_fmap, wholds_create_pool.
  - unfold pool_detail, pool_facts. wholds_all.
  - unfold change_pool, change_pool_autostart. wholds_all.
  - unfold remove_pool_handler. wholds_all. apply wholds_remove_pool_call.
  - unfold list_volumes. wholds_all.
  - unfold create_volume_handler. wholds_all.
  - unfold remove_volume_handler. wholds_all.
  - unfold list_networks. wholds_all.
  - apply wholds_fmap, wholds_create_network.
  - unfold network_detail, network_facts. wholds_all.
  - unfold change_network, change_network_autostart. wholds_all.
  - unfold remove_network_handler. wholds_all.
  - unfold list_host_bridges. wholds_all.
  - done.
  - apply wholds_lift, holds_logout.
  - apply wholds_lift, holds_issue_ticket.
  - eapply wholds_then; [apply wholds_lift, holds_list|done].
  - apply wholds_lifted. apply holds_create.
  - destruct (path_i64 id); [|done]. apply wholds_lifted, holds_delete.
  - apply wholds_lift, holds_change_password.
  - apply wholds_lifted, holds_open_socket.
  - destruct (path_uuid id); [|done]. apply wholds_fmap. unfold vnc.
    eapply wholds_then; [apply wholds_lift, holds_open_socket|]. intros opened. wholds_all.
Qed.

Lemma wholds_serve rq : wholds (serve rq) any.
Proof.
  unfold router. destruct (require_same_origin _ _ _); [done|]. eapply wholds_then; [|done].
  unfold dispatch. destruct (rq_route rq); try exact I.
  all: destruct (routed _ _) as [[[] h]|]; [apply wholds_handler| |apply wholds_handler|exact I].
  all: eapply wholds_then; [apply wholds_lift, holds_authenticate|]; intros [session|]; [apply wholds_handler|exact I].
Qed.

(** What a regime allows from outside. *)
Definition within (out : Outside) : Prop :=
  (∀ e, may_env out e → ok_env e) ∧ (∀ h, may_host out h → ok_host h) ∧
  (∀ e, may_fail out e → ok_error e) ∧ (∀ o, may_admin out o → ok_op o).

Lemma wholds_step {A} out s (p : web A) s' p' :
  within out → web_step out s p s' p' → safe s → wholds p any → fine_step s s' ∧ wholds p' any.
Proof.
  intros (Henv & Hhost & Hfail & _) Hs Hsafe Hp. destruct Hs as [| entry k e s He| | |B q k calls res s Hr He|]; cbn [wholds] in Hp.
  - by apply Hp; [apply Henv|].
  - split; [|done]. pose proof (fine_audit entry e s (Henv _ He) Hsafe) as Ha. unfold after_audit.
    by destruct (log _ _ _ _ _) as [[j t] n].
  - destruct Hp. split; [by apply fine_print|done].
  - split; [by split|]. by apply Hp, Hhost.
  - split; [by split|]. apply Hp. intros err Herr. by apply Hfail, He.
  - split; [by split|done].
Qed.

Lemma service_step_fine out s ps s' ps' :
  within out → service_step out serve (s, ps) (s', ps') →
  safe s → Forall (λ p, wholds p any) ps → fine_step s s' ∧ Forall (λ p, wholds p any) ps'.
Proof.
  intros Ho Hs Hsafe Hps. pose proof Ho as (Henv & _ & Hfail & Hadmin).
  inversion Hs as [rq|i p ? ? ? p' Hi Hw|key|i|e ? ? He|e ? ? He|o e ? ? Hop He]; subst.
  - split; [by split|]. apply Forall_app. split; [done|]. apply Forall_singleton, wholds_serve.
  - rewrite Forall_lookup in Hps. destruct (wholds_step _ _ _ _ _ Ho Hw Hsafe (Hps _ _ Hi)).
    split; [done|]. apply Forall_insert; [by apply Forall_lookup|done].
  - split; [by split|]. apply Forall_app. split; [done|].
    apply Forall_singleton, wholds_socket_round.
  - split; [by split|]. by apply Forall_delete.
  - split; [|done]. pose proof (fine_sweep e s (Henv _ He) Hsafe) as Hd. unfold after_sweep.
    by destruct (delete_old_rows _ _ _ _) as [[j t] n].
  - split; [|done]. apply fine_print; [|done]. unfold stats_line. pose proof (Hfail e He). good_line.
  - split; [|done]. by apply op_fine; [apply Hadmin|apply Henv|].
Qed.

(** A regime holds of every run of the service. *)
Lemma service_fine out s ps s' ps' :
  within out → rtc (service_step out serve) (s, ps) (s', ps') →
  safe s → Forall (λ p, wholds p any) ps → fine_step s s' ∧ Forall (λ p, wholds p any) ps'.
Proof.
  intros Ho Hs. remember (s, ps) as c eqn:Ec. remember (s', ps') as c' eqn:Ec'.
  revert s ps Ec. induction Hs as [c|c1 [s2 ps2] c3 H12 H23 IH]; intros s ps -> Hsafe Hps.
  - injection Ec' as -> ->. by split; [split|].
  - destruct (service_step_fine _ _ _ _ _ Ho H12 Hsafe Hps) as [[Hs2 Hset] Hps2].
    destruct (IH Ec' s2 ps2 eq_refl Hs2 Hps2) as [[Hs3 Hset3] Hps3]. split; [|done]. split; [done|]. auto.
Qed.
End regime.

(** ** The database *)

Section database.
Context `{Ipnet} `{LogText}.
Context `{Fmt} `{XmlTree} `{Lowercase} `{Argon2}
  `{!Deserialize Confirm} `{!Deserialize DeleteRequest} `{!Deserialize Settings}
  `{!Deserialize CreatePool} `{!Deserialize Change} `{!Deserialize PoolRemoval}
  `{!Deserialize CreateVolume} `{!Deserialize CreateNetwork} `{!Deserialize NetworkRemoval}
  `{!FromJson Login} `{!FromJson Claim} `{!FromJson NewAccount} `{!FromJson PasswordChange}.
Variables (path_uuid : str → result Response Uuid) (path_i64 : str → result Response Z)
  (time_text : Z → str) (sha256 : str → list Z) (DUMMY : str) (COMMON : list str)
  (trusted_proxies : list ipnet) (public_origin : option str) (csp : str) (hsts : bool)
  (STUB_PAGE : list Z) (source : str → option Asset) (ready : result str unit).

#[local] Abbreviation serve := (router path_uuid path_i64 time_text sha256 DUMMY COMMON trusted_proxies
  public_origin csp hsts STUB_PAGE source ready).

(** The invariant is that of the database; what stays true is that it holds an account.
    Nothing is assumed of the outside, and nothing said of lines and tokens. *)
#[local] Instance database_regime : Regime sha256.
Proof.
  refine {| ok_env := any; ok_host := any; ok_error := any; ok_tables := wf; ok_line := any;
            ok_token := any; settled := populated |}; try done.
  - intros o e t _ _. apply run_op_wf.
  - intros o e t _ _. apply run_op_populated.
Defined.

(** C3: no traffic breaks the database.  From a well-formed database, whatever
    requests come and however their steps interleave, with the audit sweep, with
    admin commands of other processes on the same database, with any failure of any
    statement and with clients that go away in the middle: usernames, ids and tokens
    stay unique, every session belongs to an account and has its 24 hours, and once
    an account exists there always is one, so the service never opens for a new
    owner. *)
Theorem service_keeps_database out s s' ps' :
  rtc (service_step out serve) (s, []) (s', ps') → wf (app_db s) →
  wf (app_db s') ∧ (tab_accounts (app_db s) ≠ [] → tab_accounts (app_db s') ≠ []).
Proof.
  intros Hs Hwf.
  eapply (service_fine (Regime0 := database_regime)) in Hs as [[[Hw _] Hp] _].
  4: by apply Forall_nil.
  2: split_and!; [done..|by intros []].
  - split; [done|]. intros Hne. by destruct (Hp (conj Hwf Hne)).
  - split; [done|]. by apply Forall_true.
Qed.
End database.

(** ** Witness: a request comes, and an admin command resets a password *)

#[local] Existing Instances log_text_plain fmt_plain.

Definition after_reset : AppState :=
  with_db (run_op (OpReset (lit "admin") (lit "h9")) Db.calm (app_db Auth.small_app) O).1.2 Auth.small_app.

Lemma service_keeps_database_witness :
  wf (app_db Auth.small_app) ∧ wf (app_db after_reset) ∧ tab_accounts (app_db after_reset) ≠ [].
Proof.
  split; [apply small_wf|].
  assert (Hs : rtc (service_step anything small_service) (Auth.small_app, []) (after_reset, [small_service page_request])).
  { eapply rtc_l; [apply (ss_arrive _ _ page_request)|]. apply rtc_once. by apply (ss_admin _ _ (OpReset _ _) (Auth.calm_env 0)). }
  destruct (service_keeps_database _ _ _ _ _ _ _ _ _ _ _ _ _ _ _ _ _ Hs small_wf) as [Hw Hne].
  split; [exact Hw|]. apply Hne. by vm_compute.
Defined.
