(* ===== verification/LogLines.v ===== *)
(** * The log cannot be forged (every [eprintln!] of the server, audit.rs)

    Every line that the service writes, for whatever requests, is one line: a request
    cannot put a line break into the log.  The names in lines are checked names or
    escaped; the rest is fixed text, numbers, addresses, and the texts of errors of
    other libraries, which the theorem assumes to be one line each. *)

From stdpp Require Import relations.
From S2P Require Import Prelude Text Net Validate Password Model Xml Throttle Tickets Db AuditLog Lines Http Assets Server Auth Setup Accounts Virt VirtConn Inventory Supervisor Web Actions Api Pools Volumes Networks Sockets Router Regime Service.

(** What the error texts of the libraries promise. *)
Class OneLineTexts `{LogText} `{Argon2} := {
  debug_one_line t : one_line (debug_text t);
  sql_one_line e : (∀ m, e ≠ Failure m) → one_line (sql_text e);
  hash_one_line salt p t : argon2_hash salt p = Err t → one_line t
}.

Create HintDb tells discriminated.

Section log_lines.
Context `{Ipnet} `{OneLineTexts} `{Fmt}.

(** ** The database: the names it holds, and the errors it gives *)

Definition sql_env (env : nat → tick) : Prop :=
  ∀ n m, tick_fault (env n) = Some m → one_line (sql_text (Failure m)).

Definition named (t : Tables) : Prop := Forall (λ a, one_line (acc_username a)) (tab_accounts t).

(** [m] keeps the names, its result satisfies [Q], and its error is one line. *)
Definition tells {A} (m : sql A) (Q : A → Prop) : Prop := ∀ env t n, sql_env env → named t →
  named (m env t n).1.2 ∧ match (m env t n).1.1 with Ok a => Q a | Err e => one_line (sql_text e) end.

Lemma tells_ret {A} (a : A) (Q : A → Prop) : Q a → tells (mret a) Q.
Proof. by intros HQ env t n. Qed.

Lemma tells_raise {A} e (Q : A → Prop) : one_line (sql_text e) → tells (raise e) Q.
Proof. by intros He env t n. Qed.

Lemma tells_bind {A B} (m : sql A) (f : A → sql B) P Q :
  tells m P → (∀ a, P a → tells (f a) Q) → tells (m ≫= f) Q.
Proof.
  intros Hm Hf env t n He Ht. specialize (Hm env t n He Ht). unfold mbind, sql_bind.
  destruct (m env t n) as [[[a|e] t1] n1]; destruct Hm as [Ht1 Hr]; [by apply Hf|done].
Qed.

Lemma tells_statement {A} (f : tick → Tables → result SqlError (A * Tables)) (Q : A → Prop) :
  (∀ k t, named t → match f k t with
                    | Ok (a, t') => named t' ∧ Q a
                    | Err e => ∀ m, e ≠ Failure m
                    end) → tells (statement f) Q.
Proof.
  intros Hf env t n He Ht. specialize (Hf (env n) t Ht). unfold statement.
  destruct (tick_fault (env n)) as [m|] eqn:Em; [by split; [|eapply He]|].
  destruct (f (env n) t) as [[a t']|e]; [done|]. split; [done|]. by apply sql_one_line.
Qed.

(** A statement that reads, or that changes no account. *)
Lemma tells_same {A} (f : tick → Tables → A * Tables) (Q : A → Prop) :
  (∀ k t, tab_accounts (f k t).2 = tab_accounts t) → (∀ k t, named t → Q (f k t).1) →
  tells (statement (λ k t, Ok (f k t))) Q.
Proof.
  intros Hf HQ. apply tells_statement. intros k t Ht. specialize (Hf k t). specialize (HQ k t Ht).
  destruct (f k t) as [a t']. unfold named. cbn in Hf. by rewrite Hf.
Qed.

Lemma tells_transaction {A} (body : sql (ending A)) Q :
  tells body (λ b, match b with Drop_ a | Commit a => Q a end) → tells (transaction body) Q.
Proof.
  assert (Hnop : tells (statement (λ _ t, Ok (tt, t))) (λ _, True)) by by apply tells_same.
  intros Hb env t n He Ht. unfold transaction. pose proof (Hnop env t n He Ht) as [_ Hb0].
  destruct (statement _ env t n) as [[[[]|e] t0] n0]; [|done].
  pose proof (Hb env t n0 He Ht) as [Hb1 Hb2]. destruct (body env t n0) as [[[b|e] t1] n1]; [|done].
  destruct b as [a|a]; [done|]. pose proof (Hnop env t1 n1 He Hb1) as [Hb3 Hb4].
  by destruct (statement _ env t1 n1) as [[[[]|e] t2] n2].
Qed.

Lemma tells_attempt {A} (m : sql A) Q :
  tells m Q → tells (attempt m) (λ r, match r with Ok a => Q a | Err e => one_line (sql_text e) end).
Proof.
  intros Hm env t n He Ht. specialize (Hm env t n He Ht). unfold attempt.
  by destruct (m env t n) as [[r t'] n'].
Qed.

Lemma tells_mono {A} (m : sql A) (P Q : A → Prop) : tells m P → (∀ a, P a → Q a) → tells m Q.
Proof.
  intros Hm HPQ env t n He Ht. specialize (Hm env t n He Ht).
  destruct (m env t n) as [[[a|e] t'] n']; naive_solver.
Qed.

Lemma tells_then {A B} (m : sql A) (f : A → sql B) Q :
  tells m any → (∀ a, tells (f a) Q) → tells (m ≫= f) Q.
Proof. intros Hm Hf. by eapply tells_bind. Qed.

Lemma tells_insert_account u h : one_line u → tells (insert_account u h) any.
Proof.
  intros Hu. apply tells_statement. intros k t Ht. destruct (existsb _ _); [done|].
  destruct (new_rowid k (tab_accounts t)) as [id|e] eqn:En; cbn.
  - split; [|done]. apply Forall_app. split; [done|]. by apply Forall_singleton.
  - intros m ->. unfold new_rowid in En. by repeat case_match.
Qed.

Lemma tells_account_where p :
  tells (account_where p) (λ o, ∀ r, o = Some r → one_line (acc_username r)).
Proof.
  apply tells_same; [done|]. intros k t Ht r Hr. cbn in Hr.
  apply find_Some_split in Hr as (l1 & l2 & Hl & _). unfold named in Ht. rewrite Forall_forall in Ht.
  apply Ht. rewrite Hl. set_solver.
Qed.

Lemma tells_update_hash id h : tells (update_hash id h) any.
Proof.
  apply tells_statement. intros k t Ht. split; [|done]. apply Forall_fmap.
  eapply Forall_impl; [exact Ht|]. intros r Hr. cbn. by destruct (has_id id r).
Qed.

Lemma tells_insert_session new : tells (insert_session new) any.
Proof. apply tells_statement. intros k t Ht. destruct (existsb _ _); [done|]. by destruct (negb _). Qed.

Lemma tells_delete_account_row id : tells (delete_account_row id) any.
Proof. apply tells_statement. intros k t Ht. split; [|done]. by apply Forall_filter_sub. Qed.

Lemma tells_delete_sessions p : tells (delete_sessions p) any.
Proof. by apply tells_same. Qed.

#[local] Hint Resolve tells_insert_account tells_update_hash tells_insert_session tells_delete_account_row
  tells_delete_sessions : tells.

#[local] Ltac tells_step :=
  first
    [ apply tells_ret; exact I
    | apply tells_transaction
    | solve [eauto with tells]
    | apply tells_same; by intros
    | apply tells_then; [|intros ?]
    | match goal with
      | |- tells (match ?x with _ => _ end) _ => destruct x
      | |- tells (if ?x then _ else _) _ => destruct x
      end ].
#[local] Ltac tells_all := repeat tells_step.

Lemma tells_create_account u h : one_line u → tells (create_account u h) any.
Proof.
  intros Hu. eapply tells_bind; [apply tells_attempt; by apply (tells_insert_account u h)|].
  intros [id|[]] He; try (by apply tells_ret); by apply tells_raise.
Qed.

Lemma tells_any_account p : tells (account_where p) any.
Proof. by eapply tells_mono; [apply tells_account_where|]. Qed.
#[local] Hint Resolve tells_create_account tells_any_account : tells.

Lemma tells_op token o : op_within one_line token o → tells (run_op o) any.
Proof.
  intros Ho. destruct o; cbn [op_within] in Ho; unfold run_op, void, account_count, create_first_account,
    list_accounts, delete_account, account_by_id, Db.change_password, reset_password, find_account,
    create_session, session, session_alive, delete_session, ping, select_count, select_session, Db.audit,
    delete_old_audit_rows; tells_all.
Qed.

(** The texts that may come from outside. *)
Definition plain_env (e : env) : Prop := sql_env (e_sql e) ∧ ∀ t, e_random e = Err t → one_line t.
Definition plain_host (h : Shared) : Prop :=
  ∀ id vm, inv_vms (sh_inventory h) !! id = Some vm → one_line (vm_name vm).
Definition plain_error (e : Error) : Prop := one_line (Error_to_string e).

(** Checked names in the admin commands. *)
Definition plain_outside : Outside :=
  {| may_env := plain_env; may_host := plain_host; may_fail := plain_error;
     may_admin := op_within one_line any |}.

Context `{XmlTree} `{Lowercase}
  `{!Deserialize Confirm} `{!Deserialize DeleteRequest} `{!Deserialize Settings}
  `{!Deserialize CreatePool} `{!Deserialize Change} `{!Deserialize PoolRemoval}
  `{!Deserialize CreateVolume} `{!Deserialize CreateNetwork} `{!Deserialize NetworkRemoval}
  `{!FromJson Login} `{!FromJson Claim} `{!FromJson NewAccount} `{!FromJson PasswordChange}.
Variables (path_uuid : str → result Response Uuid) (path_i64 : str → result Response Z)
  (time_text : Z → str) (sha256 : str → list Z) (DUMMY : str) (COMMON : list str)
  (trusted_proxies : list ipnet) (public_origin : option str) (csp : str) (hsts : bool)
  (STUB_PAGE : list Z) (source : str → option Asset) (ready : result str unit).

#[local] Abbreviation serve := (router path_uuid path_i64 time_text sha256 DUMMY COMMON trusted_proxies
  public_origin csp hsts STUB_PAGE source ready).

(** The invariant is that of the names and the lines. *)
#[local] Instance line_regime : Regime sha256.
Proof.
  refine {| ok_env := plain_env; ok_host := plain_host; ok_error := plain_error; ok_tables := named;
            ok_line := one_line; ok_token := any; settled := any |}; try done.
  - intros a b Ha Hb. by apply one_line_app.
  - apply debug_one_line.
  - intros e t [_ Hr]. apply Hr.
  - apply hash_one_line.
  - intros h id vm Hh. apply Hh.
  - intros t a Ht Ha. unfold named in Ht. rewrite Forall_forall in Ht. by apply Ht.
  - intros o e t Ho [He _] Ht. by apply (tells_op _ o Ho).
  - intros o e t err Ho [He _] Ht Er. destruct (tells_op _ o Ho (e_sql e) t 0%nat He Ht) as [_ Hr].
    by rewrite Er in Hr.
Defined.

(** C12: no request can forge a line of the log.  Whatever requests come, with whatever
    names, passwords, headers, paths and bodies, however their steps interleave with
    each other, the audit sweep and the admin commands, and whatever fails: every line
    that the service writes is one line, as long as the names of the VMs and the texts
    of other libraries' errors are.  The names of the accounts, which lines repeat,
    stay of one line too. *)
Theorem log_lines_unforgeable s s' ps' :
  rtc (service_step plain_outside serve) (s, []) (s', ps') →
  named (app_db s) → Forall one_line (app_journal s) →
  Forall one_line (app_journal s') ∧ named (app_db s').
Proof.
  intros Hs Hn Hj. eapply (service_fine (Regime0 := line_regime)) in Hs as [[[Ht Hl] _] _]; [done|done..|].
  by apply Forall_nil.
Qed.
End log_lines.

(** ** Witness: a request comes, and the sweep of the audit log fails *)

(** Escapes of a line break as in [{:?}]. *)
Definition log_text_escaped : LogText :=
  {| sql_text := λ e, match e with Failure m => m | _ => lit "constraint failed" end;
     debug_text := λ t, t ≫= λ c, if c =? 10 then lit "\n" else [c] |}.

Lemma one_line_texts_escaped : @OneLineTexts log_text_escaped argon2_plain.
Proof.
  split.
  - intros t. apply Forall_forall. intros c (x & Hc & _)%list_elem_of_bind ->.
    destruct (Z.eqb_spec x 10) as [E|Hx]; [|by apply list_elem_of_singleton in Hc].
    apply (bool_decide_pack _) in Hc. by vm_compute in Hc.
  - intros [| | | |m] He; [by apply one_line_lit..|]. by destruct (He m).
  - done.
Qed.

Definition escaped_service : HttpRequest → web (option Response) :=
  @router ipnet_ref log_text_escaped fmt_plain (xml_ref []) ascii_lowercase argon2_plain
    names_web (takes_any {| dr_confirm := None; remove_volumes := false |})
    (takes_any {| set_autostart_to := true |}) wants_vms
    (takes_any {| ch_active := Some true; ch_autostart := None |})
    (takes_any {| pr_confirm := None; delete_files := false |})
    (takes_any {| cv_name := lit "disk"; cv_format := FormatRaw; cv_capacity_bytes := 1048576 |})
    wants_lan (takes_any {| nr_confirm := None |})
    (json_any {| login_username := [97; 10; 98]; login_password := [] |})
    (json_any {| claim_token := []; claim_username := []; claim_password := [] |})
    (json_any {| na_username := []; na_password := [] |})
    (json_any {| current_password := []; new_password := [] |})
    (λ _, Ok 7) (λ _, Ok 1) (λ _, []) (λ _, [7]) [] [] [] None (lit "default-src 'self'") true
    [] (λ _, None) (Ok tt).

Definition disk_fails : env :=
  {| e_instant := 0; e_sql := λ _, {| tick_now := 0; tick_fault := Some (lit "disk I/O error"); tick_spare_rowid := 1 |};
     e_random := Ok [1; 2]; e_task := true; e_salt := [] |}.

Definition after_failed_sweep : AppState := @after_sweep log_text_escaped (e_sql disk_fails) Auth.small_app.

#[local] Existing Instances log_text_escaped argon2_plain one_line_texts_escaped fmt_plain.

Lemma log_lines_unforgeable_witness :
  app_journal after_failed_sweep = [lit "lodger: audit log: cannot delete old rows: disk I/O error"] ∧
  Forall one_line (app_journal after_failed_sweep) ∧ named (app_db after_failed_sweep).
Proof.
  split; [reflexivity|].
  assert (Hs : rtc (service_step plain_outside escaped_service) (Auth.small_app, [])
    (after_failed_sweep, [escaped_service page_request])).
  { eapply rtc_l; [apply (ss_arrive _ _ page_request)|]. apply rtc_once, (ss_sweep _ _ disk_fails).
    split; [|done]. intros n m [= <-]. by apply one_line_lit. }
  eapply log_lines_unforgeable; [exact Hs| |by apply Forall_nil].
  repeat (apply Forall_cons; split; [by apply one_line_lit|]). by apply Forall_nil.
Defined.
