(* ===== verification/Revoked.v ===== *)
(** * A session that has ended stays ended (crates/lodger/src/db.rs, auth.rs)

    Once no row holds a token, no request of anybody brings the row back: only new
    sessions insert rows, and their tokens are fresh random ones.  So the cookie of a
    session that a logout, a new password or the deletion of its account has ended
    opens nothing any more, and the sockets that the session opened stop at their next
    check. *)

From stdpp Require Import relations.
From S2P Require Import Prelude Text Net Validate Password Model Xml Throttle Tickets Db AuditLog Lines Http Assets Server Auth Setup Accounts Virt VirtConn Inventory Supervisor Web Actions Api Pools Volumes Networks Sockets Router Regime Service.

(** ** The rows of the sessions *)

Definition ended (key : list Z) (t : Tables) : Prop := key ∉ ses_token <$> tab_sessions t.

Lemma ended_sub key t t' :
  (∀ x, x ∈ tab_sessions t' → ∃ y, y ∈ tab_sessions t ∧ ses_token y = ses_token x) → ended key t → ended key t'.
Proof.
  intros Hsub Ht (x & -> & Hx)%list_elem_of_fmap. destruct (Hsub x Hx) as (y & Hy & E).
  apply Ht, list_elem_of_fmap. by exists y.
Qed.

(** A statement that inserts no session. *)
Lemma ended_statement {A} key (f : tick → Tables → result SqlError (A * Tables)) :
  (∀ k t a t', f k t = Ok (a, t') →
    ∀ x, x ∈ tab_sessions t' → ∃ y, y ∈ tab_sessions t ∧ ses_token y = ses_token x) →
  preserves (ended key) (statement f).
Proof. intros Hf. apply preserves_statement. intros k t a t' Ht E. eapply ended_sub; [by eapply Hf|done]. Qed.

Lemma ended_insert key new : new_token_sha256 new ≠ key → preserves (ended key) (insert_session new).
Proof.
  intros Hk. apply preserves_statement. intros k t [] t' Ht E.
  destruct (existsb _ _); [done|]. destruct (negb _); [done|]. injection E as <-.
  unfold ended in *. cbn. rewrite fmap_app. set_solver.
Qed.

Lemma ended_insert_account key u h : preserves (ended key) (insert_account u h).
Proof.
  apply ended_statement. intros k t a t' E x Hx. destruct (existsb _ _); [done|].
  apply bind_Ok in E as (id & _ & [= _ <-]). by exists x.
Qed.

Lemma ended_update_hash key id h : preserves (ended key) (update_hash id h).
Proof. apply ended_statement. intros k t a t' [= _ <-] x Hx. by exists x. Qed.

Lemma ended_delete_account_row key id : preserves (ended key) (delete_account_row id).
Proof. apply ended_statement. intros k t a t' [= _ <-] x [_ Hx]%list_elem_of_filter. by exists x. Qed.

Lemma ended_delete_sessions key p : preserves (ended key) (delete_sessions p).
Proof. apply ended_statement. intros k t a t' [= _ <-] x [_ Hx]%list_elem_of_filter. by exists x. Qed.

Lemma ended_touch key token : preserves (ended key) (touch_session token).
Proof.
  apply ended_statement. intros k t a t' [= _ <-] x (y & -> & Hy)%list_elem_of_fmap.
  exists y. split; [done|]. by destruct (_ && _).
Qed.

Lemma ended_audit key row : preserves (ended key) (Db.audit row).
Proof. apply ended_statement. intros k t a t' [= _ <-] x Hx. by exists x. Qed.

Lemma ended_delete_old key days : preserves (ended key) (delete_old_audit_rows days).
Proof. apply ended_statement. intros k t a t' [= _ <-] x Hx. by exists x. Qed.

#[local] Hint Resolve ended_insert ended_insert_account ended_update_hash ended_delete_account_row
  ended_delete_sessions ended_touch ended_audit ended_delete_old : lodger.

Lemma ended_op key line o : op_within line (λ token, token ≠ key) o → preserves (ended key) (run_op o).
Proof.
  intros Ho. destruct o; cbn [op_within] in Ho; unfold run_op, void, account_count, create_first_account,
    list_accounts, create_account, delete_account, account_by_id, Db.change_password, reset_password,
    find_account, create_session, session, session_alive, delete_session, ping, account_where, select_count,
    select_session; keep; eauto with lodger.
Qed.

(** ** What its cookie opens *)

Section refused.
Context `{Ipnet} `{LogText} (sha256 : str → list Z) (key : list Z) (s : AppState) (headers : HeaderMap).
Context (Hended : ended key (app_db s)) (Hcookie : session_key sha256 headers = Some key).

Lemma lookup_refused : wp (lookup sha256 headers) (λ r _, r = Ok None ∨ r = Err tt) s.
Proof.
  apply wp_lookup. intros [[sess|]|[]] t j Hr _; [|by left|by right]. destruct Hended.
  destruct (Hr sess eq_refl) as (token & now & row & a & Hc & Hrow & Htoken & _).
  unfold session_key in Hcookie. rewrite Hc in Hcookie. injection Hcookie as <-.
  rewrite <- Htoken. by apply list_elem_of_fmap_2.
Qed.

Lemma authenticate_refused method :
  wp (authenticate sha256 method headers) (λ r _, r = Err unauthorized ∨ r = Err lookup_failed) s.
Proof.
  apply wp_bind. eapply wp_mono; [apply lookup_refused|]. intros r s' [->| ->]; apply wp_ret; auto.
Qed.

Lemma open_socket_refused ticket :
  wp (open_socket sha256 headers ticket)
    (λ r _, r = Some (Err unauthorized) ∨ r = Some (Err lookup_failed)) s.
Proof.
  apply wp_bind. eapply wp_mono; [apply lookup_refused|]. intros r s' [->| ->]; apply wp_ret; auto.
Qed.
End refused.

Lemma session_check_stops `{LogText} key s :
  ended key (app_db s) → wp (session_check key) (λ stops _, stops = true) s.
Proof.
  intros Hended. apply wp_bind, wp_db. intros env r t n E. destruct r as [alive|e].
  - apply wp_ret. destruct alive; [|done]. destruct Hended.
    apply statement_Ok in E as (_ & _ & [= E _]).
    apply existsb_exists in E as (row & Hrow%list_elem_of_In & [Hk _]%andb_true_iff).
    unfold has_token in Hk. bool_hyps. subst. by apply list_elem_of_fmap_2.
  - apply wp_bind, wp_eprintln. intros j. by apply wp_ret.
Qed.

(** ** The service *)

Section revoked.
Context `{Ipnet} `{LogText}.
Context `{Fmt} `{XmlTree} `{Lowercase} `{Argon2}
  `{!Deserialize Confirm} `{!Deserialize DeleteRequest} `{!Deserialize Settings}
  `{!Deserialize CreatePool} `{!Deserialize Change} `{!Deserialize PoolRemoval}
  `{!Deserialize CreateVolume} `{!Deserialize CreateNetwork} `{!Deserialize NetworkRemoval}
  `{!FromJson Login} `{!FromJson Claim} `{!FromJson NewAccount} `{!FromJson PasswordChange}.
Variables (path_uuid : str → result Response Uuid) (path_i64 : str → result Response Z)
  (time_text : Z → str) (sha256 : str → list Z) (DUMMY : str) (COMMON : list str)
  (trusted_proxies : list ipnet) (public_origin : option str) (csp : str) (hsts : bool)
  (STUB_PAGE : list Z) (source : str → option Asset) (ready : result str unit).

Variable key : list Z.

#[local] Abbreviation serve := (router path_uuid path_i64 time_text sha256 DUMMY COMMON trusted_proxies
  public_origin csp hsts STUB_PAGE source ready).

(** Fresh randomness never makes the token again, in a request or in another process. *)
Definition fresh_env (e : env) : Prop := ∀ bytes, e_random e = Ok bytes → sha256 (hex_encode bytes) ≠ key.
Definition fresh_outside : Outside :=
  {| may_env := fresh_env; may_host := any; may_fail := any; may_admin := op_within any (λ token, token ≠ key) |}.

#[local] Instance session_regime : Regime sha256.
Proof.
  refine {| ok_env := fresh_env; ok_host := any; ok_error := any; ok_tables := any; ok_line := any;
            ok_token := λ token, token ≠ key; settled := ended key |}; try done.
  - intros e bytes He. apply He.
  - intros o e t Ho _. by apply (ended_op _ _ o Ho).
Defined.

(** C10: a session that has ended stays ended.  When, at some moment of a run, no row
    of the database holds the token of a cookie (its session was logged out, or ended by
    a new password, a reset, or the deletion of its account), then at every later
    moment, whatever requests come and however their steps interleave with each other,
    with the requests already under way, the sweep and the admin commands, and whatever
    fails: the guard of the protected routes answers 401 or 500 to the cookie, so does
    the opening of a socket, and every socket that the session has open stops at its
    next check.  New tokens are random, and assumed not to repeat that one. *)
Theorem ended_session_stays_ended s s1 ps1 s2 ps2 method headers ticket :
  rtc (service_step fresh_outside serve) (s, []) (s1, ps1) →
  rtc (service_step fresh_outside serve) (s1, ps1) (s2, ps2) →
  ended key (app_db s1) → session_key sha256 headers = Some key →
  wp (authenticate sha256 method headers) (λ r _, r = Err unauthorized ∨ r = Err lookup_failed) s2 ∧
  wp (open_socket sha256 headers ticket)
    (λ r _, r = Some (Err unauthorized) ∨ r = Some (Err lookup_failed)) s2 ∧
  wp (session_check key) (λ stops _, stops = true) s2.
Proof.
  intros Hrun1 Hrun2 Hended Hcookie.
  assert (Hw : within fresh_outside) by by split_and!.
  assert (Hsafe : ∀ x, safe x) by (intros x; split; [done|by apply Forall_true]).
  eapply (service_fine (Regime0 := session_regime)) in Hrun1 as [_ Hps]; [|done..|by apply Forall_nil].
  eapply (service_fine (Regime0 := session_regime)) in Hrun2 as [[_ Hset] _]; [|done..].
  specialize (Hset Hended : ended key (app_db s2)).
  split_and!; [by eapply authenticate_refused|by eapply open_socket_refused|by apply session_check_stops].
Qed.
End revoked.

(** ** Witness: a reset of the password of the only session's account, then a request *)

#[local] Existing Instances log_text_plain fmt_plain.

(** The hash of the small database's one cookie, and that of every other text. *)
Definition hash_x (t : str) : list Z := if bool_decide (t = lit "x") then [7] else [8].

Definition hashed_service : HttpRequest → web (option Response) :=
  @router ipnet_ref log_text_plain fmt_plain (xml_ref []) ascii_lowercase argon2_plain
    names_web (takes_any {| dr_confirm := None; remove_volumes := false |})
    (takes_any {| set_autostart_to := true |}) wants_vms
    (takes_any {| ch_active := Some true; ch_autostart := None |})
    (takes_any {| pr_confirm := None; delete_files := false |})
    (takes_any {| cv_name := lit "disk"; cv_format := FormatRaw; cv_capacity_bytes := 1048576 |})
    wants_lan (takes_any {| nr_confirm := None |})
    (json_any {| login_username := []; login_password := [] |})
    (json_any {| claim_token := []; claim_username := []; claim_password := [] |})
    (json_any {| na_username := []; na_password := [] |})
    (json_any {| current_password := []; new_password := [] |})
    (λ _, Ok 7) (λ _, Ok 1) (λ _, []) hash_x [] [] [] None (lit "default-src 'self'") true
    [] (λ _, None) (Ok tt).

Lemma ended_session_stays_ended_witness :
  ses_token <$> tab_sessions (app_db Auth.small_app) = [[7]] ∧
  tab_sessions (app_db after_reset) = [] ∧
  wp (authenticate hash_x GET sid_headers) (λ r _, r = Err unauthorized ∨ r = Err lookup_failed) after_reset.
Proof.
  split; [by vm_compute|]. split; [by vm_compute|].
  assert (Hreset : rtc (service_step (fresh_outside hash_x [7]) hashed_service) (Auth.small_app, []) (after_reset, [])).
  { apply rtc_once. by apply (ss_admin _ _ (OpReset _ _) (Auth.calm_env 0)); [|intros bytes [= <-]]. }
  assert (Hpage : rtc (service_step (fresh_outside hash_x [7]) hashed_service) (after_reset, [])
    (after_reset, [hashed_service page_request])) by apply rtc_once, (ss_arrive _ _ page_request after_reset []).
  eapply proj1, ended_session_stays_ended; [exact Hreset|exact Hpage|apply not_elem_of_nil|by vm_compute].
  Unshelve. exact None.
Defined.
